(* ===== verification/_CoqProject ===== *)
-Q . S2P
Prelude.v
GoStrings.v
GoTime.v
GoTimeFmt.v
GoRegexp.v
GoRegexpThms.v
GoRegexpSpec.v
GoUrl.v
Encoding.v
Infohash.v
Store.v
GoJson.v
GoJsonThms.v
GoJsonText.v
GoJsonFields.v
GoFloatText.v
GoFloat.v
GoHtml.v
Cursor.v
CursorCodec.v
Db.v
Postgres.v
StoreSpec.v
StoreInv.v
Queue.v
QueueThms.v
Listing.v
ListingThms.v
DetailThms.v
Rawpost.v
Crawl.v
CrawlThms.v
Duration.v
DurationThms.v
Metrics.v
MetricsThms.v
GoHttp.v
Dispatch.v
Rest.v
RestThms.v
CrawlServer.v
CrawlServerThms.v
CrawlRun.v
Dmhy.v
DmhyThms.v
DmhyCache.v
Nyaa.v
NyaaThms.v
NyaaUrl.v
Interleave.v
StoreText.v
RequestText.v
ResponseText.v
ResponseTextThms.v
Mcp.v
McpThms.v
GoServeMux.v
Service.v
ServiceThms.v
ResponseThms.v
Pipeline.v
GoFlag.v
Migrate.v
Cmd.v
CmdDmhy.v
CmdNyaa.v
CmdThms.v
Backfill.v
Serve.v
Crawlers.v
CrawlersThms.v
Logs.v
LogsThms.v
Wire.v
Worker.v
