(* ===== verification/Prelude.v ===== *)
(** * takuhai: a verification development

    takuhai (src/README.md, src/docs/design.md) is a durable index of anime
    releases.  Two stateless crawlers turn listing pages into raw posts; a
    workflow engine pushes the posts into the service, which folds them into
    one release per infohash and queues the releases for matching; a worker
    claims releases under a lease and submits verdicts; consumer agents list
    matched releases and resolve magnets through the MCP tools.  This library
    models the Go programs of the repository from their source, executably,
    and proves what makes them correct.

    ** The parts and the files that model them

    Shared ground: this file (machine integers, results, option and list
    lemmas, tactics), GoStrings, GoTime, GoTimeFmt, GoRegexp, GoUrl, Encoding,
    GoJson, GoJsonFields, GoFloat, GoFloatText (the text of a float), GoHtml,
    GoFlag, GoHttp and GoServeMux: the parts of Go's standard library the
    source uses, as definitions that compute, with their theorems beside them
    or in GoRegexpThms, GoRegexpSpec (the matcher against the language of an
    expression), GoJsonThms (what is encoded parses back, with what is no
    UTF-8 repaired) and GoJsonText (what is decoded is UTF-8).

    - Infohash: src/internal/infohash/infohash.go.
    - Store: the vocabulary of src/internal/store/store.go; the [Store]
      interface is the record of operations [store.Store], over which the
      dispatcher, the REST handlers, the tools and the service are defined.
    - Db, Postgres, Listing: src/internal/store/postgres/store.go over the
      tables of src/db/migrations/00001_init.sql.  A method is a computation
      of the monad [M] of Db, one statement after the other: the driver may
      fail at any statement, the commit included; a failed transaction leaves
      the tables of its start and the sequences where they had got.  The
      clock, the driver's errors and the rows other transactions hold are
      oracles, and [listing.pg_store] is the instance of the interface.
      Postgres has the writes (ingest, claim, submit) and the statistics,
      Listing the reads.
    - StoreSpec, StoreInv, Queue, QueueThms: the specification of the writes
      as functions of the database ([ingest_spec], [claim_spec],
      [submit_spec]), the refinement of it by the methods, the invariant
      [db_ok], and the theorems over histories ([step], [reachable]).
      ListingThms and DetailThms do the same for the reads.
    - Cursor, CursorCodec: src/internal/cursor/cursor.go; the codec is a
      class, so the listing is proved against its laws.
    - Rawpost, Crawl, Duration, CrawlServer: src/pkg/rawpost and
      src/pkg/crawl (the page walk, the lookback parser, the endpoint, the
      page fetcher), with CrawlThms, DurationThms and CrawlServerThms.
    - Dmhy, DmhyCache, Nyaa, NyaaUrl: src/sources/dmhy and src/sources/nyaa,
      with DmhyThms and NyaaThms.
    - CrawlRun, Crawlers, CrawlersThms: the same walk and endpoint over a
      fetcher with a state of its own, and the two crawler processes built
      from fetcher, cache, walk, endpoint and mux on one process state that
      overlapping requests share.
    - Metrics, MetricsThms: src/internal/metrics/metrics.go; a surface is the
      log of the calls made on Prometheus.
    - Dispatch, Rest, RestThms: src/internal/dispatch and src/internal/rest.
    - ResponseText, ResponseTextThms: the JSON text of every result of the
      dispatcher and every answer of the REST surface, and the dispatcher's
      operations on bytes; StoreText: which strings the tables can hold;
      RequestText: what a decoded request carries is text.
    - Mcp, McpThms: the server of src/internal/mcp with its tools.
    - Interleave: a store between whose calls others make theirs, and the
      interface [MovingStore] the service's theorems are proved against.
    - Service, ServiceThms: src/internal/health, the muxes, and the handler
      of src/cmd/takuhai/main.go, request by request; ResponseThms: what the
      texts of its answers say.
    - Migrate, Cmd, CmdDmhy, CmdNyaa, CmdThms, Backfill: the commands (flags,
      environment, migrations, order of the start) and the backfill; Serve: the life of a
      started process, from the signal or the listener's failure through the
      drain and the close of the pool to its exit.
    - Logs, LogsThms: the log lines of the handlers, the tools and the crawl
      endpoint, and [logHTTP] around the three muxes; a handler's lines are a
      function of what the handler is given.
    - Pipeline, Wire, Worker: theorems across components - what was posted is
      served, what a crawler answers is what the ingest reads, and what a
      worker reads of a claim is what its submission needs.

    ** What the theorems show

    - Histories of the store (QueueThms): every reachable database satisfies
      the invariant; leases exclude each other; a token fences off what was
      claimed before; the holder of a live lease settles its release; a claim
      takes the head of the queue; submit and ingest are atomic whatever the
      driver does; a verdict is final, the logs only grow, the attempts stay
      in their budget, the statistics add up, ingesting is idempotent.
    - The service (ServiceThms, RestThms, McpThms): any sequence of requests
      keeps all of this, is answered and counted once each, and only the
      three writing endpoints write; what each endpoint answers, with its
      effect and its errors.  ResponseThms: tables that hold
      UTF-8 text and finite numbers keep doing so, so the encoder never fails
      on what they hold, the text of every 200 parses back to the value
      answered, and that of an error in the JSON format to its code and
      message; plain texts are errors.
    - Reads (ListingThms, DetailThms): following the cursors of a listing
      visits every matching release once; details agree with the tables.
    - Crawling (CrawlThms, CrawlServerThms, DmhyThms, NyaaThms, DmhyCache):
      the walk ends, returns a run of the rows it fetched, and draining the
      cursors yields the unbounded walk; what the parsers make of a page;
      what the cache serves.  CrawlersThms: both processes answer every
      request, DMHY's never with 500 and Nyaa's only for a row dated far off;
      what they show are pages the sites served, DMHY's no older than the
      cache's lifetime; a crawl without a lookback can be repeated from the cache.
    - Across components (Pipeline, Wire, Worker): a worker that reads and
      writes texts only can settle what it claimed until the lease ends; the
      first post of a key and an accepted match are what later lookups answer,
      a conflicting post is not; a crawler's posts
      survive the JSON between the two processes.
    - Metrics and logs (MetricsThms, LogsThms): no metric call can panic and
      no scrape is refused; every request to a handler leaves one line, an
      error exactly when the service failed; the lines of the requests and
      the request counter agree, and show no path but the fixed routes.
    - Values: infohashes (Infohash), cursors (CursorCodec), lookbacks
      (DurationThms).
    - Starting (CmdThms), backfilling (Backfill) and stopping (Serve): on
      its way out a process waits for open requests, at most the drain
      timeout, and the service then for its pool's connections, without a
      deadline, and for nothing else; a request is cut off only after the
      whole drain timeout or because the listener failed, and the exit cuts no
      store call.

    ** Bounds and fuel

    [int64] and [time.Duration] wrap ([wrap64]); [int] is 64 bits wide.  A
    time is its number of nanoseconds since 1970, unbounded, as [time.Time]
    outranges what the program builds.  Fuel appears in three places: the
    page walk, where [CrawlThms.crawl_terminates] gives a number of fetches
    that is always enough (606 for DMHY); the regular expression matcher, whose fuel is the
    length of what is left to read; and the JSON parser, likewise.

    ** What is not modelled

    - Interleavings inside a transaction: a transaction is one step between
      the steps of others, which is what the row locks the statements take
      give at the isolation level used; the rows that [SKIP LOCKED] passes
      over are an oracle.  Requests of the service overlap call by call of the
      store (Interleave); a crawler's requests overlap between any two uses of
      what they share, the cache and the metrics (Crawlers).  A limiter's
      waiting is an error or nothing.
    - Limits of the columns: an attempt counter or a size over the range of its
      column, or a text with a NUL byte, is an error of the driver.
    - The texts of errors, beyond the fixed ones: [error] keeps how an error
      was built, and its rendering is a parameter of the texts that quote it.
      Times are rendered in UTC.  A JSON request that names a member of slice
      type twice: the decoder of Go reuses the first value's array, the model
      starts from zero elements.  The log lines of a start and an end, the
      parsers' warnings, histogram buckets, help texts.
    - Lost answers: a commit that reports an error is taken as not having
      happened, though a connection lost at that moment would leave it open;
      and what a handler writes is taken to reach its client.
    - Collations: text is ordered by its bytes.  Only the order in which the
      sources of a release are listed can tell; infohashes are lower-case hex,
      which every usual collation orders the same way.
    - The defaults, check constraints and indexes of the tables, beyond what
      the statements of the store can observe.
    - The network, the files, the rate limiter, PostgreSQL's own planner, the
      transport of the MCP SDK (any number of tool calls in any order), JSON schema checks and
      the entity tables of [html.UnescapeString]: parameters, with what the
      code relies on as hypotheses.
    - [url.Parse] and [URL.String], which pass an address through; goose,
      which runs the embedded SQL; the test harness, and the TypeScript nodes
      under src/integrations. *)

From stdpp Require Export base tactics numbers option list gmap strings sorting relations.
From Stdlib Require Export ZArith Lia.
From Stdlib Require Import Ascii.
From stdpp Require Import options.

Open Scope Z_scope.

(** ** Machine integers

    Go's [int], [int64] and [time.Duration] are 64-bit two's-complement
    integers; arithmetic on them wraps. *)
Definition int64_min : Z := - 2 ^ 63.
Definition int64_max : Z := 2 ^ 63 - 1.
Definition in_int64 (z : Z) : Prop := int64_min ≤ z ≤ int64_max.
Definition wrap64 (z : Z) : Z := (z + 2 ^ 63) mod 2 ^ 64 - 2 ^ 63.

Lemma wrap64_range z : in_int64 (wrap64 z).
Proof.
  unfold in_int64, wrap64, int64_min, int64_max.
  pose proof (Z.mod_pos_bound (z + 2 ^ 63) (2 ^ 64)). lia.
Qed.

Lemma wrap64_small z : in_int64 z → wrap64 z = z.
Proof.
  unfold in_int64, wrap64, int64_min, int64_max. intros.
  rewrite Z.mod_small; lia.
Qed.

Lemma wrap64_idemp z : wrap64 (wrap64 z) = wrap64 z.
Proof. apply wrap64_small, wrap64_range. Qed.

(** ** Errors

    A Go [error] is kept as the value the code builds: [errors.New] of a
    text, or [fmt.Errorf] of a format, its (already rendered) arguments and
    the errors it wraps with [%w].  All the sentinels of the program have
    distinct texts, so identity of an [errors.New] value is identity of its
    text.  [errors_is] is [errors.Is]. *)
Inductive error :=
  | ErrNew (text : string)
  | Errorf (format : string) (args : list string) (wrapped : list error).

Fixpoint errors_is (e : error) (target : string) : bool :=
  match e with
  | ErrNew t => bool_decide (t = target)
  | Errorf _ _ ws => existsb (λ w, errors_is w target) ws
  end.

(** The text of a sentinel, as [errors.Is] compares it. *)
Definition err_text (e : error) : string :=
  match e with ErrNew t => t | Errorf f _ _ => f end.
Definition Is (e target : error) : bool := errors_is e (err_text target).

(** A call that returns a value or an error, [(A, error)] in Go. *)
Abbreviation result A := (error + A)%type.
Abbreviation Ok := inr.
Abbreviation Err := inl.

(** [e] with one layer of [fmt.Errorf(format, args..., e)]. *)
Definition wrapf (format : string) (args : list string) (e : error) : error :=
  Errorf format args [e].

Lemma errors_is_wrapf f args e t : errors_is (wrapf f args e) t = errors_is e t.
Proof. simpl. by rewrite orb_false_r. Qed.

#[global] Instance result_ret : MRet (sum error) := λ _ x, inr x.
#[global] Instance result_bind : MBind (sum error) :=
  λ _ _ f m, match m with inl e => inl e | inr x => f x end.

(** ** Booleans, options and the development's tactics *)

Create HintDb takuhai.
Create Rewrite HintDb takuhai_str.

Ltac bool_hyps :=
  repeat match goal with
  | H : _ && _ = true |- _ => apply andb_true_iff in H; destruct H
  | H : _ || _ = false |- _ => apply orb_false_iff in H; destruct H
  | H : negb _ = true |- _ => apply negb_true_iff in H
  | H : negb _ = false |- _ => apply negb_false_iff in H
  | H : (_ <? _) = true |- _ => apply Z.ltb_lt in H
  | H : (_ <? _) = false |- _ => apply Z.ltb_ge in H
  | H : (_ <=? _) = true |- _ => apply Z.leb_le in H
  | H : (_ <=? _) = false |- _ => apply Z.leb_gt in H
  | H : (_ =? _) = true |- _ => apply Z.eqb_eq in H
  | H : (_ =? _) = false |- _ => apply Z.eqb_neq in H
  | H : bool_decide _ = true |- _ => apply bool_decide_eq_true in H
  | H : bool_decide _ = false |- _ => apply bool_decide_eq_false in H
  end.

(** Split the innermost [match]/[if] of the goal or of a hypothesis. *)
Ltac split_match :=
  match goal with
  | |- context [match ?x with _ => _ end] =>
      lazymatch x with
      | context [match _ with _ => _ end] => fail
      | _ => destruct x eqn:?
      end
  end.
Ltac split_match_in H :=
  match type of H with
  | context [match ?x with _ => _ end] =>
      lazymatch x with
      | context [match _ with _ => _ end] => fail
      | _ => destruct x eqn:?
      end
  end.

(** Evaluate the decisions of the goal that are closed. *)
Ltac closed_decide :=
  repeat match goal with
  | |- context [@bool_decide ?P ?d] =>
      let b := eval vm_compute in (@bool_decide P d) in
      lazymatch b with
      | true => change (@bool_decide P d) with true
      | false => change (@bool_decide P d) with false
      end
  end.

(** ** Lists *)

(** Count of the elements a boolean predicate holds of ([count FILTER] in SQL). *)
Definition count_if {A} (p : A → bool) (l : list A) : Z := Z.of_nat (length (List.filter p l)).

Lemma count_if_app {A} (p : A → bool) l1 l2 :
  count_if p (l1 ++ l2) = count_if p l1 + count_if p l2.
Proof. unfold count_if. rewrite List.filter_app, length_app. lia. Qed.

Lemma count_if_nonneg {A} (p : A → bool) l : 0 ≤ count_if p l.
Proof. unfold count_if. lia. Qed.

Lemma count_if_split {A} (p q : A → bool) l :
  (∀ x, x ∈ l → q x = true → p x = true) →
  count_if p l = count_if q l + count_if (λ x, p x && negb (q x)) l.
Proof.
  unfold count_if. induction l as [|x l IH]; intros Hpq; simpl; [done|].
  specialize (IH ltac:(intros; apply Hpq; set_solver)).
  assert (q x = true → p x = true) as Hx by (apply Hpq; set_solver).
  destruct (q x) eqn:Hq.
  - rewrite Hx by done. simpl. lia.
  - destruct (p x) eqn:Hp; simpl; lia.
Qed.

Lemma count_if_ext {A} (p q : A → bool) l :
  (∀ x, x ∈ l → p x = q x) → count_if p l = count_if q l.
Proof.
  unfold count_if. induction l as [|x l IH]; intros Hpq; simpl; [done|].
  rewrite Hpq by set_solver. specialize (IH ltac:(intros; apply Hpq; set_solver)).
  destruct (q x); simpl; lia.
Qed.

#[export] Hint Resolve wrap64_range count_if_nonneg : takuhai.
