(* ===== verification/GoStrings.v ===== *)
(** * Go's [strings] and [strconv] functions, as the program uses them

    A Go string is a sequence of bytes; it is a [string] here, each
    [ascii] one byte.  This file holds the functions of Go's standard
    library the program calls on strings (trimming, searching, cutting,
    case mapping, decimal integers) and their lemmas. *)

From S2P Require Import Prelude.
From Stdlib Require Import Ascii.

(** ** Bytes *)

Definition code (c : ascii) : Z := Z.of_N (N_of_ascii c).
Definition in_range (lo hi : ascii) (c : ascii) : bool :=
  (code lo <=? code c) && (code c <=? code hi).

Definition is_digit : ascii → bool := in_range "0" "9".
Definition is_lower : ascii → bool := in_range "a" "z".
Definition is_upper : ascii → bool := in_range "A" "Z".
(** A visible ASCII byte, neither a space nor part of a multi-byte rune. *)
Definition is_graphic : ascii → bool := in_range "!" "~".

Definition byte_of (z : Z) : ascii := ascii_of_N (Z.to_N z).

Definition lower_byte (c : ascii) : ascii :=
  if is_upper c then byte_of (code c + 32) else c.
Definition upper_byte (c : ascii) : ascii :=
  if is_lower c then byte_of (code c - 32) else c.

(** ** Folding predicates and maps over strings *)

Fixpoint str_forall (p : ascii → bool) (s : string) : bool :=
  match s with
  | "" => true
  | String c s => p c && str_forall p s
  end.

Fixpoint str_map (f : ascii → ascii) (s : string) : string :=
  match s with
  | "" => ""
  | String c s => String (f c) (str_map f s)
  end.

Fixpoint len (s : string) : Z :=
  match s with "" => 0 | String _ s => 1 + len s end.

(** [s[n:]] and [s[:n]] for [0 <= n <= len s]. *)
Fixpoint drop_str (n : nat) (s : string) : string :=
  match n, s with
  | S n, String _ s => drop_str n s
  | _, _ => s
  end.
Fixpoint take_str (n : nat) (s : string) : string :=
  match n, s with
  | S n, String c s => String c (take_str n s)
  | _, _ => ""
  end.

(** ** [strings.HasPrefix], [Index], [IndexByte], [Contains], [Cut] *)

Fixpoint has_prefix (p s : string) : bool :=
  match p, s with
  | "", _ => true
  | String a p, String b s => Ascii.eqb a b && has_prefix p s
  | _, _ => false
  end.

Fixpoint index_of (sub s : string) : option nat :=
  if has_prefix sub s then Some 0%nat
  else match s with
       | "" => None
       | String _ s => S <$> index_of sub s
       end.

Fixpoint index_byte (c : ascii) (s : string) : option nat :=
  match s with
  | "" => None
  | String a s => if Ascii.eqb a c then Some 0%nat else S <$> index_byte c s
  end.

Definition contains (s sub : string) : bool :=
  match index_of sub s with Some _ => true | None => false end.

(** [strings.Cut(s, sep)] for a one-byte separator. *)
Definition cut (s : string) (sep : ascii) : option (string * string) :=
  match index_byte sep s with
  | Some i => Some (take_str i s, drop_str (S i) s)
  | None => None
  end.

(** [strings.CutPrefix] and [strings.TrimPrefix]. *)
Definition cut_prefix (s p : string) : option string :=
  if has_prefix p s then Some (drop_str (String.length p) s) else None.
Definition trim_prefix (s p : string) : string := default s (cut_prefix s p).

(** ** [strings.TrimSpace]

    Unicode white space is, as UTF-8 bytes, an ASCII space byte, [C2 85],
    [C2 A0], [E1 9A 80], [E2 80 80]-[E2 80 8A], [E2 80 A8], [E2 80 A9],
    [E2 80 AF], [E2 81 9F] or [E3 80 80]; a leading (trailing) rune is one
    of these exactly when the string starts (ends) with its bytes. *)
Definition space1 (a : ascii) : bool :=
  ((9 <=? code a) && (code a <=? 13)) || (code a =? 32).
Definition space2 (a b : ascii) : bool :=
  (code a =? 0xC2) && ((code b =? 0x85) || (code b =? 0xA0)).
Definition space3 (a b c : ascii) : bool :=
  ((code a =? 0xE1) && (code b =? 0x9A) && (code c =? 0x80))
  || ((code a =? 0xE2) && (code b =? 0x80)
      && (((0x80 <=? code c) && (code c <=? 0x8A))
          || (code c =? 0xA8) || (code c =? 0xA9) || (code c =? 0xAF)))
  || ((code a =? 0xE2) && (code b =? 0x81) && (code c =? 0x9F))
  || ((code a =? 0xE3) && (code b =? 0x80) && (code c =? 0x80)).

Section trim.
Context (s1 : ascii → bool) (s2 : ascii → ascii → bool) (s3 : ascii → ascii → ascii → bool).
Fixpoint trim_with (s : string) : string :=
  match s with
  | "" => ""
  | String a t1 =>
      if s1 a then trim_with t1 else
      match t1 with
      | "" => s
      | String b t2 =>
          if s2 a b then trim_with t2 else
          match t2 with
          | "" => s
          | String c t3 => if s3 a b c then trim_with t3 else s
          end
      end
  end.
End trim.

Definition trim_left : string → string := trim_with space1 space2 space3.
Definition trim_right (s : string) : string :=
  String.rev (trim_with space1 (λ b a, space2 a b) (λ c b a, space3 a b c) (String.rev s)).
Definition TrimSpace (s : string) : string := trim_right (trim_left s).

(** [strings.TrimRight(s, cut)] for a one-byte cutset. *)
Fixpoint trim_left_byte (c : ascii) (s : string) : string :=
  match s with
  | String a t => if Ascii.eqb a c then trim_left_byte c t else s
  | "" => ""
  end.
Definition TrimRight (s : string) (c : ascii) : string :=
  String.rev (trim_left_byte c (String.rev s)).

(** ** [strings.ToLower] and [strings.ToUpper]

    Exact on every rune whose image is ASCII: the ASCII letters, and the
    only other runes that map into ASCII, U+0131 and U+017F (upper), U+0130
    and U+212A (lower).  Any other rune keeps its (non-ASCII) bytes here;
    in Go it maps to a non-ASCII rune, which the program's only users of
    these functions (a base32 alphabet, a size unit) reject either way. *)
Fixpoint ToUpper (s : string) : string :=
  match s with
  | "" => ""
  | String a t =>
      match t with
      | String b u =>
          if (code a =? 0xC4) && (code b =? 0xB1) then String "I" (ToUpper u)
          else if (code a =? 0xC5) && (code b =? 0xBF) then String "S" (ToUpper u)
          else String (upper_byte a) (ToUpper t)
      | "" => String (upper_byte a) ""
      end
  end.

Fixpoint ToLower (s : string) : string :=
  match s with
  | "" => ""
  | String a t =>
      match t with
      | String b u =>
          if (code a =? 0xC4) && (code b =? 0xB0) then String "i" (ToLower u)
          else match u with
               | String c v =>
                   if (code a =? 0xE2) && (code b =? 0x84) && (code c =? 0xAA)
                   then String "k" (ToLower v)
                   else String (lower_byte a) (ToLower t)
               | "" => String (lower_byte a) (ToLower t)
               end
      | "" => String (lower_byte a) ""
      end
  end.

(** ** [strconv.Itoa] and [strconv.Atoi] *)

Definition digit (d : Z) : ascii := byte_of (48 + d).
Definition digit_val (c : ascii) : Z := code c - 48.

(** Decimal digits of a natural number, most significant first. *)
Fixpoint itoa_pos (fuel : nat) (n : Z) (acc : string) : string :=
  match fuel with
  | O => acc
  | S fuel =>
      let acc := String (digit (n mod 10)) acc in
      if n <? 10 then acc else itoa_pos fuel (n / 10) acc
  end.
Definition itoa_fuel (n : Z) : nat := S (Z.to_nat (Z.log2 n)).
Definition Itoa (n : Z) : string :=
  if n <? 0 then String "-" (itoa_pos (itoa_fuel (- n)) (- n) "")
  else itoa_pos (itoa_fuel n) n "".

(** Value of a string of decimal digits after the digits already read. *)
Fixpoint atoi_digits (acc : Z) (s : string) : option Z :=
  match s with
  | "" => Some acc
  | String c s => if is_digit c then atoi_digits (acc * 10 + digit_val c) s else None
  end.
(** [strconv.Atoi]: an optional sign, then one or more digits; a value out
    of the range of [int] is an error. *)
Definition Atoi (s : string) : option Z :=
  let '(neg, body) :=
    match s with
    | String "-" t => (true, t)
    | String "+" t => (false, t)
    | _ => (false, s)
    end in
  if bool_decide (body = "") then None else
  n ← atoi_digits 0 body;
  let v := if neg : bool then - n else n in
  if (int64_min <=? v) && (v <=? int64_max) then Some v else None.

(** ** Lemmas: bytes *)

Lemma code_range c : 0 ≤ code c < 256.
Proof. unfold code. pose proof (N_ascii_bounded c). lia. Qed.

Lemma code_byte_of z : 0 ≤ z < 256 → code (byte_of z) = z.
Proof. intros. unfold code, byte_of. rewrite N_ascii_embedding; lia. Qed.

Lemma byte_of_code c : byte_of (code c) = c.
Proof. unfold code, byte_of. by rewrite N2Z.id, ascii_N_embedding. Qed.

Lemma code_inj c d : code c = code d → c = d.
Proof. intros H. by rewrite <-(byte_of_code c), H, byte_of_code. Qed.

Lemma in_range_spec lo hi c : in_range lo hi c = true ↔ code lo ≤ code c ≤ code hi.
Proof. unfold in_range. rewrite andb_true_iff, !Z.leb_le. lia. Qed.

Lemma eqb_code a b : Ascii.eqb a b = (code a =? code b).
Proof.
  destruct (Ascii.eqb_spec a b) as [->|Hne]; symmetry.
  - apply Z.eqb_refl.
  - apply Z.eqb_neq. intros ?. by apply Hne, code_inj.
Qed.

(** A closed statement about one byte, checked on all 256. *)
Definition all_bytes (p : ascii → bool) : bool :=
  forallb (λ n, p (ascii_of_nat n)) (List.seq 0 256).
Lemma all_bytes_spec p : all_bytes p = true → ∀ c, p c = true.
Proof.
  unfold all_bytes. rewrite forallb_forall. intros H c.
  rewrite <-(ascii_nat_embedding c). apply H, in_seq.
  pose proof (nat_ascii_bounded c). lia.
Qed.
(** Decide [forall c, p c = true -> q c = true] by computation. *)
Lemma byte_impl (p q : ascii → bool) :
  all_bytes (λ c, negb (p c) || q c) = true → ∀ c, p c = true → q c = true.
Proof.
  intros H c Hp. pose proof (all_bytes_spec _ H c) as Hc. simpl in Hc.
  by rewrite Hp in Hc.
Qed.
Ltac by_bytes := apply byte_impl; vm_compute; reflexivity.

(** ** Lemmas: lists of bytes *)

Lemma str_app_nil_r s : s +:+ "" = s.
Proof. induction s as [|c s IH]; [done|]. change (String c (s +:+ "") = String c s). by rewrite IH. Qed.
Lemma str_app_assoc a b c : (a +:+ b) +:+ c = a +:+ (b +:+ c).
Proof.
  induction a as [|x a IH]; [done|].
  change (String x ((a +:+ b) +:+ c) = String x (a +:+ (b +:+ c))). by rewrite IH.
Qed.
Lemma str_app_cons c s t : String c s +:+ t = String c (s +:+ t).
Proof. done. Qed.
Lemma str_app_nil_l s : "" +:+ s = s.
Proof. done. Qed.
Lemma length_app_str s t : String.length (s +:+ t) = (String.length s + String.length t)%nat.
Proof. induction s as [|c s IH]; [done|]. rewrite str_app_cons. simpl. by rewrite IH. Qed.
Lemma len_length s : len s = Z.of_nat (String.length s).
Proof. induction s; simpl; lia. Qed.
Lemma len_nonneg s : 0 ≤ len s.
Proof. rewrite len_length. lia. Qed.
Lemma len_app s t : len (s +:+ t) = len s + len t.
Proof. rewrite !len_length, length_app_str. lia. Qed.

(** Induction on the length of a string, for functions that consume several
    bytes at a time. *)
Lemma string_length_ind (P : string → Prop) :
  (∀ s, (∀ t, (String.length t < String.length s)%nat → P t) → P s) → ∀ s, P s.
Proof.
  intros H s. remember (String.length s) as n eqn:Hn. revert s Hn.
  induction (lt_wf n) as [n _ IH]. intros s ->. apply H. intros t Ht. by eapply IH.
Qed.

Lemma rev_app_spec s t : String.rev_app s t = String.rev s +:+ t.
Proof.
  unfold String.rev. revert t. induction s as [|c s IH]; intros t; [done|]. simpl.
  rewrite IH, (IH (String c "")), str_app_assoc. done.
Qed.
Lemma rev_cons c s : String.rev (String c s) = String.rev s +:+ String c "".
Proof. unfold String.rev at 1. simpl. apply rev_app_spec. Qed.
Lemma rev_app_str s t : String.rev (s +:+ t) = String.rev t +:+ String.rev s.
Proof.
  induction s as [|c s IH]; [by rewrite str_app_nil_l, str_app_nil_r|].
  rewrite str_app_cons, !rev_cons, IH, str_app_assoc. done.
Qed.
Lemma rev_involutive_str s : String.rev (String.rev s) = s.
Proof. induction s as [|c s IH]; [done|]. by rewrite rev_cons, rev_app_str, IH. Qed.
Lemma length_rev_str s : String.length (String.rev s) = String.length s.
Proof.
  induction s as [|c s IH]; [done|]. rewrite rev_cons, length_app_str, IH. simpl. lia.
Qed.

Lemma str_forall_app p s t : str_forall p (s +:+ t) = str_forall p s && str_forall p t.
Proof. induction s as [|c s IH]; [done|]. rewrite str_app_cons. simpl. by rewrite IH, andb_assoc. Qed.
Lemma str_forall_rev p s : str_forall p (String.rev s) = str_forall p s.
Proof.
  induction s as [|c s IH]; [done|]. rewrite rev_cons, str_forall_app, IH. simpl.
  by rewrite andb_true_r, andb_comm.
Qed.
Lemma str_forall_impl (p q : ascii → bool) s :
  (∀ c, p c = true → q c = true) → str_forall p s = true → str_forall q s = true.
Proof.
  intros Hpq. induction s as [|c s IH]; [done|]. simpl. rewrite !andb_true_iff.
  intros [??]. auto.
Qed.
Lemma str_forall_map p f s : str_forall p (str_map f s) = str_forall (λ c, p (f c)) s.
Proof. induction s as [|c s IH]; simpl; congruence. Qed.
Lemma str_map_id f s : str_forall (λ c, Ascii.eqb (f c) c) s = true → str_map f s = s.
Proof.
  induction s as [|c s IH]; simpl; [done|]. intros [Hc%Ascii.eqb_eq Hs]%andb_true_iff.
  by rewrite Hc, IH.
Qed.

(** *** Trimming *)

Lemma space_not_graphic1 c : is_graphic c = true → space1 c = false.
Proof. intros H. apply negb_true_iff. revert c H. by_bytes. Qed.
Lemma graphic_not_c2 c : is_graphic c = true → (code c <? 0x80) = true.
Proof. revert c. by_bytes. Qed.

(** In a multi-byte space rune every byte is at least [0x80]. *)
Lemma space2_high a b : space2 a b = true → 0x80 ≤ code a ∧ 0x80 ≤ code b.
Proof. unfold space2. rewrite andb_true_iff, orb_true_iff, !Z.eqb_eq. lia. Qed.
Lemma space3_high a b c :
  space3 a b c = true → 0x80 ≤ code a ∧ 0x80 ≤ code b ∧ 0x80 ≤ code c.
Proof.
  unfold space3. rewrite !orb_true_iff, !andb_true_iff, !orb_true_iff, !andb_true_iff.
  rewrite !Z.eqb_eq, !Z.leb_le. lia.
Qed.

Section trim_lemmas.
Context (s1 : ascii → bool) (s2 : ascii → ascii → bool) (s3 : ascii → ascii → ascii → bool).
Context (H1 : ∀ c, is_graphic c = true → s1 c = false).
Context (H2 : ∀ a b, s2 a b = true → 0x80 ≤ code a ∧ 0x80 ≤ code b).
Context (H3 : ∀ a b c, s3 a b c = true → 0x80 ≤ code a ∧ 0x80 ≤ code b ∧ 0x80 ≤ code c).

Lemma trim_with_graphic c s :
  is_graphic c = true → trim_with s1 s2 s3 (String c s) = String c s.
Proof using H1 H2 H3.
  intros Hg. pose proof (graphic_not_c2 c Hg) as Hc%Z.ltb_lt. simpl. rewrite H1 by done.
  destruct s as [|b s]; [done|]. destruct (s2 c b) eqn:E2; [apply H2 in E2; lia|].
  destruct s as [|d s]; [done|]. destruct (s3 c b d) eqn:E3; [apply H3 in E3; lia|done].
Qed.

(** Trimming what precedes a graphic byte leaves that byte and the rest. *)
Lemma trim_with_app s c t :
  is_graphic c = true →
  trim_with s1 s2 s3 (s +:+ String c t) = trim_with s1 s2 s3 s +:+ String c t.
Proof using H1 H2 H3.
  intros Hg. pose proof (graphic_not_c2 c Hg) as Hc%Z.ltb_lt.
  induction s as [s IH] using string_length_ind.
  destruct s as [|a s]; [by apply trim_with_graphic|]. rewrite str_app_cons. simpl.
  destruct (s1 a) eqn:E1; [apply IH; simpl; lia|].
  destruct s as [|b s].
  { rewrite str_app_nil_l. destruct (s2 a c) eqn:E2; [apply H2 in E2; lia|].
    destruct t as [|d t]; [done|]. destruct (s3 a c d) eqn:E3; [apply H3 in E3; lia|done]. }
  rewrite str_app_cons. destruct (s2 a b) eqn:E2; [apply IH; simpl; lia|].
  destruct s as [|d s].
  { rewrite str_app_nil_l. destruct (s3 a b c) eqn:E3; [apply H3 in E3; lia|done]. }
  rewrite str_app_cons. destruct (s3 a b d) eqn:E3; [apply IH; simpl; lia|done].
Qed.

(** The result is empty or is a suffix of the input. *)
Lemma trim_with_suffix s : ∃ p, s = p +:+ trim_with s1 s2 s3 s.
Proof using.
  induction s as [s IH] using string_length_ind.
  assert (∀ t p, s = p +:+ t → (String.length t < String.length s)%nat →
            ∃ q, s = q +:+ trim_with s1 s2 s3 t) as Hstep.
  { intros t p Hs Ht. destruct (IH t Ht) as [q Hq]. exists (p +:+ q).
    by rewrite str_app_assoc, <-Hq. }
  destruct s as [|a s]; [by exists ""|]. simpl.
  destruct (s1 a); [apply (Hstep s (String a "")); simpl; [done|lia]|].
  destruct s as [|b s]; [by exists ""|].
  destruct (s2 a b); [apply (Hstep s (String a (String b ""))); simpl; [done|lia]|].
  destruct s as [|c s]; [by exists ""|].
  destruct (s3 a b c); [|by exists ""].
  apply (Hstep s (String a (String b (String c "")))); simpl; [done|lia].
Qed.
End trim_lemmas.

Lemma trim_left_graphic c s : is_graphic c = true → trim_left (String c s) = String c s.
Proof.
  apply trim_with_graphic; [apply space_not_graphic1|apply space2_high|apply space3_high].
Qed.

Lemma trim_right_app s c t :
  is_graphic c = true → trim_right (s +:+ String c t) = s +:+ String c (trim_right t).
Proof.
  intros Hg. unfold trim_right. rewrite rev_app_str, rev_cons, str_app_assoc.
  rewrite str_app_cons, str_app_nil_l, trim_with_app; [| | | |done].
  - by rewrite rev_app_str, rev_cons, rev_involutive_str, str_app_assoc.
  - apply space_not_graphic1.
  - intros ?? []%space2_high; done.
  - intros ??? (?&?&?)%space3_high; done.
Qed.

(** Whatever follows, a graphic prefix survives [strings.TrimSpace]. *)
Lemma TrimSpace_graphic_prefix a s c t :
  is_graphic a = true → is_graphic c = true →
  TrimSpace (String a (s +:+ String c t)) = String a (s +:+ String c (trim_right t)).
Proof.
  intros Ha Hc. unfold TrimSpace. rewrite trim_left_graphic by done.
  by rewrite <-!str_app_cons, trim_right_app.
Qed.

Lemma str_snoc c s : ∃ t d, String c s = t +:+ String d "".
Proof.
  revert c. induction s as [|b s IH]; intros c; [by exists "", c|].
  destruct (IH b) as (t&d&->). exists (String c t), d. done.
Qed.

Lemma TrimSpace_graphic s : str_forall is_graphic s = true → TrimSpace s = s.
Proof.
  destruct s as [|a s]; [done|]. intros H. unfold TrimSpace.
  assert (is_graphic a = true) by (simpl in H; by apply andb_true_iff in H as [??]).
  rewrite trim_left_graphic by done.
  destruct (str_snoc a s) as (t&d&E). rewrite E in H |- *.
  rewrite str_forall_app in H. apply andb_true_iff in H as [_ Hd]. simpl in Hd.
  rewrite andb_true_r in Hd. by rewrite trim_right_app.
Qed.

(** *** Decimal integers *)

Lemma code_digit d : 0 ≤ d < 10 → code (digit d) = 48 + d.
Proof. intros. apply code_byte_of. lia. Qed.
Lemma is_digit_digit d : 0 ≤ d < 10 → is_digit (digit d) = true.
Proof. intros. apply in_range_spec. rewrite code_digit by lia. vm_compute code. lia. Qed.
Lemma digit_val_digit d : 0 ≤ d < 10 → digit_val (digit d) = d.
Proof. intros. unfold digit_val. rewrite code_digit by lia. lia. Qed.

Lemma digit_val_range c : is_digit c = true → 0 ≤ digit_val c ≤ 9.
Proof. by destruct c as [[] [] [] [] [] [] [] []]. Qed.

Lemma itoa_pos_digits fuel n acc :
  0 ≤ n → str_forall is_digit acc = true → str_forall is_digit (itoa_pos fuel n acc) = true.
Proof.
  revert n acc. induction fuel as [|fuel IH]; intros n acc Hn Hacc; [done|]. simpl.
  pose proof (Z.mod_pos_bound n 10 ltac:(lia)).
  assert (str_forall is_digit (String (digit (n mod 10)) acc) = true).
  { simpl. by rewrite is_digit_digit by lia. }
  destruct (n <? 10); [done|]. apply IH; [apply Z.div_pos; lia|done].
Qed.

Lemma itoa_pos_spec fuel n acc :
  0 ≤ n < 10 ^ Z.of_nat fuel → (0 < fuel)%nat →
  ∃ k, ∀ a, atoi_digits a (itoa_pos fuel n acc) = atoi_digits (a * 10 ^ k + n) acc.
Proof.
  revert n acc. induction fuel as [|fuel IH]; intros n acc Hn Hf; [lia|]. simpl.
  pose proof (Z.mod_pos_bound n 10 ltac:(lia)). pose proof (Z.div_mod n 10 ltac:(lia)).
  destruct (n <? 10) eqn:E; bool_hyps.
  - exists 1. intros a. simpl. rewrite is_digit_digit, digit_val_digit by lia.
    rewrite Z.mod_small by lia. f_equal; lia.
  - assert (Z.of_nat (S fuel) = Z.succ (Z.of_nat fuel)) as HS by lia.
    rewrite HS, Z.pow_succ_r in Hn by lia.
    destruct (IH (n / 10) (String (digit (n mod 10)) acc)) as [k Hk].
    + split; [apply Z.div_pos; lia|]. apply Z.div_lt_upper_bound; lia.
    + destruct fuel; [|lia]. simpl in Hn. lia.
    + destruct (decide (0 ≤ k)).
      * exists (Z.succ k). intros a. rewrite Hk. simpl.
        rewrite is_digit_digit, digit_val_digit by lia.
        rewrite Z.pow_succ_r by lia. f_equal; lia.
      * exists k. intros a. rewrite Hk. simpl.
        rewrite is_digit_digit, digit_val_digit by lia.
        rewrite Z.pow_neg_r by lia. f_equal; lia.
Qed.

Lemma itoa_fuel_enough n : 0 ≤ n → n < 10 ^ Z.of_nat (itoa_fuel n).
Proof.
  intros Hn. unfold itoa_fuel. pose proof (Z.log2_nonneg n).
  rewrite Nat2Z.inj_succ, Z2Nat.id by lia. destruct (decide (n = 0)) as [->|]; [done|].
  pose proof (Z.log2_spec n ltac:(lia)).
  pose proof (Z.pow_le_mono_l 2 10 (Z.succ (Z.log2 n)) ltac:(lia)). lia.
Qed.

Lemma atoi_digits_itoa n : 0 ≤ n → atoi_digits 0 (Itoa n) = Some n.
Proof.
  intros Hn. unfold Itoa. destruct (n <? 0) eqn:E; bool_hyps; [lia|].
  destruct (itoa_pos_spec (itoa_fuel n) n "") as [k Hk].
  - split; [done|by apply itoa_fuel_enough].
  - unfold itoa_fuel; lia.
  - rewrite Hk. done.
Qed.

Lemma Itoa_digits n : 0 ≤ n → str_forall is_digit (Itoa n) = true.
Proof.
  intros Hn. unfold Itoa. destruct (n <? 0) eqn:E; bool_hyps; [lia|].
  by apply itoa_pos_digits.
Qed.

Lemma Itoa_nonempty n : 0 ≤ n → Itoa n ≠ "".
Proof.
  intros Hn He. pose proof (atoi_digits_itoa n Hn) as H. rewrite He in H. simpl in H.
  assert (n = 0) as -> by congruence. vm_compute in He. done.
Qed.

Lemma Atoi_digits s :
  str_forall is_digit s = true → s ≠ "" →
  Atoi s = n ← atoi_digits 0 s;
           if (int64_min <=? n) && (n <=? int64_max) then Some n else None.
Proof.
  intros Hd Hne. destruct s as [|c s]; [done|]. simpl in Hd.
  apply andb_true_iff in Hd as [Hc _].
  clear Hne. assert (negb (Ascii.eqb c "-") && negb (Ascii.eqb c "+") = true) as Hs
    by (revert c Hc; by_bytes).
  clear Hc. unfold Atoi. destruct c as [[] [] [] [] [] [] [] []]; done.
Qed.

(** [Atoi] inverts [Itoa] on the non-negative range of [int]. *)
Lemma Atoi_Itoa n : 0 ≤ n ≤ int64_max → Atoi (Itoa n) = Some n.
Proof.
  intros Hn. rewrite Atoi_digits;
    [|apply Itoa_digits; lia|apply Itoa_nonempty; lia].
  rewrite atoi_digits_itoa by lia. unfold mbind, option_bind.
  destruct (int64_min <=? n) eqn:E1, (n <=? int64_max) eqn:E2; bool_hyps; try done;
    unfold int64_min in *; lia.
Qed.

Lemma Itoa_inj m n : 0 ≤ m → 0 ≤ n → Itoa m = Itoa n → m = n.
Proof.
  intros Hm Hn E. pose proof (atoi_digits_itoa m Hm) as H. rewrite E in H.
  rewrite atoi_digits_itoa in H by done. congruence.
Qed.

(** *** Searching and cutting *)

Lemma index_byte_app c s t :
  str_forall (λ a, negb (Ascii.eqb a c)) s = true →
  index_byte c (s +:+ String c t) = Some (String.length s).
Proof.
  induction s as [|a s IH]; [rewrite str_app_nil_l; simpl; by rewrite Ascii.eqb_refl|].
  rewrite str_app_cons. simpl. intros [Ha Hs]%andb_true_iff.
  apply negb_true_iff in Ha. rewrite Ha, IH by done. done.
Qed.
Lemma index_byte_none c s :
  str_forall (λ a, negb (Ascii.eqb a c)) s = true → index_byte c s = None.
Proof.
  induction s as [|a s IH]; [done|]. simpl. intros [Ha Hs]%andb_true_iff.
  apply negb_true_iff in Ha. by rewrite Ha, IH.
Qed.

Lemma take_str_app s t : take_str (String.length s) (s +:+ t) = s.
Proof.
  induction s as [|c s IH]; [by rewrite str_app_nil_l; destruct t|].
  rewrite str_app_cons. simpl. by rewrite IH.
Qed.
Lemma drop_str_app s t : drop_str (String.length s) (s +:+ t) = t.
Proof. induction s as [|c s IH]; [by destruct t|]. rewrite str_app_cons. done. Qed.
Lemma drop_str_S_app s c t : drop_str (S (String.length s)) (s +:+ String c t) = t.
Proof. induction s as [|a s IH]; [done|]. rewrite str_app_cons. done. Qed.

Lemma cut_app s c t :
  str_forall (λ a, negb (Ascii.eqb a c)) s = true → cut (s +:+ String c t) c = Some (s, t).
Proof.
  intros H. unfold cut. by rewrite index_byte_app, take_str_app, drop_str_S_app.
Qed.

Lemma has_prefix_app p s : has_prefix p (p +:+ s) = true.
Proof. induction p as [|a p IH]; [done|]. rewrite str_app_cons. simpl. by rewrite Ascii.eqb_refl. Qed.

#[export] Hint Rewrite str_app_nil_l str_app_nil_r str_app_assoc str_app_cons : takuhai_str.

Lemma has_prefix_Some p s : has_prefix p s = true → ∃ t, s = p +:+ t.
Proof.
  revert s. induction p as [|a p IH]; intros s; [by exists s|].
  destruct s as [|b s]; [done|]. simpl. intros [->%Ascii.eqb_eq Hp]%andb_true_iff.
  destruct (IH s Hp) as [t ->]. by exists t.
Qed.
Lemma has_prefix_app_l p s t :
  (String.length p ≤ String.length s)%nat → has_prefix p (s +:+ t) = has_prefix p s.
Proof.
  revert s. induction p as [|a p IH]; intros s Hl; [by destruct (s +:+ t), s|].
  destruct s as [|b s]; [simpl in Hl; lia|]. rewrite str_app_cons. simpl.
  rewrite IH; [done|simpl in Hl; lia].
Qed.
Lemma index_of_Some sub s i :
  index_of sub s = Some i → ∃ pre t, s = pre +:+ (sub +:+ t) ∧ String.length pre = i.
Proof.
  revert i. induction s as [|c s IH]; intros i; simpl.
  - destruct (has_prefix sub "") eqn:E; [|done]. intros [= <-].
    apply has_prefix_Some in E as [t ->]. by exists "", t.
  - destruct (has_prefix sub (String c s)) eqn:E.
    + intros [= <-]. apply has_prefix_Some in E as [t ->]. by exists "", t.
    + destruct (index_of sub s) as [j|]; [|done]. intros [= <-].
      destruct (IH j eq_refl) as (pre&t&->&<-). by exists (String c pre), t.
Qed.

(** A pattern with a byte that the string lacks does not occur in it. *)
Lemma index_of_absent p sub s :
  str_forall p s = true → str_forall p sub = false → index_of sub s = None.
Proof.
  intros Hs Hsub. destruct (index_of sub s) as [i|] eqn:E; [|done].
  apply index_of_Some in E as (pre&t&->&_). rewrite !str_forall_app, Hsub in Hs.
  by rewrite andb_false_r in Hs.
Qed.
Lemma has_prefix_absent p sub s :
  str_forall p s = true → str_forall p sub = false → has_prefix sub s = false.
Proof.
  intros Hs Hsub. destruct (has_prefix sub s) eqn:E; [|done].
  apply has_prefix_Some in E as [t ->]. rewrite str_forall_app, Hsub in Hs. done.
Qed.

(** The first occurrence stays first when the string is extended on the right. *)
Lemma index_of_app sub pre t :
  index_of sub (pre +:+ sub) = Some (String.length pre) →
  index_of sub (pre +:+ (sub +:+ t)) = Some (String.length pre).
Proof.
  induction pre as [|c pre IH].
  - rewrite !str_app_nil_l. intros _. pose proof (has_prefix_app sub t) as H.
    destruct (sub +:+ t); simpl; by rewrite H.
  - rewrite !str_app_cons. simpl. rewrite <-str_app_assoc.
    assert ((String.length sub ≤ String.length (String c (pre +:+ sub)))%nat) as Hl
      by (simpl; rewrite length_app_str; lia).
    change (String c ((pre +:+ sub) +:+ t)) with (String c (pre +:+ sub) +:+ t).
    rewrite has_prefix_app_l by done.
    destruct (has_prefix sub (String c (pre +:+ sub))) eqn:E; [done|].
    rewrite str_app_assoc. destruct (index_of sub (pre +:+ sub)) as [i|] eqn:Ei; [|done].
    intros [= ->]. rewrite IH by done. done.
Qed.

(** ** Prefixes *)

Lemma cut_prefix_app p s : cut_prefix (p +:+ s) p = Some s.
Proof.
  unfold cut_prefix. assert (has_prefix p (p +:+ s) = true) as ->.
  { induction p as [|c p IH]; [by destruct s|]. rewrite str_app_cons. cbn. by rewrite Ascii.eqb_refl. }
  f_equal. induction p as [|c p IH]; [done|]. rewrite str_app_cons. cbn. exact IH.
Qed.
Lemma has_prefix_drop p s : has_prefix p s = true → s = p +:+ drop_str (String.length p) s.
Proof.
  revert s. induction p as [|a p IH]; intros [|b s]; cbn; try done.
  intros [->%Ascii.eqb_eq H]%andb_true_iff. rewrite str_app_cons. by rewrite <-IH.
Qed.
