(* ===== verification/GoTime.v ===== *)
(** * Go's [time]: instants and durations

    A [time.Time] is the instant it denotes, in nanoseconds since the Unix
    epoch (the program compares, adds to and formats instants; it never
    reads a calendar field).  A [time.Duration] is an [int64] count of
    nanoseconds, so duration arithmetic wraps. *)

From S2P Require Import Prelude.

Abbreviation Time := Z.
Abbreviation Duration := Z.

Definition Second : Duration := 10 ^ 9.
Definition Minute : Duration := 60 * Second.
Definition Hour : Duration := 60 * Minute.

(** [time.Time{}], 1 January of year 1, UTC, and [IsZero]. *)
Definition zero_time : Time := -62135596800 * Second.
Definition IsZero (t : Time) : bool := t =? zero_time.

Definition Before (t u : Time) : bool := t <? u.
Definition After (t u : Time) : bool := u <? t.
Definition Add (t : Time) (d : Duration) : Time := t + d.

(** PostgreSQL's [timestamptz] counts microseconds; the driver truncates
    the nanoseconds of a parameter, and a column reads back as a whole
    number of microseconds. *)
Definition pg_ts (t : Time) : Time := t / 1000 * 1000.

Lemma pg_ts_le t : pg_ts t ≤ t < pg_ts t + 1000.
Proof.
  unfold pg_ts. pose proof (Z.div_mod t 1000 ltac:(lia)).
  pose proof (Z.mod_pos_bound t 1000 ltac:(lia)). lia.
Qed.
Lemma pg_ts_idemp t : pg_ts (pg_ts t) = pg_ts t.
Proof. unfold pg_ts. by rewrite Z.div_mul. Qed.
Lemma pg_ts_mono t u : t ≤ u → pg_ts t ≤ pg_ts u.
Proof. unfold pg_ts. intros. pose proof (Z.div_le_mono t u 1000). lia. Qed.
Lemma pg_ts_add_second t n : pg_ts (t + n * Second) = pg_ts t + n * Second.
Proof.
  unfold pg_ts, Second. replace (n * 10 ^ 9) with (n * 10 ^ 6 * 1000) by lia.
  rewrite Z.div_add by lia. lia.
Qed.

#[export] Hint Resolve pg_ts_mono : takuhai.
