(* ===== verification/GoTimeFmt.v ===== *)
(** * RFC 3339 times: [Format] and [Parse] of package [time]

    The proleptic Gregorian calendar, [t.Format(time.RFC3339Nano)] in UTC and
    [time.Parse(time.RFC3339Nano, s)] (and, with the same language,
    [time.RFC3339]), with their round trip. *)

From S2P Require Import Prelude GoStrings GoTime.
From Stdlib Require Import Ascii.

(** ** The calendar *)

(** Days of a date from 0000-03-01 within its 400-year era, and back; months
    count from March. *)
Definition day_of_era (yoe mp d : Z) : Z :=
  yoe * 365 + yoe / 4 - yoe / 100 + ((153 * mp + 2) / 5 + d - 1).
Definition of_day_of_era (doe : Z) : Z * Z * Z :=
  let c := Z.min (doe / 36524) 3 in
  let r := doe - c * 36524 in
  let q := r / 1461 in
  let r := r - q * 1461 in
  let y := Z.min (r / 365) 3 in
  let doy := r - y * 365 in
  let mp := (5 * doy + 2) / 153 in
  (c * 100 + q * 4 + y, mp, doy - (153 * mp + 2) / 5 + 1).

(** Days since 1970-01-01. *)
Definition days_from_civil (y m d : Z) : Z :=
  let y := if m <=? 2 then y - 1 else y in
  y / 400 * 146097 + day_of_era (y mod 400) ((m + 9) mod 12) d - 719468.
Definition civil_from_days (z : Z) : Z * Z * Z :=
  let z := z + 719468 in
  let '(yoe, mp, d) := of_day_of_era (z mod 146097) in
  let m := if mp <? 10 then mp + 3 else mp - 9 in
  ((if m <=? 2 then yoe + 1 else yoe) + z / 146097 * 400, m, d).

Definition is_leap (y : Z) : bool :=
  (y mod 4 =? 0) && (negb (y mod 100 =? 0) || (y mod 400 =? 0)).
Definition daysIn (m y : Z) : Z :=
  if m =? 2 then (if is_leap y then 29 else 28)
  else if (m =? 4) || (m =? 6) || (m =? 9) || (m =? 11) then 30 else 31.

(** ** Formatting *)

Definition dig (z : Z) : ascii := digit (z mod 10).
Definition pad2 (z : Z) : string := String (dig (z / 10)) (String (dig z) "").
Definition pad4 (z : Z) : string := pad2 (z / 100) +:+ pad2 z.
(** The year, at least four digits. *)
Definition format_year (y : Z) : string :=
  if (0 <=? y) && (y <=? 9999) then pad4 y
  else if y <? 0 then "-" +:+ (if - y <=? 9999 then pad4 (- y) else Itoa (- y))
  else Itoa y.

(** [n] digits of [z], trailing zeros dropped. *)
Fixpoint frac_digits (n : nat) (z : Z) : string :=
  match n with
  | O => ""
  | S n =>
      if z =? 0 then ""
      else String (digit (z / 10 ^ Z.of_nat n)) (frac_digits n (z mod 10 ^ Z.of_nat n))
  end.
Definition format_frac (ns : Z) : string := if ns =? 0 then "" else String "." (frac_digits 9 ns).

Definition Day_ns : Z := 86400 * Second.

(** [t.Format(time.RFC3339Nano)]: the wall clock shows [t], and [zone_text] is
    what the layout's zone becomes. *)
Definition Format_with (zone_text : string) (t : Time) : string :=
  let '(y, m, d) := civil_from_days (t / Day_ns) in
  let ns := t mod Day_ns in
  let s := ns / Second in
  format_year y +:+ "-" +:+ pad2 m +:+ "-" +:+ pad2 d +:+ "T"
  +:+ pad2 (s / 3600) +:+ ":" +:+ pad2 (s / 60 mod 60) +:+ ":" +:+ pad2 (s mod 60)
  +:+ format_frac (ns mod Second) +:+ zone_text.
(** [Z07:00] for an offset from UTC. *)
Definition zone_text (off : Duration) : string :=
  if off / Second =? 0 then "Z"
  else
    let minutes := Z.quot (off / Second) 60 in
    String (if minutes <? 0 then "-" else "+")
      (pad2 (Z.abs minutes / 60) +:+ ":" +:+ pad2 (Z.abs minutes mod 60)).
Definition Format_in (off : Duration) (t : Time) : string := Format_with (zone_text off) (t + off).
(** A time in UTC. *)
Definition Format_RFC3339Nano (t : Time) : string := Format_with "Z" t.

(** ** Parsing *)

Definition lit (c : ascii) (s : string) : option string :=
  match s with
  | String a r => if Ascii.eqb a c then Some r else None
  | "" => None
  end.
(** Two digits; [getnum] that is not fixed also takes one. *)
Definition num2 (s : string) : option (Z * string) :=
  match s with
  | String a (String b r) =>
      if is_digit a && is_digit b then Some (digit_val a * 10 + digit_val b, r) else None
  | _ => None
  end.
Definition num12 (s : string) : option (Z * string) :=
  match num2 s, s with
  | Some x, _ => Some x
  | None, String a r => if is_digit a then Some (digit_val a, r) else None
  | None, "" => None
  end.
Definition num4 (s : string) : option (Z * string) :=
  '(a, s) ← num2 s; '(b, s) ← num2 s; Some (a * 100 + b, s).

(** Up to [n] more digits of the fraction count; the others are read over. *)
Fixpoint parse_frac (n : nat) (acc : Z) (s : string) : Z * string :=
  match s with
  | String c r =>
      if is_digit c then
        match n with
        | O => parse_frac O acc r
        | S n => parse_frac n (acc + digit_val c * 10 ^ Z.of_nat n) r
        end
      else (acc, s)
  | "" => (acc, "")
  end.
(** A point or a comma and a digit start a fraction. *)
Definition fraction (s : string) : Z * string :=
  match s with
  | String p (String c r) =>
      if (Ascii.eqb p "." || Ascii.eqb p ",") && is_digit c
      then parse_frac 9 0 (String c r) else (0, s)
  | _ => (0, s)
  end.
(** [Z], or a signed offset of at most 24:60, in seconds. *)
Definition zone (s : string) : option (Z * string) :=
  match s with
  | String c r =>
      if Ascii.eqb c "Z" then Some (0, r) else
      '(hr, r) ← num2 r; r ← lit ":" r; '(mm, r) ← num2 r;
      if (24 <? hr) || (60 <? mm) then None
      else if Ascii.eqb c "+" then Some ((hr * 60 + mm) * 60, r)
      else if Ascii.eqb c "-" then Some (- ((hr * 60 + mm) * 60), r)
      else None
  | "" => None
  end.

Definition Parse_RFC3339 (s : string) : option Time :=
  '(y, s) ← num4 s; s ← lit "-" s;
  '(m, s) ← num2 s; s ← lit "-" s;
  '(d, s) ← num2 s; s ← lit "T" s;
  '(h, s) ← num12 s; s ← lit ":" s;
  '(mi, s) ← num2 s; s ← lit ":" s;
  '(sec, s) ← num2 s;
  let '(ns, s) := fraction s in
  '(off, s) ← zone s;
  if bool_decide (s ≠ "") then None
  else if (m <? 1) || (12 <? m) || (24 <=? h) || (60 <=? mi) || (60 <=? sec) then None
  else if (d <? 1) || (daysIn m y <? d) then None
  else Some (days_from_civil y m d * Day_ns + (h * 3600 + mi * 60 + sec - off) * Second + ns).
Definition ErrParseTime (s : string) : error := Errorf "parsing time %q" [s] [].

(** ** The calendar round trip *)

(** [lia] with divisions by constants. *)
Ltac div_lia := Z.to_euclidean_division_equations; lia.

Definition month_of (mp : Z) : Z := if mp <? 10 then mp + 3 else mp - 9.

Lemma day_of_year_split doy :
  0 ≤ doy ≤ 365 →
  let mp := (5 * doy + 2) / 153 in
  let d := doy - (153 * mp + 2) / 5 + 1 in
  0 ≤ mp < 12 ∧ 1 ≤ d
  ∧ (month_of mp ≠ 2 → ∀ y, d ≤ daysIn (month_of mp) y)
  ∧ (month_of mp = 2 → d ≤ 29 ∧ (d = 29 → doy = 365)).
Proof.
  intros Hdoy mp d. assert (0 ≤ mp < 12) as Hmp by (subst mp; div_lia).
  assert (1 ≤ d) as Hd by (subst d mp; div_lia). split_and!; try lia.
  - intros Hm y. unfold daysIn, month_of in *. subst d.
    assert (mp * 153 ≤ 5 * doy + 2 < mp * 153 + 153) as Hb by (subst mp; div_lia).
    clearbody mp. assert (mp = 0 ∨ mp = 1 ∨ mp = 2 ∨ mp = 3 ∨ mp = 4 ∨ mp = 5 ∨ mp = 6 ∨ mp = 7 ∨ mp = 8
      ∨ mp = 9 ∨ mp = 10 ∨ mp = 11) as H by lia.
    repeat destruct H as [->|H]; [..|subst mp]; cbn -[Z.div Z.mul Z.sub Z.le Z.add] in *; try lia;
      match goal with |- _ ≤ ?rhs => let r := eval cbv -[is_leap] in rhs in change rhs with r end;
      div_lia.
  - unfold month_of. intros Hm. assert (mp = 11) as E by (destruct (mp <? 10) eqn:?; bool_hyps; lia).
    subst d. rewrite E. change ((153 * 11 + 2) / 5) with 337. lia.
Qed.

Lemma of_day_of_era_spec doe :
  0 ≤ doe < 146097 →
  let '(yoe, mp, d) := of_day_of_era doe in
  0 ≤ yoe < 400 ∧ 0 ≤ mp < 12 ∧ day_of_era yoe mp d = doe
  ∧ 1 ≤ d ≤ daysIn (month_of mp) (if month_of mp <=? 2 then yoe + 1 else yoe).
Proof.
  intros Hdoe. unfold of_day_of_era.
  set (c := Z.min (doe / 36524) 3). set (r := doe - c * 36524).
  assert (0 ≤ c ≤ 3 ∧ 0 ≤ r ≤ 36524 ∧ (r = 36524 → c = 3)) as (Hc&Hr&Hrc) by (subst r c; div_lia).
  set (q := r / 1461). set (r2 := r - q * 1461).
  assert (0 ≤ q ≤ 24 ∧ 0 ≤ r2 ≤ 1460 ∧ (q = 24 → r2 = 1460 → r = 36524)) as (Hq&Hr2&Hqr) by (subst r2 q; div_lia).
  set (y := Z.min (r2 / 365) 3). set (doy := r2 - y * 365).
  assert (0 ≤ y ≤ 3 ∧ 0 ≤ doy ≤ 365 ∧ (doy = 365 → y = 3 ∧ r2 = 1460)) as (Hy&Hdoy&Hleap) by (subst doy y; div_lia).
  pose proof (day_of_year_split doy Hdoy) as Hsplit. cbv zeta in Hsplit.
  set (mp := (5 * doy + 2) / 153) in *. set (d := doy - (153 * mp + 2) / 5 + 1) in *.
  destruct Hsplit as (Hmp&Hd&Hother&Hfeb).
  assert ((c * 100 + q * 4 + y) / 4 = c * 25 + q) as E4 by div_lia.
  assert ((c * 100 + q * 4 + y) / 100 = c) as E100 by div_lia.
  split; [lia|]. split; [lia|]. split.
  { unfold day_of_era. rewrite E4, E100. subst d doy r2 r. lia. }
  split; [done|]. destruct (decide (month_of mp = 2)) as [Em|Em]; [|by apply Hother].
  rewrite Em. cbn. destruct (Hfeb Em) as [H29 H365]. unfold daysIn. cbn [Z.eqb Pos.eqb].
  destruct (is_leap (c * 100 + q * 4 + y + 1)) eqn:El; [done|].
  destruct (decide (d = 29)) as [E|]; [|lia]. exfalso.
  destruct (Hleap (H365 E)) as [-> Hr1460]. unfold is_leap in El.
  assert ((c * 100 + q * 4 + 3 + 1) mod 4 = 0) as Hm4 by div_lia. rewrite Hm4 in El. cbn [Z.eqb andb] in El.
  apply orb_false_iff in El as [El1 El2]. apply negb_false_iff, Z.eqb_eq in El1. apply Z.eqb_neq in El2.
  destruct (decide (q = 24)) as [->|]; [|div_lia].
  rewrite (Hrc (Hqr eq_refl Hr1460)) in El2. done.
Qed.

Lemma is_leap_shift y k : is_leap (y + k * 400) = is_leap y.
Proof.
  unfold is_leap. replace ((y + k * 400) mod 4) with (y mod 4) by div_lia.
  replace ((y + k * 400) mod 100) with (y mod 100) by div_lia.
  by replace ((y + k * 400) mod 400) with (y mod 400) by div_lia.
Qed.
Lemma daysIn_shift m y k : daysIn m (y + k * 400) = daysIn m y.
Proof. unfold daysIn. by rewrite is_leap_shift. Qed.

Lemma civil_roundtrip z :
  let '(y, m, d) := civil_from_days z in
  days_from_civil y m d = z ∧ 1 ≤ m ≤ 12 ∧ 1 ≤ d ≤ daysIn m y ∧ d ≤ 31.
Proof.
  unfold civil_from_days. set (z' := z + 719468).
  pose proof (of_day_of_era_spec (z' mod 146097) ltac:(div_lia)) as H.
  destruct (of_day_of_era (z' mod 146097)) as [[yoe mp] d]. destruct H as (Hy&Hmp&Hdoe&Hd).
  fold (month_of mp). cbv zeta. rewrite daysIn_shift.
  assert (1 ≤ month_of mp ≤ 12) as Hm by (unfold month_of; destruct (mp <? 10) eqn:?; bool_hyps; lia).
  split_and!; try lia.
  - unfold days_from_civil. set (era := z' / 146097).
    assert ((if month_of mp <=? 2 then (if month_of mp <=? 2 then yoe + 1 else yoe) + era * 400 - 1
             else (if month_of mp <=? 2 then yoe + 1 else yoe) + era * 400) = yoe + era * 400) as ->
      by (destruct (month_of mp <=? 2); lia).
    replace ((yoe + era * 400) / 400) with era by div_lia.
    replace ((yoe + era * 400) mod 400) with yoe by div_lia.
    replace ((month_of mp + 9) mod 12) with mp
      by (unfold month_of; destruct (mp <? 10) eqn:?; bool_hyps; div_lia).
    rewrite Hdoe. subst era z'. div_lia.
  - destruct Hd as [_ Hd]. unfold daysIn in Hd. repeat split_match_in Hd; lia.
Qed.

(** The days of the years 0 to 9999. *)
Lemma days_from_civil_range y m d :
  0 ≤ y ≤ 9999 → 1 ≤ m ≤ 12 → 1 ≤ d ≤ 31 → -719528 ≤ days_from_civil y m d ≤ 2932896.
Proof.
  intros Hy Hm Hd. unfold days_from_civil, day_of_era.
  destruct (Z.leb_spec m 2).
  - replace ((m + 9) mod 12) with (m + 9) by div_lia. div_lia.
  - replace ((m + 9) mod 12) with (m - 3) by div_lia. div_lia.
Qed.
Lemma civil_year_range z :
  -719528 ≤ z ≤ 2932896 → let '(y, _, _) := civil_from_days z in 0 ≤ y ≤ 9999.
Proof.
  intros Hz. unfold civil_from_days. set (z' := z + 719468).
  pose proof (of_day_of_era_spec (z' mod 146097) ltac:(div_lia)) as H.
  destruct (of_day_of_era (z' mod 146097)) as [[yoe mp] d]. destruct H as (Hy&Hmp&Hdoe&Hd).
  assert (d ≤ 31) as Hd31 by (unfold daysIn in Hd; repeat split_match_in Hd; lia).
  unfold day_of_era in Hdoe. cbv zeta.
  destruct (Z.ltb_spec mp 10), (Z.leb_spec (mp + 3) 2), (Z.leb_spec (mp - 9) 2); try lia.
  - div_lia.
  - div_lia.
Qed.

(** ** Numbers read back *)

Lemma dig_digit z : is_digit (dig z) = true ∧ digit_val (dig z) = z mod 10.
Proof.
  unfold dig. pose proof (Z.mod_pos_bound z 10 ltac:(lia)).
  split; [by apply is_digit_digit|by apply digit_val_digit].
Qed.
Lemma num2_pad2 z T : 0 ≤ z < 100 → num2 (pad2 z +:+ T) = Some (z, T).
Proof.
  intros Hz. unfold pad2. rewrite !str_app_cons, str_app_nil_l. cbn [num2].
  destruct (dig_digit (z / 10)) as [-> ->], (dig_digit z) as [-> ->]. cbn. do 2 f_equal. div_lia.
Qed.
Lemma num12_pad2 z T : 0 ≤ z < 100 → num12 (pad2 z +:+ T) = Some (z, T).
Proof. intros Hz. unfold num12. by rewrite num2_pad2. Qed.
Lemma num4_pad4 z T : 0 ≤ z ≤ 9999 → num4 (pad4 z +:+ T) = Some (z, T).
Proof.
  intros Hz. unfold num4, pad4. rewrite str_app_assoc, num2_pad2 by div_lia. cbn [mbind option_bind].
  assert (pad2 z = pad2 (z mod 100)) as ->.
  { unfold pad2, dig. assert ((z / 10) mod 10 = (z mod 100 / 10) mod 10) as -> by div_lia.
    by assert (z mod 10 = (z mod 100) mod 10) as -> by div_lia. }
  rewrite num2_pad2 by div_lia. cbn [mbind option_bind]. do 2 f_equal. div_lia.
Qed.

Lemma parse_frac_digits n acc z T :
  0 ≤ z < 10 ^ Z.of_nat n → (∀ c r, T = String c r → is_digit c = false) →
  parse_frac n acc (frac_digits n z +:+ T) = (acc + z, T).
Proof.
  intros Hz HT. revert acc z Hz.
  assert (∀ n acc, parse_frac n acc T = (acc, T)) as Hend.
  { intros k acc. destruct T as [|c r]; [done|]. cbn. by rewrite (HT c r). }
  induction n as [|n IH]; intros acc z Hz.
  - cbn in Hz. assert (z = 0) as -> by lia. cbn [frac_digits]. rewrite str_app_nil_l, Hend. f_equal. lia.
  - cbn [frac_digits]. destruct (Z.eqb_spec z 0) as [->|Hne].
    { rewrite str_app_nil_l, Hend. f_equal. lia. }
    rewrite Nat2Z.inj_succ, Z.pow_succ_r in Hz by lia.
    set (p := 10 ^ Z.of_nat n) in *. assert (0 < p) as Hp by (subst p; apply Z.pow_pos_nonneg; lia).
    assert (0 ≤ z / p < 10) as Hq.
    { split; [apply Z.div_pos; lia|apply Z.div_lt_upper_bound; lia]. }
    rewrite str_app_cons. cbn [parse_frac]. rewrite is_digit_digit, digit_val_digit by done. fold p.
    rewrite IH by (apply Z.mod_pos_bound; lia). f_equal. pose proof (Z.div_mod z p ltac:(lia)). lia.
Qed.
Lemma fraction_format ns T :
  0 ≤ ns < 10 ^ 9 →
  (∀ c r, T = String c r → is_digit c = false ∧ Ascii.eqb c "." = false ∧ Ascii.eqb c "," = false) →
  fraction (format_frac ns +:+ T) = (ns, T).
Proof.
  intros Hns HT. unfold format_frac. destruct (Z.eqb_spec ns 0) as [->|Hne].
  - rewrite str_app_nil_l. destruct T as [|p [|c r]]; [done..|]. cbn.
    by destruct (HT p (String c r) eq_refl) as (_&->&->).
  - assert (∃ c r, frac_digits 9 ns = String c r ∧ is_digit c = true) as (c&r&E&Hc).
    { cbn [frac_digits]. destruct (Z.eqb_spec ns 0); [done|]. eexists _, _. split; [done|].
      apply is_digit_digit. cbn -[Z.pow Z.div]. split; [apply Z.div_pos; lia|apply Z.div_lt_upper_bound; lia]. }
    rewrite str_app_cons. unfold fraction. rewrite E, str_app_cons, Hc. cbn [Ascii.eqb orb andb].
    change (Ascii.eqb "." ".") with true. cbn [orb andb]. rewrite <-str_app_cons, <-E.
    rewrite parse_frac_digits; [f_equal; lia|done|]. intros c' r' Hr. by eapply HT.
Qed.

(** The instants of the years 0 to 9999. *)
Definition rfc3339_range (t : Time) : Prop :=
  let '(y, _, _) := civil_from_days (t / Day_ns) in 0 ≤ y ≤ 9999.

Definition not_fraction (T : string) : Prop :=
  ∀ c r, T = String c r → is_digit c = false ∧ Ascii.eqb c "." = false ∧ Ascii.eqb c "," = false.
Lemma Parse_Format_with T off t :
  zone T = Some (off, "") → not_fraction T → rfc3339_range t →
  Parse_RFC3339 (Format_with T t) = Some (t - off * Second).
Proof.
  intros HT Hfrac. unfold rfc3339_range, Format_with. pose proof (civil_roundtrip (t / Day_ns)) as Hc.
  destruct (civil_from_days (t / Day_ns)) as [[y m] d]. destruct Hc as (Hdays&Hm&Hd&Hd31). intros Hy.
  set (ns := t mod Day_ns). assert (0 ≤ ns < Day_ns) as Hns by (apply Z.mod_pos_bound; by vm_compute).
  set (s := ns / Second). assert (0 ≤ s < 86400) as Hs by (subst s; unfold Day_ns, Second in *; div_lia).
  cbv zeta. unfold format_year. replace ((0 <=? y) && (y <=? 9999)) with true
    by (symmetry; apply andb_true_iff; split; apply Z.leb_le; lia).
  unfold Parse_RFC3339. 
  repeat first
    [rewrite num4_pad4 by lia
    |rewrite num12_pad2 by div_lia
    |rewrite num2_pad2 by div_lia
    |rewrite (str_app_cons _ ""), (str_app_nil_l (_ +:+ _)); cbn [lit]; rewrite Ascii.eqb_refl; cbv iota
    |progress cbn [mbind option_bind]].
  rewrite fraction_format; [|unfold Second; div_lia|done].
  rewrite HT. cbn [mbind option_bind]. rewrite bool_decide_eq_false_2 by auto.
  assert ((m <? 1) || (12 <? m) || (24 <=? s / 3600) || (60 <=? (s / 60) mod 60) || (60 <=? s mod 60) = false) as ->.
  { rewrite !orb_false_iff, !Z.ltb_ge, !Z.leb_gt. split_and!; div_lia. }
  assert ((d <? 1) || (daysIn m y <? d) = false) as ->
    by (rewrite orb_false_iff, !Z.ltb_ge; lia).
  f_equal. rewrite Hdays. subst s ns. unfold Day_ns, Second in *. div_lia.
Qed.

(** What the format writes, the parser reads: the same instant. *)
Lemma Parse_Format t : rfc3339_range t → Parse_RFC3339 (Format_RFC3339Nano t) = Some t.
Proof.
  intros Ht. unfold Format_RFC3339Nano. rewrite (Parse_Format_with "Z" 0); [f_equal; lia|done| |done].
  by intros c r [= <- <-].
Qed.

(** Whole minutes, less than a day: what the layout can show. *)
Definition valid_offset (off : Duration) : Prop := off mod Minute = 0 ∧ Z.abs off < 24 * Hour.
Lemma zone_text_spec off :
  valid_offset off → zone (zone_text off) = Some (off / Second, "") ∧ not_fraction (zone_text off).
Proof.
  intros [Hm Hb]. unfold zone_text. destruct (Z.eqb_spec (off / Second) 0) as [E|Hne].
  { rewrite E. split; [done|]. by intros c r [= <- <-]. }
  apply Z.mod_divide in Hm as [k ->]; [|done]. replace (k * Minute / Second) with (k * 60) in * by (unfold Minute, Second; div_lia).
  assert (Z.abs k < 24 * 60) as Hk by (unfold Hour, Minute, Second in Hb; lia).
  replace (Z.quot (k * 60) 60) with k by (rewrite Z.quot_mul; lia). clear Hb. cbv zeta. split.
  2:{ intros c r [= <- _]. by destruct (k <? 0). }
  cbn [zone]. replace (Ascii.eqb _ "Z") with false by (by destruct (k <? 0)).
  rewrite num2_pad2 by div_lia. cbn [mbind option_bind].
  rewrite (str_app_cons _ ""), (str_app_nil_l (pad2 _)). cbn [lit]. rewrite Ascii.eqb_refl. cbn [mbind option_bind].
  rewrite <-(str_app_nil_r (pad2 (Z.abs k mod 60))), num2_pad2 by div_lia. cbn [mbind option_bind].
  rewrite (proj2 (orb_false_iff _ _)) by (rewrite !Z.ltb_ge; div_lia).
  destruct (Z.ltb_spec k 0); [change (Ascii.eqb "-" "+") with false; change (Ascii.eqb "-" "-") with true
    |change (Ascii.eqb "+" "+") with true]; cbv iota; repeat f_equal; div_lia.
Qed.
Lemma Parse_Format_in off t :
  valid_offset off → rfc3339_range (t + off) → Parse_RFC3339 (Format_in off t) = Some t.
Proof.
  intros Ho Ht. destruct (zone_text_spec off Ho) as [H1 H2]. unfold Format_in. rewrite (Parse_Format_with _ _ _ H1 H2 Ht).
  f_equal. destruct Ho as [Hm _]. unfold Minute, Second in *. div_lia.
Qed.

(** ** The text is ASCII *)

Lemma pad2_digits z : str_forall is_digit (pad2 z) = true.
Proof. unfold pad2. cbn. by rewrite !(proj1 (dig_digit _)). Qed.
Lemma frac_digits_digits n z : 0 ≤ z < 10 ^ Z.of_nat n → str_forall is_digit (frac_digits n z) = true.
Proof.
  revert z. induction n as [|n IH]; intros z Hz; [done|]. cbn [frac_digits].
  destruct (z =? 0); [done|]. rewrite Nat2Z.inj_succ, Z.pow_succ_r in Hz by lia.
  assert (0 < 10 ^ Z.of_nat n) by (apply Z.pow_pos_nonneg; lia). cbn [str_forall].
  rewrite is_digit_digit; [cbn|split; [apply Z.div_pos; lia|apply Z.div_lt_upper_bound; lia]].
  apply IH. apply Z.mod_pos_bound. lia.
Qed.
Definition is_ascii (c : ascii) : bool := code c <? 128.
Lemma is_digit_ascii c : is_digit c = true → is_ascii c = true.
Proof. destruct c as [[] [] [] [] [] [] [] []]; by vm_compute. Qed.
Lemma Format_ascii t : str_forall is_ascii (Format_RFC3339Nano t) = true.
Proof.
  assert (∀ s, str_forall is_digit s = true → str_forall is_ascii s = true) as Hd
    by (intros s; apply str_forall_impl, is_digit_ascii).
  unfold Format_RFC3339Nano, Format_with. destruct (civil_from_days _) as [[y m] d]. cbv zeta.
  rewrite !str_forall_app, !andb_true_iff. split_and!; try done; try (by apply Hd, pad2_digits).
  - assert (∀ z, str_forall is_ascii (pad4 z) = true) as H4.
    { intros z. unfold pad4. rewrite str_forall_app, !Hd by apply pad2_digits. done. }
    unfold format_year. destruct ((0 <=? y) && (y <=? 9999)) eqn:E; [apply H4|].
    destruct (Z.ltb_spec y 0); [|by apply Hd, Itoa_digits].
    rewrite str_forall_app. cbn. destruct (- y <=? 9999); [apply H4|]. apply Hd, Itoa_digits. lia.
  - unfold format_frac. destruct (_ =? 0); [done|]. cbn [str_forall]. apply Hd, frac_digits_digits.
    by apply Z.mod_pos_bound.
Qed.
