(* ===== verification/GoRegexp.v ===== *)
(** * Package [regexp]: leftmost-first matching

    The expressions the sources use, matched byte by byte with the priorities
    of Perl: alternatives in order, a greedy star takes what it can, a lazy
    one what it must.  A negated class takes the bytes of any other rune one
    by one; every such star in the sources is followed by ASCII text, where
    bytes and runes agree. *)

From S2P Require Import Prelude GoStrings.
From Stdlib Require Import Ascii.

Module regexp.

Inductive regexp :=
  | Empty
  | Class (p : ascii → bool)
  | Cat (a b : regexp)
  | Alt (a b : regexp)
  | Star (greedy : bool) (a : regexp)
  | Group (i : nat) (a : regexp)
  | WordBoundary.

Definition chr (c : ascii) : regexp := Class (Ascii.eqb c).
Definition none_of (c : ascii) : regexp := Class (λ a, negb (Ascii.eqb c a)).
Definition any : regexp := Class (λ _, true).
Fixpoint lit (s : string) : regexp :=
  match s with
  | "" => Empty
  | String c "" => chr c
  | String c s => Cat (chr c) (lit s)
  end.
Fixpoint seq (l : list regexp) : regexp :=
  match l with
  | [] => Empty
  | [a] => a
  | a :: l => Cat a (seq l)
  end.
Definition star (a : regexp) : regexp := Star true a.
Definition lazy_star (a : regexp) : regexp := Star false a.
Definition plus (a : regexp) : regexp := Cat a (Star true a).
Definition opt (a : regexp) : regexp := Alt a Empty.
(** [\s]: tab, newline, form feed, carriage return, space. *)
Definition is_re_space (c : ascii) : bool :=
  (code c =? 9) || (code c =? 10) || (code c =? 12) || (code c =? 13) || (code c =? 32).
Definition space : regexp := Class is_re_space.
Definition is_word (c : ascii) : bool := is_lower c || is_upper c || is_digit c || Ascii.eqb c "_".

(** The captured texts, by group. *)
Abbreviation captures := (list (nat * string)).
(** A match: what follows it, and its groups. *)
Abbreviation outcome := (option (string * captures)).
Abbreviation cont := (option ascii → string → captures → outcome).

Definition at_boundary (prev : option ascii) (s : string) : bool :=
  let before := match prev with Some c => is_word c | None => false end in
  let after := match s with String c _ => is_word c | "" => false end in
  xorb before after.

Definition orelse (a : outcome) (b : unit → outcome) : outcome :=
  match a with Some x => Some x | None => b tt end.

(** The iterations of a star: each must consume a byte, so the length of the
    text is enough fuel. *)
Fixpoint star_loop (greedy : bool) (body : cont → cont) (k : cont) (fuel : nat) : cont :=
  λ prev s caps,
    let more (_ : unit) :=
      match fuel with
      | O => None
      | S fuel =>
          body (λ prev' s' caps',
            if (String.length s' <? String.length s)%nat
            then star_loop greedy body k fuel prev' s' caps' else None) prev s caps
      end in
    if greedy then orelse (more tt) (λ _, k prev s caps) else orelse (k prev s caps) more.

(** Match [r] on a prefix of [s], then go on with [k]. *)
Fixpoint run (r : regexp) (k : cont) : cont :=
  match r with
  | Empty => k
  | Class p => λ _ s caps,
      match s with
      | String c s => if p c then k (Some c) s caps else None
      | "" => None
      end
  | Cat a b => run a (run b k)
  | Alt a b => λ prev s caps, orelse (run a k prev s caps) (λ _, run b k prev s caps)
  | Star greedy a => λ prev s caps, star_loop greedy (run a) k (String.length s) prev s caps
  | Group i a => λ prev s caps,
      run a (λ prev' s' caps', k prev' s' ((i, take_str (String.length s - String.length s') s) :: caps'))
        prev s caps
  | WordBoundary => λ prev s caps, if at_boundary prev s then k prev s caps else None
  end.

Definition accept : cont := λ _ s caps, Some (s, caps).

(** The leftmost match: where it starts, what follows it, its groups. *)
Fixpoint find_from (r : regexp) (prev : option ascii) (s : string) : option (string * string * captures) :=
  match run r accept prev s [] with
  | Some (rest, caps) => Some (s, rest, caps)
  | None => match s with
            | "" => None
            | String c s => find_from r (Some c) s
            end
  end.
Definition MatchString (r : regexp) (s : string) : bool :=
  match find_from r None s with Some _ => true | None => false end.
(** [FindStringSubmatch]: the groups of the leftmost match. *)
Definition Submatch (r : regexp) (s : string) : option captures := (λ m, m.2) <$> find_from r None s.
(** Group [i] of a match, [""] when it took no part. *)
Definition group (caps : captures) (i : nat) : string :=
  match find (λ c, bool_decide (c.1 = i)) caps with Some (_, s) => s | None => "" end.

Definition last_byte (s : string) (rest : string) (prev : option ascii) : option ascii :=
  match String.get (String.length s - String.length rest - 1) s with Some c => Some c | None => prev end.

(** Successive matches, each from the end of the one before; the expressions
    used here match no empty text. *)
Fixpoint find_all (fuel : nat) (r : regexp) (prev : option ascii) (s : string)
    : list (string * string * captures) :=
  match fuel with
  | O => []
  | S fuel =>
      match find_from r prev s with
      | None => []
      | Some (start, rest, caps) =>
          (start, rest, caps) ::
          if (String.length rest <? String.length start)%nat
          then find_all fuel r (last_byte start rest prev) rest else []
      end
  end.
Definition FindAll (r : regexp) (s : string) : list (string * string * captures) :=
  find_all (S (String.length s)) r None s.
(** [ReplaceAllString(s, "")]: what lies between the matches. *)
Fixpoint without (ms : list (string * string * captures)) (s : string) : string :=
  match ms with
  | [] => s
  | (start, rest, _) :: ms => take_str (String.length s - String.length start) s +:+ without ms rest
  end.
Definition RemoveAll (r : regexp) (s : string) : string := without (FindAll r s) s.

(** The texts from each match's start to the next one's, or to the end. *)
Fixpoint segments (ms : list (string * string * captures)) : list string :=
  match ms with
  | [] => []
  | [(start, _, _)] => [start]
  | (start, _, _) :: (((next, _), _) :: _) as ms =>
      take_str (String.length start - String.length next) start :: segments ms
  end.

Example run_examples :
  ((λ m, m.1.1) <$> FindAll (seq [lit "a"; star (none_of "b")]) "xaacb-a", 
   (λ c, group c 1) <$> Submatch (seq [lit "<"; Group 1 (lazy_star any); lit ">"]) "a<b>c>",
   MatchString (seq [WordBoundary; lit "ab"; WordBoundary]) "xab ab-")
  = (["aacb-a"; "a"], Some "b", true).
Proof. vm_compute. reflexivity. Qed.

End regexp.
