(* ===== verification/GoRegexpThms.v ===== *)
(** * Matching a literal text *)

From S2P Require Import Prelude GoStrings GoRegexp.
From Stdlib Require Import Ascii.
Import regexp.

(** ** A literal matches where the text occurs *)

Lemma run_lit p k prev s caps :
  (∀ prev' prev'' s' caps', k prev' s' caps' = k prev'' s' caps') →
  run (lit p) k prev s caps
  = if has_prefix p s then k prev (drop_str (String.length p) s) caps else None.
Proof.
  revert prev s. induction p as [|a p IH]; intros prev s Hk; [done|].
  destruct p as [|b p].
  - cbn. destruct s as [|c s]; [done|]. rewrite andb_true_r. destruct (Ascii.eqb a c); [|done]. by apply Hk.
  - change (run (lit (String a (String b p))) k) with (run (chr a) (run (lit (String b p)) k)).
    cbn [run chr]. destruct s as [|c s]; [done|].
    change (has_prefix (String a (String b p)) (String c s)) with (Ascii.eqb a c && has_prefix (String b p) s).
    destruct (Ascii.eqb a c); [|done]. rewrite IH by done. cbn [andb].
    change (drop_str (String.length (String a (String b p))) (String c s))
      with (drop_str (String.length (String b p)) s).
    destruct (has_prefix (String b p) s); [|done]. apply Hk.
Qed.

Lemma drop_str_S n c s : drop_str (S n) (String c s) = drop_str n s.
Proof. done. Qed.

Lemma find_lit p prev s :
  find_from (lit p) prev s =
  (λ i, (drop_str i s, drop_str (i + String.length p) s, [])) <$> index_of p s.
Proof.
  revert prev. induction s as [|c s IH]; intros prev; cbn [find_from index_of];
    rewrite run_lit by done.
  - by destruct (has_prefix p "").
  - destruct (has_prefix p (String c s)); [done|]. rewrite IH. by destruct (index_of p s).
Qed.
Lemma MatchString_lit p s : MatchString (lit p) s = contains s p.
Proof. unfold MatchString, contains. rewrite find_lit. by destruct (index_of p s). Qed.

(** ** Cutting a text at a literal *)

Lemma index_of_occurs p pre t : ∃ i, index_of p (pre +:+ (p +:+ t)) = Some i ∧ (i ≤ String.length pre)%nat.
Proof.
  induction pre as [|c pre IH].
  - rewrite str_app_nil_l. exists 0%nat. split; [|done]. pose proof (has_prefix_app p t).
    destruct (p +:+ t); cbn; by rewrite H.
  - rewrite str_app_cons. cbn [index_of]. destruct (has_prefix p _); [by exists 0%nat; split; [|lia]|].
    destruct IH as (i&->&Hi). exists (S i). cbn. split; [done|lia].
Qed.
(** What precedes the first occurrence has none. *)
Lemma index_of_before p pre t :
  p ≠ "" → index_of p (pre +:+ t) = Some (String.length pre) → contains pre p = false.
Proof.
  intros Hp H. unfold contains. destruct (index_of p pre) as [i|] eqn:E; [|done].
  apply index_of_Some in E as (a&b&E&<-).
  subst pre. rewrite !str_app_assoc in H. destruct (index_of_occurs p a (b +:+ t)) as (i&Hi&Hle).
  rewrite Hi in H. injection H as ->. rewrite !length_app_str in Hle. destruct p; [done|]. cbn in Hle. lia.
Qed.

(** A text cut at every occurrence of [p]. *)
Inductive cut_at (p : string) : string → string → list string → Prop :=
  | cut_none s : contains s p = false → cut_at p s s []
  | cut_first head tail rest rows s :
      contains head p = false → cut_at p s tail rows → rest = p +:+ s →
      cut_at p (head +:+ rest) head ((p +:+ tail) :: rows).

(** The pieces, put together again, are the text. *)
Lemma cut_at_concat p s head rows :
  cut_at p s head rows → s = head +:+ String.concat "" rows ∧ contains head p = false
    ∧ Forall (λ row, ∃ tail, row = p +:+ tail ∧ contains tail p = false) rows.
Proof.
  induction 1 as [s H|head tail rest rows s Hh Hcut IH ->].
  - split_and!; [by rewrite str_app_nil_r|done|constructor].
  - destruct IH as (E&Ht&Hrows). split_and!; [|done|constructor; [by exists tail|done]].
    f_equal. rewrite E. destruct rows as [|row rows]; cbn [String.concat].
    + by rewrite !str_app_nil_r.
    + by rewrite str_app_assoc, str_app_nil_l.
Qed.

Lemma take_app_length_str a b n : n = String.length a → take_str n (a +:+ b) = a.
Proof. intros ->. apply take_str_app. Qed.
Lemma drop_app_length_str a b n : n = String.length a → drop_str n (a +:+ b) = b.
Proof. intros ->. apply drop_str_app. Qed.

Lemma find_all_lit p fuel prev s :
  p ≠ "" → (String.length s < fuel)%nat →
  ∃ head, cut_at p s head (segments (find_all fuel (lit p) prev s))
    ∧ match find_all fuel (lit p) prev s with
      | [] => head = s
      | (start, _, _) :: _ => s = head +:+ start
      end.
Proof.
  intros Hp. revert prev s. induction fuel as [|fuel IH]; intros prev s Hf; [lia|]. cbn [find_all].
  rewrite find_lit. destruct (index_of p s) as [i|] eqn:E; cbn [fmap option_fmap option_map].
  2:{ exists s. split; [|done]. constructor. unfold contains. by rewrite E. }
  pose proof E as Ei. apply index_of_Some in E as (head&rest&Es&Hi). subst i.
  assert (drop_str (String.length head) s = p +:+ rest) as Hstart by (rewrite Es; apply drop_str_app).
  assert (drop_str (String.length head + String.length p) s = rest) as Hrest.
  { rewrite Es, <-str_app_assoc. apply drop_app_length_str. by rewrite length_app_str. }
  rewrite Hstart, Hrest.
  assert ((String.length rest <? String.length (p +:+ rest))%nat = true) as ->.
  { apply Nat.ltb_lt. rewrite length_app_str. destruct p; [done|]. cbn. lia. }
  destruct (IH (last_byte (p +:+ rest) rest prev) rest) as (tail&Hcut&Hfirst).
  { rewrite Es, !length_app_str in Hf. destruct p; [done|]. cbn in Hf. lia. }
  exists head. split; [|by rewrite Es].
  assert (contains head p = false) as Hh.
  { apply (index_of_before p head (p +:+ rest)); [done|]. by rewrite <-Es. }
  set (ms := find_all fuel (lit p) _ rest) in *.
  assert (segments ((p +:+ rest, rest, []) :: ms) = (p +:+ tail) :: segments ms) as ->.
  { cbn [segments]. destruct ms as [|[[next ?] ?] ms]; [by rewrite Hfirst|]. f_equal.
    rewrite Hfirst, <-str_app_assoc. apply take_app_length_str. rewrite !length_app_str. lia. }
  rewrite Es. by eapply cut_first.
Qed.
Lemma FindAll_lit p s :
  p ≠ "" → ∃ head, cut_at p s head (segments (FindAll (lit p) s))
    ∧ (FindAll (lit p) s = [] ↔ contains s p = false).
Proof.
  intros Hp. unfold FindAll. destruct (find_all_lit p (S (String.length s)) None s Hp) as (head&Hcut&_); [lia|].
  exists head. split; [done|]. cbn [find_all]. rewrite find_lit. unfold contains.
  by destruct (index_of p s).
Qed.
