(* ===== verification/GoRegexpSpec.v ===== *)
(** * The language of an expression, and what the matcher finds in a text

    [matches r b caps]: the text [b] is in the language of [r], with the
    captures [caps].  The matcher is sound for it, and complete for
    expressions without [\b]; every search succeeds exactly when some part of
    the text is in the language. *)

From S2P Require Import Prelude GoStrings GoRegexp GoRegexpThms.
From Stdlib Require Import Ascii.
Import regexp.

Inductive matches : regexp → string → captures → Prop :=
  | m_empty : matches Empty "" []
  | m_class p c : p c = true → matches (Class p) (String c "") []
  | m_cat a b s t cs ct : matches a s cs → matches b t ct → matches (Cat a b) (s +:+ t) (ct ++ cs)
  | m_left a b s cs : matches a s cs → matches (Alt a b) s cs
  | m_right a b s cs : matches b s cs → matches (Alt a b) s cs
  | m_stop g a : matches (Star g a) "" []
  | m_more g a s t cs ct :
      s ≠ "" → matches a s cs → matches (Star g a) t ct → matches (Star g a) (s +:+ t) (ct ++ cs)
  | m_group i a s cs : matches a s cs → matches (Group i a) s ((i, s) :: cs)
  | m_boundary : matches WordBoundary "" [].

(** ** Soundness *)

Definition continues (k : cont) (r : regexp) (s : string) (caps : captures) (out : string * captures) : Prop :=
  ∃ b s' cs prev', s = b +:+ s' ∧ matches r b cs ∧ k prev' s' (cs ++ caps) = Some out.

Lemma orelse_Some a b out : orelse a b = Some out → a = Some out ∨ b tt = Some out.
Proof. destruct a; [by left|by right]. Qed.

Lemma star_loop_sound g a k fuel prev s caps out :
  (∀ k prev s caps out, run a k prev s caps = Some out → continues k a s caps out) →
  star_loop g (run a) k fuel prev s caps = Some out → continues k (Star g a) s caps out.
Proof.
  intros Ha. revert prev s caps. induction fuel as [|fuel IH]; intros prev s caps H.
  - assert (k prev s caps = Some out) as Hk.
    { cbn [star_loop] in H. destruct g; [done|]. by apply orelse_Some in H as [?|?]. }
    exists "", s, [], prev. split_and!; [done|constructor|done].
  - assert (k prev s caps = Some out
            ∨ run a (λ prev' s' caps', if (String.length s' <? String.length s)%nat
                                       then star_loop g (run a) k fuel prev' s' caps' else None) prev s caps
              = Some out) as [Hk|Hm].
    { cbn [star_loop] in H. destruct g; apply orelse_Some in H as [?|?]; auto. }
    { exists "", s, [], prev. split_and!; [done|constructor|done]. }
    apply Ha in Hm as (b&s'&cs&prev'&->&Hb&Hm). destruct (_ <? _)%nat eqn:El; [|done].
    apply IH in Hm as (t&s''&ct&prev''&->&Ht&Hk). exists (b +:+ t), s'', (ct ++ cs), prev''.
    split_and!; [by rewrite str_app_assoc|constructor; [|done..]|by rewrite <-app_assoc].
    intros ->. rewrite Nat.ltb_lt, str_app_nil_l in El. lia.
Qed.

Lemma take_length_sub b s' : take_str (String.length (b +:+ s') - String.length s') (b +:+ s') = b.
Proof. apply take_app_length_str. rewrite length_app_str. lia. Qed.

Lemma run_sound r k prev s caps out : run r k prev s caps = Some out → continues k r s caps out.
Proof.
  revert k prev s caps out.
  induction r as [|p|a IHa b IHb|a IHa b IHb|g a IHa|i a IHa|]; intros k prev s caps out H; cbn [run] in H.
  - exists "", s, [], prev. split_and!; [done|constructor|done].
  - destruct s as [|c s]; [done|]. destruct (p c) eqn:Hp; [|done].
    exists (String c ""), s, [], (Some c). split_and!; [done|by constructor|done].
  - apply IHa in H as (x&s'&cs&prev'&->&Hx&H). apply IHb in H as (y&s''&ct&prev''&->&Hy&H).
    exists (x +:+ y), s'', (ct ++ cs), prev''.
    split_and!; [by rewrite str_app_assoc|by constructor|by rewrite <-app_assoc].
  - apply orelse_Some in H as [H|H].
    + apply IHa in H as (x&s'&cs&prev'&->&Hx&H). exists x, s', cs, prev'. split_and!; [done|by constructor|done].
    + apply IHb in H as (x&s'&cs&prev'&->&Hx&H). exists x, s', cs, prev'. split_and!; [done|by constructor|done].
  - eapply star_loop_sound; [|exact H]. intros. by eapply IHa.
  - apply IHa in H as (x&s'&cs&prev'&->&Hx&H). rewrite take_length_sub in H.
    exists x, s', ((i, x) :: cs), prev'. split_and!; [done|by constructor|done].
  - destruct (at_boundary prev s); [|done]. exists "", s, [], prev. split_and!; [done|constructor|done].
Qed.

(** ** Completeness *)

Fixpoint plain (r : regexp) : bool :=
  match r with
  | WordBoundary => false
  | Cat a b | Alt a b => plain a && plain b
  | Star _ a | Group _ a => plain a
  | _ => true
  end.

(** The continuation succeeds on [s'], whatever came before. *)
Definition accepts (k : cont) (s' : string) : Prop := ∀ prev caps, is_Some (k prev s' caps).

Lemma orelse_is_Some a b : is_Some a ∨ is_Some (b tt) → is_Some (orelse a b).
Proof. destruct a; [by eexists|]. by intros [[? ?]|?]. Qed.

Lemma star_loop_stop g body k fuel s : accepts k s → accepts (star_loop g body k fuel) s.
Proof.
  intros Hk prev caps. destruct fuel; cbn [star_loop]; destruct g; apply orelse_is_Some; auto using Hk.
Qed.

(** Only the values of the continuation matter. *)
Lemma run_ext r k k' :
  (∀ prev s caps, k prev s caps = k' prev s caps) → ∀ prev s caps, run r k prev s caps = run r k' prev s caps.
Proof.
  revert k k'. induction r as [|p|a IHa b IHb|a IHa b IHb|g a IHa|i a IHa|];
    intros k k' Hk prev s caps; cbn [run]; auto.
  - destruct s; [done|]. by destruct (p a).
  - by rewrite (IHa k k'), (IHb k k').
  - generalize (String.length s) as fuel. intros fuel. revert prev s caps.
    induction fuel as [|fuel IH]; intros prev s caps; cbn [star_loop]; rewrite Hk; [done|].
    erewrite (IHa _ (λ prev' s' caps', if (String.length s' <? String.length s)%nat
                     then star_loop g (run a) k' fuel prev' s' caps' else None)); [done|]. intros prev' s' caps'. cbv beta. by rewrite IH.
  - by destruct (at_boundary prev s).
Qed.
Lemma run_none r prev s caps : run r (λ _ _ _, None) prev s caps = None.
Proof.
  destruct (run r _ prev s caps) as [out|] eqn:E; [|done].
  apply run_sound in E as (b&s'&cs&prev'&_&_&E). done.
Qed.
Lemma star_loop_fuel g a k f1 f2 prev s caps :
  (String.length s ≤ f1)%nat → (String.length s ≤ f2)%nat →
  star_loop g (run a) k f1 prev s caps = star_loop g (run a) k f2 prev s caps.
Proof.
  assert (∀ f s prev caps, String.length s = 0%nat →
    star_loop g (run a) k f prev s caps = star_loop g (run a) k 0 prev s caps) as H0.
  { intros f s' prev' caps' Hs. destruct f as [|f]; [done|]. cbn [star_loop].
    rewrite (run_ext a _ (λ _ _ _, None)), run_none; [done|].
    intros. rewrite Hs. by destruct (_ <? _)%nat eqn:E; [apply Nat.ltb_lt in E; lia|]. }
  revert f2 prev s caps. induction f1 as [|f1 IH]; intros f2 prev s caps Hf1 Hf2.
  { symmetry. apply H0. lia. }
  destruct f2 as [|f2]; [apply H0; lia|]. cbn [star_loop].
  erewrite (run_ext a); [done|]. intros prev' s' caps'. cbv beta.
  destruct (String.length s' <? String.length s)%nat eqn:E; [|done]. apply Nat.ltb_lt in E. apply IH; lia.
Qed.

Lemma run_complete r b cs :
  matches r b cs → plain r = true → ∀ k s', accepts k s' → accepts (run r k) (b +:+ s').
Proof.
  induction 1 as [|p c Hp|a b s t cs ct Ha IHa Hb IHb|a b s cs Ha IHa|a b s cs Hb IHb|g a
    |g a s t cs ct Hs Ha IHa Hst IHst|i a s cs Ha IHa|]; cbn [plain]; intros Hpl k s' Hk.
  - done.
  - intros prev caps. rewrite str_app_cons, str_app_nil_l. cbn [run]. rewrite Hp. apply Hk.
  - apply andb_true_iff in Hpl as [??]. rewrite str_app_assoc. apply IHa; [done|]. by apply IHb.
  - apply andb_true_iff in Hpl as [??]. intros prev caps. apply orelse_is_Some. left. by apply IHa.
  - apply andb_true_iff in Hpl as [??]. intros prev caps. apply orelse_is_Some. right. by apply IHb.
  - by apply star_loop_stop.
  - intros prev caps. cbn [run]. rewrite str_app_assoc.
    assert ((String.length (t +:+ s') < String.length (s +:+ (t +:+ s')))%nat) as Hlt.
    { rewrite (length_app_str s). destruct s; [done|]. cbn. lia. }
    destruct (String.length (s +:+ (t +:+ s'))) as [|fuel] eqn:Ef; [lia|]. cbn [star_loop].
    assert (is_Some (run a (λ prev' s'0 caps', if (String.length s'0 <? S fuel)%nat
        then star_loop g (run a) k fuel prev' s'0 caps' else None) prev (s +:+ (t +:+ s')) caps)) as Hmore.
    { apply IHa; [done|]. intros prev' caps'. cbn beta. apply Nat.ltb_lt in Hlt as El. rewrite El.
      rewrite (star_loop_fuel g a k fuel (String.length (t +:+ s'))) by lia. by apply IHst. }
    rewrite Ef. destruct g; apply orelse_is_Some; auto.
  - intros prev caps. cbn [run]. apply IHa; [done|]. intros prev' caps'. apply Hk.
  - done.
Qed.

(** ** Searching *)

(** Some part of the text is in the language. *)
Definition occurs (r : regexp) (s : string) : Prop :=
  ∃ pre b post cs, s = pre +:+ (b +:+ post) ∧ matches r b cs.

Lemma find_from_sound r prev s start rest caps :
  find_from r prev s = Some (start, rest, caps) →
  ∃ pre b, s = pre +:+ start ∧ start = b +:+ rest ∧ matches r b caps.
Proof.
  revert prev. induction s as [|c s IH]; intros prev; cbn [find_from].
  all: destruct (run r accept prev _ []) as [[rest' caps']|] eqn:E.
  1,3: apply run_sound in E as (b&s'&cs&prev'&Eb&Hb&Ea); unfold accept in Ea;
    rewrite app_nil_r in Ea; injection Ea as <- <-; intros [= <- <- <-]; exists "", b; done.
  - done.
  - intros H. apply IH in H as (pre&b&->&->&Hb). exists (String c pre), b. by rewrite str_app_cons.
Qed.
(** No match starts before the one that is found. *)
Lemma find_from_leftmost r prev pre b t cs :
  matches r b cs → plain r = true →
  ∃ start rest caps, find_from r prev (pre +:+ (b +:+ t)) = Some (start, rest, caps)
    ∧ (String.length (b +:+ t) ≤ String.length start)%nat.
Proof.
  intros Hb Hpl. revert prev. induction pre as [|c pre IH]; intros prev.
  - rewrite str_app_nil_l.
    assert (is_Some (run r accept prev (b +:+ t) [])) as [[rest caps] E].
    { eapply run_complete; [done|done|]. intros ??. by eexists. }
    exists (b +:+ t), rest, caps. split; [|done]. destruct (b +:+ t); cbn [find_from]; by rewrite E.
  - rewrite str_app_cons. cbn [find_from]. destruct (run r accept prev _ []) as [[rest caps]|].
    + eexists _, rest, caps. split; [done|]. cbn. rewrite (length_app_str pre). lia.
    + apply IH.
Qed.

Lemma find_from_occurs r prev s : plain r = true → occurs r s ↔ is_Some (find_from r prev s).
Proof.
  intros Hpl. split.
  - intros (pre&b&post&cs&->&Hb).
    destruct (find_from_leftmost r prev pre b post cs Hb Hpl) as (?&?&?&->&_). by eexists.
  - intros [[[start rest] caps] H]. apply find_from_sound in H as (pre&b&->&->&Hb). by exists pre, b, rest, caps.
Qed.
Lemma MatchString_occurs r s : plain r = true → MatchString r s = true ↔ occurs r s.
Proof.
  intros Hpl. rewrite (find_from_occurs r None s Hpl). unfold MatchString.
  destruct (find_from r None s); split; [by eexists|done|done|by intros []].
Qed.
Lemma Submatch_sound r s caps : Submatch r s = Some caps → ∃ pre b post, s = pre +:+ (b +:+ post) ∧ matches r b caps.
Proof.
  unfold Submatch. destruct (find_from r None s) as [[[start rest] caps']|] eqn:E; [|done]. intros [= <-].
  apply find_from_sound in E as (pre&b&->&->&Hb). by exists pre, b, rest.
Qed.

(** ** Cutting a text at every match *)

(** A piece begins with a match and holds no other one after it. *)
Definition piece (r : regexp) (row : string) : Prop :=
  ∃ b cs tail, row = b +:+ tail ∧ matches r b cs ∧ ¬ occurs r tail.

Section cutting.
Context (r : regexp) (Hplain : plain r = true) (Hnonempty : ∀ b cs, matches r b cs → b ≠ "").

Lemma find_from_before prev s start rest caps :
  find_from r prev s = Some (start, rest, caps) →
  ∃ pre b, s = pre +:+ start ∧ start = b +:+ rest ∧ matches r b caps ∧ ¬ occurs r pre.
Proof.
  intros H. pose proof (find_from_sound _ _ _ _ _ _ H) as (pre&b&Es&Eb&Hb). exists pre, b.
  split_and!; [done..|]. intros (x&b'&y&cs&->&Hb').
  destruct (find_from_leftmost r prev x b' (y +:+ start) cs Hb' Hplain) as (start'&rest'&caps'&H'&Hle).
  rewrite Es, !str_app_assoc in H. rewrite H in H'. injection H' as <- _ _.
  rewrite !length_app_str in Hle. specialize (Hnonempty _ _ Hb'). destruct b'; [done|]. cbn in Hle. lia.
Qed.

Lemma find_all_rows fuel prev s :
  (String.length s < fuel)%nat →
  ∃ head, s = head +:+ String.concat "" (segments (find_all fuel r prev s))
    ∧ ¬ occurs r head ∧ Forall (piece r) (segments (find_all fuel r prev s))
    ∧ match find_all fuel r prev s with
      | [] => head = s
      | (start, _, _) :: _ => s = head +:+ start
      end.
Proof.
  revert prev s. induction fuel as [|fuel IH]; intros prev s Hf; [lia|]. cbn [find_all].
  destruct (find_from r prev s) as [[[start rest] caps]|] eqn:E.
  2:{ exists s. cbn. split_and!; [by rewrite str_app_nil_r| |constructor|done].
      rewrite (find_from_occurs r prev s Hplain), E. by intros []. }
  apply find_from_before in E as (pre&b&Es&Eb&Hb&Hpre). pose proof (Hnonempty _ _ Hb) as Hne.
  assert (String.length rest < String.length start)%nat as Hlt.
  { rewrite Eb, length_app_str. destruct b; [done|]. cbn. lia. }
  rewrite (proj2 (Nat.ltb_lt _ _) Hlt).
  destruct (IH (last_byte start rest prev) rest) as (head&Hs&Hno&Hrows&Hfirst).
  { rewrite Es, length_app_str in Hf. lia. }
  set (ms := find_all fuel r _ rest) in *. exists pre.
  assert (segments ((start, rest, caps) :: ms) = (b +:+ head) :: segments ms) as ->.
  { cbn [segments]. destruct ms as [|[[next ?] ?] ms']; [by rewrite Hfirst, Eb|]. f_equal.
    rewrite Eb, Hfirst, <-str_app_assoc. apply take_app_length_str. rewrite !length_app_str. lia. }
  split_and!; [|done|constructor; [by exists b, caps, head|done]|done].
  rewrite Es, Eb, Hs at 1. f_equal. destruct (segments ms); cbn [String.concat];
    by rewrite ?str_app_nil_r, ?str_app_nil_l, ?str_app_assoc.
Qed.
Lemma FindAll_rows s :
  ∃ head, s = head +:+ String.concat "" (segments (FindAll r s))
    ∧ ¬ occurs r head ∧ Forall (piece r) (segments (FindAll r s))
    ∧ (FindAll r s = [] ↔ ¬ occurs r s).
Proof.
  unfold FindAll. destruct (find_all_rows (S (String.length s)) None s) as (head&?&?&?&_); [lia|].
  exists head. split_and!; [done..|]. rewrite (find_from_occurs r None s Hplain). cbn [find_all].
  destruct (find_from r None s) as [[[start rest] caps]|]; split; [done| |by intros _ []|done].
  intros H'. exfalso. apply H'. by eexists.
Qed.
End cutting.

Lemma segments_length ms : length (segments ms) = length ms.
Proof. induction ms as [|[[start rest] caps] [|[[next ?] ?] ms] IH]; cbn in *; congruence. Qed.

(** ** What the common expressions match *)

Lemma matches_lit_iff p b cs : matches (lit p) b cs ↔ b = p ∧ cs = [].
Proof.
  revert b cs. induction p as [|c [|d p] IH]; intros b cs.
  - split; [by inversion 1|intros [-> ->]; constructor].
  - split.
    + inversion 1 as [|? c' Hc| | | | | | |]; subst. by apply Ascii.eqb_eq in Hc as ->.
    + intros [-> ->]. constructor. by apply Ascii.eqb_eq.
  - change (lit (String c (String d p))) with (Cat (chr c) (lit (String d p))). split.
    + inversion 1 as [| |? ? s t cs' ct Hc Ht| | | | | |]; subst. apply IH in Ht as [-> ->].
      inversion Hc as [|? c' Hc'| | | | | | |]; subst. by apply Ascii.eqb_eq in Hc' as ->.
    + intros [-> ->]. change (String c (String d p)) with (String c "" +:+ String d p).
      change (@nil (nat * string)) with ([] ++ [] : captures). constructor; [|by apply IH].
      constructor. by apply Ascii.eqb_eq.
Qed.
Lemma matches_class p b cs : matches (Class p) b cs → ∃ c, b = String c "" ∧ p c = true ∧ cs = [].
Proof. inversion 1; subst; eauto. Qed.
Lemma matches_cat a c b cs :
  matches (Cat a c) b cs → ∃ s t cs' ct, b = s +:+ t ∧ matches a s cs' ∧ matches c t ct ∧ cs = ct ++ cs'.
Proof. inversion 1; subst. eauto 10. Qed.
Lemma matches_group i a b cs : matches (Group i a) b cs → ∃ cs', cs = (i, b) :: cs' ∧ matches a b cs'.
Proof. inversion 1; subst; eauto. Qed.
Lemma matches_alt a c b cs : matches (Alt a c) b cs → matches a b cs ∨ matches c b cs.
Proof. inversion 1; subst; auto. Qed.
Lemma matches_star_class g p b cs : matches (Star g (Class p)) b cs → str_forall p b = true ∧ cs = [].
Proof.
  remember (Star g (Class p)) as r eqn:Er. intros H.
  induction H as [| | | | | |g' a s t cs ct _ Ha _ Hst IH| |]; try discriminate; [done|].
  injection Er as -> ->. apply matches_class in Ha as (c&->&Hc&->). destruct IH as [Ht ->]; [done|].
  by rewrite str_app_cons, str_app_nil_l; cbn; rewrite Hc.
Qed.
