(* ===== verification/GoUrl.v ===== *)
(** * Package [net/url], as the program uses it

    Escaping of path segments and of queries, [url.Values] with its encoding,
    and [strings.Split] and [strings.Join] for a separator of one byte.  The
    parser and the printer of whole URLs are parameters where they are
    needed. *)

From S2P Require Import Prelude GoStrings.
From Stdlib Require Import Ascii.

(** ** [strings.Split] and [strings.Join] *)

Fixpoint Split (c : ascii) (s : string) : list string :=
  match s with
  | "" => [""]
  | String a r =>
      if Ascii.eqb a c then "" :: Split c r
      else match Split c r with
           | w :: ws => String a w :: ws
           | [] => [String a ""]
           end
  end.
Fixpoint Join (c : ascii) (l : list string) : string :=
  match l with
  | [] => ""
  | [w] => w
  | w :: l => w +:+ String c (Join c l)
  end.

Lemma Split_cons c s : ∃ w ws, Split c s = w :: ws.
Proof.
  induction s as [|a s (w&ws&IH)]; cbn; [by eexists _, _|].
  destruct (Ascii.eqb a c); [by eexists _, _|]. rewrite IH. by eexists _, _.
Qed.
Lemma Join_cons c w l : l ≠ [] → Join c (w :: l) = w +:+ String c (Join c l).
Proof. by destruct l. Qed.
Lemma Join_Split c s : Join c (Split c s) = s.
Proof.
  induction s as [|a s IH]; [done|]. cbn [Split]. destruct (Split_cons c s) as (w&ws&E). rewrite E in *.
  destruct (Ascii.eqb_spec a c) as [->|_].
  - by rewrite Join_cons, IH.
  - destruct ws as [|v ws]; [cbn in *; by rewrite IH|].
    rewrite Join_cons in IH |- * by done. by rewrite str_app_cons, IH.
Qed.
Lemma Join_app c l k : l ≠ [] → k ≠ [] → Join c (l ++ k) = Join c l +:+ String c (Join c k).
Proof.
  intros Hl Hk. induction l as [|w [|v l] IH]; [done| |].
  - cbn [app]. by rewrite Join_cons.
  - change ((w :: v :: l) ++ k) with (w :: ((v :: l) ++ k)).
    rewrite !Join_cons, IH by done. by rewrite str_app_assoc, str_app_cons.
Qed.

Module url.

(** ** Paths *)

Definition unhex (c : ascii) : option Z :=
  if is_digit c then Some (digit_val c)
  else if in_range "a" "f" c then Some (code c - 87)
  else if in_range "A" "F" c then Some (code c - 55)
  else None.
(** [url.PathUnescape]. *)
Fixpoint PathUnescape (s : string) : option string :=
  match s with
  | "" => Some ""
  | String "%" (String a (String b r)) =>
      x ← unhex a;
      y ← unhex b;
      String (byte_of (16 * x + y)) <$> PathUnescape r
  | String "%" _ => None
  | String c r => String c <$> PathUnescape r
  end.

Lemma unhex_slash : unhex "/" = None.
Proof. reflexivity. Qed.
Lemma PathUnescape_slash a b :
  PathUnescape (a +:+ String "/" b)
  = (ra ← PathUnescape a; rb ← PathUnescape b; Some (ra +:+ String "/" rb)).
Proof.
  remember (String.length a) as n eqn:En. revert a En.
  induction (lt_wf n) as [n _ IH]. intros a ->.
  destruct a as [|c a].
  { rewrite str_app_nil_l. cbn [PathUnescape]. destruct (PathUnescape b); [|done].
    cbn. by rewrite str_app_nil_l. }
  rewrite str_app_cons.
  destruct (decide (c = "%"%char)) as [->|Hc].
  - destruct a as [|x [|y a]].
    + rewrite str_app_nil_l. destruct b; cbn [PathUnescape]; [done|]. by rewrite unhex_slash.
    + rewrite str_app_cons, str_app_nil_l. cbn [PathUnescape]. rewrite unhex_slash. by destruct (unhex x).
    + rewrite !str_app_cons. cbn [PathUnescape].
      destruct (unhex x) as [u|]; [|done]. cbn [mbind option_bind].
      destruct (unhex y) as [v|]; [|done]. cbn [mbind option_bind].
      rewrite (IH (String.length a)) by (cbn; lia || done).
      destruct (PathUnescape a), (PathUnescape b); done.
  - assert (∀ s, PathUnescape (String c s) = String c <$> PathUnescape s) as Hs.
    { intros s. destruct c as [[] [] [] [] [] [] [] []]; try done; by destruct Hc. }
    rewrite !Hs, (IH (String.length a)) by (cbn; lia || done).
    destruct (PathUnescape a), (PathUnescape b); done.
Qed.
Lemma PathUnescape_Join l :
  l ≠ [] → PathUnescape (Join "/" l) = Join "/" <$> mapM PathUnescape l.
Proof.
  induction l as [|w [|v l] IH]; intros Hl; [done| |].
  - cbn. by destruct (PathUnescape w).
  - rewrite Join_cons, PathUnescape_slash, IH by done. cbn [mapM].
    destruct (PathUnescape w); [|done]. cbn. destruct (PathUnescape v); [|done]. cbn.
    by destruct (mapM PathUnescape l).
Qed.

(** ** Queries *)

Definition upperhex (d : Z) : ascii := byte_of (if d <? 10 then 48 + d else 55 + d).
Definition unreserved (c : ascii) : bool :=
  is_lower c || is_upper c || is_digit c || bool_decide (c ∈ ["-"; "_"; "."; "~"]%char).
Fixpoint QueryEscape (s : string) : string :=
  match s with
  | "" => ""
  | String c r =>
      if unreserved c then String c (QueryEscape r)
      else if Ascii.eqb c " " then String "+" (QueryEscape r)
      else String "%" (String (upperhex (code c / 16)) (String (upperhex (code c mod 16)) (QueryEscape r)))
  end.
Fixpoint QueryUnescape (s : string) : option string :=
  match s with
  | "" => Some ""
  | String "%" (String a (String b r)) =>
      x ← unhex a;
      y ← unhex b;
      String (byte_of (16 * x + y)) <$> QueryUnescape r
  | String "%" _ => None
  | String "+" r => String " " <$> QueryUnescape r
  | String c r => String c <$> QueryUnescape r
  end.

(** [url.Values]. *)
Abbreviation Values := (gmap string (list string)).
Definition Set_ (v : Values) (key value : string) : Values := <[key := [value]]> v.
Definition Add_ (v : Values) (key value : string) : Values := <[key := default [] (v !! key) ++ [value]]> v.
(** One iteration of [parseQuery], whose error [Query] ignores. *)
Definition parse_param (v : Values) (param : string) : Values :=
  if contains param ";" then v
  else if bool_decide (param = "") then v
  else
    let '(key, value) := default (param, "") (cut param "=") in
    match QueryUnescape key, QueryUnescape value with
    | Some key, Some value => Add_ v key value
    | _, _ => v
    end.
(** [parseQuery] refuses a query of more than ten thousand parameters. *)
Definition maxParams : nat := N.to_nat 10000.
Definition ParseQuery (query : string) : Values :=
  let l := Split "&" query in
  if bool_decide (length l ≤ maxParams)%nat then foldl parse_param ∅ l else ∅.

Definition by_key : relation (string * list string) := λ a b, String.le a.1 b.1.
#[global] Instance by_key_dec : RelDecision by_key := λ a b, decide (String.le a.1 b.1).
#[global] Instance by_key_total : Total by_key.
Proof. intros a b. apply (total String.le). Qed.
#[global] Instance by_key_trans : Transitive by_key.
Proof. intros a b c. unfold by_key. apply (transitivity (R := String.le)). Qed.
Definition params (kvs : string * list string) : list string :=
  (λ v, QueryEscape kvs.1 +:+ "=" +:+ QueryEscape v) <$> kvs.2.
Definition num_params (v : Values) : nat := length (map_to_list v ≫= params).
Definition Values_Encode (v : Values) : string := Join "&" (merge_sort by_key (map_to_list v) ≫= params).

(** ** A query reads back *)

Definition query_byte (c : ascii) : bool := unreserved c || Ascii.eqb c "+" || Ascii.eqb c "%".
Lemma escape_byte c r :
  QueryUnescape (QueryEscape (String c r)) = String c <$> QueryUnescape (QueryEscape r).
Proof. destruct c as [[] [] [] [] [] [] [] []]; reflexivity. Qed.
Lemma QueryUnescape_Escape s : QueryUnescape (QueryEscape s) = Some s.
Proof. induction s as [|c s IH]; [done|]. by rewrite escape_byte, IH. Qed.
Lemma QueryEscape_bytes s : str_forall query_byte (QueryEscape s) = true.
Proof.
  induction s as [|c s IH]; [done|].
  assert (QueryEscape (String c s) = QueryEscape (String c "") +:+ QueryEscape s) as ->
    by (destruct c as [[] [] [] [] [] [] [] []]; reflexivity).
  rewrite str_forall_app, IH. by destruct c as [[] [] [] [] [] [] [] []].
Qed.
Lemma query_byte_not (c : ascii) s :
  query_byte c = false → str_forall query_byte s = true → str_forall (λ a, negb (Ascii.eqb a c)) s = true.
Proof.
  intros Hc. induction s as [|a s IH]; [done|]. cbn. intros [Ha Hs]%andb_true_iff. rewrite IH by done.
  rewrite andb_true_r. destruct (Ascii.eqb_spec a c) as [->|]; [congruence|done].
Qed.

Lemma Split_Join c l :
  l ≠ [] → Forall (λ s, str_forall (λ a, negb (Ascii.eqb a c)) s = true) l → Split c (Join c l) = l.
Proof.
  assert (∀ s, str_forall (λ a, negb (Ascii.eqb a c)) s = true → Split c s = [s]) as H1.
  { induction s as [|a s IH]; [done|]. cbn. intros [Ha Hs]%andb_true_iff. apply negb_true_iff in Ha. by rewrite Ha, IH. }
  assert (∀ s t, str_forall (λ a, negb (Ascii.eqb a c)) s = true → Split c (s +:+ String c t) = s :: Split c t) as H2.
  { induction s as [|a s IH]; intros t; [change ("" +:+ String c t) with (String c t); cbn; by rewrite Ascii.eqb_refl|].
    rewrite str_app_cons. cbn. intros [Ha Hs]%andb_true_iff. apply negb_true_iff in Ha. by rewrite Ha, IH. }
  intros Hl Hf. induction Hf as [|s [|t l] Hs Hf IH]; [done|by apply H1|].
  rewrite Join_cons, H2, IH by done. done.
Qed.

Lemma param_bytes k v c :
  query_byte c = false → c ≠ "="%char →
  str_forall (λ a, negb (Ascii.eqb a c)) (QueryEscape k +:+ "=" +:+ QueryEscape v) = true.
Proof.
  intros Hc He. assert (∀ s, str_forall (λ a, negb (Ascii.eqb a c)) (QueryEscape s) = true) as H
    by (intros s; by apply query_byte_not, QueryEscape_bytes).
  rewrite !str_forall_app, !H. cbn [str_forall andb]. by destruct (Ascii.eqb_spec "=" c) as [<-|].
Qed.
Lemma parse_param_escaped m k v : parse_param m (QueryEscape k +:+ "=" +:+ QueryEscape v) = Add_ m k v.
Proof.
  unfold parse_param. assert (contains (QueryEscape k +:+ "=" +:+ QueryEscape v) ";" = false) as ->.
  { unfold contains. rewrite (index_of_absent (λ a, negb (Ascii.eqb a ";"))); [done|by apply param_bytes|done]. }
  rewrite bool_decide_eq_false_2 by (by destruct (QueryEscape k)).
  change ("=" +:+ QueryEscape v) with (String "=" (QueryEscape v)).
  rewrite cut_app by by apply query_byte_not, QueryEscape_bytes. cbn [default from_option id].
  by rewrite !QueryUnescape_Escape.
Qed.

Lemma params_cons k v vs : params (k, v :: vs) = (QueryEscape k +:+ "=" +:+ QueryEscape v) :: params (k, vs).
Proof. done. Qed.
Lemma foldl_params m k v vs :
  foldl parse_param m (params (k, v :: vs)) = <[k := default [] (m !! k) ++ v :: vs]> m.
Proof.
  revert m v. induction vs as [|w vs IH]; intros m v;
    rewrite params_cons; cbn [foldl]; rewrite parse_param_escaped; [done|].
  rewrite IH. unfold Add_. rewrite lookup_insert_eq, insert_insert_eq. cbn. by rewrite <-app_assoc.
Qed.
Lemma foldl_all_params l m :
  NoDup l.*1 → Forall (λ kvs, m !! kvs.1 = None ∧ kvs.2 ≠ []) l →
  foldl parse_param m (l ≫= params) = list_to_map l ∪ m.
Proof.
  revert m. induction l as [|[k vs] l IH]; intros m Hnd Hl; cbn [mbind list_bind].
  { rewrite list_to_map_nil. by rewrite (left_id_L ∅ (∪)). }
  apply NoDup_cons in Hnd as [Hk Hnd]. apply Forall_cons in Hl as [[Hm Hvs] Hl]. cbn [fst snd] in *.
  rewrite foldl_app. destruct vs as [|v vs]; [done|]. rewrite foldl_params, Hm. cbn [default from_option id app].
  change (mbind params l) with (l ≫= params).
  rewrite IH; [|done|].
  - rewrite list_to_map_cons, <-insert_union_l, insert_union_r; [done|]. by apply not_elem_of_list_to_map_1.
  - apply Forall_forall. intros [k' vs'] Hin. rewrite Forall_forall in Hl. destruct (Hl _ Hin) as [H1 H2].
    split; [|done]. cbn [fst] in *. rewrite lookup_insert_ne; [done|]. intros <-. apply Hk.
    apply list_elem_of_fmap. by exists (k, vs').
Qed.

(** What [Encode] writes, [ParseQuery] reads back. *)
Lemma ParseQuery_Encode v :
  map_Forall (λ _ vs, vs ≠ []) v → (num_params v ≤ maxParams)%nat → ParseQuery (Values_Encode v) = v.
Proof.
  intros Hv Hn. unfold ParseQuery, Values_Encode. set (l := merge_sort by_key (map_to_list v)).
  assert (l ≡ₚ map_to_list v) as Hp by apply merge_sort_Permutation.
  assert (Forall (λ kvs, kvs.2 ≠ []) l) as Hne.
  { rewrite Hp. apply map_Forall_to_list in Hv. eapply Forall_impl; [exact Hv|]. by intros []. }
  transitivity (foldl parse_param ∅ (l ≫= params)).
  { destruct (decide (l ≫= params = [])) as [->|Hl]; [done|].
    rewrite Split_Join; [|done|].
    - rewrite bool_decide_eq_true_2; [done|]. unfold num_params in Hn. by rewrite Hp.
    - apply Forall_forall. intros x (kvs&Hx&_)%list_elem_of_bind. unfold params in Hx.
      apply list_elem_of_fmap in Hx as (w&->&_). by apply param_bytes. }
  rewrite foldl_all_params.
  - rewrite (right_id_L ∅ (∪)). rewrite <-(list_to_map_to_list v). apply list_to_map_proper; [|done].
    rewrite Hp. apply NoDup_fst_map_to_list.
  - rewrite Hp. apply NoDup_fst_map_to_list.
  - eapply Forall_impl; [exact Hne|]. intros kvs ?. split; [apply lookup_empty|done].
Qed.

End url.
