(* ===== verification/Encoding.v ===== *)
(** * [encoding/base32], [encoding/hex] and [encoding/base64]

    The three codecs of Go's standard library the program uses: the RFC 4648
    base32 decoder (padded, newline-skipping) behind the infohash, the
    lowercase hex encoder, and the unpadded URL-safe base64 of the cursor.
    A [[]byte] is a [string] here.  The base32 encoder is not used by the
    program: it is the reference the decoder is proved against. *)

From S2P Require Import Prelude GoStrings.
From Stdlib Require Import Ascii.

(** A byte, truncated from a wider value ([byte(x)] in Go). *)
Definition byte8 (z : Z) : ascii := byte_of (Z.land z 255).

Definition is_newline (c : ascii) : bool := (code c =? 10) || (code c =? 13).
Fixpoint strip_newlines (s : string) : string :=
  match s with
  | "" => ""
  | String c t => if is_newline c then strip_newlines t else String c (strip_newlines t)
  end.

(** ** base32 *)
Module base32.
(** [decodeMap] of [StdEncoding]: [A]-[Z] are 0-25 and [2]-[7] are 26-31. *)
Definition decodeMap (c : ascii) : option Z :=
  if is_upper c then Some (code c - 65)
  else if in_range "2" "7" c then Some (code c - 24)
  else None.
Definition encodeMap (v : Z) : ascii :=
  if v <? 26 then byte_of (65 + v) else byte_of (24 + v).

(** The bytes of a quantum of [dlen] symbols (8, 7, 5, 4 or 2). *)
Definition pack (dlen : nat) (dbuf : list Z) : string :=
  let d i := nth i dbuf 0 in
  let b0 := byte8 (Z.lor (Z.shiftl (d 0%nat) 3) (Z.shiftr (d 1%nat) 2)) in
  let b1 := byte8 (Z.lor (Z.lor (Z.shiftl (d 1%nat) 6) (Z.shiftl (d 2%nat) 1))
                         (Z.shiftr (d 3%nat) 4)) in
  let b2 := byte8 (Z.lor (Z.shiftl (d 3%nat) 4) (Z.shiftr (d 4%nat) 1)) in
  let b3 := byte8 (Z.lor (Z.lor (Z.shiftl (d 4%nat) 7) (Z.shiftl (d 5%nat) 2))
                         (Z.shiftr (d 6%nat) 3)) in
  let b4 := byte8 (Z.lor (Z.shiftl (d 6%nat) 5) (d 7%nat)) in
  match dlen with
  | 8%nat => String b0 (String b1 (String b2 (String b3 (String b4 ""))))
  | 7%nat => String b0 (String b1 (String b2 (String b3 "")))
  | 5%nat => String b0 (String b1 (String b2 ""))
  | 4%nat => String b0 (String b1 "")
  | 2%nat => String b0 ""
  | _ => ""
  end.

(** [Encoding.decode] after newlines are stripped: [j] symbols of the
    current quantum are in [dbuf]. *)
Fixpoint decode (src : string) (j : nat) (dbuf : list Z) : option string :=
  match src with
  | "" => if (j =? 0)%nat then Some "" else None
  | String c rest =>
      if Ascii.eqb c "=" && (2 <=? j)%nat && (String.length rest <? 8)%nat then
        if (String.length rest + j <? 7)%nat then None
        else if str_forall (Ascii.eqb "=") (take_str (7 - j) rest) then
          if (j =? 3)%nat || (j =? 6)%nat then None else Some (pack j dbuf)
        else None
      else
        v ← decodeMap c;
        if (j =? 7)%nat
        then String.append (pack 8 (dbuf ++ [v])) <$> decode rest 0 []
        else decode rest (S j) (dbuf ++ [v])
  end.

Definition DecodeString (s : string) : option string := decode (strip_newlines s) 0 [].

(** Reference encoder, on whole groups of five bytes. *)
Definition group (b0 b1 b2 b3 b4 : ascii) : list Z :=
  let c0 := code b0 in let c1 := code b1 in let c2 := code b2 in
  let c3 := code b3 in let c4 := code b4 in
  [Z.shiftr c0 3;
   Z.land (Z.lor (Z.shiftl c0 2) (Z.shiftr c1 6)) 31;
   Z.land (Z.shiftr c1 1) 31;
   Z.land (Z.lor (Z.shiftl c1 4) (Z.shiftr c2 4)) 31;
   Z.land (Z.lor (Z.shiftl c2 1) (Z.shiftr c3 7)) 31;
   Z.land (Z.shiftr c3 2) 31;
   Z.land (Z.lor (Z.shiftl c3 3) (Z.shiftr c4 5)) 31;
   Z.land c4 31].
Fixpoint of_symbols (vs : list Z) : string :=
  match vs with [] => "" | v :: vs => String (encodeMap v) (of_symbols vs) end.
Fixpoint encode (s : string) : string :=
  match s with
  | String b0 (String b1 (String b2 (String b3 (String b4 s)))) =>
      of_symbols (group b0 b1 b2 b3 b4) +:+ encode s
  | _ => ""
  end.
End base32.

(** ** hex *)
Module hex.
Definition digit (v : Z) : ascii := if v <? 10 then byte_of (48 + v) else byte_of (87 + v).
Fixpoint EncodeToString (s : string) : string :=
  match s with
  | "" => ""
  | String c s => String (digit (code c / 16)) (String (digit (code c mod 16)) (EncodeToString s))
  end.
End hex.

(** ** base64.RawURLEncoding *)
Module base64.
Definition decodeMap (c : ascii) : option Z :=
  if is_upper c then Some (code c - 65)
  else if is_lower c then Some (code c - 71)
  else if is_digit c then Some (code c + 4)
  else if code c =? 45 then Some 62
  else if code c =? 95 then Some 63
  else None.
Definition encodeMap (v : Z) : ascii :=
  if v <? 26 then byte_of (65 + v)
  else if v <? 52 then byte_of (71 + v)
  else if v <? 62 then byte_of (v - 4)
  else if v =? 62 then "-"%char else "_"%char.

Fixpoint EncodeToString (s : string) : string :=
  match s with
  | "" => ""
  | String b0 "" =>
      let c0 := code b0 in
      String (encodeMap (Z.shiftr c0 2)) (String (encodeMap (Z.land (Z.shiftl c0 4) 63)) "")
  | String b0 (String b1 "") =>
      let c0 := code b0 in let c1 := code b1 in
      String (encodeMap (Z.shiftr c0 2))
        (String (encodeMap (Z.land (Z.lor (Z.shiftl c0 4) (Z.shiftr c1 4)) 63))
          (String (encodeMap (Z.land (Z.shiftl c1 2) 63)) ""))
  | String b0 (String b1 (String b2 s)) =>
      let c0 := code b0 in let c1 := code b1 in let c2 := code b2 in
      String (encodeMap (Z.shiftr c0 2))
        (String (encodeMap (Z.land (Z.lor (Z.shiftl c0 4) (Z.shiftr c1 4)) 63))
          (String (encodeMap (Z.land (Z.lor (Z.shiftl c1 2) (Z.shiftr c2 6)) 63))
            (String (encodeMap (Z.land c2 63)) (EncodeToString s))))
  end.

(** Bytes of a quantum of [dlen] symbols (4, 3 or 2). *)
Definition pack (dlen : nat) (dbuf : list Z) : string :=
  let d i := nth i dbuf 0 in
  let b0 := byte8 (Z.lor (Z.shiftl (d 0%nat) 2) (Z.shiftr (d 1%nat) 4)) in
  let b1 := byte8 (Z.lor (Z.shiftl (d 1%nat) 4) (Z.shiftr (d 2%nat) 2)) in
  let b2 := byte8 (Z.lor (Z.shiftl (d 2%nat) 6) (d 3%nat)) in
  match dlen with
  | 4%nat => String b0 (String b1 (String b2 ""))
  | 3%nat => String b0 (String b1 "")
  | 2%nat => String b0 ""
  | _ => ""
  end.

Fixpoint decode (src : string) (j : nat) (dbuf : list Z) : option string :=
  match src with
  | "" => match j with 0%nat => Some "" | 1%nat => None | _ => Some (pack j dbuf) end
  | String c rest =>
      v ← decodeMap c;
      if (j =? 3)%nat
      then String.append (pack 4 (dbuf ++ [v])) <$> decode rest 0 []
      else decode rest (S j) (dbuf ++ [v])
  end.
Definition DecodeString (s : string) : option string := decode (strip_newlines s) 0 [].
End base64.

(** ** Bitwise reasoning on bytes *)

Lemma testbit_above c n : 8 ≤ n → Z.testbit (code c) n = false.
Proof.
  intros Hn. pose proof (code_range c). destruct (decide (code c = 0)) as [->|].
  - apply Z.testbit_0_l.
  - apply Z.bits_above_log2; [lia|]. apply Z.log2_lt_pow2; [lia|].
    pose proof (Z.pow_le_mono_r 2 8 n ltac:(lia) ltac:(lia)). lia.
Qed.

(** Two values that agree on the low eight bits give the same byte. *)
Lemma byte8_eq z c :
  (∀ n, 0 ≤ n < 8 → Z.testbit z n = Z.testbit (code c) n) → byte8 z = c.
Proof.
  intros H. apply code_inj. unfold byte8.
  assert (Z.land z 255 = code c) as ->.
  { apply Z.bits_inj'. intros n Hn. rewrite Z.land_spec.
    destruct (decide (n < 8)).
    - rewrite H by lia. change 255 with (Z.ones 8). rewrite Z.ones_spec_low by lia.
      apply andb_true_r.
    - change 255 with (Z.ones 8). rewrite Z.ones_spec_high, andb_false_r by lia.
      symmetry. apply testbit_above. lia. }
  apply code_byte_of, code_range.
Qed.

(** Evaluate a closed bit position through shifts, masks and unions. *)
Ltac bit_norm :=
  repeat first [rewrite Z.lor_spec | rewrite Z.land_spec
               | rewrite Z.testbit_neg_r by lia
               | rewrite Z.shiftl_spec by lia | rewrite Z.shiftr_spec by lia];
  repeat match goal with
  | |- context [Z.testbit 31 ?n] =>
      let b := eval vm_compute in (Z.testbit 31 n) in change (Z.testbit 31 n) with b
  | |- context [Z.testbit 63 ?n] =>
      let b := eval vm_compute in (Z.testbit 63 n) in change (Z.testbit 63 n) with b
  | |- context [Z.testbit (code ?c) ?n] =>
      lazymatch n with
      | context [Z.add] => idtac
      | context [Z.sub] => idtac
      end;
      let m := eval vm_compute in n in change (Z.testbit (code c) n) with (Z.testbit (code c) m)
  end;
  repeat match goal with
  | |- context [Z.testbit (code ?c) ?n] => rewrite (testbit_above c n) by lia
  end;
  rewrite ?andb_true_r, ?andb_false_r, ?orb_false_r, ?orb_false_l.

Ltac bitblast_byte :=
  apply byte8_eq; intros n Hn;
  assert (n = 0 ∨ n = 1 ∨ n = 2 ∨ n = 3 ∨ n = 4 ∨ n = 5 ∨ n = 6 ∨ n = 7)
    as [->|[->|[->|[->|[->|[->|[->| ->]]]]]]] by lia;
  bit_norm; reflexivity.

Lemma base32_pack_group b0 b1 b2 b3 b4 :
  base32.pack 8 (base32.group b0 b1 b2 b3 b4)
  = String b0 (String b1 (String b2 (String b3 (String b4 "")))).
Proof.
  unfold base32.pack, base32.group. cbn [nth].
  do 4 (f_equal; [bitblast_byte|]). f_equal. bitblast_byte.
Qed.

(** ** base32 round trip *)

Definition sym32 (v : Z) : Prop := 0 ≤ v < 32.

Lemma code_encodeMap32 v : sym32 v → code (base32.encodeMap v) = if v <? 26 then 65 + v else 24 + v.
Proof.
  unfold sym32, base32.encodeMap. intros Hv.
  destruct (v <? 26) eqn:E; bool_hyps; apply code_byte_of; lia.
Qed.

Lemma decodeMap_encodeMap32 v : sym32 v → base32.decodeMap (base32.encodeMap v) = Some v.
Proof.
  intros Hv. unfold base32.decodeMap, is_upper, in_range. rewrite !code_encodeMap32 by done.
  unfold sym32 in Hv. vm_compute (code "A"). vm_compute (code "Z").
  vm_compute (code "2"). vm_compute (code "7").
  destruct (v <? 26) eqn:E; bool_hyps; repeat split_match; bool_hyps; f_equal; try lia;
    repeat match goal with H : _ && _ = false |- _ => apply andb_false_iff in H as [?|?]; bool_hyps end;
    lia.
Qed.

Lemma land_31_sym z : sym32 (Z.land z 31).
Proof.
  unfold sym32. change 31 with (Z.ones 5). rewrite Z.land_ones by lia.
  apply Z.mod_pos_bound. done.
Qed.

Lemma group_sym b0 b1 b2 b3 b4 : Forall sym32 (base32.group b0 b1 b2 b3 b4).
Proof.
  unfold base32.group. repeat constructor; try apply land_31_sym.
  all: pose proof (code_range b0); rewrite Z.shiftr_div_pow2 by lia.
  - apply Z.div_pos; lia.
  - apply Z.div_lt_upper_bound; lia.
Qed.

(** One symbol of a quantum that is not the last. *)
Lemma decode_sym v rest j dbuf :
  sym32 v → (j < 7)%nat →
  base32.decode (String (base32.encodeMap v) rest) j dbuf
  = base32.decode rest (S j) (dbuf ++ [v]).
Proof.
  intros Hv Hj. cbn [base32.decode].
  assert (Ascii.eqb (base32.encodeMap v) "=" = false) as ->.
  { rewrite eqb_code, code_encodeMap32 by done. vm_compute (code "=").
    unfold sym32 in Hv. apply Z.eqb_neq. destruct (v <? 26) eqn:E; bool_hyps; lia. }
  rewrite decodeMap_encodeMap32 by done. cbn [andb mbind option_bind].
  destruct (j =? 7)%nat eqn:E; [apply Nat.eqb_eq in E; lia|done].
Qed.
Lemma decode_sym_last v rest dbuf :
  sym32 v →
  base32.decode (String (base32.encodeMap v) rest) 7 dbuf
  = String.append (base32.pack 8 (dbuf ++ [v])) <$> base32.decode rest 0 [].
Proof.
  intros Hv. cbn [base32.decode].
  assert (Ascii.eqb (base32.encodeMap v) "=" = false) as ->.
  { rewrite eqb_code, code_encodeMap32 by done. vm_compute (code "=").
    unfold sym32 in Hv. apply Z.eqb_neq. destruct (v <? 26) eqn:E; bool_hyps; lia. }
  by rewrite decodeMap_encodeMap32 by done.
Qed.

Lemma decode_group b0 b1 b2 b3 b4 rest :
  base32.decode (base32.of_symbols (base32.group b0 b1 b2 b3 b4) +:+ rest) 0 []
  = String.append (String b0 (String b1 (String b2 (String b3 (String b4 "")))))
      <$> base32.decode rest 0 [].
Proof.
  rewrite <-base32_pack_group. pose proof (group_sym b0 b1 b2 b3 b4) as Hs.
  destruct (base32.group b0 b1 b2 b3 b4) as [|v0 [|v1 [|v2 [|v3 [|v4 [|v5 [|v6 [|v7 [|]]]]]]]]] eqn:E;
    try discriminate E.
  rewrite !Forall_cons in Hs. destruct Hs as (?&?&?&?&?&?&?&?&_).
  cbn [base32.of_symbols]. rewrite !str_app_cons, str_app_nil_l.
  rewrite !decode_sym by (done || lia). by rewrite decode_sym_last.
Qed.

Definition is_base32 (c : ascii) : bool := is_upper c || in_range "2" "7" c.
Definition is_hex_lower (c : ascii) : bool := is_digit c || in_range "a" "f" c.

Lemma is_base32_decodeMap c v : base32.decodeMap c = Some v → is_base32 c = true.
Proof.
  unfold base32.decodeMap, is_base32. destruct (is_upper c); [done|].
  destruct (in_range "2" "7" c); done.
Qed.
Lemma is_base32_graphic c : is_base32 c = true → is_graphic c = true.
Proof. revert c. by_bytes. Qed.
Lemma is_hex_lower_graphic c : is_hex_lower c = true → is_graphic c = true.
Proof. revert c. by_bytes. Qed.

Lemma of_symbols_base32 vs : Forall sym32 vs → str_forall is_base32 (base32.of_symbols vs) = true.
Proof.
  induction 1 as [|v vs Hv _ IH]; [done|]. simpl. rewrite IH, andb_true_r.
  by eapply is_base32_decodeMap, decodeMap_encodeMap32.
Qed.

(** Induction on a string by groups of five bytes. *)
Lemma group_ind (P : string → Prop) :
  P "" →
  (∀ b0 b1 b2 b3 b4 s, P s → P (String b0 (String b1 (String b2 (String b3 (String b4 s)))))) →
  ∀ n s, String.length s = (5 * n)%nat → P s.
Proof.
  intros H0 H5. induction n as [|n IH]; intros s Hs.
  - destruct s; [done|simpl in Hs; lia].
  - do 5 (destruct s as [|? s]; [simpl in Hs; lia|]). apply H5, IH. simpl in Hs. lia.
Qed.

Lemma encode_base32 n s :
  String.length s = (5 * n)%nat → str_forall is_base32 (base32.encode s) = true.
Proof.
  revert n s. apply group_ind; [done|]. intros. cbn [base32.encode].
  rewrite str_forall_app. rewrite of_symbols_base32 by apply group_sym. done.
Qed.

Lemma length_encode n s :
  String.length s = (5 * n)%nat → String.length (base32.encode s) = (8 * n)%nat.
Proof.
  revert s. induction n as [|n IH]; intros s Hs.
  - destruct s; [done|simpl in Hs; lia].
  - do 5 (destruct s as [|? s]; [simpl in Hs; lia|]). cbn [base32.encode].
    rewrite length_app_str, IH by (simpl in Hs; lia). simpl. lia.
Qed.

Lemma strip_newlines_graphic s : str_forall is_graphic s = true → strip_newlines s = s.
Proof.
  induction s as [|c s IH]; [done|]. simpl. intros [Hc Hs]%andb_true_iff.
  assert (negb (is_newline c) = true) as ->%negb_true_iff by (revert c Hc; by_bytes).
  by rewrite IH.
Qed.

(** The decoder inverts the RFC 4648 encoder on whole groups. *)
Lemma base32_roundtrip n s :
  String.length s = (5 * n)%nat → base32.DecodeString (base32.encode s) = Some s.
Proof.
  intros Hs. unfold base32.DecodeString. rewrite strip_newlines_graphic.
  2:{ eapply str_forall_impl; [apply is_base32_graphic|by eapply encode_base32]. }
  revert n s Hs. apply group_ind; [done|]. intros b0 b1 b2 b3 b4 s IH.
  cbn [base32.encode]. by rewrite decode_group, IH.
Qed.

(** ** hex *)

Lemma hex_digit_lower v : 0 ≤ v < 16 → is_hex_lower (hex.digit v) = true.
Proof.
  intros Hv. unfold hex.digit, is_hex_lower, is_digit, in_range.
  vm_compute (code "0"). vm_compute (code "9"). vm_compute (code "a"). vm_compute (code "f").
  destruct (v <? 10) eqn:E; bool_hyps; rewrite code_byte_of by lia;
    rewrite orb_true_iff, !andb_true_iff, !Z.leb_le; lia.
Qed.

Lemma hex_EncodeToString_lower s : str_forall is_hex_lower (hex.EncodeToString s) = true.
Proof.
  induction s as [|c s IH]; [done|]. simpl. pose proof (code_range c).
  rewrite !hex_digit_lower, IH; [done| |].
  - apply Z.mod_pos_bound. lia.
  - split; [apply Z.div_pos; lia|apply Z.div_lt_upper_bound; lia].
Qed.

Lemma length_hex s : String.length (hex.EncodeToString s) = (2 * String.length s)%nat.
Proof. induction s as [|c s IH]; simpl in *; lia. Qed.

(** Case mapping on visible ASCII is bytewise. *)
Lemma ToUpper_graphic s : str_forall is_graphic s = true → ToUpper s = str_map upper_byte s.
Proof.
  induction s as [|c s IH]; [done|]. simpl. intros [Hc Hs]%andb_true_iff.
  rewrite IH by done. destruct s as [|d s]; [done|].
  pose proof (graphic_not_c2 c Hc) as ?%Z.ltb_lt.
  assert ((code c =? 0xC4) = false) as -> by (apply Z.eqb_neq; lia).
  assert ((code c =? 0xC5) = false) as -> by (apply Z.eqb_neq; lia). done.
Qed.
Lemma ToLower_graphic s : str_forall is_graphic s = true → ToLower s = str_map lower_byte s.
Proof.
  induction s as [|c s IH]; [done|]. simpl. intros [Hc Hs]%andb_true_iff.
  rewrite IH by done. destruct s as [|d s]; [done|].
  pose proof (graphic_not_c2 c Hc) as ?%Z.ltb_lt.
  assert ((code c =? 0xC4) = false) as -> by (apply Z.eqb_neq; lia).
  assert ((code c =? 0xE2) = false) as -> by (apply Z.eqb_neq; lia).
  cbn [andb]. destruct s; done.
Qed.

(** ** base32: what the decoder accepts *)

Lemma decodeMap_Some c v :
  base32.decodeMap c = Some v → sym32 v ∧ base32.encodeMap v = c.
Proof.
  unfold base32.decodeMap, is_upper, sym32. intros H.
  assert (in_range "A" "Z" c = true ∧ v = code c - 65
          ∨ in_range "A" "Z" c = false ∧ in_range "2" "7" c = true ∧ v = code c - 24) as Hc.
  { destruct (in_range "A" "Z" c); [left; by simplify_eq|right].
    destruct (in_range "2" "7" c); by simplify_eq. }
  unfold base32.encodeMap.
  destruct Hc as [[Hc ->]|(_&Hc&->)]; apply in_range_spec in Hc; vm_compute (code "A") in Hc;
    vm_compute (code "Z") in Hc; vm_compute (code "2") in Hc; vm_compute (code "7") in Hc.
  - split; [lia|]. destruct (code c - 65 <? 26) eqn:E; bool_hyps; [|lia].
    replace (65 + (code c - 65)) with (code c) by lia. apply byte_of_code.
  - split; [lia|]. destruct (code c - 24 <? 26) eqn:E; bool_hyps; [lia|].
    replace (24 + (code c - 24)) with (code c) by lia. apply byte_of_code.
Qed.

Lemma sym32_above v n : sym32 v → 5 ≤ n → Z.testbit v n = false.
Proof.
  unfold sym32. intros Hv Hn. destruct (decide (v = 0)) as [->|]; [apply Z.testbit_0_l|].
  apply Z.bits_above_log2; [lia|]. apply Z.log2_lt_pow2; [lia|].
  pose proof (Z.pow_le_mono_r 2 5 n ltac:(lia) ltac:(lia)). lia.
Qed.

(** Symbols agree when their five bits do. *)
Lemma sym32_eq v w :
  sym32 v → sym32 w → (∀ n, 0 ≤ n < 5 → Z.testbit v n = Z.testbit w n) → v = w.
Proof.
  intros Hv Hw H. apply Z.bits_inj'. intros n Hn. destruct (decide (n < 5)); [auto with lia|].
  rewrite !sym32_above by (done || lia). done.
Qed.

Lemma testbit_byte8 z n : 0 ≤ n → Z.testbit (code (byte8 z)) n = Z.testbit z n && (n <? 8).
Proof.
  intros Hn. unfold byte8. change 255 with (Z.ones 8). rewrite code_byte_of.
  - rewrite Z.land_spec. f_equal. destruct (n <? 8) eqn:E; bool_hyps.
    + apply Z.ones_spec_low. lia.
    + apply Z.ones_spec_high. lia.
  - rewrite Z.land_ones by lia. apply Z.mod_pos_bound. done.
Qed.

Ltac bitblast_sym :=
  apply sym32_eq; [done|done|];
  intros n Hn; assert (n = 0 ∨ n = 1 ∨ n = 2 ∨ n = 3 ∨ n = 4)
    as [->|[->|[->|[->| ->]]]] by lia;
  repeat first [rewrite Z.lor_spec | rewrite Z.land_spec | rewrite Z.testbit_neg_r by lia
               | rewrite Z.shiftl_spec by lia | rewrite Z.shiftr_spec by lia
               | rewrite testbit_byte8 by lia];
  repeat match goal with
  | |- context [Z.testbit 31 ?n] =>
      let b := eval vm_compute in (Z.testbit 31 n) in change (Z.testbit 31 n) with b
  | |- context [?n <? 8] => let b := eval vm_compute in (n <? 8) in change (n <? 8) with b
  end;
  repeat match goal with
  | |- context [Z.testbit ?v ?n] => rewrite (sym32_above v n) by (done || lia)
  | |- context [Z.testbit ?v ?n] => rewrite (Z.testbit_neg_r v n) by lia
  end;
  rewrite ?andb_true_r, ?andb_false_r, ?orb_false_r, ?orb_false_l; reflexivity.

Lemma group_pack v0 v1 v2 v3 v4 v5 v6 v7 :
  Forall sym32 [v0; v1; v2; v3; v4; v5; v6; v7] →
  ∃ b0 b1 b2 b3 b4,
    base32.pack 8 [v0; v1; v2; v3; v4; v5; v6; v7]
      = String b0 (String b1 (String b2 (String b3 (String b4 ""))))
    ∧ base32.group b0 b1 b2 b3 b4 = [v0; v1; v2; v3; v4; v5; v6; v7].
Proof.
  intros H. rewrite !Forall_cons in H. destruct H as (?&?&?&?&?&?&?&?&_).
  unfold base32.pack. cbn [nth]. do 5 eexists. split; [done|].
  match goal with |- context [base32.group ?a ?b ?c ?d ?e] =>
    pose proof (group_sym a b c d e) as Hs end.
  unfold base32.group in *. rewrite !Forall_cons in Hs. destruct Hs as (?&?&?&?&?&?&?&?&_).
  repeat (f_equal; [bitblast_sym|]). f_equal. bitblast_sym.
Qed.

Lemma of_symbols_app vs ws :
  base32.of_symbols (vs ++ ws) = base32.of_symbols vs +:+ base32.of_symbols ws.
Proof. induction vs as [|v vs IH]; [done|]. simpl. by rewrite IH, str_app_cons. Qed.

Lemma of_symbols_snoc vs v s :
  base32.of_symbols (vs ++ [v]) +:+ s = base32.of_symbols vs +:+ String (base32.encodeMap v) s.
Proof. by rewrite of_symbols_app, str_app_assoc. Qed.

Lemma length_pack_padded j dbuf :
  (j ≤ 7)%nat → (8 * String.length (base32.pack j dbuf) ≤ 32)%nat.
Proof. intros. do 8 (destruct j as [|j]; [vm_compute; lia|]). lia. Qed.

(** A decoded string is no longer than its symbols allow, and when it is as
    long, the input is its encoding: no padding, no newline, no slack. *)
Lemma decode_inv src j dbuf out :
  base32.decode src j dbuf = Some out → length dbuf = j → (j ≤ 7)%nat → Forall sym32 dbuf →
  (8 * String.length out < 5 * (j + String.length src))%nat
  ∨ (8 * String.length out = 5 * (j + String.length src))%nat
    ∧ base32.encode out = base32.of_symbols dbuf +:+ src.
Proof.
  revert j dbuf out. induction src as [|c rest IH]; intros j dbuf out Hdec Hlen Hj Hsym.
  - simpl in Hdec. destruct (j =? 0)%nat eqn:E; [|done]. apply Nat.eqb_eq in E as ->.
    destruct dbuf; [|done]. simplify_eq. right. done.
  - cbn [base32.decode] in Hdec. change (String.length (String c rest)) with (S (String.length rest)).
    destruct (Ascii.eqb c "=" && _ && _).
    { destruct (_ <? 7)%nat eqn:E; [done|]. apply Nat.ltb_ge in E.
      destruct (str_forall _ _); [|done]. destruct ((j =? 3)%nat || _); [done|].
      simplify_eq. left. pose proof (length_pack_padded (length dbuf) dbuf Hj). lia. }
    destruct (base32.decodeMap c) as [v|] eqn:Ev; [|done]. cbn [mbind option_bind] in Hdec.
    apply decodeMap_Some in Ev as [Hv <-].
    destruct (j =? 7)%nat eqn:E.
    + apply Nat.eqb_eq in E as ->.
      destruct (base32.decode rest 0 []) as [out'|] eqn:Eo; [|done].
      change (Some (base32.pack 8 (dbuf ++ [v]) +:+ out') = Some out) in Hdec.
      do 7 (destruct dbuf as [|? dbuf]; [done|]). destruct dbuf; [|done]. cbn [app] in Hdec.
      match type of Hdec with context [base32.pack 8 ?l] =>
        destruct (group_pack (nth 0 l 0) (nth 1 l 0) (nth 2 l 0) (nth 3 l 0) (nth 4 l 0)
          (nth 5 l 0) (nth 6 l 0) v) as (b0&b1&b2&b3&b4&Hp&Hg) end.
      { rewrite !Forall_cons in Hsym. destruct Hsym as (?&?&?&?&?&?&?&_).
        repeat (apply Forall_cons_2; [done|]). apply Forall_nil_2. }
      cbn [nth] in Hp, Hg. rewrite Hp, !str_app_cons, str_app_nil_l in Hdec.
      injection Hdec as <-. cbn [String.length].
      destruct (IH 0%nat [] out' Eo) as [?|[? Henc]]; [done|lia|done|left; lia|right].
      split; [lia|]. cbn [base32.encode]. by rewrite Hg, Henc.
    + apply Nat.eqb_neq in E. destruct (IH (S j) (dbuf ++ [v]) out Hdec) as [?|[? Henc]].
      * rewrite length_app. simpl. lia.
      * lia.
      * by apply Forall_app_2; [|constructor].
      * left. lia.
      * right. split; [lia|]. by rewrite Henc, of_symbols_snoc.
Qed.

Lemma length_strip_newlines s : (String.length (strip_newlines s) ≤ String.length s)%nat.
Proof. induction s as [|c s IH]; simpl; [lia|]. destruct (is_newline c); simpl; lia. Qed.
Lemma strip_newlines_full s :
  String.length (strip_newlines s) = String.length s → strip_newlines s = s.
Proof.
  induction s as [|c s IH]; [done|]. simpl. pose proof (length_strip_newlines s).
  destruct (is_newline c); simpl; [lia|]. intros. f_equal. auto with lia.
Qed.

Lemma ToUpper_cons2 a b u :
  ToUpper (String a (String b u)) =
  if (code a =? 0xC4) && (code b =? 0xB1) then String "I" (ToUpper u)
  else if (code a =? 0xC5) && (code b =? 0xBF) then String "S" (ToUpper u)
  else String (upper_byte a) (ToUpper (String b u)).
Proof. done. Qed.
Lemma length_ToUpper s : (String.length (ToUpper s) ≤ String.length s)%nat.
Proof.
  induction s as [s IH] using string_length_ind. destruct s as [|a s]; [done|].
  destruct s as [|b s]; [done|]. rewrite ToUpper_cons2.
  pose proof (IH s ltac:(simpl; lia)). pose proof (IH (String b s) ltac:(simpl; lia)).
  destruct (_ && _); [|destruct (_ && _)]; cbn [String.length] in *; lia.
Qed.
Lemma ToUpper_full s :
  String.length (ToUpper s) = String.length s → ToUpper s = str_map upper_byte s.
Proof.
  induction s as [s IH] using string_length_ind. destruct s as [|a s]; [done|].
  destruct s as [|b s]; [done|]. rewrite ToUpper_cons2.
  pose proof (length_ToUpper s). pose proof (length_ToUpper (String b s)).
  specialize (IH (String b s) ltac:(simpl; lia)).
  destruct (_ && _); [cbn [String.length]; lia|]. destruct (_ && _); [cbn [String.length]; lia|].
  intros Hl. change (str_map upper_byte (String a (String b s)))
    with (String (upper_byte a) (str_map upper_byte (String b s))).
  rewrite IH; [done|]. cbn [String.length] in Hl |- *. lia.
Qed.

(** Thirty-two bytes that decode, upper-cased, to twenty are the base32 of
    those twenty, letter case aside. *)
Lemma base32_exact s out :
  String.length s = 32%nat → base32.DecodeString (ToUpper s) = Some out →
  String.length out = 20%nat → str_map upper_byte s = base32.encode out.
Proof.
  intros Hs Hdec Hout. unfold base32.DecodeString in Hdec.
  pose proof (length_ToUpper s). pose proof (length_strip_newlines (ToUpper s)).
  apply decode_inv in Hdec as [?|[? Henc]]; [lia| |done|lia|done].
  rewrite <-ToUpper_full by lia. rewrite Henc. simpl. symmetry.
  apply strip_newlines_full. lia.
Qed.

(** ** hex: the inverse *)

Definition hex_val (c : Ascii.ascii) : Z := if is_digit c then code c - 48 else code c - 87.
Fixpoint hex_decode (s : string) : string :=
  match s with
  | String a (String b s) => String (byte_of (hex_val a * 16 + hex_val b)) (hex_decode s)
  | _ => ""
  end.

Lemma hex_val_digit c :
  is_hex_lower c = true → 0 ≤ hex_val c < 16 ∧ hex.digit (hex_val c) = c.
Proof.
  intros Hc. assert ((0 <=? hex_val c) && (hex_val c <? 16)
    && Ascii.eqb (hex.digit (hex_val c)) c = true) as H by (revert c Hc; by_bytes).
  bool_hyps. split; [lia|]. by apply Ascii.eqb_eq.
Qed.

Lemma hex_decode_encode n s :
  String.length s = (2 * n)%nat → str_forall is_hex_lower s = true →
  hex.EncodeToString (hex_decode s) = s ∧ String.length (hex_decode s) = n.
Proof.
  revert s. induction n as [|n IH]; intros s Hs Hc.
  - destruct s; [done|simpl in Hs; lia].
  - destruct s as [|x s]; [simpl in Hs; lia|]. destruct s as [|y s]; [simpl in Hs; lia|].
    simpl in Hc. apply andb_true_iff in Hc as [Ha Hc]. apply andb_true_iff in Hc as [Hb Hc].
    destruct (hex_val_digit _ Ha) as [? Hda]. destruct (hex_val_digit _ Hb) as [? Hdb].
    destruct (IH s) as [IHe IHl]; [simpl in Hs; lia|done|]. simpl.
    rewrite code_byte_of by lia.
    rewrite <-(Z.div_unique (hex_val x * 16 + hex_val y) 16 (hex_val x) (hex_val y)) by lia.
    rewrite <-(Z.mod_unique (hex_val x * 16 + hex_val y) 16 (hex_val x) (hex_val y)) by lia.
    rewrite Hda, Hdb, IHe, IHl. done.
Qed.

Lemma hex_EncodeToString_inj s t : hex.EncodeToString s = hex.EncodeToString t → s = t.
Proof.
  assert (∀ v w, 0 ≤ v < 16 → 0 ≤ w < 16 → hex.digit v = hex.digit w → v = w) as Hd.
  { intros v w Hv Hw H. apply (f_equal code) in H. unfold hex.digit in H.
    destruct (v <? 10) eqn:?, (w <? 10) eqn:?; bool_hyps;
      rewrite !code_byte_of in H by lia; lia. }
  revert t. induction s as [|c s IH]; intros [|d t] H; simpl in H; try done.
  assert (∀ c, 0 ≤ code c / 16 < 16 ∧ 0 ≤ code c mod 16 < 16) as Hb.
  { intros x. pose proof (code_range x). split; [|by apply Z.mod_pos_bound].
    split; [apply Z.div_pos; lia|apply Z.div_lt_upper_bound; lia]. }
  injection H as H1 H2 H3. apply Hd in H1; [|apply Hb..]. apply Hd in H2; [|apply Hb..].
  f_equal; [|auto]. apply code_inj. rewrite (Z.div_mod (code c) 16), (Z.div_mod (code d) 16); lia.
Qed.

(** ** base64 round trip *)

Definition sym64 (v : Z) : Prop := 0 ≤ v < 64.
Definition is_base64 (c : Ascii.ascii) : bool :=
  is_upper c || is_lower c || is_digit c || (code c =? 45) || (code c =? 95).

Lemma land_63_sym z : sym64 (Z.land z 63).
Proof.
  unfold sym64. change 63 with (Z.ones 6). rewrite Z.land_ones by lia.
  apply Z.mod_pos_bound. done.
Qed.
Lemma shiftr_2_sym c : sym64 (Z.shiftr (code c) 2).
Proof.
  unfold sym64. pose proof (code_range c). rewrite Z.shiftr_div_pow2 by lia.
  split; [apply Z.div_pos; lia|apply Z.div_lt_upper_bound; lia].
Qed.

(** Checked on each of the 64 symbols. *)
Lemma base64_symbol v :
  sym64 v → base64.decodeMap (base64.encodeMap v) = Some v ∧ is_base64 (base64.encodeMap v) = true.
Proof.
  intros Hv.
  assert (forallb (λ n, let v := Z.of_nat n in
    bool_decide (base64.decodeMap (base64.encodeMap v) = Some v)
    && is_base64 (base64.encodeMap v)) (List.seq 0 64) = true) as H by (vm_compute; reflexivity).
  rewrite forallb_forall in H. specialize (H (Z.to_nat v)). cbv zeta in H.
  rewrite Z2Nat.id in H by (destruct Hv; done).
  apply andb_true_iff in H as [H1%bool_decide_eq_true H2]; [done|].
  apply in_seq. unfold sym64 in Hv. lia.
Qed.

Lemma base64_decode_sym v rest j dbuf :
  sym64 v →
  base64.decode (String (base64.encodeMap v) rest) j dbuf
  = if (j =? 3)%nat
    then String.append (base64.pack 4 (dbuf ++ [v])) <$> base64.decode rest 0 []
    else base64.decode rest (S j) (dbuf ++ [v]).
Proof.
  intros Hv. cbn [base64.decode]. by destruct (base64_symbol v Hv) as [-> _].
Qed.

#[export] Hint Resolve land_63_sym shiftr_2_sym : takuhai.

(** Induction on a string by groups of three bytes. *)
Lemma triple_ind (P : string → Prop) :
  P "" → (∀ b0, P (String b0 "")) → (∀ b0 b1, P (String b0 (String b1 ""))) →
  (∀ b0 b1 b2 s, P s → P (String b0 (String b1 (String b2 s)))) → ∀ s, P s.
Proof.
  intros H0 H1 H2 H3 s. induction s as [s IH] using string_length_ind.
  destruct s as [|b0 [|b1 [|b2 s]]]; auto. apply H3, IH. simpl. lia.
Qed.

Lemma base64_decode_encode s : base64.decode (base64.EncodeToString s) 0 [] = Some s.
Proof.
  induction s as [|b0|b0 b1|b0 b1 b2 s IH] using triple_ind; [done|..];
    cbn [base64.EncodeToString]; rewrite !base64_decode_sym by auto with takuhai; cbn [Nat.eqb app].
  - cbn [base64.decode]. unfold base64.pack. cbn [nth]. do 2 f_equal. bitblast_byte.
  - cbn [base64.decode]. unfold base64.pack. cbn [nth].
    f_equal. f_equal; [bitblast_byte|]. f_equal. bitblast_byte.
  - rewrite IH. unfold base64.pack. cbn [nth]. simpl fmap. rewrite !str_app_cons, str_app_nil_l.
    f_equal. do 2 (f_equal; [bitblast_byte|]). f_equal. bitblast_byte.
Qed.

Lemma is_base64_sym v : sym64 v → is_base64 (base64.encodeMap v) = true.
Proof. apply base64_symbol. Qed.

Lemma EncodeToString_base64 s : str_forall is_base64 (base64.EncodeToString s) = true.
Proof.
  induction s as [|b0|b0 b1|b0 b1 b2 s IH] using triple_ind; [done|..];
    cbn [base64.EncodeToString str_forall];
    rewrite !is_base64_sym by auto with takuhai; done.
Qed.

Lemma base64_roundtrip s : base64.DecodeString (base64.EncodeToString s) = Some s.
Proof.
  unfold base64.DecodeString. rewrite strip_newlines_graphic; [apply base64_decode_encode|].
  eapply str_forall_impl; [|apply EncodeToString_base64]. by_bytes.
Qed.
