(* ===== verification/Infohash.v ===== *)
(** * Package [internal/infohash]: the canonical dedup key

    [NormalizeInfohash] (src/internal/infohash/infohash.go) maps whatever a
    crawler or a caller writes for a torrent (bare hex, bare base32, a magnet
    link, a hybrid magnet) to the canonical v1 btih, 40 lowercase hex digits,
    or skips it.  The file proves that the key is canonical, that every
    spelling of one torrent gets the same key and different torrents get
    different keys, and which inputs are skipped. *)

From S2P Require Import Prelude GoStrings Encoding.
From Stdlib Require Import Ascii.

Module infohash.

Definition ErrSkipInfohash : error :=
  ErrNew "takuhai/infohash: infohash skipped (empty, pure-v2, or non-40-hex)".

Fixpoint isHex40 (s : string) : bool :=
  match s with
  | "" => true
  | String c s =>
      if ((code c <? code "0") || (code "9" <? code c))
         && ((code c <? code "a") || (code "f" <? code c))
         && ((code c <? code "A") || (code "F" <? code c))
      then false
      else isHex40 s
  end.

Definition canonicalBtih (s : string) : result string :=
  if len s =? 40 then
    if isHex40 s then Ok (ToLower s) else Err ErrSkipInfohash
  else if len s =? 32 then
    match base32.DecodeString (ToUpper s) with
    | Some b => if len b =? 20 then Ok (hex.EncodeToString b) else Err ErrSkipInfohash
    | None => Err ErrSkipInfohash
    end
  else Err ErrSkipInfohash.

Definition NormalizeInfohash (raw : string) : result string :=
  let s := TrimSpace raw in
  if bool_decide (s = "") then Err ErrSkipInfohash else
  match index_of "urn:btih:" s with
  | Some i =>
      let s := drop_str (i + String.length "urn:btih:") s in
      match index_byte "&" s with
      | Some j => canonicalBtih (take_str j s)
      | None => canonicalBtih s
      end
  | None =>
      if has_prefix "magnet:" s || contains s "urn:btmh:" then Err ErrSkipInfohash
      else canonicalBtih s
  end.

(** ** Specification

    A 20-byte digest [d] identifies a torrent.  [spelling d b]: [b] is the
    hex (in any case) or base32 (in any case) form of [d].  [names d s]: the
    string [s] names the torrent [d]: a bare spelling, or a spelling after
    the first [urn:btih:] of [s], up to the next [&]. *)
Inductive spelling (d : string) : string → Prop :=
  | hex_spelling b : str_map lower_byte b = hex.EncodeToString d → spelling d b
  | base32_spelling b : str_map upper_byte b = base32.encode d → spelling d b.

Definition first_urn (pre : string) : Prop :=
  index_of "urn:btih:" (pre +:+ "urn:btih:") = Some (String.length pre).

Inductive names (d : string) : string → Prop :=
  | names_bare b : spelling d b → names d b
  | names_urn pre b :
      str_forall is_graphic pre = true → first_urn pre → spelling d b →
      names d (pre +:+ ("urn:btih:" +:+ b))
  | names_params pre b params :
      str_forall is_graphic pre = true → first_urn pre → spelling d b →
      names d (pre +:+ ("urn:btih:" +:+ (b +:+ String "&" params))).

Definition canonical (h : string) : Prop :=
  String.length h = 40%nat ∧ str_forall is_hex_lower h = true.

(** ** Lemmas *)

Definition is_hex (c : ascii) : bool := is_hex_lower (lower_byte c).

Lemma isHex40_spec s : isHex40 s = str_forall is_hex s.
Proof.
  induction s as [|c s IH]; [done|]. simpl. rewrite <-IH.
  assert (negb (((code c <? code "0") || (code "9" <? code c))
              && ((code c <? code "a") || (code "f" <? code c))
              && ((code c <? code "A") || (code "F" <? code c))) = is_hex c) as <-.
  { apply eqb_prop. revert c. apply all_bytes_spec. vm_compute. reflexivity. }
  by destruct (((code c <? code "0") || (code "9" <? code c)) && _ && _).
Qed.

(** No byte of a spelling is a space or one of the bytes the parser looks for. *)
Definition is_plain (c : ascii) : bool :=
  is_graphic c && negb (Ascii.eqb c ":") && negb (Ascii.eqb c "&").

Lemma hex_plain c : is_hex c = true → is_plain c = true.
Proof. revert c. by_bytes. Qed.
Lemma base32_plain c : is_base32 (upper_byte c) = true → is_plain c = true.
Proof. revert c. by_bytes. Qed.
Lemma plain_graphic c : is_plain c = true → is_graphic c = true.
Proof. revert c. by_bytes. Qed.

Lemma str_forall_via_map p q f s t :
  (∀ c, p (f c) = true → q c = true) →
  str_map f s = t → str_forall p t = true → str_forall q s = true.
Proof.
  intros Hpq <-. rewrite str_forall_map. by apply str_forall_impl.
Qed.

Lemma length_str_map f s : String.length (str_map f s) = String.length s.
Proof. induction s as [|c s IH]; simpl; congruence. Qed.

Lemma hex_canonical d : String.length d = 20%nat → canonical (hex.EncodeToString d).
Proof. intros Hd. split; [by rewrite length_hex, Hd|apply hex_EncodeToString_lower]. Qed.

Lemma spelling_plain d b :
  String.length d = 20%nat → spelling d b → str_forall is_plain b = true.
Proof.
  intros Hd [b' Hb|b' Hb].
  - eapply str_forall_via_map; [|exact Hb|apply hex_EncodeToString_lower]. apply hex_plain.
  - eapply str_forall_via_map; [|exact Hb|by eapply (encode_base32 4)]. apply base32_plain.
Qed.
Lemma spelling_graphic d b :
  String.length d = 20%nat → spelling d b → str_forall is_graphic b = true.
Proof. intros. eapply str_forall_impl; [apply plain_graphic|by eapply spelling_plain]. Qed.

(** The two spellings of a digest canonicalise to its hex form. *)
Lemma canonicalBtih_spelling d b :
  String.length d = 20%nat → spelling d b → canonicalBtih b = Ok (hex.EncodeToString d).
Proof.
  intros Hd Hs. pose proof (spelling_graphic d b Hd Hs) as Hg. unfold canonicalBtih.
  rewrite !len_length.
  destruct Hs as [b' Hb|b' Hb].
  - rewrite <-(length_str_map lower_byte), Hb, length_hex, Hd. simpl.
    rewrite ToLower_graphic, Hb, isHex40_spec by done.
    assert (str_forall is_hex b' = true) as ->; [|done].
    eapply str_forall_via_map; [|exact Hb|apply hex_EncodeToString_lower]. done.
  - rewrite <-(length_str_map upper_byte), Hb, (length_encode 4) by done. simpl.
    rewrite ToUpper_graphic, Hb, (base32_roundtrip 4) by done.
    by rewrite len_length, Hd.
Qed.

Lemma spelling_nonempty d b : String.length d = 20%nat → spelling d b → b ≠ "".
Proof. intros Hd Hs ->. by pose proof (canonicalBtih_spelling d "" Hd Hs). Qed.

(** What follows a [urn:btih:] is read up to the next [&]. *)
Lemma normalize_urn d raw pre b tail :
  String.length d = 20%nat → spelling d b → first_urn pre →
  (tail = "" ∨ ∃ params, tail = String "&" params) →
  TrimSpace raw = pre +:+ ("urn:btih:" +:+ (b +:+ tail)) →
  NormalizeInfohash raw = Ok (hex.EncodeToString d).
Proof.
  intros Hd Hs Hpre Htail Htrim. unfold NormalizeInfohash. rewrite Htrim.
  rewrite bool_decide_eq_false_2 by (destruct pre; done).
  rewrite index_of_app by done.
  replace (drop_str _ _) with (b +:+ tail).
  2:{ rewrite <-length_app_str, <-str_app_assoc. by rewrite drop_str_app. }
  assert (str_forall (λ a, negb (Ascii.eqb a "&")) b = true) as Hb.
  { eapply str_forall_impl; [|by eapply spelling_plain]. by_bytes. }
  destruct Htail as [->|[params ->]].
  - rewrite str_app_nil_r, index_byte_none by done. by apply canonicalBtih_spelling.
  - rewrite index_byte_app, take_str_app by done. by apply canonicalBtih_spelling.
Qed.

Lemma normalize_bare d b :
  String.length d = 20%nat → spelling d b → NormalizeInfohash b = Ok (hex.EncodeToString d).
Proof.
  intros Hd Hs. unfold NormalizeInfohash.
  rewrite TrimSpace_graphic by (by eapply spelling_graphic).
  rewrite bool_decide_eq_false_2 by (by eapply spelling_nonempty).
  pose proof (spelling_plain d b Hd Hs) as Hp.
  rewrite (index_of_absent is_plain) by done.
  rewrite (has_prefix_absent is_plain) by done.
  unfold contains. rewrite (index_of_absent is_plain) by done.
  by apply canonicalBtih_spelling.
Qed.

Lemma normalize_names d s :
  String.length d = 20%nat → names d s → NormalizeInfohash s = Ok (hex.EncodeToString d).
Proof.
  intros Hd [b Hs|pre b Hg Hpre Hs|pre b params Hg Hpre Hs].
  - by apply normalize_bare.
  - eapply (normalize_urn d _ pre b ""); [done..|by left|]. rewrite str_app_nil_r.
    apply TrimSpace_graphic. rewrite !str_forall_app, Hg. simpl.
    rewrite (spelling_graphic d b) by done. done.
  - eapply (normalize_urn d _ pre b (String "&" (trim_right params)));
      [done..|by right; eexists|].
    rewrite <-!str_app_assoc.
    assert (str_forall is_graphic ((pre +:+ "urn:btih:") +:+ b) = true) as Hx.
    { rewrite !str_forall_app, Hg. simpl. by apply (spelling_graphic d). }
    destruct ((pre +:+ "urn:btih:") +:+ b) as [|a x] eqn:E;
      [by destruct pre; rewrite ?str_app_cons in E|].
    rewrite str_app_cons, TrimSpace_graphic_prefix; [done| |done].
    simpl in Hx. by apply andb_true_iff in Hx as [??].
Qed.

(** Upper-casing what is already lowercase hex changes nothing else: the
    lowercase hex of a digest is one of its spellings. *)
Lemma lower_hex_id h : str_forall is_hex_lower h = true → str_map lower_byte h = h.
Proof.
  intros Hh. apply str_map_id. eapply str_forall_impl; [|exact Hh]. by_bytes.
Qed.

Lemma spelling_self d : spelling d (hex.EncodeToString d).
Proof. constructor. apply lower_hex_id, hex_EncodeToString_lower. Qed.

Lemma canonicalBtih_inv b h :
  canonicalBtih b = Ok h → ∃ d, String.length d = 20%nat ∧ spelling d b ∧ h = hex.EncodeToString d.
Proof.
  unfold canonicalBtih. rewrite !len_length. intros H.
  destruct (_ =? 40) eqn:E40; [|destruct (_ =? 32) eqn:E32; [|done]]; bool_hyps.
  - rewrite isHex40_spec in H.
    destruct (str_forall is_hex b) eqn:Hx; [|done]. injection H as <-.
    assert (str_forall is_hex_lower (str_map lower_byte b) = true) as Hl
      by by rewrite str_forall_map.
    destruct (hex_decode_encode 20 (str_map lower_byte b)) as [He Hd];
      [rewrite length_str_map; lia|done|].
    exists (hex_decode (str_map lower_byte b)). split; [done|].
    rewrite He. split; [by constructor|]. apply ToLower_graphic.
    eapply str_forall_impl; [|exact Hx]. intros c Hc. by apply plain_graphic, hex_plain.
  - destruct (base32.DecodeString (ToUpper b)) as [out|] eqn:Ed; [|done].
    destruct (len out =? 20) eqn:El; [|done]. injection H as <-. bool_hyps.
    rewrite len_length in El. exists out. split; [lia|]. split; [|done].
    apply base32_spelling, base32_exact; [lia|done|lia].
Qed.

Lemma normalize_inv raw h :
  NormalizeInfohash raw = Ok h → ∃ b, canonicalBtih b = Ok h.
Proof.
  unfold NormalizeInfohash. intros H. repeat split_match_in H; try done; by eexists.
Qed.

Lemma canonicalBtih_error b e : canonicalBtih b = Err e → e = ErrSkipInfohash.
Proof. unfold canonicalBtih. intros H. repeat split_match_in H; by simplify_eq. Qed.

Lemma normalize_error raw e : NormalizeInfohash raw = Err e → e = ErrSkipInfohash.
Proof.
  unfold NormalizeInfohash. intros H.
  repeat split_match_in H; first [by simplify_eq | by apply canonicalBtih_error in H].
Qed.

Lemma normalize_canonical raw h : NormalizeInfohash raw = Ok h → canonical h.
Proof.
  intros [b Hb]%normalize_inv. apply canonicalBtih_inv in Hb as (d&Hd&_&->).
  by apply hex_canonical.
Qed.

Lemma normalize_canonical_id h : canonical h → NormalizeInfohash h = Ok h.
Proof.
  intros [Hl Hh]. destruct (hex_decode_encode 20 h) as [He Hd]; [done..|].
  rewrite <-He at 2. apply normalize_bare; [done|]. rewrite <-He at 2. apply spelling_self.
Qed.

(** ** Theorems *)

(** C13: The dedup key is sound and complete: any two strings that name
    torrents [d] and [d'] (bare hex or base32 in any letter case, or inside a
    magnet or urn with or without further parameters, hybrids included) are
    accepted, and get the same key if and only if [d = d']. *)
Theorem dedup_key_iff d d' s s' :
  String.length d = 20%nat → String.length d' = 20%nat → names d s → names d' s' →
  NormalizeInfohash s = Ok (hex.EncodeToString d)
  ∧ (NormalizeInfohash s = NormalizeInfohash s' ↔ d = d').
Proof.
  intros Hd Hd' Hs Hs'. rewrite (normalize_names d s), (normalize_names d' s') by done.
  split; [done|]. split; [|by intros ->]. intros [= H]. by apply hex_EncodeToString_inj.
Qed.

(** Whatever is accepted is canonical (40 lowercase hex digits) and is a
    fixed point of the normalisation, and the only error is the skip. *)
Theorem normalize_sound raw :
  match NormalizeInfohash raw with
  | Ok h => canonical h ∧ NormalizeInfohash h = Ok h
  | Err e => e = ErrSkipInfohash
  end.
Proof.
  destruct (NormalizeInfohash raw) as [e|h] eqn:E; [by apply normalize_error in E|].
  apply normalize_canonical in E as Hh. split; [done|by apply normalize_canonical_id].
Qed.

(** The accepted payloads are exactly the spellings: a btih payload is
    accepted, with key [h], if and only if it is the hex or base32 form of a
    20-byte digest whose hex is [h]. *)
Theorem canonicalBtih_exact b h :
  canonicalBtih b = Ok h ↔
  ∃ d, String.length d = 20%nat ∧ spelling d b ∧ h = hex.EncodeToString d.
Proof.
  split; [apply canonicalBtih_inv|]. intros (d&Hd&Hs&->). by apply canonicalBtih_spelling.
Qed.

(** Concrete inputs, from the package's tests. *)
Definition test_hex := "4b7e3a050b355055f3cd149c5e68d9ea4576b692".
Definition test_base32 := "JN7DUBILGVIFL46NCSOF42GZ5JCXNNUS".
Definition test_digest := hex_decode test_hex.

Example normalize_examples :
  NormalizeInfohash ("  " +:+ (test_hex +:+ String (byte_of 10) "")) = Ok test_hex
  ∧ NormalizeInfohash (ToLower test_base32) = Ok test_hex
  ∧ NormalizeInfohash ("magnet:?xt=urn:btih:" +:+ (test_base32 +:+ "&dn=Some.Release&tr=udp://x")) = Ok test_hex
  ∧ NormalizeInfohash "magnet:?xt=urn:btmh:1220deadbeef" = Err ErrSkipInfohash
  ∧ NormalizeInfohash "11111111111111111111111111111111" = Err ErrSkipInfohash.
Proof. vm_compute. auto. Qed.

Lemma dedup_key_iff_witness :
  NormalizeInfohash (ToLower test_base32) = Ok (hex.EncodeToString test_digest)
  ∧ (NormalizeInfohash (ToLower test_base32)
     = NormalizeInfohash ("magnet:?xt=" +:+ ("urn:btih:" +:+ (test_hex +:+ String "&" "dn=x")))
     ↔ test_digest = test_digest).
Proof.
  apply (dedup_key_iff test_digest test_digest).
  - vm_compute. reflexivity.
  - vm_compute. reflexivity.
  - apply names_bare, base32_spelling. vm_compute. reflexivity.
  - apply names_params.
    + vm_compute. reflexivity.
    + vm_compute. reflexivity.
    + apply hex_spelling. vm_compute. reflexivity.
Defined.

End infohash.
