(* ===== verification/Store.v ===== *)
(** * Package [internal/store]: the store's vocabulary

    The parameter and result types of the store (src/internal/store/store.go)
    and its sentinel errors.  A [float64] is only stored and returned, so it
    is kept as its IEEE-754 bit pattern. *)

From S2P Require Import Prelude GoTime.

Abbreviation float64 := Z.
(** The bit pattern of [0.0]. *)
Definition float_zero : float64 := 0.

Module store.

Definition ErrNoSuchRelease : error := ErrNew "takuhai: no such release".
Definition ErrNoActiveLease : error := ErrNew "takuhai: no active lease".
Definition ErrStaleLease : error := ErrNew "takuhai: stale lease".

Record IngestParams := {
  ip_Infohash : string;
  ip_Source : string;
  ip_SourceID : string;
  ip_Title : string;
  ip_URL : string;
  ip_Magnet : string;
  ip_SizeBytes : Z;
  ip_PublishedAt : Time;
}.

Record IngestOutcome := {
  io_New : bool;
  io_Updated : bool;
  io_Duplicate : bool;
  io_Conflict : bool;
}.
(** [IngestOutcome] literals with one field set. *)
Definition outcome_New := {| io_New := true; io_Updated := false; io_Duplicate := false; io_Conflict := false |}.
Definition outcome_Updated := {| io_New := false; io_Updated := true; io_Duplicate := false; io_Conflict := false |}.
Definition outcome_Duplicate := {| io_New := false; io_Updated := false; io_Duplicate := true; io_Conflict := false |}.
Definition outcome_Conflict := {| io_New := false; io_Updated := false; io_Duplicate := false; io_Conflict := true |}.

Record ClaimParams := { cp_Limit : Z; cp_LeaseSeconds : Z }.

Record RawItemDetail := {
  rid_ID : Z;
  rid_Source : string;
  rid_SourceID : string;
  rid_Title : string;
  rid_URL : option string;
  rid_PublishedAt : Time;
  rid_IngestedAt : Time;
}.

Record ClaimedRelease := {
  cr_Infohash : string;
  cr_ClaimToken : Z;
  cr_AttemptCount : Z;
  cr_LeaseExpires : Time;
  cr_RawItems : list RawItemDetail;
}.
Record ClaimResult := { clr_Items : list ClaimedRelease }.

Record SubmitParams := {
  sp_Infohash : string;
  sp_ClaimToken : Z;
  sp_Status : string;
  sp_Ref : string;
  sp_Confidence : option float64;
  sp_Reason : string;
}.

Record QueueStats := {
  qs_Available : Z;
  qs_Leased : Z;
  qs_Unmatched : Z;
  qs_Matched : Z;
  qs_Suppressed : Z;
  qs_Exhausted : Z;
}.

Record CatalogStats := { cs_RawPosts : Z; cs_Infohashes : Z; cs_Refs : Z }.

Record ReleaseQuery := {
  rq_Ref : string;
  rq_Since : option Time;
  rq_Limit : Z;
  rq_Cursor : string;
}.

Record ReleaseItem := {
  ri_Infohash : string;
  ri_Ref : string;
  ri_Title : string;
  ri_SizeBytes : Z;
  ri_PublishedAt : Time;
  ri_Confidence : float64;
  ri_Sources : list string;
}.
Record ReleasePage := { rp_Releases : list ReleaseItem; rp_NextCursor : string }.

Record MatchEventDetail := {
  med_ID : Z;
  med_Status : string;
  med_Ref : option string;
  med_Confidence : option float64;
  med_Reason : option string;
  med_CreatedAt : Time;
}.

Record ReleaseDetail := {
  rd_Infohash : string;
  rd_Title : string;
  rd_Magnet : option string;
  rd_SizeBytes : option Z;
  rd_PublishedAt : Time;
  rd_Sources : list string;
  rd_MatchStatus : string;
  rd_Ref : option string;
  rd_Confidence : option float64;
  rd_FirstMatchedAt : option Time;
  rd_AttemptCount : Z;
  rd_CreatedAt : Time;
  rd_UpdatedAt : Time;
  rd_RawItems : list RawItemDetail;
  rd_MatchEvents : list MatchEventDetail;
}.

(** The [Store] interface, over an abstract state [S]: each method runs in a
    state and returns a value or an error and the next state. *)
Record Store (S : Type) := {
  Ping : S → result unit * S;
  IngestN : IngestParams → S → result IngestOutcome * S;
  Claim : ClaimParams → S → result ClaimResult * S;
  Submit : SubmitParams → S → result unit * S;
  store_QueueStats : S → result QueueStats * S;
  store_CatalogStats : S → result CatalogStats * S;
  ListReleases : ReleaseQuery → S → result ReleasePage * S;
  GetRelease : string → S → result ReleaseDetail * S;
  ResolveMagnets : list string → S → result (gmap string string) * S;
}.
Arguments Ping {S}. Arguments IngestN {S}. Arguments Claim {S}. Arguments Submit {S}.
Arguments store_QueueStats {S}. Arguments store_CatalogStats {S}. Arguments ListReleases {S}.
Arguments GetRelease {S}. Arguments ResolveMagnets {S}.

End store.
