(* ===== verification/GoJson.v ===== *)
(** * Package [encoding/json], as the program uses it

    UTF-8, JSON strings with Go's escaping and its repair of invalid UTF-8,
    a parser with Go's grammar and nesting limit, and the encoder of values.
    Struct decoding follows [Unmarshal]: members in order, names matched
    exactly or with case folded, [null] ignored, a value of the wrong type
    skipped and reported at the end. *)

From S2P Require Import Prelude GoStrings.
From Stdlib Require Import Ascii.

Module json.

(** ** UTF-8 *)

Definition between (lo hi : Z) (c : ascii) : bool := (lo <=? code c) && (code c <=? hi).

(** The width of the rune [s] starts with; 0 if it starts with none. *)
Definition rune_width (s : string) : nat :=
  match s with
  | "" => O
  | String c r =>
      if code c <? 128 then 1%nat
      else if between 194 223 c then
        match r with
        | String c2 _ => if between 128 191 c2 then 2%nat else O
        | _ => O
        end
      else if between 224 239 c then
        match r with
        | String c2 (String c3 _) =>
            if between (if code c =? 224 then 160 else 128) (if code c =? 237 then 159 else 191) c2
               && between 128 191 c3 then 3%nat else O
        | _ => O
        end
      else if between 240 244 c then
        match r with
        | String c2 (String c3 (String c4 _)) =>
            if between (if code c =? 240 then 144 else 128) (if code c =? 244 then 143 else 191) c2
               && between 128 191 c3 && between 128 191 c4 then 4%nat else O
        | _ => O
        end
      else O
  end.

(** [utf8.AppendRune] of a code point that is no surrogate. *)
Definition rune_bytes (z : Z) : string :=
  if z <? 128 then String (byte_of z) ""
  else if z <? 2048 then
    String (byte_of (192 + z / 64)) (String (byte_of (128 + z mod 64)) "")
  else if z <? 65536 then
    String (byte_of (224 + z / 4096)) (String (byte_of (128 + z / 64 mod 64))
      (String (byte_of (128 + z mod 64)) ""))
  else
    String (byte_of (240 + z / 262144)) (String (byte_of (128 + z / 4096 mod 64))
      (String (byte_of (128 + z / 64 mod 64)) (String (byte_of (128 + z mod 64)) ""))).
(** U+FFFD. *)
Definition RuneError : Z := 65533.

(** [utf8.ValidString]; [k] bytes of the current rune are still to come. *)
Fixpoint valid_utf8 (k : nat) (s : string) : bool :=
  match s, k with
  | "", O => true
  | "", S _ => false
  | String _ r, S k => valid_utf8 k r
  | String _ r, O =>
      match rune_width s with
      | O => false
      | S k => valid_utf8 k r
      end
  end.

(** ** Strings *)

Definition hex_lower (z : Z) : ascii := if z <? 10 then byte_of (48 + z) else byte_of (87 + z).
Definition quote_byte : ascii := byte_of 34.
Definition backslash : ascii := byte_of 92.

(** A byte below 128 as the encoder writes it. *)
Definition escape_ascii (c : ascii) : string :=
  let b := code c in
  if (b =? 34) || (b =? 92) then String backslash (String c "")
  else if b =? 8 then String backslash "b"
  else if b =? 12 then String backslash "f"
  else if b =? 10 then String backslash "n"
  else if b =? 13 then String backslash "r"
  else if b =? 9 then String backslash "t"
  else if (b <? 32) || (b =? 60) || (b =? 62) || (b =? 38) then
    String backslash (String "u" (String "0" (String "0"
      (String (hex_lower (b / 16)) (String (hex_lower (b mod 16)) "")))))
  else String c "".

(** U+2028 and U+2029 are escaped. *)
Definition line_separator (s : string) : option (ascii * string) :=
  match s with
  | String c1 (String c2 (String c3 r)) =>
      if (code c1 =? 226) && (code c2 =? 128) then
        if code c3 =? 168 then Some ("8"%char, r)
        else if code c3 =? 169 then Some ("9"%char, r) else None
      else None
  | _ => None
  end.

(** The body of a quoted string; [k] bytes of the current rune are to be
    copied. *)
Fixpoint quote_body (k : nat) (s : string) : string :=
  match s, k with
  | "", _ => ""
  | String c r, S k => String c (quote_body k r)
  | String c r, O =>
      if code c <? 128 then escape_ascii c +:+ quote_body 0 r
      else match rune_width s with
           | O => String backslash "ufffd" +:+ quote_body 0 r
           | S k =>
               match r with
               | String c2 (String c3 r3) =>
                   match line_separator s with
                   | Some (d, _) =>
                       String backslash (String "u" (String "2" (String "0" (String "2" (String d ""))))) +:+ quote_body 0 r3
                   | None => String c (quote_body k r)
                   end
               | _ => String c (quote_body k r)
               end
           end
  end.
Definition quote (s : string) : string := String quote_byte (quote_body 0 s +:+ String quote_byte "").

Definition hex_val (c : ascii) : option Z :=
  if is_digit c then Some (digit_val c)
  else if between 97 102 c then Some (code c - 87)
  else if between 65 70 c then Some (code c - 55)
  else None.
Definition hex4 (a b c d : ascii) : option Z :=
  a ← hex_val a; b ← hex_val b; c ← hex_val c; d ← hex_val d;
  Some (((a * 16 + b) * 16 + c) * 16 + d).
Definition is_surrogate (z : Z) : bool := (55296 <=? z) && (z <? 57344).
(** [utf16.DecodeRune] of a pair, if it is one. *)
Definition surrogate_pair (hi lo : Z) : option Z :=
  if (55296 <=? hi) && (hi <? 56320) && (56320 <=? lo) && (lo <? 57344)
  then Some ((hi - 55296) * 1024 + (lo - 56320) + 65536) else None.

Definition unescape1 (e : ascii) : option ascii :=
  let b := code e in
  if (b =? 34) || (b =? 92) || (b =? 47) then Some e
  else if b =? 98 then Some (byte_of 8)
  else if b =? 102 then Some (byte_of 12)
  else if b =? 110 then Some (byte_of 10)
  else if b =? 114 then Some (byte_of 13)
  else if b =? 116 then Some (byte_of 9)
  else None.

(** After the opening quote: the string's value and what follows the closing
    quote. *)
Fixpoint unquote_body (k : nat) (s : string) : option (string * string) :=
  match s with
  | "" => None
  | String c r =>
      match k with
      | S k => '(v, rest) ← unquote_body k r; Some (String c v, rest)
      | O =>
          if Ascii.eqb c quote_byte then Some ("", r)
          else if Ascii.eqb c backslash then
            match r with
            | "" => None
            | String e r1 =>
                if Ascii.eqb e "u" then
                  match r1 with
                  | String a (String b (String c (String d r2))) =>
                      u ← hex4 a b c d;
                      if is_surrogate u then
                        let single := '(v, rest) ← unquote_body 0 r2; Some (rune_bytes RuneError +:+ v, rest) in
                        match r2 with
                        | String x (String y (String a (String b (String c (String d r3))))) =>
                            if Ascii.eqb x backslash && Ascii.eqb y "u" then
                              match lo ← hex4 a b c d; surrogate_pair u lo with
                              | Some z => '(v, rest) ← unquote_body 0 r3; Some (rune_bytes z +:+ v, rest)
                              | None => single
                              end
                            else single
                        | _ => single
                        end
                      else '(v, rest) ← unquote_body 0 r2; Some (rune_bytes u +:+ v, rest)
                  | _ => None
                  end
                else
                  b ← unescape1 e;
                  '(v, rest) ← unquote_body 0 r1; Some (String b v, rest)
            end
          else if code c <? 32 then None
          else
            match rune_width s with
            | O => '(v, rest) ← unquote_body 0 r; Some (rune_bytes RuneError +:+ v, rest)
            | S k => '(v, rest) ← unquote_body k r; Some (String c v, rest)
            end
      end
  end.

(** ** A quoted string reads back *)

Lemma unquote_escape c t :
  code c < 128 →
  unquote_body 0 (escape_ascii c +:+ t) = ('(v, rest) ← unquote_body 0 t; Some (String c v, rest)).
Proof.
  destruct c as [[] [] [] [] [] [] [] []]; intros H; try (exfalso; vm_compute in H; discriminate H); reflexivity.
Qed.

Lemma rune_width_high c r k : rune_width (String c r) = S k → 128 ≤ code c → (1 ≤ k ≤ 3)%nat.
Proof.
  cbn. destruct (Z.ltb_spec (code c) 128); [lia|].
  destruct r as [|c2 [|c3 [|c4 r]]]; repeat split_match; intros [= <-]; lia.
Qed.

Lemma quote_body_copy k r T :
  quote_body (S k) r +:+ T = match r with "" => T | String c r => String c (quote_body k r +:+ T) end.
Proof. destruct r; [apply str_app_nil_l|]. cbn [quote_body]. apply str_app_cons. Qed.

(** Copying the continuation bytes keeps the width. *)
Lemma rune_width_copy c r k T :
  128 ≤ code c → rune_width (String c r) = S k → rune_width (String c (quote_body k r +:+ T)) = S k.
Proof.
  intros Hc Hw. pose proof (rune_width_high c r k Hw Hc) as Hk. cbn [rune_width] in *.
  destruct (Z.ltb_spec (code c) 128); [lia|].
  destruct k as [|[|[|[|k]]]]; try lia;
    destruct r as [|c2 [|c3 [|c4 r]]]; repeat (rewrite quote_body_copy; cbv beta iota);
    destruct (between 194 223 c), (between 224 239 c), (between 240 244 c); try done;
    repeat split_match_in Hw; simplify_eq; done.
Qed.

Lemma line_separator_spec s d r :
  line_separator s = Some (d, r) →
  ∃ z, s = rune_bytes z +:+ r ∧ (d = "8"%char ∧ z = 8232 ∨ d = "9"%char ∧ z = 8233).
Proof.
  unfold line_separator. destruct s as [|c1 [|c2 [|c3 r']]]; try done.
  destruct (Z.eqb_spec (code c1) 226) as [E1|]; [|done].
  destruct (Z.eqb_spec (code c2) 128) as [E2|]; [|done]. cbn [andb].
  apply (f_equal byte_of) in E1, E2. rewrite byte_of_code in E1, E2. subst c1 c2.
  destruct (Z.eqb_spec (code c3) 168) as [E3|].
  { apply (f_equal byte_of) in E3. rewrite byte_of_code in E3. subst c3. intros [= <- <-].
    exists 8232. split; [reflexivity|by left]. }
  destruct (Z.eqb_spec (code c3) 169) as [E3|]; [|done].
  apply (f_equal byte_of) in E3. rewrite byte_of_code in E3. subst c3. intros [= <- <-].
  exists 8233. split; [reflexivity|by right].
Qed.

Lemma quote_body_high c r k :
  128 ≤ code c → rune_width (String c r) = S k →
  (∃ d r3, line_separator (String c r) = Some (d, r3) ∧ k = 2%nat
     ∧ quote_body 0 (String c r)
       = String backslash (String "u" (String "2" (String "0" (String "2" (String d ""))))) +:+ quote_body 0 r3)
  ∨ quote_body 0 (String c r) = String c (quote_body k r).
Proof.
  intros Hc Hw. unfold quote_body at 1 3. fold quote_body.
  destruct (Z.ltb_spec (code c) 128); [lia|]. rewrite Hw. 
  destruct r as [|c2 [|c3 r3]]; [by right..|].
  destruct (line_separator (String c (String c2 (String c3 r3)))) as [[d r']|] eqn:El; [left|by right].
  exists d, r'. assert (r' = r3) as ->.
  { unfold line_separator in El. repeat split_match_in El; by simplify_eq. }
  split_and!; [done| |done].
  apply line_separator_spec in El as (z&Hs&Hz).
  destruct Hz as [[_ ->]|[_ ->]]; vm_compute in Hs; injection Hs as -> -> ->; vm_compute in Hw; congruence.
Qed.

(** What a decoder gets for what [quote] wrote: each byte that begins no rune
    has become U+FFFD. *)
Fixpoint repair (k : nat) (s : string) : string :=
  match s, k with
  | "", _ => ""
  | String c r, S k => String c (repair k r)
  | String c r, O =>
      match rune_width s with
      | O => rune_bytes RuneError +:+ repair 0 r
      | S k => String c (repair k r)
      end
  end.
Lemma repair_valid k s : valid_utf8 k s = true → repair k s = s ∧ (k ≤ String.length s)%nat.
Proof.
  revert k. induction s as [|c r IH]; intros k H; [by destruct k|]. destruct k as [|k]; cbn [valid_utf8 repair String.length] in *.
  - destruct (rune_width (String c r)) as [|k]; [done|]. destruct (IH _ H) as [-> _]. split; [done|lia].
  - destruct (IH _ H) as [-> ?]. split; [done|lia].
Qed.
Lemma rune_width_length c r k : rune_width (String c r) = S k → (k ≤ String.length r)%nat.
Proof.
  cbn [rune_width]. intros H. repeat split_match_in H; simplify_eq; cbn; lia.
Qed.
Lemma unquote_ufffd X :
  unquote_body 0 (String backslash "ufffd" +:+ X)
  = '(v, rest) ← unquote_body 0 X; Some (rune_bytes RuneError +:+ v, rest).
Proof. reflexivity. Qed.

Lemma unquote_quote_any k s T :
  (k ≤ String.length s)%nat → unquote_body k (quote_body k s +:+ String quote_byte T) = Some (repair k s, T).
Proof.
  revert k. induction s as [s IH] using string_length_ind. intros k Hk.
  destruct s as [|c r]; [destruct k; [done|cbn in Hk; lia]|]. destruct k as [|k].
  2:{ cbn [quote_body repair String.length] in *. rewrite str_app_cons. cbn [unquote_body].
      rewrite IH by (cbn; lia). done. }
  destruct (Z.ltb_spec (code c) 128) as [Hlt|Hge].
  - assert (rune_width (String c r) = 1%nat) as Hw by (cbn; by apply Z.ltb_lt in Hlt as ->).
    cbn [repair quote_body]. rewrite Hw. pose proof (proj2 (Z.ltb_lt _ _) Hlt) as ->.
    rewrite str_app_assoc, unquote_escape, IH by (done || cbn; lia). done.
  - destruct (rune_width (String c r)) as [|k] eqn:Hw.
    { cbn [repair quote_body]. rewrite Hw, (proj2 (Z.ltb_ge _ _) Hge), str_app_assoc, unquote_ufffd.
      by rewrite IH by (cbn; lia). }
    destruct (quote_body_high c r k Hge Hw) as [(d&r3&Hsep&->&->)| ->].
    + apply line_separator_spec in Hsep as (z&Hs&Hz).
      assert (unquote_body 0 (quote_body 0 r3 +:+ String quote_byte T) = Some (repair 0 r3, T)) as Hrest.
      { apply IH; [rewrite Hs, length_app_str; destruct Hz as [[_ ->]|[_ ->]]; cbn; lia|lia]. }
      rewrite str_app_assoc, Hs. transitivity
        ('(v, rest) ← unquote_body 0 (quote_body 0 r3 +:+ String quote_byte T); Some (rune_bytes z +:+ v, rest)).
      * destruct Hz as [[-> ->]|[-> ->]]; reflexivity.
      * rewrite Hrest. destruct Hz as [[_ ->]|[_ ->]]; reflexivity.
    + rewrite str_app_cons. cbn [unquote_body repair]. rewrite Hw.
      assert (Ascii.eqb c quote_byte = false ∧ Ascii.eqb c backslash = false ∧ (code c <? 32) = false) as (->&->&->).
      { split_and!; [apply not_true_iff_false; intros ->%Ascii.eqb_eq; by vm_compute in Hge..|].
        apply Z.ltb_ge. lia. }
      rewrite rune_width_copy by done. apply rune_width_length in Hw. by rewrite IH by (done || cbn; lia).
Qed.
Lemma unquote_quote k s T :
  valid_utf8 k s = true → unquote_body k (quote_body k s +:+ String quote_byte T) = Some (s, T).
Proof. intros [Hr Hk]%repair_valid. by rewrite unquote_quote_any, Hr. Qed.

(** ** Values *)

(** A string keeps the text between its quotes too, which some decoders
    read. *)
Inductive json :=
  | JNull
  | JBool (b : bool)
  | JNumber (literal : string)
  | JString (s raw : string)
  | JArray (elements : list json)
  | JObject (members : list (string * json)).

Fixpoint skip_ws (s : string) : string :=
  match s with
  | String c r =>
      if (code c =? 32) || (code c =? 9) || (code c =? 10) || (code c =? 13) then skip_ws r else s
  | "" => ""
  end.

(** Digits, at least [min]. *)
Fixpoint digits (s : string) : string * string :=
  match s with
  | String c r => if is_digit c then let '(ds, rest) := digits r in (String c ds, rest) else ("", s)
  | "" => ("", "")
  end.
Definition digits1 (s : string) : option (string * string) :=
  let '(ds, rest) := digits s in if bool_decide (ds = "") then None else Some (ds, rest).

(** An optional minus, an integer part without leading zeros, an optional
    fraction and an optional exponent: the longest match. *)
Definition number_literal (s : string) : option (string * string) :=
  let '(sign, s1) := match s with String "-" r => ("-", r) | _ => ("", s) end in
  '(int, s2) ← match s1 with
               | String "0" r => Some ("0", r)
               | _ => digits1 s1
               end;
  '(frac, s3) ← match s2 with
                | String "." r => '(ds, rest) ← digits1 r; Some (String "." ds, rest)
                | _ => Some ("", s2)
                end;
  '(exp, s4) ← match s3 with
               | String e r =>
                   if Ascii.eqb e "e" || Ascii.eqb e "E" then
                     let '(sg, r') := match r with
                                      | String "+" r' => ("+", r')
                                      | String "-" r' => ("-", r')
                                      | _ => ("", r)
                                      end in
                     '(ds, rest) ← digits1 r'; Some (String e (sg +:+ ds), rest)
                   else Some ("", s3)
               | "" => Some ("", s3)
               end;
  Some (sign +:+ int +:+ frac +:+ exp, s4).

Definition maxNestingDepth : Z := 10000.

(** The value at the front of [s], and what follows it. *)
Fixpoint value (fuel : nat) (depth : Z) (s : string) : option (json * string) :=
  match fuel with
  | O => None
  | S fuel =>
      match skip_ws s with
      | "" => None
      | String c r =>
          if Ascii.eqb c "{" then
            if maxNestingDepth <? depth + 1 then None else
            match skip_ws r with
            | String "}" r' => Some (JObject [], r')
            | r' => '(ms, rest) ← members fuel (depth + 1) r'; Some (JObject ms, rest)
            end
          else if Ascii.eqb c "[" then
            if maxNestingDepth <? depth + 1 then None else
            match skip_ws r with
            | String "]" r' => Some (JArray [], r')
            | r' => '(vs, rest) ← elements fuel (depth + 1) r'; Some (JArray vs, rest)
            end
          else if Ascii.eqb c quote_byte then
            '(v, rest) ← unquote_body 0 r;
            Some (JString v (take_str (String.length r - String.length rest - 1) r), rest)
          else if Ascii.eqb c "t" then rest ← cut_prefix r "rue"; Some (JBool true, rest)
          else if Ascii.eqb c "f" then rest ← cut_prefix r "alse"; Some (JBool false, rest)
          else if Ascii.eqb c "n" then rest ← cut_prefix r "ull"; Some (JNull, rest)
          else '(lit, rest) ← number_literal (String c r); Some (JNumber lit, rest)
      end
  end
with elements (fuel : nat) (depth : Z) (s : string) : option (list json * string) :=
  match fuel with
  | O => None
  | S fuel =>
      '(v, r) ← value fuel depth s;
      match skip_ws r with
      | String "," r' => '(vs, rest) ← elements fuel depth r'; Some (v :: vs, rest)
      | String "]" r' => Some ([v], r')
      | _ => None
      end
  end
with members (fuel : nat) (depth : Z) (s : string) : option (list (string * json) * string) :=
  match fuel with
  | O => None
  | S fuel =>
      match skip_ws s with
      | String q r =>
          if negb (Ascii.eqb q quote_byte) then None else
          '(name, r1) ← unquote_body 0 r;
          match skip_ws r1 with
          | String ":" r2 =>
              '(v, r3) ← value fuel depth r2;
              match skip_ws r3 with
              | String "," r4 => '(ms, rest) ← members fuel depth r4; Some ((name, v) :: ms, rest)
              | String "}" r4 => Some ([(name, v)], r4)
              | _ => None
              end
          | _ => None
          end
      | "" => None
      end
  end.
(** The string as [quote] writes it. *)
Definition jstring (s : string) : json := JString s (quote_body 0 s).
(** Every call consumes a byte, or is the first of a list. *)
Definition json_fuel (s : string) : nat := 2 * String.length s + 2.

(** [Unmarshal] takes one value and nothing after it; [Decoder.Decode] takes
    the first. *)
Definition decode_value (s : string) : option json := fst <$> value (json_fuel s) 0 s.
Definition parse (s : string) : option json :=
  '(v, rest) ← value (json_fuel s) 0 s;
  if bool_decide (skip_ws rest = "") then Some v else None.

(** ** Encoding *)

Fixpoint encode (v : json) : string :=
  match v with
  | JNull => "null"
  | JBool true => "true"
  | JBool false => "false"
  | JNumber lit => lit
  | JString s _ => quote s
  | JArray l =>
      "[" +:+ (fix go l := match l with
                           | [] => ""
                           | [v] => encode v
                           | v :: l => encode v +:+ "," +:+ go l
                           end) l +:+ "]"
  | JObject ms =>
      "{" +:+ (fix go ms := match ms with
                            | [] => ""
                            | [(k, v)] => quote k +:+ ":" +:+ encode v
                            | (k, v) :: ms => quote k +:+ ":" +:+ encode v +:+ "," +:+ go ms
                            end) ms +:+ "}"
  end.

(** ** Decoding into structs *)

(** [foldName]: upper case, with the two letters outside ASCII that fold to
    an ASCII one (the Kelvin sign and the long s). *)
Fixpoint foldName (s : string) : string :=
  match s with
  | "" => ""
  | String c r =>
      match r with
      | "" => String (upper_byte c) ""
      | String c2 r2 =>
          if (code c =? 197) && (code c2 =? 191) then String "S" (foldName r2)
          else match r2 with
               | "" => String (upper_byte c) (foldName r)
               | String c3 r3 =>
                   if (code c =? 226) && (code c2 =? 132) && (code c3 =? 170)
                   then String "K" (foldName r3)
                   else String (upper_byte c) (foldName r)
               end
      end
  end.

(** A field: its name and how a value is stored ([null] into a value is no
    store, into a pointer or slice it is nil); [None] is a value of the wrong
    type. *)
Definition field (A : Type) : Type := string * (json → A → option A).

Definition find_field {A} (fields : list (field A)) (name : string) : option (field A) :=
  match find (λ f, bool_decide (f.1 = name)) fields with
  | Some f => Some f
  | None => find (λ f, bool_decide (foldName f.1 = foldName name)) fields
  end.

(** The members in order; the flag says whether one had the wrong type or,
    with [DisallowUnknownFields], no field. *)
Fixpoint decode_members {A} (strict : bool) (fields : list (field A)) (ms : list (string * json)) (a : A) : A * bool :=
  match ms with
  | [] => (a, false)
  | (name, v) :: ms =>
      match find_field fields name with
      | None => let '(a, bad) := decode_members strict fields ms a in (a, strict || bad)
      | Some (_, set) =>
          match set v a with
          | Some a => decode_members strict fields ms a
          | None => let '(a, _) := decode_members strict fields ms a in (a, true)
          end
      end
  end.
Definition ErrSyntax : error := ErrNew "json: syntax error".
Definition ErrType : error := ErrNew "json: cannot unmarshal".
Definition decode_struct {A} (strict : bool) (fields : list (field A)) (zero : A) (v : json) : result A :=
  match v with
  | JNull => Ok zero
  | JObject ms =>
      let '(a, bad) := decode_members strict fields ms zero in
      if bad : bool then Err ErrType else Ok a
  | _ => Err ErrType
  end.
Definition Unmarshal {A} (fields : list (field A)) (zero : A) (s : string) : result A :=
  match parse s with
  | None => Err ErrSyntax
  | Some v => decode_struct false fields zero v
  end.
(** [Decoder.Decode]: the first value of the input, whatever follows it. *)
Definition Decoder_Decode {A} (strict : bool) (fields : list (field A)) (zero : A) (s : string) : result A :=
  match decode_value s with
  | None => Err ErrSyntax
  | Some v => decode_struct strict fields zero v
  end.

Definition string_field {A} (name : string) (set : string → A → A) : field A :=
  (name, λ v a, match v with JString s _ => Some (set s a) | JNull => Some a | _ => None end).
(** An [int] or [int64]: an integer literal in range. *)
Definition int_field {A} (name : string) (set : Z → A → A) : field A :=
  (name, λ v a, match v with
                | JNumber lit => match Atoi lit with Some n => Some (set n a) | None => None end
                | JNull => Some a
                | _ => None
                end).
(** A slice of structs: an element that is [null] stays zero. *)
Definition slice_field {A B} (strict : bool) (name : string) (fields : list (field B)) (zero : B)
    (set : list B → A → A) : field A :=
  (name, λ v a, match v with
                | JArray l =>
                    match mapM (decode_struct strict fields zero) l with
                    | Ok bs => Some (set bs a)
                    | Err _ => None
                    end
                | JNull => Some (set [] a)
                | _ => None
                end).

End json.
