(* ===== verification/GoJsonThms.v ===== *)
(** * Encoded JSON parses back to the value it encodes *)

From S2P Require Import Prelude GoStrings GoJson.
From Stdlib Require Import Ascii.
Import json.

(** Induction through the lists of a value. *)
Section json_ind.
Context (P : json → Prop).
Hypothesis (Hnull : P JNull) (Hbool : ∀ b, P (JBool b)) (Hnum : ∀ l, P (JNumber l)) (Hstr : ∀ s raw, P (JString s raw)).
Hypothesis (Harr : ∀ l, Forall P l → P (JArray l)).
Hypothesis (Hobj : ∀ ms, Forall (λ m, P m.2) ms → P (JObject ms)).

Fixpoint json_nested_ind (v : json) : P v :=
  match v with
  | JNull => Hnull
  | JBool b => Hbool b
  | JNumber l => Hnum l
  | JString s raw => Hstr s raw
  | JArray l =>
      Harr l ((fix go l := match l return Forall P l with
                           | [] => Forall_nil_2 P
                           | v :: l => Forall_cons_2 P v l (json_nested_ind v) (go l)
                           end) l)
  | JObject ms =>
      Hobj ms ((fix go ms := match ms return Forall (λ m, P m.2) ms with
                             | [] => Forall_nil_2 _
                             | m :: ms => Forall_cons_2 _ m ms (json_nested_ind m.2) (go ms)
                             end) ms)
  end.
End json_ind.

(** ** What may be encoded *)

(** What may follow a value. *)
Definition delimiter (s : string) : Prop :=
  match s with
  | "" => True
  | String c _ => c = ","%char ∨ c = "]"%char ∨ c = "}"%char ∨ c = byte_of 10
  end.
(** A literal the parser reads whole. *)
Definition number_ok (lit : string) : Prop :=
  (∃ c t, lit = String c t ∧ (is_digit c || Ascii.eqb c "-") = true)
  ∧ ∀ T, delimiter T → number_literal (lit +:+ T) = Some (lit, T).

(** Strings and names may hold anything. *)
Inductive json_shape : json → Prop :=
  | shape_null : json_shape JNull
  | shape_bool b : json_shape (JBool b)
  | shape_number lit : number_ok lit → json_shape (JNumber lit)
  | shape_string s : json_shape (jstring s)
  | shape_array l : Forall json_shape l → json_shape (JArray l)
  | shape_object ms : Forall (λ m, json_shape m.2) ms → json_shape (JObject ms).
(** What it parses back to. *)
Fixpoint repaired (v : json) : json :=
  match v with
  | JString s raw => JString (repair 0 s) raw
  | JArray l => JArray (repaired <$> l)
  | JObject ms => JObject ((λ m, (repair 0 m.1, repaired m.2)) <$> ms)
  | v => v
  end.
(** Strings are text too. *)
Inductive json_ok : json → Prop :=
  | ok_null : json_ok JNull
  | ok_bool b : json_ok (JBool b)
  | ok_number lit : number_ok lit → json_ok (JNumber lit)
  | ok_string s : valid_utf8 0 s = true → json_ok (jstring s)
  | ok_array l : Forall json_ok l → json_ok (JArray l)
  | ok_object ms : Forall (λ m, valid_utf8 0 m.1 = true ∧ json_ok m.2) ms → json_ok (JObject ms).
Fixpoint nesting (v : json) : Z :=
  match v with
  | JArray l => 1 + foldr Z.max 0 (nesting <$> l)
  | JObject ms => 1 + foldr Z.max 0 ((λ m, nesting m.2) <$> ms)
  | _ => 0
  end.

Lemma json_ok_shape v : json_ok v → json_shape v ∧ repaired v = v.
Proof.
  induction v as [| [] |lit|s raw|l IH|ms IH] using json_nested_ind; intros Hok; inversion Hok as [| | |? Hs|? Hall|? Hall]; subst.
  1-4: by split; [constructor|].
  - split; [constructor|]. cbn [repaired jstring]. by rewrite (proj1 (repair_valid 0 s Hs)).
  - assert (Forall (λ v, json_shape v ∧ repaired v = v) l) as H.
    { apply Forall_forall. intros x Hx. rewrite Forall_forall in IH, Hall. auto. }
    split; [constructor; eapply Forall_impl; [exact H|by intros ? []]|]. cbn [repaired]. f_equal.
    rewrite <-(list_fmap_id l) at 2. apply Forall_fmap_ext_1. eapply Forall_impl; [exact H|by intros ? []].
  - assert (Forall (λ m, valid_utf8 0 m.1 = true ∧ json_shape m.2 ∧ repaired m.2 = m.2) ms) as H.
    { apply Forall_forall. intros x Hx. rewrite Forall_forall in IH, Hall. destruct (Hall _ Hx). auto. }
    split; [constructor; eapply Forall_impl; [exact H|by intros ? (_&?&_)]|]. cbn [repaired]. f_equal.
    rewrite <-(list_fmap_id ms) at 2. apply Forall_fmap_ext_1. eapply Forall_impl; [exact H|].
    intros [n v] (Hn&_&E). cbn in *. by rewrite E, (proj1 (repair_valid 0 n Hn)).
Qed.

(** ** Integers *)

Lemma digits_app ds T :
  str_forall is_digit ds = true → delimiter T → digits (ds +:+ T) = (ds, T).
Proof.
  intros Hds HT. induction ds as [|c ds IH].
  - rewrite str_app_nil_l. destruct T as [|c T]; [done|]. cbn.
    by destruct HT as [-> |[-> |[-> | ->]]].
  - rewrite str_app_cons. cbn [digits str_forall] in *. apply andb_true_iff in Hds as [-> Hds].
    by rewrite IH.
Qed.

Lemma digits1_app ds T :
  str_forall is_digit ds = true → ds ≠ "" → delimiter T → digits1 (ds +:+ T) = Some (ds, T).
Proof. intros Hds Hne HT. unfold digits1. rewrite digits_app by done. by rewrite bool_decide_eq_false_2. Qed.

Lemma digit_nonzero d : 0 < d < 10 → digit d ≠ "0"%char ∧ is_digit (digit d) = true ∧ digit d ≠ "-"%char.
Proof.
  intros Hd. assert (d = 1 ∨ d = 2 ∨ d = 3 ∨ d = 4 ∨ d = 5 ∨ d = 6 ∨ d = 7 ∨ d = 8 ∨ d = 9) as H by lia.
  by repeat destruct H as [->|H]; [..|subst]; vm_compute.
Qed.
Lemma itoa_pos_head fuel n acc :
  0 < n < 10 ^ Z.of_nat fuel →
  ∃ d ds, 0 < d < 10 ∧ itoa_pos fuel n acc = String (digit d) ds.
Proof.
  revert n acc. induction fuel as [|fuel IH]; intros n acc Hn; [cbn in Hn; lia|]. cbn [itoa_pos].
  destruct (Z.ltb_spec n 10).
  - exists (n mod 10), acc. rewrite Z.mod_small by lia. split; [lia|done].
  - apply IH. rewrite Nat2Z.inj_succ, Z.pow_succ_r in Hn by lia.
    split; [apply Z.div_str_pos; lia|apply Z.div_lt_upper_bound; lia].
Qed.
(** A positive number has no leading zero. *)
Lemma Itoa_head n :
  0 < n → ∃ c ds, Itoa n = String c ds ∧ c ≠ "0"%char ∧ is_digit c = true ∧ c ≠ "-"%char.
Proof.
  intros Hn. unfold Itoa. destruct (Z.ltb_spec n 0); [lia|].
  destruct (itoa_pos_head (itoa_fuel n) n "") as (d&ds&Hd&E).
  { split; [lia|]. apply itoa_fuel_enough. lia. }
  exists (digit d), ds. split; [done|]. by apply digit_nonzero.
Qed.

(** Literals of an integer part only. *)
Lemma number_literal_int sign int T :
  (sign = "" ∨ sign = "-") → delimiter T →
  (int = "0" ∨ ∃ c ds, int = String c ds ∧ c ≠ "0"%char ∧ str_forall is_digit int = true) →
  number_literal (sign +:+ int +:+ T) = Some (sign +:+ int, T).
Proof.
  intros Hsign HT Hint. unfold number_literal.
  assert (match int +:+ T with String "-" r => False | String _ _ => True | "" => False end) as Hhead.
  { destruct Hint as [-> |(c&ds&->&_&Hd)]; [by rewrite str_app_cons|]. rewrite str_app_cons.
    cbn in Hd. apply andb_true_iff in Hd as [Hc _]. by destruct c as [[] [] [] [] [] [] [] []]. }
  assert (match sign +:+ int +:+ T with String "-" r => ("-", r) | _ => ("", sign +:+ int +:+ T) end
          = (sign, int +:+ T)) as ->.
  { destruct Hsign as [-> | ->]; [|done]. rewrite !str_app_nil_l.
    destruct (int +:+ T) as [|c r]; [done|]. by destruct c as [[] [] [] [] [] [] [] []]. }
  cbv beta iota zeta.
  assert (match int +:+ T with String "0" r => Some ("0", r) | _ => digits1 (int +:+ T) end
          = Some (int, T)) as ->.
  { destruct Hint as [-> |(c&ds&->&Hc&Hd)]; [done|]. rewrite <-(digits1_app (String c ds) T) by done.
    rewrite str_app_cons. destruct c as [[] [] [] [] [] [] [] []]; done. }
  cbn [mbind option_bind]. destruct T as [|c T]; cbn [mbind option_bind].
  - by rewrite !str_app_nil_r.
  - destruct HT as [-> |[-> |[-> | ->]]]; cbn; by rewrite !str_app_nil_r.
Qed.

Lemma number_ok_Itoa n : number_ok (Itoa n).
Proof.
  assert (∃ sign int, Itoa n = sign +:+ int ∧ (sign = "" ∨ sign = "-")
    ∧ (int = "0" ∨ ∃ c ds, int = String c ds ∧ c ≠ "0"%char ∧ str_forall is_digit int = true))
    as (sign&int&E&Hs&Hi).
  { destruct (Z.lt_trichotomy n 0) as [Hn|[-> |Hn]].
    - exists "-", (Itoa (- n)). split; [|split; [by right|right]].
      + unfold Itoa. destruct (Z.ltb_spec n 0); [|lia]. by destruct (Z.ltb_spec (- n) 0); [lia|].
      + destruct (Itoa_head (- n)) as (c&ds&E&?&_); [lia|]. exists c, ds. split_and!; [done..|].
        apply Itoa_digits. lia.
    - exists "", "0". split_and!; auto.
    - exists "", (Itoa n). rewrite str_app_nil_l. split_and!; [done|by left|right].
      destruct (Itoa_head n Hn) as (c&ds&E&?&_). exists c, ds. split_and!; [done..|].
      apply Itoa_digits. lia. }
  split.
  - rewrite E. destruct Hs as [-> | ->]; [rewrite str_app_nil_l|by eexists "-"%char, int].
    destruct Hi as [-> |(c&ds&->&_&Hd)]; [by eexists _, _|].
    exists c, ds. split; [done|]. cbn in Hd. by apply andb_true_iff in Hd as [-> _].
  - intros T HT. rewrite E, str_app_assoc. by apply number_literal_int.
Qed.

(** ** Values *)

Fixpoint comma_join (l : list string) : string :=
  match l with
  | [] => ""
  | [s] => s
  | s :: l => s +:+ "," +:+ comma_join l
  end.
Definition member_text (m : string * json) : string := quote m.1 +:+ ":" +:+ encode m.2.

Lemma encode_array l : encode (JArray l) = "[" +:+ comma_join (encode <$> l) +:+ "]".
Proof.
  cbn [encode]. do 2 f_equal. induction l as [|v [|v' l] IH]; [done..|].
  cbn in *. by rewrite IH.
Qed.
Lemma encode_object ms : encode (JObject ms) = "{" +:+ comma_join (member_text <$> ms) +:+ "}".
Proof.
  cbn [encode]. do 2 f_equal. induction ms as [|[k v] [|m' ms] IH]; [done..|].
  cbn in *. rewrite IH. unfold member_text. cbn. by rewrite !str_app_assoc.
Qed.

(** A byte no white space, closing bracket or comma. *)
Definition opens (c : ascii) : bool :=
  negb ((code c =? 32) || (code c =? 9) || (code c =? 10) || (code c =? 13))
  && negb (Ascii.eqb c "]") && negb (Ascii.eqb c "}").
Lemma skip_ws_opens c r : opens c = true → skip_ws (String c r) = String c r.
Proof.
  unfold opens. intros [[H _]%andb_true_iff _]%andb_true_iff. apply negb_true_iff in H.
  cbn [skip_ws]. by rewrite H.
Qed.

Lemma number_head c : (is_digit c || Ascii.eqb c "-") = true →
  opens c = true ∧ Ascii.eqb c "{" = false ∧ Ascii.eqb c "[" = false ∧ Ascii.eqb c quote_byte = false
  ∧ Ascii.eqb c "t" = false ∧ Ascii.eqb c "f" = false ∧ Ascii.eqb c "n" = false.
Proof. destruct c as [[] [] [] [] [] [] [] []]; intros H; try discriminate H; by vm_compute. Qed.

Lemma encode_head v : json_shape v → ∃ c t, encode v = String c t ∧ opens c = true.
Proof.
  intros [| [] |lit [(c&t&->&Hc%number_head) _]|s|l _|ms _].
  1-3: by eexists _, _.
  - exists c, t. split; [done|]. tauto.
  - by eexists _, _.
  - rewrite encode_array. by eexists _, _.
  - rewrite encode_object. by eexists _, _.
Qed.

Lemma skip_ws_encode v T : json_shape v → skip_ws (encode v +:+ T) = encode v +:+ T.
Proof. intros (c&t&->&Hc)%encode_head. rewrite str_app_cons. by apply skip_ws_opens. Qed.

(** Parsing back one value, at any depth. *)
Definition reads_back (v : json) : Prop :=
  ∀ fuel d T, 0 ≤ d → d + nesting v ≤ maxNestingDepth → delimiter T →
    (2 * String.length (encode v) + 1 ≤ fuel)%nat → value fuel d (encode v +:+ T) = Some (repaired v, T).

Lemma unquote_quote_text s T :
  ∃ r, quote s +:+ T = String quote_byte r ∧ unquote_body 0 r = Some (repair 0 s, T)
       ∧ take_str (String.length r - String.length T - 1) r = quote_body 0 s.
Proof.
  unfold quote. rewrite str_app_cons, str_app_assoc, str_app_cons, str_app_nil_l.
  eexists. split_and!; [done|apply unquote_quote_any; lia|]. rewrite length_app_str. cbn [String.length].
  replace (_ + S _ - _ - 1)%nat with (String.length (quote_body 0 s)) by lia. apply take_str_app.
Qed.

Lemma elements_read l fuel d T :
  Forall json_shape l → Forall reads_back l → l ≠ [] → 0 ≤ d →
  Forall (λ v, d + nesting v ≤ maxNestingDepth) l →
  (2 * String.length (comma_join (encode <$> l)) + 2 ≤ fuel)%nat →
  elements fuel d (comma_join (encode <$> l) +:+ String "]" T) = Some (repaired <$> l, T).
Proof.
  revert fuel. induction l as [|v l IH]; intros fuel Hok Hrb Hne Hd Hnest Hf; [done|].
  apply Forall_cons in Hok as [Hv Hok], Hrb as [Hr Hrb], Hnest as [Hn Hnest].
  destruct fuel as [|fuel]; [lia|]. cbn [elements].
  destruct l as [|v' l].
  - cbn [fmap list_fmap comma_join] in *.
    rewrite (Hr fuel d (String "]" T)); [done|done|done|by right; left|lia].
  - change (comma_join (encode <$> v :: v' :: l))
      with (encode v +:+ "," +:+ comma_join (encode <$> v' :: l)) in *.
    rewrite !length_app_str in Hf. cbn [String.length] in Hf.
    rewrite !str_app_assoc, str_app_cons, str_app_nil_l.
    rewrite (Hr fuel d); [|done|done|by left|lia].
    change (skip_ws (String "," ?r)) with (String "," r).
    cbn [mbind option_bind]. change (skip_ws (String "," ?r)) with (String "," r). cbv beta iota.
    rewrite IH by (done || lia). done.
Qed.

Lemma members_read ms fuel d T :
  Forall (λ m, json_shape m.2) ms → Forall (λ m, reads_back m.2) ms → ms ≠ [] → 0 ≤ d →
  Forall (λ m, d + nesting m.2 ≤ maxNestingDepth) ms →
  (2 * String.length (comma_join (member_text <$> ms)) + 2 ≤ fuel)%nat →
  members fuel d (comma_join (member_text <$> ms) +:+ String "}" T) = Some ((λ m, (repair 0 m.1, repaired m.2)) <$> ms, T).
Proof.
  revert fuel. induction ms as [|[k v] ms IH]; intros fuel Hok Hrb Hne Hd Hnest Hf; [done|].
  apply Forall_cons in Hok as [Hv Hok], Hrb as [Hr Hrb], Hnest as [Hn Hnest]. cbn [fst snd] in *.
  destruct fuel as [|fuel]; [lia|].
  assert (∀ X, delimiter X → (2 * String.length (encode v) + 1 ≤ fuel)%nat →
    members (S fuel) d (member_text (k, v) +:+ X) =
    match skip_ws X with
    | String "," r4 => '(ms, rest) ← members fuel d r4; Some ((repair 0 k, repaired v) :: ms, rest)
    | String "}" r4 => Some ([(repair 0 k, repaired v)], r4)
    | _ => None
    end) as Hone.
  { intros X HX Hfuel. unfold member_text. cbn [fst snd].
    rewrite !str_app_assoc, str_app_cons, str_app_nil_l.
    destruct (unquote_quote_text k (String ":" (encode v +:+ X))) as (r&->&Hr'&_).
    cbn [members]. rewrite skip_ws_opens by done. cbn [negb Ascii.eqb quote_byte]. 
    change (Ascii.eqb quote_byte quote_byte) with true. cbn [negb]. rewrite Hr'. cbn [mbind option_bind].
    change (skip_ws (String ":" ?r)) with (String ":" r). cbv beta iota.
    by rewrite (Hr fuel d X). }
  destruct ms as [|m ms].
  - cbn [fmap list_fmap comma_join] in *. rewrite Hone; [done|by do 2 right; left|].
    unfold member_text in Hf. rewrite !length_app_str in Hf. cbn [fst snd] in Hf. lia.
  - change (comma_join (member_text <$> (k, v) :: m :: ms))
      with (member_text (k, v) +:+ "," +:+ comma_join (member_text <$> m :: ms)) in *.
    rewrite !length_app_str in Hf. cbn [String.length] in Hf.
    rewrite !str_app_assoc, str_app_cons, str_app_nil_l. rewrite Hone; [|by left|].
    + change (skip_ws (String "," ?r)) with (String "," r). cbv beta iota.
      rewrite IH by (done || lia). done.
    + unfold member_text in Hf. rewrite !length_app_str in Hf. cbn [fst snd] in Hf. lia.
Qed.

Lemma nesting_max {A} (f : A → Z) (l : list A) (d m : Z) :
  d + (1 + foldr Z.max 0 (f <$> l)) ≤ m → Forall (λ x, d + 1 + f x ≤ m) l.
Proof.
  induction l as [|x l IH]; intros H; [constructor|]. cbn [fmap list_fmap foldr] in H.
  constructor; [lia|]. apply IH. unfold fmap in *. lia.
Qed.

Lemma nesting_nonneg v : 0 ≤ nesting v.
Proof.
  assert (∀ l, 0 ≤ foldr Z.max 0 l) as Hmax by (intros l; induction l; cbn; lia).
  destruct v as [| | | |l|ms]; cbn [nesting]; try lia.
  - specialize (Hmax (nesting <$> l)). lia.
  - specialize (Hmax ((λ m, nesting m.2) <$> ms)). lia.
Qed.

(** An array or object that is not empty. *)
Lemma value_array fuel d s :
  d + 1 ≤ maxNestingDepth → (∃ c t, s = String c t ∧ opens c = true) →
  value (S fuel) d (String "[" s) = '(vs, rest) ← elements fuel (d + 1) s; Some (JArray vs, rest).
Proof.
  intros Hd (c&t&->&Hc). cbn [value]. rewrite skip_ws_opens by done.
  change (Ascii.eqb "[" "{") with false. change (Ascii.eqb "[" "[") with true. cbv iota.
  destruct (Z.ltb_spec maxNestingDepth (d + 1)); [lia|]. rewrite skip_ws_opens by done.
  destruct c as [[] [] [] [] [] [] [] []]; try reflexivity. by vm_compute in Hc.
Qed.
Lemma value_object fuel d s :
  d + 1 ≤ maxNestingDepth → (∃ c t, s = String c t ∧ opens c = true) →
  value (S fuel) d (String "{" s) = '(ms, rest) ← members fuel (d + 1) s; Some (JObject ms, rest).
Proof.
  intros Hd (c&t&->&Hc). cbn [value]. rewrite skip_ws_opens by done.
  change (Ascii.eqb "{" "{") with true. cbv iota.
  destruct (Z.ltb_spec maxNestingDepth (d + 1)); [lia|]. rewrite skip_ws_opens by done.
  destruct c as [[] [] [] [] [] [] [] []]; try reflexivity. by vm_compute in Hc.
Qed.

Lemma comma_join_head s l T :
  (∃ c t, s = String c t ∧ opens c = true) → ∃ c t, comma_join (s :: l) +:+ T = String c t ∧ opens c = true.
Proof.
  intros (c&t&->&Hc). destruct l as [|s' l]; cbn [comma_join]; rewrite !str_app_cons; by eexists _, _.
Qed.

Lemma value_encode v : json_shape v → reads_back v.
Proof.
  induction v as [| [] |lit|s raw|l IH|ms IH] using json_nested_ind; intros Hok fuel d T Hd Hn HT Hf;
    (destruct fuel as [|fuel]; [lia|]).
  1-3: reflexivity.
  - inversion Hok as [| |? [(c&t&E&Hc) Hlit]| | |]; subst.
    apply number_head in Hc as (Ho&H1&H2&H3&H4&H5&H6). cbn [encode value].
    rewrite str_app_cons, skip_ws_opens by done. rewrite H1, H2, H3, H4, H5, H6.
    rewrite <-str_app_cons. by rewrite Hlit.
  - inversion Hok; subst. unfold jstring. cbn [encode].
    destruct (unquote_quote_text s T) as (r&->&Hr&Hraw). cbn [value].
    rewrite skip_ws_opens by done. change (Ascii.eqb quote_byte ?b) with (Ascii.eqb quote_byte b).
    cbn -[unquote_body take_str]. rewrite Hr. cbn [mbind option_bind]. by rewrite Hraw.
  - inversion Hok as [| | | |? Hall|]; subst. rewrite encode_array in *.
    rewrite !str_app_assoc, str_app_cons, str_app_nil_l. cbn [nesting] in Hn.
    rewrite !length_app_str in Hf. cbn [String.length] in Hf.
    destruct l as [|v l].
    { cbn [value]. rewrite skip_ws_opens by done. cbn in Hn. cbn -[Z.add maxNestingDepth].
      by destruct (Z.ltb_spec maxNestingDepth (d + 1)); [lia|]. }
    apply nesting_max in Hn.
    assert (Forall reads_back (v :: l)) as Hrb.
    { apply Forall_forall. intros x Hx. rewrite Forall_forall in IH, Hall. auto. }
    assert (d + 1 ≤ maxNestingDepth) as Hd1.
    { pose proof (Forall_inv Hn) as H. cbn in H. pose proof (nesting_nonneg v). lia. }
    rewrite value_array; [|done|].
    + rewrite str_app_cons, str_app_nil_l, elements_read by (done || lia). done.
    + apply comma_join_head, encode_head. by apply Forall_inv in Hall.
  - inversion Hok as [| | | | |? Hall]; subst. rewrite encode_object in *.
    rewrite !str_app_assoc, str_app_cons, str_app_nil_l. cbn [nesting] in Hn.
    rewrite !length_app_str in Hf. cbn [String.length] in Hf.
    destruct ms as [|m ms].
    { cbn [value]. rewrite skip_ws_opens by done. cbn in Hn. cbn -[Z.add maxNestingDepth].
      by destruct (Z.ltb_spec maxNestingDepth (d + 1)); [lia|]. }
    apply (nesting_max (λ m, nesting m.2)) in Hn.
    assert (Forall (λ m, reads_back m.2) (m :: ms)) as Hrb.
    { apply Forall_forall. intros x Hx. rewrite Forall_forall in IH, Hall. apply IH; [done|]. by apply Hall. }
    assert (d + 1 ≤ maxNestingDepth) as Hd1.
    { pose proof (Forall_inv Hn) as H. cbn in H. pose proof (nesting_nonneg m.2). lia. }
    rewrite value_object; [|done|].
    + rewrite str_app_cons, str_app_nil_l, members_read by (done || lia). done.
    + apply comma_join_head. by eexists _, _.
Qed.

(** Encoded values parse, followed by the encoder's newline or not; an
    encoded value is also the first one a decoder finds. *)
Definition newline : string := String (byte_of 10) "".
Lemma value_encode_line v T :
  json_shape v → nesting v ≤ maxNestingDepth → T = "" ∨ T = newline →
  value (json_fuel (encode v +:+ T)) 0 (encode v +:+ T) = Some (repaired v, T).
Proof.
  intros Hok Hn HT. apply value_encode; try done.
  - destruct HT as [-> | ->]; [done|]. by do 3 right.
  - unfold json_fuel. rewrite length_app_str. lia.
Qed.
Lemma parse_encode_any v T :
  json_shape v → nesting v ≤ maxNestingDepth → T = "" ∨ T = newline → parse (encode v +:+ T) = Some (repaired v).
Proof. intros Hok Hn HT. unfold parse. rewrite value_encode_line by done. by destruct HT as [-> | ->]. Qed.
Lemma parse_encode v : json_ok v → nesting v ≤ maxNestingDepth → parse (encode v) = Some v.
Proof. intros [Hs Hr]%json_ok_shape Hn. rewrite <-(str_app_nil_r (encode v)), parse_encode_any, Hr by auto. done. Qed.
Lemma parse_encode_line v : json_ok v → nesting v ≤ maxNestingDepth → parse (encode v +:+ newline) = Some v.
Proof. intros [Hs Hr]%json_ok_shape Hn. rewrite parse_encode_any, Hr by auto. done. Qed.
Lemma decode_value_encode v : json_ok v → nesting v ≤ maxNestingDepth → decode_value (encode v) = Some v.
Proof.
  intros [Hs Hr]%json_ok_shape Hn. unfold decode_value.
  rewrite <-(str_app_nil_r (encode v)), value_encode_line, Hr by auto. done.
Qed.
