(* ===== verification/GoJsonText.v ===== *)
(** * What a decoded JSON value holds is text

    Whatever bytes a client sends, the strings [encoding/json] decodes from
    them are valid UTF-8: escapes become runes, broken bytes and lone
    surrogates U+FFFD.  A struct's field keeps a property of the struct when
    storing any such value keeps it. *)

From S2P Require Import Prelude GoStrings GoTimeFmt GoJson GoJsonThms.
From Stdlib Require Import Ascii.
Import json.

(** ** Runes *)

(** A code point that is no surrogate. *)
Definition rune_ok (z : Z) : Prop := 0 ≤ z < 1114112 ∧ is_surrogate z = false.

Lemma between_true lo hi c : lo ≤ code c ≤ hi → between lo hi c = true.
Proof. intros H. unfold between. rewrite !(proj2 (Z.leb_le _ _)) by lia. done. Qed.
Lemma between_false lo hi c : code c < lo ∨ hi < code c → between lo hi c = false.
Proof. intros H. unfold between. apply andb_false_iff. rewrite !Z.leb_gt. lia. Qed.

Ltac byte_goal := rewrite ?code_byte_of by (Z.to_euclidean_division_equations; lia); Z.to_euclidean_division_equations; lia.

Lemma rune_bytes_valid z v : rune_ok z → valid_utf8 0 (rune_bytes z +:+ v) = valid_utf8 0 v.
Proof.
  unfold rune_ok, is_surrogate. intros [Hz Hs]. rewrite andb_false_iff, Z.leb_gt, Z.ltb_ge in Hs.
  unfold rune_bytes. destruct (Z.ltb_spec z 128).
  { rewrite str_app_cons, str_app_nil_l. cbn [valid_utf8 rune_width].
    by rewrite code_byte_of, (proj2 (Z.ltb_lt _ _)) by lia. }
  destruct (Z.ltb_spec z 2048); [|destruct (Z.ltb_spec z 65536)]; rewrite !str_app_cons, str_app_nil_l;
    cbn [valid_utf8 rune_width].
  - rewrite (proj2 (Z.ltb_ge _ _)) by byte_goal. rewrite (between_true 194 223), (between_true 128 191) by byte_goal. done.
  - rewrite (proj2 (Z.ltb_ge _ _)) by byte_goal. rewrite (between_false 194 223), (between_true 224 239) by byte_goal.
    rewrite (between_true (if _ =? _ then _ else _)), (between_true 128 191); [done|byte_goal|].
    rewrite !code_byte_of by byte_goal. destruct (Z.eqb_spec (224 + z / 4096) 224), (Z.eqb_spec (224 + z / 4096) 237);
      byte_goal.
  - rewrite (proj2 (Z.ltb_ge _ _)) by byte_goal.
    rewrite (between_false 194 223), (between_false 224 239), (between_true 240 244) by byte_goal.
    rewrite (between_true (if _ =? _ then _ else _)), !(between_true 128 191); [done|byte_goal..|].
    rewrite !code_byte_of by byte_goal. destruct (Z.eqb_spec (240 + z / 262144) 240), (Z.eqb_spec (240 + z / 262144) 244);
      byte_goal.
Qed.

Lemma RuneError_ok : rune_ok RuneError.
Proof. by split; vm_compute. Qed.
Lemma hex_val_range c z : hex_val c = Some z → 0 ≤ z < 16.
Proof.
  unfold hex_val. destruct (is_digit c) eqn:Hd; [intros [= <-]; apply digit_val_range in Hd; lia|].
  destruct (between 97 102 c) eqn:H1; [|destruct (between 65 70 c) eqn:H2]; intros [= <-];
    unfold between in *; bool_hyps; lia.
Qed.
Lemma hex4_range a b c d z : hex4 a b c d = Some z → 0 ≤ z < 65536.
Proof.
  unfold hex4. destruct (hex_val a) eqn:Ha; [|done]. destruct (hex_val b) eqn:Hb; [|done].
  destruct (hex_val c) eqn:Hc; [|done]. destruct (hex_val d) eqn:Hd; [|done]. cbn. intros [= <-].
  apply hex_val_range in Ha, Hb, Hc, Hd. lia.
Qed.
Lemma surrogate_pair_ok hi lo z : surrogate_pair hi lo = Some z → rune_ok z.
Proof.
  unfold surrogate_pair. destruct (_ && _) eqn:H; [|done]. intros [= <-]. bool_hyps.
  unfold rune_ok, is_surrogate. rewrite andb_false_iff, Z.leb_gt, Z.ltb_ge. lia.
Qed.

(** ** Strings *)

Lemma unescape1_ascii e b : unescape1 e = Some b → code b < 128.
Proof. destruct e as [[] [] [] [] [] [] [] []]; intros H; vm_compute in H; try discriminate; by injection H as <-. Qed.
Lemma valid_ascii c v : code c < 128 → valid_utf8 0 (String c v) = valid_utf8 0 v.
Proof. intros H. cbn [valid_utf8 rune_width]. by rewrite (proj2 (Z.ltb_lt _ _) H). Qed.

(** Continuation bytes are taken over as they are. *)
Lemma unquote_copy k s v rest :
  unquote_body (S k) s = Some (v, rest) → ∃ c r v', s = String c r ∧ v = String c v' ∧ unquote_body k r = Some (v', rest).
Proof.
  destruct s as [|c r]; [done|]. cbn [unquote_body]. destruct (unquote_body k r) as [[v' rest']|] eqn:E; [|done].
  cbn. intros [= <- <-]. by exists c, r, v'.
Qed.
Lemma rune_width_kept c r k v rest :
  128 ≤ code c → rune_width (String c r) = S k → unquote_body k r = Some (v, rest) → rune_width (String c v) = S k.
Proof.
  intros Hc Hw Hu. pose proof (rune_width_high c r k Hw Hc) as Hk. destruct k as [|[|[|[|k]]]]; try lia;
    repeat match goal with
           | H : unquote_body (S _) _ = Some _ |- _ => apply unquote_copy in H as (?&?&?&->&->&H)
           end; cbn [rune_width] in *; rewrite (proj2 (Z.ltb_ge _ _) Hc) in *; repeat split_match_in Hw; simplify_eq; done.
Qed.

(** What an escape stands for. *)
Ltac unquoted H := match type of H with context [unquote_body ?k ?s] =>
  let v := fresh "v" in let t := fresh "t" in let E := fresh "E" in
  destruct (unquote_body k s) as [[v t]|] eqn:E; [|done]; cbn [mbind option_bind] in H; injection H as <- <- end.

Lemma unquote_valid k s v rest : unquote_body k s = Some (v, rest) → valid_utf8 k v = true.
Proof.
  revert k v rest. induction s as [s IH] using string_length_ind. intros k v rest H.
  destruct k as [|k].
  2:{ apply unquote_copy in H as (c&r&v'&->&->&H). cbn [valid_utf8]. eapply IH; [|exact H]. cbn. lia. }
  destruct s as [|c r]; [done|]. cbn [unquote_body] in H.
  destruct (Ascii.eqb c quote_byte); [by injection H as <- <-|].
  destruct (Ascii.eqb c backslash).
  { destruct r as [|e r1]; [done|]. destruct (Ascii.eqb e "u").
    2:{ destruct (unescape1 e) as [b|] eqn:Eb; [|done]. cbn [mbind option_bind] in H. unquoted H.
        rewrite valid_ascii by by eapply unescape1_ascii. eapply IH; [|exact E]. cbn. lia. }
    destruct r1 as [|a [|b [|c' [|d r2]]]]; try done.
    destruct (hex4 a b c' d) as [u|] eqn:Eu; [|done]. cbn [mbind option_bind] in H. apply hex4_range in Eu.
    destruct (is_surrogate u) eqn:Es.
    2:{ unquoted H. rewrite rune_bytes_valid by (split; [lia|done]). eapply IH; [|exact E]. cbn. lia. }
    assert (∀ z r', rune_ok z → (String.length r' ≤ String.length r2)%nat →
      ('(v, rest) ← unquote_body 0 r'; Some (rune_bytes z +:+ v, rest)) = Some (v, rest) → valid_utf8 0 v = true) as Hz.
    { intros z r' Hz Hl Hu. unquoted Hu. rewrite rune_bytes_valid by done. eapply IH; [|exact E]. cbn. lia. }
    pose proof (λ Hl, Hz RuneError r2 RuneError_ok Hl) as Hone.
    cbv zeta in H. destruct r2 as [|x [|y [|a' [|b' [|c2 [|d' r3]]]]]]; try (by apply Hone).
    destruct (_ && _); [|by apply Hone]. destruct (hex4 a' b' c2 d' ≫= _) as [z|] eqn:Ez; [|by apply Hone].
    apply bind_Some in Ez as (lo&_&Ez). eapply Hz; [by eapply surrogate_pair_ok| |exact H]. cbn. lia. }
  destruct (Z.ltb_spec (code c) 32); [done|]. destruct (rune_width (String c r)) as [|k] eqn:Hw; unquoted H.
  { rewrite rune_bytes_valid by apply RuneError_ok. eapply IH; [|exact E]. cbn. lia. }
  assert (valid_utf8 k v0 = true) as Hv by (eapply IH; [|exact E]; cbn; lia).
  cbn [valid_utf8]. destruct (Z.ltb_spec (code c) 128) as [Hlt|Hge].
  - pose proof (proj2 (Z.ltb_lt _ _) Hlt) as Hb. cbn [rune_width] in Hw |- *. rewrite Hb in Hw |- *. by injection Hw as <-.
  - by erewrite rune_width_kept.
Qed.

(** ** Values *)

Definition utf8_text (s : string) : Prop := valid_utf8 0 s = true.
Lemma ascii_utf8 s : str_forall is_ascii s = true → utf8_text s.
Proof.
  unfold utf8_text. induction s as [|c s IH]; [done|]. cbn [str_forall valid_utf8].
  intros [Hc Hs]%andb_true_iff. unfold is_ascii in Hc. cbn [rune_width]. rewrite Hc. auto.
Qed.
Inductive json_text : json → Prop :=
  | text_null : json_text JNull
  | text_bool b : json_text (JBool b)
  | text_number lit : json_text (JNumber lit)
  | text_string s raw : utf8_text s → json_text (JString s raw)
  | text_array l : Forall json_text l → json_text (JArray l)
  | text_object ms : Forall (λ m, json_text m.2) ms → json_text (JObject ms).

(** Take a parser's step whose result must be there. *)
Ltac parsed H := match type of H with
  | (?m ≫= _) = Some _ =>
      let E := fresh "E" in let v := fresh "v" in let r := fresh "r" in
      destruct m as [[v r]|] eqn:E; [|discriminate H]; cbn [mbind option_bind] in H
  end.

Lemma value_text fuel :
  (∀ d s v rest, value fuel d s = Some (v, rest) → json_text v)
  ∧ (∀ d s vs rest, elements fuel d s = Some (vs, rest) → Forall json_text vs)
  ∧ (∀ d s ms rest, members fuel d s = Some (ms, rest) → Forall (λ m, json_text m.2) ms).
Proof.
  induction fuel as [|fuel (IHv&IHe&IHm)]; [done|]. split_and!.
  - intros d s v rest H. cbn [value] in H. destruct (skip_ws s) as [|c r]; [done|].
    destruct (Ascii.eqb c "{"); [|destruct (Ascii.eqb c "[")].
    + destruct (_ <? _); [done|]. destruct (skip_ws r) as [|x r']; [parsed H; injection H as <- _; constructor; by eapply IHm|].
      destruct x as [[] [] [] [] [] [] [] []];
        first [parsed H; injection H as <- _; constructor; by eapply IHm|injection H as <- _; by constructor].
    + destruct (_ <? _); [done|]. destruct (skip_ws r) as [|x r']; [parsed H; injection H as <- _; constructor; by eapply IHe|].
      destruct x as [[] [] [] [] [] [] [] []];
        first [parsed H; injection H as <- _; constructor; by eapply IHe|injection H as <- _; by constructor].
    + destruct (Ascii.eqb c quote_byte); [parsed H; injection H as <- _; constructor; by eapply unquote_valid|].
      repeat (destruct (Ascii.eqb c _); [destruct (cut_prefix r _); [|done]; cbn in H; injection H as <- _; constructor|]).
      parsed H. injection H as <- _. constructor.
  - intros d s vs rest H. cbn [elements] in H. parsed H. apply IHv in E.
    destruct (skip_ws r) as [|x r']; [done|]. destruct x as [[] [] [] [] [] [] [] []]; try discriminate H.
    all: first [parsed H; injection H as <- _; constructor; [done|by eapply IHe]|injection H as <- _; by constructor].
  - intros d s ms rest H. cbn [members] in H. destruct (skip_ws s) as [|q r]; [done|].
    destruct (negb _); [done|]. parsed H. destruct (skip_ws r0) as [|x r2]; [done|].
    destruct x as [[] [] [] [] [] [] [] []]; try discriminate H. parsed H. apply IHv in E0.
    destruct (skip_ws r1) as [|x r4]; [done|]. destruct x as [[] [] [] [] [] [] [] []]; try discriminate H.
    all: first [parsed H; injection H as <- _; constructor; [done|by eapply IHm]|injection H as <- _; by constructor].
Qed.
Lemma decode_value_text s v : decode_value s = Some v → json_text v.
Proof. unfold decode_value. rewrite fmap_Some. intros ([v' rest]&H&->). by eapply value_text. Qed.
Lemma parse_text s v : parse s = Some v → json_text v.
Proof.
  unfold parse. rewrite bind_Some. intros ([v' rest]&H&E). apply value_text in H. by case_bool_decide; simplify_eq.
Qed.

(** ** Structs *)

(** Storing a value of a decoded text keeps [P]. *)
Definition keeps {A} (P : A → Prop) (f : field A) : Prop := ∀ v a a', json_text v → P a → f.2 v a = Some a' → P a'.

Section structs.
Context {A : Type} (P : A → Prop) (fields : list (field A)) (Hf : Forall (keeps P) fields).

Lemma find_field_keeps name f : find_field fields name = Some f → keeps P f.
Proof.
  intros H. rewrite Forall_forall in Hf. apply Hf. unfold find_field in H.
  split_match_in H; [rename Heqo into E; injection H as <-; apply find_some in E as [E _]|apply find_some in H as [H _]];
    by apply list_elem_of_In.
Qed.
Lemma decode_members_keeps strict ms a a' bad :
  Forall (λ m, json_text m.2) ms → P a → decode_members strict fields ms a = (a', bad) → P a'.
Proof.
  intros Hms. revert a a' bad. induction Hms as [|[name v] ms Hv _ IH]; intros a a' bad Ha; cbn [decode_members].
  { by intros [= <- _]. }
  destruct (find_field fields name) as [[n set]|] eqn:E.
  - destruct (set v a) as [a1|] eqn:Es; [apply IH; by eapply (find_field_keeps name (n, set))|].
    destruct (decode_members strict fields ms a) as [a1 b1] eqn:E1. intros [= <- _]. by eapply IH.
  - destruct (decode_members strict fields ms a) as [a1 b1] eqn:E1. intros [= <- _]. by eapply IH.
Qed.
Lemma decode_struct_keeps strict zero v a : json_text v → P zero → decode_struct strict fields zero v = Ok a → P a.
Proof.
  intros Hv Hz. destruct v as [| | | | |ms]; cbn [decode_struct]; try done; [by intros [= <-]|].
  inversion Hv; subst. destruct (decode_members strict fields ms zero) as [a1 []] eqn:E; [done|].
  intros [= <-]. by eapply decode_members_keeps.
Qed.
Lemma Unmarshal_keeps zero s a : P zero → Unmarshal fields zero s = Ok a → P a.
Proof.
  unfold Unmarshal. destruct (parse s) as [v|] eqn:E; [|done]. intros. eapply decode_struct_keeps; [by eapply parse_text|..]; done.
Qed.
Lemma Decoder_keeps strict zero s a : P zero → Decoder_Decode strict fields zero s = Ok a → P a.
Proof.
  unfold Decoder_Decode. destruct (decode_value s) as [v|] eqn:E; [|done]. intros.
  eapply decode_struct_keeps; [by eapply decode_value_text|..]; done.
Qed.
End structs.

Lemma string_field_keeps {A} (P : A → Prop) name set :
  (∀ s a, utf8_text s → P a → P (set s a)) → keeps P (string_field name set).
Proof. intros H v a a' Hv Ha E. inversion Hv; subst; cbn in E; simplify_eq; auto. Qed.
Lemma int_field_keeps {A} (P : A → Prop) name set : (∀ n a, P a → P (set n a)) → keeps P (int_field name set).
Proof. intros H v a a' Hv Ha E. destruct v; cbn in E; simplify_eq; auto. destruct (Atoi _); simplify_eq; auto. Qed.
Lemma slice_field_keeps {A B} (P : A → Prop) (Q : B → Prop) strict name fields zero set :
  Forall (keeps Q) fields → Q zero → (∀ bs a, Forall Q bs → P a → P (set bs a)) →
  keeps P (slice_field strict name fields zero set).
Proof.
  intros Hf Hz H v a a' Hv Ha E. destruct v as [| | | |l|]; cbn in E; simplify_eq; [by apply H|].
  inversion Hv as [| | | |l' Hl|]; subst. destruct (mapM _ l) as [e|bs] eqn:Em; simplify_eq. apply H; [|done].
  clear Hv Ha H. revert bs Em. induction Hl as [|x l Hx _ IH]; intros bs; cbn [mapM]; [by intros [= <-]|].
  destruct (decode_struct strict fields zero x) as [e|b] eqn:Eb; [done|]. cbn [mbind result_bind].
  destruct (mapM _ l) as [e|bs']; [done|]. intros [= <-]. constructor; [by eapply decode_struct_keeps|by apply IH].
Qed.

(** ** Values of a bounded depth *)

(** Strings and names satisfy [P]; at most [n] arrays and objects inside one
    another. *)
Inductive fits (P : string → Prop) : nat → json → Prop :=
  | fits_null n : fits P n JNull
  | fits_bool n b : fits P n (JBool b)
  | fits_number n lit : number_ok lit → fits P n (JNumber lit)
  | fits_string n s : P s → fits P n (jstring s)
  | fits_array n l : Forall (fits P n) l → fits P (S n) (JArray l)
  | fits_object n ms : Forall (λ m, P m.1 ∧ fits P n m.2) ms → fits P (S n) (JObject ms).

Lemma foldr_max_le {A} (f : A → Z) l m : 0 ≤ m → Forall (λ x, f x ≤ m) l → foldr Z.max 0 (f <$> l) ≤ m.
Proof. intros Hm. induction 1 as [|x l Hx _ IH]; [done|].
  change (Z.max (f x) (foldr Z.max 0 (f <$> l)) ≤ m). lia. Qed.
Lemma fits_shape P n v : fits P n v → json_shape v ∧ nesting v ≤ Z.of_nat n.
Proof.
  revert n. induction v as [|b|lit|s raw|l IH|ms IH] using json_nested_ind; intros n Hf; inversion Hf as [| | | |? ? Hl|? ? Hl]; subst.
  1-4: by split; [constructor|cbn; lia].
  - assert (Forall (λ v, json_shape v ∧ nesting v ≤ Z.of_nat n0) l) as H.
    { apply Forall_forall. intros x Hx. rewrite Forall_forall in IH, Hl. auto. }
    split; [constructor; eapply Forall_impl; [exact H|by intros ? []]|].
    assert (foldr Z.max 0 (nesting <$> l) ≤ Z.of_nat n0); [|cbn [nesting]; lia].
    apply foldr_max_le; [lia|]. eapply Forall_impl; [exact H|by intros ? []].
  - assert (Forall (λ m, json_shape m.2 ∧ nesting m.2 ≤ Z.of_nat n0) ms) as H.
    { apply Forall_forall. intros x Hx. rewrite Forall_forall in IH, Hl. apply IH; [done|]. by apply Hl. }
    split; [constructor; eapply Forall_impl; [exact H|by intros ? []]|].
    assert (foldr Z.max 0 ((λ m, nesting m.2) <$> ms) ≤ Z.of_nat n0); [|cbn [nesting]; lia].
    apply foldr_max_le; [lia|]. eapply Forall_impl; [exact H|by intros ? []].
Qed.
Lemma fits_text n v : fits utf8_text n v → json_ok v.
Proof.
  revert n. induction v as [|b|lit|s raw|l IH|ms IH] using json_nested_ind; intros n Hf; inversion Hf as [| | | |? ? Hl|? ? Hl]; subst.
  1-4: by constructor.
  - constructor. apply Forall_forall. intros x Hx. rewrite Forall_forall in IH, Hl. eauto.
  - constructor. apply Forall_forall. intros x Hx. rewrite Forall_forall in IH, Hl. destruct (Hl _ Hx). eauto.
Qed.
(** A value of text reads back as it is, any other one repaired. *)
Lemma fits_parse P n v T :
  fits P n v → Z.of_nat n ≤ maxNestingDepth → T = "" ∨ T = newline → parse (encode v +:+ T) = Some (repaired v).
Proof. intros [Hs Hn]%fits_shape Hm HT. apply parse_encode_any; [done|lia|done]. Qed.
Lemma fits_parse_text n v T :
  fits utf8_text n v → Z.of_nat n ≤ maxNestingDepth → T = "" ∨ T = newline → parse (encode v +:+ T) = Some v.
Proof.
  intros Hf Hm HT. rewrite (fits_parse _ _ _ _ Hf Hm HT). apply fits_text, json_ok_shape in Hf as [_ ->]. done.
Qed.
