(* ===== verification/GoJsonFields.v ===== *)
(** * JSON fields with decoders of their own: times and floats

    [time.Time.UnmarshalJSON] reads the text between the quotes as it is
    written; a [float64] is [strconv.ParseFloat], correctly rounded, kept as
    its IEEE-754 bits. *)

From S2P Require Import Prelude GoStrings GoTime GoTimeFmt Store GoJson.
From Stdlib Require Import Ascii SpecFloat.
Import json.

Definition time_field {A} (name : string) (set : Time → A → A) : field A :=
  (name, λ v a, match v with
                | JString _ raw => (λ t, set t a) <$> Parse_RFC3339 raw
                | JNull => Some a
                | _ => None
                end).

(** ** [strconv.ParseFloat] on a JSON number *)

Fixpoint decimal (acc : Z) (ds : string) : Z :=
  match ds with
  | "" => acc
  | String c r => decimal (acc * 10 + digit_val c) r
  end.
(** The exponent's digits; [readFloat] stops adding at 10000. *)
Fixpoint exponent (e : Z) (ds : string) : Z :=
  match ds with
  | "" => e
  | String c r => exponent (if e <? 10000 then e * 10 + digit_val c else e) r
  end.
Definition exponent_part (s : string) : Z :=
  match s with
  | String _ (String c r) =>
      if Ascii.eqb c "-" then - exponent 0 r
      else if Ascii.eqb c "+" then exponent 0 r
      else exponent 0 (String c r)
  | _ => 0
  end.

Definition prec : Z := 53.
Definition emax : Z := 1024.
(** [m * 10 ^ e], rounded to nearest even. *)
Definition decimal_float (neg : bool) (m e : Z) : spec_float :=
  match m with
  | Zpos m =>
      if 0 <=? e then binary_normalize prec emax (if neg then - (Zpos m * 10 ^ e) else Zpos m * 10 ^ e) 0 neg
      else SFdiv prec emax (S754_finite neg m 0) (S754_finite false (Z.to_pos (10 ^ (- e))) 0)
  | _ => S754_zero neg
  end.
(** The IEEE-754 bit pattern; an infinity is out of range. *)
Definition float_bits (x : spec_float) : option float64 :=
  let sign (s : bool) : Z := if s then 2 ^ 63 else 0 in
  match x with
  | S754_zero s => Some (sign s)
  | S754_finite s m e =>
      let m := Z.pos m in
      Some (sign s + if m <? 2 ^ 52 then m else (e + 1075) * 2 ^ 52 + (m - 2 ^ 52))
  | _ => None
  end.
Definition ParseFloat (literal : string) : option float64 :=
  let '(neg, s) := match literal with String "-" r => (true, r) | _ => (false, literal) end in
  let '(int, s) := digits s in
  let '(frac, s) := match s with String "." r => digits r | _ => ("", s) end in
  float_bits (decimal_float neg (decimal 0 (int +:+ frac)) (exponent_part s - len frac)).

Definition float_ptr_field {A} (name : string) (set : option float64 → A → A) : field A :=
  (name, λ v a, match v with
                | JNumber literal => (λ x, set (Some x) a) <$> ParseFloat literal
                | JNull => Some (set None a)
                | _ => None
                end).

Example ParseFloat_examples :
  ParseFloat <$> ["0"; "-0"; "1"; "0.95"; "1e0"; "5e-324"; "0.1"; "1e309"; "-2.5E+1"]
  = [Some 0; Some 0x8000000000000000; Some 0x3ff0000000000000; Some 0x3fee666666666666;
     Some 0x3ff0000000000000; Some 1; Some 0x3fb999999999999a; None; Some 0xc039000000000000].
Proof. vm_compute. reflexivity. Qed.
