(* ===== verification/GoFloatText.v ===== *)
(** * [strconv.AppendFloat], as [encoding/json] calls it

    The shortest decimal that reads back as the same [float64], nearest to it
    among those of its length, in plain notation between 1e-6 and 1e21 and
    with an exponent outside. *)

From S2P Require Import Prelude GoStrings Store GoJson GoJsonThms GoJsonFields.
From Stdlib Require Import Ascii SpecFloat.
Import json.

Module floattext.

(** ** The fields of the bit pattern *)

Definition negative (b : float64) : bool := 2 ^ 63 <=? b.
Definition magnitude (b : float64) : Z := b mod 2 ^ 63.
Definition biased (b : float64) : Z := magnitude b / 2 ^ 52.
(** Neither an infinity nor NaN. *)
Definition finite (b : float64) : bool := biased b <? 2047.
Definition mantissa (b : float64) : Z := if biased b =? 0 then magnitude b else 2 ^ 52 + magnitude b mod 2 ^ 52.
Definition exponent2 (b : float64) : Z := Z.max (biased b) 1 - 1075.
(** The magnitude as a fraction. *)
Definition numerator (b : float64) : Z := mantissa b * 2 ^ Z.max 0 (exponent2 b).
Definition denominator (b : float64) : Z := 2 ^ Z.max 0 (- exponent2 b).

(** ** The shortest digits *)

Definition reads_as (b : float64) (c k : Z) : bool :=
  bool_decide (float_bits (decimal_float false c k) = Some (magnitude b)).
(** [floor (log10 m)], from its logarithm to base 2. *)
Definition log10 (m : Z) : Z :=
  let guess := Z.log2 m * 30103 / 100000 in
  default 0 (find (λ k, 10 ^ k <=? m) [guess + 1; guess; guess - 1]).
(** The position of the first digit. *)
Definition leading (b : float64) : Z := log10 (numerator b * 10 ^ 400 / denominator b) - 400.
(** [n] digits: the nearest, to even, and the neighbour on the other side. *)
Definition rounded (b : float64) (n : Z) : Z * Z * Z :=
  let k := leading b - (n - 1) in
  let num := numerator b * 10 ^ Z.max 0 (- k) in
  let den := denominator b * 10 ^ Z.max 0 k in
  let q := num / den in
  let r := 2 * (num mod den) in
  if (r <? den) || ((r =? den) && Z.even q) then (q, q + 1, k) else (q + 1, q, k).
Fixpoint shortest (b : float64) (n : Z) (fuel : nat) : Z * Z :=
  let '(near, other, k) := rounded b n in
  match fuel with
  | O => (near, k)
  | S fuel =>
      if reads_as b near k then (near, k)
      else if reads_as b other k then (other, k)
      else shortest b (n + 1) fuel
  end.
(** At most 17 digits are needed. *)
Definition shortest_decimal (b : float64) : Z * Z := shortest b 1 16.
Fixpoint strip_zeros (s : string) : string :=
  match s with
  | "" => ""
  | String c r =>
      match strip_zeros r with
      | "" => if Ascii.eqb c "0" then "" else String c ""
      | r => String c r
      end
  end.

(** ** Formats *)

Fixpoint zeros (n : nat) : string := match n with O => "" | S n => String "0" (zeros n) end.
Definition fraction_text (frac : string) : string := if bool_decide (frac = "") then "" else String "." frac.
Definition exponent_text (e : option Z) : string :=
  match e with
  | None => ""
  | Some e => String "e" (String (if e <? 0 then "-" else "+") (Itoa (Z.abs e)))
  end.
Definition literal (neg : bool) (int frac : string) (e : option Z) : string :=
  (if neg then "-" else "") +:+ int +:+ fraction_text frac +:+ exponent_text e.

(** [%f] and [%e] of the digits [ds] with the point after the [dp]th. *)
Definition fmtF (neg : bool) (ds : string) (dp : Z) : string :=
  if 0 <? dp then
    literal neg (take_str (Z.to_nat dp) ds +:+ zeros (Z.to_nat (dp - len ds))) (drop_str (Z.to_nat dp) ds) None
  else literal neg "0" (zeros (Z.to_nat (- dp)) +:+ ds) None.
Definition fmtE (neg : bool) (ds : string) (dp : Z) : string :=
  literal neg (take_str 1 ds) (drop_str 1 ds) (Some (dp - 1)).

(** Bit patterns of magnitudes are ordered as the numbers. *)
Definition small : Z := default 0 (float_bits (decimal_float false 1 (-6))).
Definition large : Z := default 0 (float_bits (decimal_float false 1 21)).
(** [floatEncoder]; an infinity or NaN is an error. *)
Definition encode_float (b : float64) : option string :=
  if negb (finite b) then None
  else if magnitude b =? 0 then Some (literal (negative b) "0" "" None)
  else
    let '(c, k) := shortest_decimal b in
    let ds := strip_zeros (Itoa c) in
    let dp := len (Itoa c) + k in
    Some (if (magnitude b <? small) || (large <=? magnitude b)
          then fmtE (negative b) ds dp else fmtF (negative b) ds dp).

Example encode_float_examples :
  (λ s, ParseFloat s ≫= encode_float) <$>
    ["0.95"; "1"; "0"; "-0"; "100"; "0.1"; "1e21"; "999999999999999900000"; "0.000001"; "1e-7";
     "-123456789.125"; "0.30000000000000004"; "1125899906842624.25"; "9007199254740993"]
  = Some <$>
    ["0.95"; "1"; "0"; "-0"; "100"; "0.1"; "1e+21"; "999999999999999900000"; "0.000001"; "1e-7";
     "-123456789.125"; "0.30000000000000004"; "1125899906842624.2"; "9007199254740992"].
Proof. vm_compute. reflexivity. Qed.

(** ** The text is a JSON number *)

Definition stops (T : string) : Prop := ∀ c r, T = String c r → is_digit c = false.
Lemma digits_stop ds T : str_forall is_digit ds = true → stops T → digits (ds +:+ T) = (ds, T).
Proof.
  intros Hds HT. induction ds as [|c ds IH].
  - rewrite str_app_nil_l. destruct T as [|c T]; [done|]. cbn. by rewrite (HT c T eq_refl).
  - rewrite str_app_cons. cbn [digits str_forall] in *. apply andb_true_iff in Hds as [-> Hds]. by rewrite IH.
Qed.
Lemma digits1_stop ds T :
  str_forall is_digit ds = true → ds ≠ "" → stops T → digits1 (ds +:+ T) = Some (ds, T).
Proof. intros Hds Hne HT. unfold digits1. rewrite digits_stop by done. by rewrite bool_decide_eq_false_2. Qed.
Lemma delimiter_stops T : delimiter T → stops T.
Proof. intros HT c r ->. by destruct HT as [-> |[-> |[-> | ->]]]. Qed.

(** No leading zero, but for zero itself. *)
Definition int_ok (int : string) : Prop :=
  int = "0" ∨ ∃ c ds, int = String c ds ∧ c ≠ "0"%char ∧ str_forall is_digit int = true.

Section text.
Context (frac : string) (e : option Z) (Hf : str_forall is_digit frac = true).

Lemma Itoa_abs n : str_forall is_digit (Itoa (Z.abs n)) = true ∧ Itoa (Z.abs n) ≠ "".
Proof. split; [apply Itoa_digits|apply Itoa_nonempty]; lia. Qed.
Lemma exponent_stops T : delimiter T → stops (exponent_text e +:+ T).
Proof. intros HT. destruct e as [n|]; [|by apply delimiter_stops]. cbn. by intros c r [= <- _]. Qed.
Lemma fraction_stops T : delimiter T → stops (fraction_text frac +:+ exponent_text e +:+ T).
Proof.
  intros HT. unfold fraction_text. case_bool_decide; [by apply exponent_stops|]. by intros c r [= <- _].
Qed.
(** The optional parts, as [number_literal] takes them off. *)
Lemma take_exponent T :
  delimiter T →
  match exponent_text e +:+ T with
  | String x r =>
      if Ascii.eqb x "e" || Ascii.eqb x "E" then
        let '(sg, r') := match r with
                         | String "+" r' => ("+", r')
                         | String "-" r' => ("-", r')
                         | _ => ("", r)
                         end in
        '(ds, rest) ← digits1 r'; Some (String x (sg +:+ ds), rest)
      else Some ("", exponent_text e +:+ T)
  | "" => Some ("", exponent_text e +:+ T)
  end = Some (exponent_text e, T).
Proof.
  intros HT. destruct e as [n|]; cbn [exponent_text].
  - destruct (Itoa_abs n) as [Hd Hn]. rewrite !str_app_cons. cbn [Ascii.eqb].
    change (Ascii.eqb "e" "e" || Ascii.eqb "e" "E") with true. cbv iota.
    destruct (n <? 0); cbv iota beta; by rewrite digits1_stop by auto using delimiter_stops.
  - rewrite str_app_nil_l. destruct T as [|c T]; [done|]. by destruct HT as [-> |[-> |[-> | ->]]].
Qed.
Lemma take_fraction T :
  delimiter T →
  match fraction_text frac +:+ exponent_text e +:+ T with
  | String "." r => '(ds, rest) ← digits1 r; Some (String "." ds, rest)
  | _ => Some ("", fraction_text frac +:+ exponent_text e +:+ T)
  end = Some (fraction_text frac, exponent_text e +:+ T).
Proof.
  intros HT. unfold fraction_text. case_bool_decide.
  - rewrite str_app_nil_l. destruct e as [n|]; [done|]. cbn [exponent_text]. rewrite str_app_nil_l.
    destruct T as [|c T]; [done|]. by destruct HT as [-> |[-> |[-> | ->]]].
  - rewrite str_app_cons. by rewrite digits1_stop by auto using exponent_stops.
Qed.

Lemma number_literal_text neg int T :
  int_ok int → delimiter T → number_literal (literal neg int frac e +:+ T) = Some (literal neg int frac e, T).
Proof.
  intros Hint HT. unfold literal. rewrite !str_app_assoc. set (R := fraction_text frac +:+ exponent_text e +:+ T).
  assert (match (if neg then "-" else "") +:+ int +:+ R with
          | String "-" r => ("-", r) | _ => ("", (if neg then "-" else "") +:+ int +:+ R) end
          = ((if neg then "-" else ""), int +:+ R)) as Hsign.
  { destruct neg; [done|]. rewrite str_app_nil_l.
    destruct Hint as [-> |(c&ds&->&_&Hd)]; [done|]. rewrite str_app_cons. cbn in Hd.
    apply andb_true_iff in Hd as [Hc _]. by destruct c as [[] [] [] [] [] [] [] []]. }
  unfold number_literal. rewrite Hsign. cbv beta iota zeta.
  assert (match int +:+ R with String "0" r => Some ("0", r) | _ => digits1 (int +:+ R) end = Some (int, R)) as ->.
  { destruct Hint as [-> |(c&ds&->&Hc&Hd)]; [done|]. rewrite <-(digits1_stop (String c ds) R) by
      (done || by apply fraction_stops).
    rewrite str_app_cons. destruct c as [[] [] [] [] [] [] [] []]; done. }
  cbn [mbind option_bind]. unfold R. rewrite take_fraction by done. cbn [mbind option_bind].
  rewrite take_exponent by done. done.
Qed.
Lemma number_ok_text neg int : int_ok int → number_ok (literal neg int frac e).
Proof.
  intros Hint. split; [|intros T; by apply number_literal_text]. unfold literal. destruct neg.
  - rewrite str_app_cons. by eexists _, _.
  - rewrite str_app_nil_l. destruct Hint as [-> |(c&ds&->&_&Hd)].
    + rewrite str_app_cons. by eexists _, _.
    + rewrite str_app_cons. eexists _, _. split; [done|]. cbn in Hd. by apply andb_true_iff in Hd as [-> _].
Qed.
End text.

(** ** The encoder writes JSON numbers *)

Lemma itoa_pos_length fuel n acc :
  0 < n < 10 ^ Z.of_nat fuel → 10 ^ Z.of_nat (String.length (itoa_pos fuel n acc)) ≤ n * 10 ^ Z.of_nat (S (String.length acc)).
Proof.
  revert n acc. induction fuel as [|fuel IH]; intros n acc Hn; [cbn in Hn; lia|]. cbn [itoa_pos].
  rewrite Nat2Z.inj_succ, Z.pow_succ_r in Hn by lia.
  destruct (Z.ltb_spec n 10).
  - cbn [String.length]. assert (0 < 10 ^ Z.of_nat (S (String.length acc))) by (apply Z.pow_pos_nonneg; lia). nia.
  - specialize (IH (n / 10) (String (digit (n mod 10)) acc)). cbn [String.length] in IH.
    etransitivity; [apply IH; split; [apply Z.div_str_pos; lia|apply Z.div_lt_upper_bound; lia]|].
    rewrite (Nat2Z.inj_succ (S _)), Z.pow_succ_r by lia.
    assert (0 < 10 ^ Z.of_nat (S (String.length acc))) by (apply Z.pow_pos_nonneg; lia).
    pose proof (Z.mul_div_le n 10). nia.
Qed.
Lemma len_Itoa n : 0 < n → 10 ^ (len (Itoa n) - 1) ≤ n.
Proof.
  intros Hn. assert (1 ≤ len (Itoa n)) as H1.
  { destruct (Itoa_head n Hn) as (c&ds&->&_). rewrite len_length. cbn [String.length]. lia. }
  pose proof (itoa_pos_length (itoa_fuel n) n "") as H. unfold Itoa in *. destruct (Z.ltb_spec n 0); [lia|].
  rewrite len_length in *. cbn [String.length] in H. change (10 ^ Z.of_nat 1) with 10 in H.
  specialize (H (conj Hn (itoa_fuel_enough n ltac:(lia)))).
  replace (Z.of_nat (String.length (itoa_pos (itoa_fuel n) n "")))
    with (Z.succ (Z.of_nat (String.length (itoa_pos (itoa_fuel n) n "")) - 1)) in H by lia.
  rewrite Z.pow_succ_r in H by lia. lia.
Qed.

Lemma strip_zeros_head c s : c ≠ "0"%char → ∃ t, strip_zeros (String c s) = String c t.
Proof.
  intros Hc. cbn [strip_zeros]. destruct (strip_zeros s) as [|a t]; [|by eexists].
  destruct (Ascii.eqb_spec c "0"); [done|by eexists].
Qed.
Lemma strip_zeros_digits s : str_forall is_digit s = true → str_forall is_digit (strip_zeros s) = true.
Proof.
  induction s as [|c s IH]; [done|]. cbn [str_forall]. intros [Hc Hs]%andb_true_iff. specialize (IH Hs).
  cbn [strip_zeros]. destruct (strip_zeros s) as [|a t]; [|cbn in *; by rewrite Hc].
  destruct (Ascii.eqb c "0"); [done|]. cbn. by rewrite Hc.
Qed.
Lemma zeros_digits n : str_forall is_digit (zeros n) = true.
Proof. by induction n. Qed.
Lemma take_str_digits p n s : str_forall p s = true → str_forall p (take_str n s) = true.
Proof.
  revert s. induction n as [|n IH]; intros [|c s]; try done. cbn. intros [-> Hs]%andb_true_iff. by apply IH.
Qed.
Lemma drop_str_digits p n s : str_forall p s = true → str_forall p (drop_str n s) = true.
Proof. revert s. induction n as [|n IH]; intros [|c s]; try done. cbn. intros [_ Hs]%andb_true_iff. by apply IH. Qed.

Lemma formats_ok neg c ds dp :
  c ≠ "0"%char → str_forall is_digit (String c ds) = true →
  number_ok (fmtF neg (String c ds) dp) ∧ number_ok (fmtE neg (String c ds) dp).
Proof.
  intros Hc Hd. pose proof Hd as [Hd1 Hd2]%andb_true_iff. split.
  - unfold fmtF. destruct (Z.ltb_spec 0 dp); apply number_ok_text.
    + by apply drop_str_digits.
    + right. destruct (Z.to_nat dp) as [|n] eqn:En; [lia|]. cbn [take_str]. rewrite str_app_cons.
      eexists _, _. split_and!; [done|done|]. cbn. by rewrite Hd1, str_forall_app, zeros_digits, take_str_digits.
    + by rewrite str_forall_app, zeros_digits.
    + by left.
  - apply number_ok_text; [done|]. right. cbn [take_str]. eexists _, _. split_and!; [done|done|]. cbn. by rewrite Hd1.
Qed.

Lemma mantissa_pos b : magnitude b ≠ 0 → 0 < mantissa b.
Proof.
  intros Hm. unfold mantissa. pose proof (Z.mod_pos_bound (magnitude b) (2 ^ 52) ltac:(lia)).
  assert (0 ≤ magnitude b) by (apply Z.mod_pos_bound; lia). destruct (biased b =? 0); lia.
Qed.
Section digits.
Context (b : float64) (Hb : magnitude b ≠ 0).
Lemma numerator_pos : 0 < numerator b.
Proof. apply Z.mul_pos_pos; [by apply mantissa_pos|apply Z.pow_pos_nonneg; lia]. Qed.
Lemma denominator_range : 0 < denominator b ≤ 10 ^ 400.
Proof.
  split; [apply Z.pow_pos_nonneg; lia|]. transitivity (2 ^ 1074); [|by vm_compute].
  apply Z.pow_le_mono_r; [lia|]. unfold exponent2. lia.
Qed.
Lemma log10_le m : 0 < m → 10 ^ log10 m ≤ m ∧ 0 ≤ log10 m.
Proof.
  intros Hm. unfold log10. set (g := Z.log2 m * 30103 / 100000).
  assert (0 ≤ g) by (apply Z.div_pos; [pose proof (Z.log2_nonneg m); lia|lia]).
  cbn [find]. destruct (Z.leb_spec (10 ^ (g + 1)) m); [by split; [|cbn; lia]|].
  destruct (Z.leb_spec (10 ^ g) m); [done|]. destruct (Z.leb_spec (10 ^ (g - 1)) m); [|cbn; lia].
  split; [done|]. destruct (decide (g = 0)) as [->|]; [|cbn; lia]. cbn in *. lia.
Qed.
Lemma leading_le : denominator b * 10 ^ (leading b + 400) ≤ numerator b * 10 ^ 400 ∧ -400 ≤ leading b.
Proof.
  pose proof numerator_pos. pose proof denominator_range. set (M := numerator b * 10 ^ 400 / denominator b).
  assert (0 < M) as HM by (apply Z.div_str_pos; nia).
  assert (denominator b * M ≤ numerator b * 10 ^ 400) as Hle by (apply Z.mul_div_le; lia).
  destruct (log10_le M HM) as [Hlo Hlo0]. unfold leading. fold M. replace (log10 M - 400 + 400) with (log10 M) by lia.
  split; [nia|lia].
Qed.
Lemma quotient_pos k :
  k ≤ leading b → 1 ≤ numerator b * 10 ^ Z.max 0 (- k) / (denominator b * 10 ^ Z.max 0 k).
Proof.
  intros Hk. destruct leading_le as [Hle Hge]. pose proof numerator_pos as HN. pose proof denominator_range as [HD _].
  assert (∀ n, 0 ≤ n → 0 < 10 ^ n) as Hp by (intros n ?; apply Z.pow_pos_nonneg; lia).
  apply Z.div_le_lower_bound; [apply Z.mul_pos_pos; [done|apply Hp; lia]|]. rewrite Z.mul_1_r.
  destruct (Z.le_gt_cases (-400) k) as [H4|H4].
  - assert (denominator b * 10 ^ (k + 400) ≤ numerator b * 10 ^ 400) as Hk4.
    { etransitivity; [|exact Hle]. apply Z.mul_le_mono_nonneg_l; [lia|]. apply Z.pow_le_mono_r; lia. }
    destruct (Z.le_gt_cases 0 k) as [H0|H0].
    + rewrite Z.max_r, Z.max_l by lia. rewrite Z.pow_add_r in Hk4 by lia. specialize (Hp 400 ltac:(lia)). nia.
    + rewrite Z.max_l, Z.max_r by lia. replace 400 with (k + 400 + - k) in Hk4 at 2 by lia.
      rewrite (Z.pow_add_r _ (k + 400)) in Hk4 by lia. pose proof (Hp (k + 400) ltac:(lia)). nia.
  - rewrite Z.max_l, Z.max_r by lia. pose proof (Hp (leading b + 400) ltac:(lia)).
    assert (10 ^ 400 ≤ 10 ^ (- k)) by (apply Z.pow_le_mono_r; lia). nia.
Qed.
Lemma shortest_pos n fuel : 1 ≤ n → 0 < (shortest b n fuel).1.
Proof.
  revert n. induction fuel as [|fuel IH]; intros n Hn; cbn [shortest]; unfold rounded;
    pose proof (quotient_pos (leading b - (n - 1)) ltac:(lia)) as Hq; set (q := _ / _) in *.
  - destruct (_ || _); cbn; lia.
  - destruct (_ || _); repeat (destruct (reads_as _ _ _); [cbn; lia|]); apply IH; lia.
Qed.
End digits.

(** What the encoder writes is a JSON number. *)
Lemma encode_float_ok b s : encode_float b = Some s → number_ok s.
Proof.
  unfold encode_float. destruct (negb (finite b)); [done|]. destruct (Z.eqb_spec (magnitude b) 0) as [|Hm].
  { intros [= <-]. apply number_ok_text; [done|by left]. }
  pose proof (shortest_pos b Hm 1 16 ltac:(lia)) as Hc. unfold shortest_decimal.
  destruct (shortest b 1 16) as [c k]. cbn [fst] in Hc. intros [= <-].
  destruct (Itoa_head c Hc) as (a&t&E&Ha&_). pose proof (Itoa_digits c ltac:(lia)) as Hd. rewrite E in *.
  apply strip_zeros_digits in Hd. destruct (strip_zeros_head a t Ha) as [t' E']. rewrite E' in *.
  destruct (formats_ok (negative b) a t' (len (String a t) + k) Ha Hd). by destruct (_ || _).
Qed.


(** ** What [ParseFloat] yields is finite *)

Lemma digits2_pos_lt p : Zpos p < 2 ^ Zpos (digits2_pos p).
Proof.
  induction p as [p IH|p IH|]; cbn [digits2_pos]; [| |done]; rewrite Pos2Z.inj_succ, Z.pow_succ_r by lia; lia.
Qed.
Lemma shr_1_m mrs : 0 ≤ shr_m mrs → shr_m (shr_1 mrs) = shr_m mrs / 2.
Proof.
  destruct mrs as [[|[p|p|]|p] r s]; cbn; intros H; try done; try lia.
  - rewrite Pos2Z.inj_xI, Z.mul_comm, Z.div_add_l by lia. change (1 / 2) with 0. lia.
  - rewrite Pos2Z.inj_xO, Z.mul_comm, Z.div_mul by lia. done.
Qed.
Lemma iter_shr_m p mrs : 0 ≤ shr_m mrs → shr_m (iter_pos shr_1 p mrs) = shr_m mrs / 2 ^ Zpos p.
Proof.
  assert (∀ m k, 0 ≤ m → 0 ≤ m / 2 ^ Zpos k) as Hpos by (intros; apply Z.div_pos; lia).
  revert mrs. induction p as [p IH|p IH|]; intros mrs Hm; cbn [iter_pos]; [..|by rewrite shr_1_m].
  - assert (shr_m (iter_pos shr_1 p (shr_1 mrs)) = shr_m mrs / 2 / 2 ^ Zpos p) as E2.
    { rewrite IH; rewrite shr_1_m by done; [done|apply Z.div_pos; lia]. }
    rewrite IH, E2 by (rewrite E2; apply Hpos, Z.div_pos; lia). rewrite !Z.div_div by lia.
    f_equal. replace (Zpos p~1) with (1 + Zpos p + Zpos p) by lia. rewrite !Z.pow_add_r by lia. lia.
  - assert (shr_m (iter_pos shr_1 p mrs) = shr_m mrs / 2 ^ Zpos p) as E2 by by rewrite IH.
    rewrite IH, E2 by (rewrite E2; by apply Hpos). rewrite !Z.div_div by lia.
    f_equal. replace (Zpos p~0) with (Zpos p + Zpos p) by lia. by rewrite Z.pow_add_r by lia.
Qed.
Lemma shr_fexp_range m e l mrs e' :
  0 ≤ m → shr_fexp prec emax m e l = (mrs, e') → 0 ≤ shr_m mrs < 2 ^ 53 ∧ (0 < shr_m mrs → -1074 ≤ e').
Proof.
  intros Hm. unfold shr_fexp. set (k := fexp prec emax (Zdigits2 m + e) - e).
  assert (shr_m (shr_record_of_loc m l) = m) as Hl by by destruct l as [|[]].
  assert (m < 2 ^ Z.max 0 (Zdigits2 m)) as Hd.
  { destruct m as [|p|p]; [done| |lia]. cbn [Zdigits2]. rewrite Z.max_r by lia. apply digits2_pos_lt. }
  assert (Zdigits2 m - 53 ≤ k ∧ -1074 ≤ k + e) as [Hk Hk'].
  { unfold k, fexp, emin, prec, emax. lia. }
  assert (m = 0 ∨ 0 ≤ Zdigits2 m) as Hz by (destruct m; cbn; auto; lia).
  clearbody k. unfold shr. destruct k as [|p|p]; intros [= <- <-].
  - rewrite Hl. split; [|lia]. split; [done|]. eapply Z.lt_le_trans; [exact Hd|]. apply Z.pow_le_mono_r; lia.
  - rewrite iter_shr_m, Hl by (rewrite Hl; done). split; [|lia]. split; [apply Z.div_pos; lia|].
    apply Z.div_lt_upper_bound; [lia|]. rewrite <-Z.pow_add_r by lia. eapply Z.lt_le_trans; [exact Hd|]. apply Z.pow_le_mono_r; lia.
  - rewrite Hl. split; [|lia]. split; [done|]. eapply Z.lt_le_trans; [exact Hd|]. apply Z.pow_le_mono_r; lia.
Qed.

(** A finite number of the format. *)
Definition in_format (x : spec_float) : Prop :=
  match x with S754_finite _ m e => Zpos m < 2 ^ 53 ∧ -1074 ≤ e ≤ 971 | _ => True end.
Lemma round_aux_format s m e l : 0 ≤ m → in_format (binary_round_aux prec emax s m e l).
Proof.
  intros Hm. unfold binary_round_aux. destruct (shr_fexp prec emax m e l) as [mrs e1] eqn:E1.
  apply shr_fexp_range in E1 as [[Hm1 _] _]; [|done].
  assert (0 ≤ round_nearest_even (shr_m mrs) (loc_of_shr_record mrs)) as Hm2.
  { unfold round_nearest_even. destruct (loc_of_shr_record mrs) as [|[]]; try destruct (Z.even _); lia. }
  destruct (shr_fexp _ _ _ e1 _) as [mrs2 e2] eqn:E2. apply shr_fexp_range in E2 as [Hr He]; [|done].
  destruct (shr_m mrs2) as [|p|p]; [done| |done]. destruct (Z.leb_spec e2 (emax - prec)) as [Hle|]; [|done].
  unfold emax, prec in Hle. cbn. lia.
Qed.
Lemma decimal_float_format neg m e : in_format (decimal_float neg m e).
Proof.
  unfold decimal_float. destruct m as [|m|m]; [done| |done]. destruct (0 <=? e).
  - unfold binary_normalize. destruct (if neg then _ else _) as [|p|p]; [done|..];
      unfold binary_round; destruct (shl_align _ _ _) as [mz ez]; by apply round_aux_format.
  - unfold SFdiv. destruct (SFdiv_core_binary _ _ _ _ _ _) as [[mz ez] lz] eqn:E. apply round_aux_format.
    unfold SFdiv_core_binary in E. destruct (Z.div_eucl _ _) as [q r] eqn:Eq. injection E as <- _ _.
    revert Eq. match goal with |- Z.div_eucl ?a ?b = _ → _ => set (x := a) end.
    intros Eq. change q with (q, r).1. rewrite <-Eq. change (0 ≤ x / Zpos (Z.to_pos (10 ^ - e))). apply Z.div_pos; [|lia].
    subst x. destruct (_ - _ - _) as [|k|k]; [lia| |lia]. apply Z.shiftl_nonneg. lia.
Qed.

Lemma float_bits_finite x b : in_format x → float_bits x = Some b → finite b = true.
Proof.
  intros Hx Hb. assert (∀ s z, 0 ≤ z < 2047 * 2 ^ 52 → (if s : bool then 2 ^ 63 else 0) + z = b → finite b = true) as Hf.
  { intros s z Hz <-. unfold finite, biased, magnitude. apply Z.ltb_lt.
    assert (((if s then 2 ^ 63 else 0) + z) mod 2 ^ 63 = z) as ->.
    { destruct s; [rewrite <-(Z.mul_1_l (2 ^ 63)) at 1; rewrite Z.add_comm, Z.mod_add by lia|rewrite Z.add_0_l]; apply Z.mod_small; lia. }
    apply Z.div_lt_upper_bound; lia. }
  destruct x as [s|s| |s m e]; try done; cbn [float_bits] in Hb; injection Hb as Hb.
  - apply (Hf s 0); [lia|]. rewrite <-Hb. by destruct s.
  - destruct Hx as [Hm He]. eapply (Hf s); [|exact Hb]. destruct (Z.ltb_spec (Zpos m) (2 ^ 52)); lia.
Qed.
Lemma ParseFloat_finite lit x : ParseFloat lit = Some x → finite x = true.
Proof.
  unfold ParseFloat. destruct (match lit with String "-" r => _ | _ => _ end) as [neg s].
  destruct (digits s) as [int s1]. destruct (match s1 with String "." r => _ | _ => _ end) as [frac s2].
  apply float_bits_finite, decimal_float_format.
Qed.
(** A finite number has a text. *)
Lemma encode_float_finite x : finite x = true → is_Some (encode_float x).
Proof.
  intros Hx. unfold encode_float. rewrite Hx. cbn [negb]. destruct (_ =? 0); [by eexists|].
  destruct (shortest_decimal x) as [c k]. by eexists.
Qed.

End floattext.
