(* ===== verification/GoFloat.v ===== *)
(** * Floats: [strconv.ParseFloat], [math.Round] and conversions

    The grammar of [ParseFloat] with its special values, hexadecimal floats
    and underscores; the value is the written number, correctly rounded to
    binary64 ([SpecFloat]).  Converting a float outside the range of [int64]
    depends on the machine: it is a parameter. *)

From S2P Require Import Prelude GoStrings Store GoJson GoJsonFields.
From Stdlib Require Import Ascii SpecFloat.

Module strconv.

Inductive parsed := Value (x : spec_float) | ErrSyntax | ErrRange.

(** [c | 0x20]. *)
Definition lower (c : ascii) : ascii := byte_of (Z.lor (code c) 32).
Definition is_exp_char (hex : bool) (c : ascii) : bool := Ascii.eqb (lower c) (if hex then "p" else "e").
Definition is_hex_letter (c : ascii) : bool := in_range "a" "f" (lower c).
Definition is_float_digit (hex : bool) (c : ascii) : bool := is_digit c || (hex && is_hex_letter c).
Definition hex_digit_val (c : ascii) : Z := if is_digit c then digit_val c else code (lower c) - 87.
Fixpoint digits_value (base acc : Z) (s : string) : Z :=
  match s with
  | "" => acc
  | String c s => digits_value base (acc * base + hex_digit_val c) s
  end.

(** How many bytes of [p], in lower case, the text starts with in any case. *)
Fixpoint commonPrefixLenIgnoreCase (s p : string) : nat :=
  match s, p with
  | String a s, String b p => if Ascii.eqb (lower_byte a) b then S (commonPrefixLenIgnoreCase s p) else O
  | _, _ => O
  end.
Definition infinity (s : string) : option nat :=
  let n := commonPrefixLenIgnoreCase s "infinity" in
  let n := if (3 <? n)%nat && (n <? 8)%nat then 3%nat else n in
  if (n =? 3)%nat || (n =? 8)%nat then Some n else None.
(** The value and how many bytes it takes. *)
Definition special (s : string) : option (spec_float * nat) :=
  match s with
  | String "+" r => (λ n, (S754_infinity false, S n)) <$> infinity r
  | String "-" r => (λ n, (S754_infinity true, S n)) <$> infinity r
  | String c _ =>
      if Ascii.eqb (lower_byte c) "i" then (λ n, (S754_infinity false, n)) <$> infinity s
      else if Ascii.eqb (lower_byte c) "n" && (commonPrefixLenIgnoreCase s "nan" =? 3)%nat
      then Some (S754_nan, 3%nat) else None
  | "" => None
  end.

(** The mantissa: its digits before and after the point, and what follows. *)
Fixpoint mantissa (hex sawdot : bool) (s : string) : string * string * string :=
  match s with
  | "" => ("", "", "")
  | String c r =>
      if Ascii.eqb c "_" then mantissa hex sawdot r
      else if Ascii.eqb c "." then if sawdot then ("", "", s) else mantissa hex true r
      else if is_float_digit hex c then
        let '(int, frac, rest) := mantissa hex sawdot r in
        if sawdot then (int, String c frac, rest) else (String c int, frac, rest)
      else ("", "", s)
  end.
Fixpoint exponent_digits (s : string) : string * string :=
  match s with
  | String c r =>
      if Ascii.eqb c "_" then exponent_digits r
      else if is_digit c then let '(ds, rest) := exponent_digits r in (String c ds, rest)
      else ("", s)
  | "" => ("", "")
  end.
(** What follows the mantissa: the exponent and the rest, or no float. *)
Definition read_exponent (hex : bool) (s : string) : option (Z * string) :=
  match s with
  | String c r =>
      if is_exp_char hex c then
        let '(neg, r) := match r with
                         | String "+" r => (false, r)
                         | String "-" r => (true, r)
                         | _ => (false, r)
                         end in
        match r with
        | String d _ =>
            if is_digit d then
              let '(ds, rest) := exponent_digits r in
              let e := exponent 0 ds in Some (if neg : bool then - e else e, rest)
            else None
        | "" => None
        end
      else if hex then None else Some (0, s)
  | "" => if hex then None else Some (0, "")
  end.

(** [underscoreOK] after the sign and the prefix; [saw] is the kind of the
    byte before. *)
Inductive seen := SawStart | SawDigit | SawUnderscore | SawOther.
Fixpoint underscores_ok (hex : bool) (saw : seen) (s : string) : bool :=
  match s with
  | "" => match saw with SawUnderscore => false | _ => true end
  | String c r =>
      if is_float_digit hex c then underscores_ok hex SawDigit r
      else if Ascii.eqb c "_" then
        match saw with SawDigit => underscores_ok hex SawUnderscore r | _ => false end
      else match saw with SawUnderscore => false | _ => underscores_ok hex SawOther r end
  end.
Definition has_hex_prefix (s : string) : bool :=
  match s with
  | String "0" (String x _) => Ascii.eqb (lower x) "x"
  | _ => false
  end.
Definition has_base_prefix (s : string) : bool :=
  match s with
  | String "0" (String x _) => Ascii.eqb (lower x) "b" || Ascii.eqb (lower x) "o" || Ascii.eqb (lower x) "x"
  | _ => false
  end.
(** The sign, if any, is already taken off. *)
Definition underscoreOK (s : string) : bool :=
  if has_base_prefix s then underscores_ok (has_hex_prefix s) SawDigit (drop_str 2 s)
  else underscores_ok false SawStart s.

Definition hex_float (neg : bool) (m e : Z) : spec_float :=
  match m with
  | Zpos m => binary_normalize prec emax (if neg then Zneg m else Zpos m) e neg
  | _ => S754_zero neg
  end.

Definition ParseFloat (s : string) : parsed :=
  match special s with
  | Some (x, n) => if (n =? String.length s)%nat then Value x else ErrSyntax
  | None =>
      let '(neg, body) := match s with
                          | String "-" r => (true, r)
                          | String "+" r => (false, r)
                          | _ => (false, s)
                          end in
      let hex := has_hex_prefix body && (2 <? String.length body)%nat in
      let '(int, frac, r) := mantissa hex false (if hex then drop_str 2 body else body) in
      if bool_decide (int +:+ frac = "") then ErrSyntax else
      match read_exponent hex r with
      | None => ErrSyntax
      | Some (e, rest) =>
          if contains body "_" && negb (underscoreOK body) then ErrSyntax
          else if bool_decide (rest ≠ "") then ErrSyntax
          else
            let x := if hex
                     then hex_float neg (digits_value 16 0 (int +:+ frac)) (e - 4 * len frac)
                     else decimal_float neg (digits_value 10 0 (int +:+ frac)) (e - len frac) in
            match x with
            | S754_infinity _ => ErrRange
            | _ => Value x
            end
      end
  end.

Definition float_int (m : Z) : spec_float := binary_normalize prec emax m 0 false.

Example ParseFloat_grammar :
  (ParseFloat <$> ["1.50"; "+1.5"; "0x1.8p0"; "1_5e-1"; "0x_1.8p+0"; ".5"; "5."; "-0"]
   = [Value (S754_finite false 6755399441055744 (-52)); Value (S754_finite false 6755399441055744 (-52));
      Value (S754_finite false 6755399441055744 (-52)); Value (S754_finite false 6755399441055744 (-52));
      Value (S754_finite false 6755399441055744 (-52)); Value (S754_finite false 4503599627370496 (-53));
      Value (S754_finite false 5629499534213120 (-50)); Value (S754_zero true)])
  ∧ (ParseFloat <$> ["Inf"; "-infinity"; "nAn"; "infx"; "+nan"; "1e309"; "0x1"; "1__5"; "_1"; "."; ""; "1e"; "1 "]
     = [Value (S754_infinity false); Value (S754_infinity true); Value S754_nan; ErrSyntax; ErrSyntax; ErrRange;
        ErrSyntax; ErrSyntax; ErrSyntax; ErrSyntax; ErrSyntax; ErrSyntax; ErrSyntax]).
Proof. split; vm_compute; reflexivity. Qed.

End strconv.

(** ** Rounding and conversion *)

Definition float_mul : spec_float → spec_float → spec_float := SFmul prec emax.
(** [math.Round] of a finite float: halves away from zero. *)
Definition Round (x : spec_float) : Z :=
  match x with
  | S754_finite s m e =>
      let n := if 0 <=? e then Z.pos m * 2 ^ e else (Z.pos m + 2 ^ (- e - 1)) / 2 ^ (- e) in
      if s then - n else n
  | _ => 0
  end.

Section conversion.
Context (int64_overflow : spec_float → Z).
(** [int64(math.Round(x))]. *)
Definition to_int64 (x : spec_float) : Z :=
  match x with
  | S754_infinity _ | S754_nan => int64_overflow x
  | _ => if (int64_min <=? Round x) && (Round x <=? int64_max) then Round x else int64_overflow x
  end.
End conversion.
