(* ===== verification/GoHtml.v ===== *)
(** * Package [html]: [UnescapeString]

    The scan for character references of Go's [html] package.  The tables of
    the named references, of one and of two code points, are parameters: the
    names as they stand after the ampersand, with the semicolon of those that
    have one. *)

From S2P Require Import Prelude GoStrings GoJson.
From Stdlib Require Import Ascii.

(** A text of the markup, with its double quotes written as single ones. *)
Definition html (s : string) : string :=
  str_map (λ c, if Ascii.eqb c "'" then json.quote_byte else c) s.

(** [strings.Fields]: the pieces between runs of white space. *)
Definition flush (w : string * list string) : list string := if bool_decide (w.1 = "") then w.2 else w.1 :: w.2.
Definition push (c : ascii) (w : string * list string) : string * list string := (String c w.1, w.2).
Fixpoint fields_from (s : string) : string * list string :=
  match s with
  | "" => ("", [])
  | String a t1 =>
      if space1 a then ("", flush (fields_from t1)) else
      match t1 with
      | "" => push a ("", [])
      | String b t2 =>
          if space2 a b then ("", flush (fields_from t2)) else
          match t2 with
          | "" => push a (fields_from t1)
          | String c t3 => if space3 a b c then ("", flush (fields_from t3)) else push a (fields_from t1)
          end
      end
  end.
Definition Fields (s : string) : list string := flush (fields_from s).

Module htmlpkg.

(** [rune] arithmetic wraps at 32 bits. *)
Definition wrap32 (z : Z) : Z := (z + 2 ^ 31) mod 2 ^ 32 - 2 ^ 31.
(** [utf8.EncodeRune]. *)
Definition encode_rune (x : Z) : string :=
  if (x <? 0) || (0x10FFFF <? x) || ((0xD800 <=? x) && (x <=? 0xDFFF)) then json.rune_bytes json.RuneError else json.rune_bytes x.
(** The meaning of the references 0x80 to 0x9F: Windows-1252. *)
Definition replacementTable : list Z :=
  [0x20AC; 0x81; 0x201A; 0x192; 0x201E; 0x2026; 0x2020; 0x2021; 0x2C6; 0x2030; 0x160; 0x2039; 0x152; 0x8D; 0x17D;
   0x8F; 0x90; 0x2018; 0x2019; 0x201C; 0x201D; 0x2022; 0x2013; 0x2014; 0x2DC; 0x2122; 0x161; 0x203A; 0x153; 0x9D;
   0x17E; 0x178].
Definition code_point (x : Z) : Z :=
  if (0x80 <=? x) && (x <=? 0x9F) then nth (Z.to_nat (x - 0x80)) replacementTable 0
  else if (x =? 0) || ((0xD800 <=? x) && (x <=? 0xDFFF)) || (0x10FFFF <? x) then json.RuneError
  else x.

Definition hex_val (c : ascii) : option Z :=
  if is_digit c then Some (code c - 48)
  else if in_range "a" "f" c then Some (code c - 87)
  else if in_range "A" "F" c then Some (code c - 55)
  else None.
(** The digits of a numeric reference: value, how many, what follows. *)
Fixpoint number (hex : bool) (x : Z) (s : string) : Z * nat * string :=
  match s with
  | String c r =>
      match (if hex then hex_val c else if is_digit c then Some (digit_val c) else None) with
      | Some d => let '(x, n, rest) := number hex (wrap32 ((if hex then 16 else 10) * x + d)) r in (x, S n, rest)
      | None => (x, O, s)
      end
  | "" => (x, O, "")
  end.
Definition semicolon (s : string) : nat * string :=
  match s with String ";" r => (1%nat, r) | _ => (0%nat, s) end.
Definition is_alnum (c : ascii) : bool := is_lower c || is_upper c || is_digit c.
Fixpoint name_prefix (s : string) : string * string :=
  match s with
  | String c r => if is_alnum c then let '(n, rest) := name_prefix r in (String c n, rest) else ("", s)
  | "" => ("", "")
  end.

Section tables.
Context (entity : string → option Z) (entity2 : string → option (Z * Z)).

(** The longest reference without a semicolon a name starts with. *)
Fixpoint shorter (j : nat) (name : string) : option (Z * nat) :=
  match j with
  | S (S _ as j') =>
      match entity (take_str j name) with
      | Some x => Some (x, j)
      | None => shorter j' name
      end
  | _ => None
  end.

(** What a reference is replaced with, and what follows it; [s] is the text
    after the ampersand. *)
Definition unescapeEntity (s : string) : string * string :=
  match s with
  | "" => ("&", "")
  | String "#" t =>
      if len s <=? 2 then ("&", s) else
      let hex := match t with String c _ => Ascii.eqb c "x" || Ascii.eqb c "X" | "" => false end in
      let '(x, n, rest) := number hex 0 (if hex then drop_str 1 t else t) in
      let '(semi, rest) := semicolon rest in
      if ((if hex then 3 else 2) + n + semi <=? 3)%nat then ("&", s)
      else (encode_rune (code_point x), rest)
  | _ =>
      let '(name, rest) := name_prefix s in
      let '(semi, rest) := semicolon rest in
      let entityName := take_str (String.length name + semi) s in
      if bool_decide (entityName = "") then ("&", rest) else
      match entity entityName with
      | Some x => (encode_rune x, rest)
      | None =>
          match entity2 entityName with
          | Some (x, y) => (encode_rune x +:+ encode_rune y, rest)
          | None =>
              match shorter (Nat.min (String.length entityName - 1) 6) entityName with
              | Some (x, j) => (encode_rune x, drop_str j s)
              | None => ("&" +:+ entityName, rest)
              end
          end
      end
  end.

(** Every round consumes a byte. *)
Fixpoint unescape (fuel : nat) (s : string) : string :=
  match fuel with
  | O => ""
  | S fuel =>
      match s with
      | "" => ""
      | String "&" r => let '(out, rest) := unescapeEntity r in out +:+ unescape fuel rest
      | String c r => String c (unescape fuel r)
      end
  end.
Definition UnescapeString (s : string) : string := unescape (S (String.length s)) s.

Lemma unescape_no_ampersand fuel s :
  str_forall (λ c, negb (Ascii.eqb c "&")) s = true → (String.length s < fuel)%nat → unescape fuel s = s.
Proof.
  revert s. induction fuel as [|fuel IH]; intros s Hs Hf; [lia|]. destruct s as [|c s]; [done|].
  cbn [str_forall] in Hs. apply andb_true_iff in Hs as [Hc Hs]. cbn in Hf.
  assert (unescape (S fuel) (String c s) = String c (unescape fuel s)) as ->.
  { cbn [unescape]. destruct c as [[] [] [] [] [] [] [] []]; done. }
  by rewrite IH by (done || lia).
Qed.
Lemma UnescapeString_no_ampersand s :
  str_forall (λ c, negb (Ascii.eqb c "&")) s = true → UnescapeString s = s.
Proof. intros. apply unescape_no_ampersand; [done|lia]. Qed.
End tables.

(** The references every page uses, for examples. *)
Definition basic_entities (name : string) : option Z :=
  if bool_decide (name = "amp;" ∨ name = "amp") then Some 38
  else if bool_decide (name = "lt;" ∨ name = "lt") then Some 60
  else if bool_decide (name = "gt;" ∨ name = "gt") then Some 62
  else if bool_decide (name = "quot;" ∨ name = "quot") then Some 34
  else None.
Example unescape_examples :
  UnescapeString basic_entities (λ _, None) <$>
    ["a&amp;b&ampc"; "&lt;p&gt"; "&#39;&#x41;"; "&#9"; "&bogus; & &;"; "&#x;"; "x"]
  = ["a&b&c"; "<p>"; "'A"; "&#9"; "&bogus; & &;"; String (byte_of 239) (String (byte_of 191) (String (byte_of 189) "")); "x"].
Proof. vm_compute. reflexivity. Qed.

End htmlpkg.
