(* ===== verification/Cursor.v ===== *)
(** * Package [internal/cursor]: page cursors and the shape of refs

    [ValidateRef], [Encode] and [Decode] (src/internal/cursor/cursor.go).
    base64 is the concrete codec of [Encoding.v]; the JSON form of the wire
    envelope and the RFC 3339 form of its key are the operations of a
    [CursorCodec], with the round-trip law the cursor relies on. *)

From S2P Require Import Prelude GoStrings GoTime Encoding.
From Stdlib Require Import Ascii.

Module cursor.

Definition ErrInvalidRef : error := ErrNew "takuhai/cursor: invalid ref".
Definition ErrInvalidCursor : error := ErrNew "takuhai/cursor: invalid cursor".

(** ** Refs: the regular expression [^[a-z][a-z0-9_-]*:.+$]

    [.] is any byte but newline and [$] is the end of the text; a [:] ends
    the namespace because the namespace class does not contain it. *)
Definition is_ns (c : ascii) : bool :=
  is_lower c || is_digit c || Ascii.eqb c "_" || Ascii.eqb c "-".
Definition not_newline (c : ascii) : bool := negb (code c =? 10).

Fixpoint ref_tail (s : string) : bool :=
  match s with
  | "" => false
  | String c s =>
      if is_ns c then ref_tail s
      else Ascii.eqb c ":" && bool_decide (s ≠ "") && str_forall not_newline s
  end.
Definition refRe_MatchString (s : string) : bool :=
  match s with
  | String c s => is_lower c && ref_tail s
  | "" => false
  end.

Definition ValidateRef (ref : string) : result unit :=
  if negb (refRe_MatchString ref) then Err ErrInvalidRef else Ok tt.

(** ** Cursors *)

Abbreviation Path := Z.
Definition PathCatalog : Path := 0.
Definition PathDelta : Path := 1.

Record wireCursor := WireCursor {
  wc_V : Z;
  wc_Ref : string;
  wc_Path : Z;
  wc_Key : string;
  wc_Hash : string;
}.

Definition cursorVersion : Z := 1.

Record Cursor := MkCursor {
  c_Ref : string;
  c_Path : Path;
  c_Key : Time;
  c_Infohash : string;
}.

(** [encoding/json] on the envelope and [time]'s RFC3339Nano, as used here. *)
Class CursorCodec := {
  json_Marshal : wireCursor → result string;
  json_Unmarshal : string → result wireCursor;
  Format_RFC3339Nano : Time → string;
  Parse_RFC3339Nano : string → result Time;
}.

(** What the cursor needs of them: text the store holds ([text_ok], the
    valid UTF-8 a text column holds) survives JSON, and an instant of the
    timestamp range ([time_ok]) survives formatting. *)
Class CursorCodecLaws (C : CursorCodec) (text_ok : string → Prop) (time_ok : Time → Prop) := {
  json_roundtrip w :
    text_ok (wc_Ref w) → text_ok (wc_Key w) → text_ok (wc_Hash w) →
    0 ≤ wc_V w ≤ int64_max → 0 ≤ wc_Path w ≤ int64_max →
    ∃ raw, json_Marshal w = Ok raw ∧ json_Unmarshal raw = Ok w;
  json_nonempty w raw : json_Marshal w = Ok raw → raw ≠ "";
  time_roundtrip t : time_ok t → Parse_RFC3339Nano (Format_RFC3339Nano t) = Ok t;
  time_text t : text_ok (Format_RFC3339Nano t);
}.

Section codec.
Context `{C : CursorCodec}.

Definition Encode (c : Cursor) : result string :=
  let payload := {|
    wc_V := cursorVersion;
    wc_Ref := c_Ref c;
    wc_Path := c_Path c;
    wc_Key := Format_RFC3339Nano (c_Key c);
    wc_Hash := c_Infohash c;
  |} in
  match json_Marshal payload with
  | Err err => Err err
  | Ok raw => Ok (base64.EncodeToString raw)
  end.

Definition Decode (encoded expectRef : string) (expectPath : Path) : result Cursor :=
  match base64.DecodeString encoded with
  | None => Err ErrInvalidCursor
  | Some raw =>
      match json_Unmarshal raw with
      | Err _ => Err ErrInvalidCursor
      | Ok payload =>
          if negb (wc_V payload =? cursorVersion) then Err ErrInvalidCursor else
          match Parse_RFC3339Nano (wc_Key payload) with
          | Err _ => Err ErrInvalidCursor
          | Ok key =>
              if negb (bool_decide (wc_Ref payload = expectRef)) then Err ErrInvalidCursor else
              if negb (wc_Path payload =? expectPath) then Err ErrInvalidCursor else
              Ok {|
                c_Ref := wc_Ref payload;
                c_Path := wc_Path payload;
                c_Key := key;
                c_Infohash := wc_Hash payload;
              |}
          end
      end
  end.
End codec.

(** ** Lemmas *)

Lemma ref_tail_spec s :
  ref_tail s = true ↔
  ∃ ns v, s = ns +:+ String ":" v ∧ str_forall is_ns ns = true
          ∧ v ≠ "" ∧ str_forall not_newline v = true.
Proof.
  induction s as [|c s IH]; simpl.
  - split; [done|]. intros (ns&v&E&_). by destruct ns.
  - destruct (is_ns c) eqn:Ec.
    + rewrite IH. split.
      * intros (ns&v&->&?&?&?). exists (String c ns), v. simpl. by rewrite Ec.
      * intros (ns&v&E&Hns&?&?). destruct ns as [|c' ns].
        { injection E as -> ->. by vm_compute in Ec. }
        rewrite str_app_cons in E. injection E as <- ->. simpl in Hns.
        apply andb_true_iff in Hns as [_ ?]. by exists ns, v.
    + rewrite !andb_true_iff, bool_decide_eq_true, Ascii.eqb_eq. split.
      * intros [[-> ?] ?]. by exists "", s.
      * intros (ns&v&E&Hns&?&?). destruct ns as [|c' ns].
        { by injection E as -> ->. }
        rewrite str_app_cons in E. injection E as <- ->. simpl in Hns.
        by rewrite Ec in Hns.
Qed.

(** The shape [namespace:value] the regular expression describes. *)
Definition ref_shape (ref : string) : Prop :=
  ∃ c ns v, ref = String c (ns +:+ String ":" v) ∧ is_lower c = true
            ∧ str_forall is_ns ns = true ∧ v ≠ "" ∧ str_forall not_newline v = true.

Lemma refRe_shape s : refRe_MatchString s = true ↔ ref_shape s.
Proof.
  unfold ref_shape. destruct s as [|c s]; simpl.
  - split; [done|]. by intros (?&?&?&?&_).
  - rewrite andb_true_iff, ref_tail_spec. split.
    + intros [? (ns&v&->&?&?&?)]. by exists c, ns, v.
    + intros (c'&ns&v&[= -> ->]&?&?&?&?). split; [done|]. by exists ns, v.
Qed.

Lemma ValidateRef_Ok ref : ValidateRef ref = Ok tt ↔ ref_shape ref.
Proof.
  rewrite <-refRe_shape. unfold ValidateRef. by destruct (refRe_MatchString ref).
Qed.
Lemma ValidateRef_Err ref e : ValidateRef ref = Err e → e = ErrInvalidRef ∧ ¬ ref_shape ref.
Proof.
  rewrite <-refRe_shape. unfold ValidateRef. destruct (refRe_MatchString ref); by intros [= <-].
Qed.

Lemma Decode_bound `{C : CursorCodec} e ref path c :
  Decode e ref path = Ok c → c_Ref c = ref ∧ c_Path c = path.
Proof.
  unfold Decode. intros H. repeat split_match_in H; simplify_eq; bool_hyps; done.
Qed.
Lemma Decode_error `{C : CursorCodec} e ref path err :
  Decode e ref path = Err err → err = ErrInvalidCursor.
Proof. unfold Decode. intros H. repeat split_match_in H; by simplify_eq. Qed.

Section laws.
Context `{C : CursorCodec} {text_ok : string → Prop} {time_ok : Time → Prop}.
Context `{L : !CursorCodecLaws C text_ok time_ok}.

Definition cursor_ok (c : Cursor) : Prop :=
  text_ok (c_Ref c) ∧ text_ok (c_Infohash c) ∧ time_ok (c_Key c) ∧ 0 ≤ c_Path c ≤ int64_max.

(** An encoded cursor decodes to itself for its own ref and path, and is
    rejected for any other. *)
Lemma Encode_Decode c :
  cursor_ok c →
  ∃ e, Encode c = Ok e ∧ e ≠ "" ∧
    ∀ ref path, Decode e ref path =
      if bool_decide (c_Ref c = ref) && (c_Path c =? path) then Ok c
      else Err ErrInvalidCursor.
Proof using L.
  intros (Hr&Hh&Hk&Hp). unfold Encode.
  destruct (json_roundtrip {| wc_V := cursorVersion; wc_Ref := c_Ref c; wc_Path := c_Path c;
    wc_Key := Format_RFC3339Nano (c_Key c); wc_Hash := c_Infohash c |}) as (raw&Hm&Hun);
    try done; [by apply time_text|].
  rewrite Hm. eexists. split; [done|]. split.
  { intros E. apply json_nonempty in Hm as []. pose proof (base64_roundtrip raw) as Hb.
    rewrite E in Hb. by injection Hb. }
  intros ref path. unfold Decode. rewrite base64_roundtrip, Hun. simpl.
  rewrite time_roundtrip by done.
  destruct (bool_decide (c_Ref c = ref)); [|done].
  destruct (c_Path c =? path); [|done]. by destruct c.
Qed.
End laws.

End cursor.
