(* ===== verification/CursorCodec.v ===== *)
(** * The codec of the page cursor

    [encoding/json] and RFC 3339 as the [CursorCodec] that [Encode] and
    [Decode] are written against, with its laws. *)

From S2P Require Import Prelude GoStrings GoTime GoTimeFmt Encoding GoJson GoJsonThms GoJsonText Cursor.
From Stdlib Require Import Ascii.
Import json cursor.

Definition wire_json (w : wireCursor) : json := JObject
  [("v", JNumber (Itoa (wc_V w))); ("r", jstring (wc_Ref w)); ("p", JNumber (Itoa (wc_Path w)));
   ("k", jstring (wc_Key w)); ("h", jstring (wc_Hash w))].
Definition wire_fields : list (field wireCursor) :=
  [int_field "v" (λ v w, WireCursor v (wc_Ref w) (wc_Path w) (wc_Key w) (wc_Hash w));
   string_field "r" (λ r w, WireCursor (wc_V w) r (wc_Path w) (wc_Key w) (wc_Hash w));
   int_field "p" (λ p w, WireCursor (wc_V w) (wc_Ref w) p (wc_Key w) (wc_Hash w));
   string_field "k" (λ k w, WireCursor (wc_V w) (wc_Ref w) (wc_Path w) k (wc_Hash w));
   string_field "h" (λ h w, WireCursor (wc_V w) (wc_Ref w) (wc_Path w) (wc_Key w) h)].

#[global] Instance go_codec : CursorCodec := {|
  json_Marshal w := Ok (encode (wire_json w));
  json_Unmarshal s := Unmarshal wire_fields (WireCursor 0 "" 0 "" "") s;
  Format_RFC3339Nano := GoTimeFmt.Format_RFC3339Nano;
  Parse_RFC3339Nano s := match Parse_RFC3339 s with Some t => Ok t | None => Err (ErrParseTime s) end;
|}.

Lemma wire_json_ok w :
  utf8_text (wc_Ref w) → utf8_text (wc_Key w) → utf8_text (wc_Hash w) → json_ok (wire_json w).
Proof.
  intros Hr Hk Hh. constructor. repeat (constructor; [split; [done|]|]); try constructor;
    try done; apply number_ok_Itoa.
Qed.

#[global] Instance go_codec_laws : CursorCodecLaws go_codec utf8_text rfc3339_range.
Proof.
  split.
  - intros w Hr Hk Hh Hv Hp. eexists. split; [done|]. cbn [json_Unmarshal go_codec]. unfold Unmarshal.
    rewrite parse_encode; [|by apply wire_json_ok|done].
    destruct w as [v r p k h]. unfold wire_json. unfold jstring. cbn [decode_struct decode_members].
    repeat match goal with
           | |- context [find_field wire_fields ?n] =>
               let f := eval cbv -[Atoi] in (find_field wire_fields n) in
               change (find_field wire_fields n) with f; cbv beta iota; cbn [wc_V wc_Ref wc_Path wc_Key wc_Hash]
           end.
    cbn in Hv, Hp. rewrite !Atoi_Itoa by done. done.
  - intros w raw H ->. assert (encode (wire_json w) = "") as E by (by injection H).
    revert E. unfold wire_json. by rewrite encode_object.
  - intros t Ht. unfold Parse_RFC3339Nano, Format_RFC3339Nano, go_codec. by rewrite Parse_Format.
  - intros t. apply ascii_utf8, Format_ascii.
Qed.

(** ** The theorems *)

(** C30: a cursor the store hands out (its ref and infohash are text the
    database holds, its key is an instant of the years 0 to 9999) encodes to
    a non-empty string, which decodes to the same cursor, to the nanosecond,
    for the ref and path it was issued for, and to [ErrInvalidCursor] for
    every other ref or path. *)
Theorem cursor_bound c :
  utf8_text (c_Ref c) → utf8_text (c_Infohash c) → rfc3339_range (c_Key c) →
  (c_Path c = PathCatalog ∨ c_Path c = PathDelta) →
  ∃ e, Encode c = Ok e ∧ e ≠ "" ∧
    ∀ ref path, Decode e ref path =
      if bool_decide (c_Ref c = ref) && (c_Path c =? path) then Ok c else Err ErrInvalidCursor.
Proof.
  intros Hr Hh Hk Hp. apply Encode_Decode. split_and!; try done; destruct Hp as [-> | ->]; by vm_compute.
Qed.
Lemma cursor_bound_witness :
  let c := {| c_Ref := "tvdb:81797"; c_Path := PathDelta; c_Key := 1767225600123456789;
              c_Infohash := "aaaaaaaaaaaaaaaaaaaaaaaaaaaaaaaaaaaaaaaa" |} in
  ∃ e, Encode c = Ok e ∧ Decode e "tvdb:81797" PathDelta = Ok c
       ∧ Decode e "tvdb:81797" PathCatalog = Err ErrInvalidCursor
       ∧ Decode e "tvdb:1" PathDelta = Err ErrInvalidCursor.
Proof.
  intros c. destruct (cursor_bound c) as (e&He&_&Hd).
  - reflexivity.
  - reflexivity.
  - vm_compute. split; discriminate.
  - right. reflexivity.
  - exists e. rewrite !Hd. split_and!; [exact He|reflexivity..].
Defined.

(** A ref is valid exactly when it is a lower-case namespace
    ([[a-z][a-z0-9_-]*]), a colon and a non-empty value without line breaks;
    every other text is [ErrInvalidRef]. *)
Theorem ref_shape_exact ref :
  (ValidateRef ref = Ok tt ∧ ref_shape ref) ∨ (ValidateRef ref = Err ErrInvalidRef ∧ ¬ ref_shape ref).
Proof.
  destruct (ValidateRef ref) as [e|[]] eqn:E.
  - apply ValidateRef_Err in E as [-> ?]. by right.
  - apply ValidateRef_Ok in E. by left.
Qed.
