(* ===== verification/Db.v ===== *)
(** * The database: tables, transactions and a small program logic

    The schema is db/migrations/00001_init.sql.  A table keyed by a primary
    key is a [gmap]; an append-only table is a list in insertion order.  A
    [BIGSERIAL] sequence is a counter: PostgreSQL never gives a drawn value
    back, neither on [ON CONFLICT DO NOTHING] nor on rollback, and [rollback]
    keeps it so.

    A store method is a computation [M A]: it runs in an environment of
    oracles (the clock, the driver errors, the rows other transactions have
    locked), all indexed by a step counter, and threads the database.  Every
    database call may fail with any error the driver chooses. *)

From S2P Require Import Prelude GoTime Store.

(** ** Schema *)

Inductive match_status := unmatched | matched | suppressed | exhausted.
#[global] Instance match_status_eq_dec : EqDecision match_status.
Proof. solve_decision. Defined.

(** The enum's labels, as the driver reads and writes them. *)
Definition status_string (s : match_status) : string :=
  match s with
  | unmatched => "unmatched"
  | matched => "matched"
  | suppressed => "suppressed"
  | exhausted => "exhausted"
  end.
#[global] Instance status_string_inj : Inj (=) (=) status_string.
Proof. by intros [] []. Qed.

Record release_row := ReleaseRow {
  r_infohash : string;
  r_title : string;
  r_magnet : option string;
  r_size_bytes : option Z;
  r_published_at : Time;
  r_sources : list string;
  r_match_status : match_status;
  r_ref : option string;
  r_confidence : option float64;
  r_first_matched_at : option Time;
  r_attempt_count : Z;
  r_claimed_at : option Time;
  r_lease_expires_at : option Time;
  r_claim_token : Z;
  r_created_at : Time;
  r_updated_at : Time;
}.

Record raw_item_row := RawItemRow {
  raw_id : Z;
  raw_infohash : string;
  raw_source : string;
  raw_source_id : string;
  raw_title : string;
  raw_url : string;
  raw_published_at : Time;
  raw_ingested_at : Time;
}.

Record match_event_row := MatchEventRow {
  ev_id : Z;
  ev_infohash : string;
  ev_status : match_status;
  ev_ref : option string;
  ev_confidence : option float64;
  ev_reason : string;
  ev_created_at : Time;
}.

Record db := Db {
  releases : gmap string release_row;
  raw_items : list raw_item_row;
  match_events : list match_event_row;
  raw_items_id_seq : Z;
  match_events_id_seq : Z;
}.

(** The database the migrations create. *)
Definition empty_db : db := {|
  releases := ∅;
  raw_items := [];
  match_events := [];
  raw_items_id_seq := 1;
  match_events_id_seq := 1;
|}.

Definition rows (d : db) : list release_row := (map_to_list (releases d)).*2.

Definition set_releases (f : gmap string release_row → gmap string release_row) (d : db) : db := {|
  releases := f (releases d);
  raw_items := raw_items d;
  match_events := match_events d;
  raw_items_id_seq := raw_items_id_seq d;
  match_events_id_seq := match_events_id_seq d;
|}.

(** What a rolled-back transaction leaves: the tables of its start, and the
    sequences as it advanced them. *)
Definition rollback (before after : db) : db := {|
  releases := releases before;
  raw_items := raw_items before;
  match_events := match_events before;
  raw_items_id_seq := raw_items_id_seq after;
  match_events_id_seq := match_events_id_seq after;
|}.

(** Databases with the same rows, whatever their sequences. *)
Definition same_tables (d d' : db) : Prop :=
  releases d = releases d' ∧ raw_items d = raw_items d' ∧ match_events d = match_events d'.
#[global] Instance same_tables_equiv : Equivalence same_tables.
Proof. unfold same_tables. split; [intros d|intros d d'|intros d d' d'']; intuition congruence. Qed.
#[global] Instance rows_proper : Proper (same_tables ==> eq) rows.
Proof. intros d d' (H&_). unfold rows. by rewrite H. Qed.
Lemma rollback_same_tables d d' : same_tables d (rollback d d').
Proof. done. Qed.

(** ** Computations *)

Record env := Env {
  clock : nat → Time;
  fault : nat → option error;
  locked : nat → string → bool;
}.
Record state := State { tick : nat; sdb : db }.

Definition M (A : Type) : Type := env → state → result A * state.

#[global] Instance M_ret : MRet M := λ _ a _ s, (Ok a, s).
#[global] Instance M_bind : MBind M := λ _ _ f m E s,
  match m E s with
  | (Ok a, s') => f a E s'
  | (Err e, s') => (Err e, s')
  end.
Definition raise {A} (e : error) : M A := λ _ s, (Err e, s).
(** A value or an error already in hand. *)
Definition lift {A} (r : result A) : M A := λ _ s, (r, s).

(** [s.clock.Now()]. *)
Definition clock_Now : M Time := λ E s, (Ok (clock E (tick s)), State (S (tick s)) (sdb s)).
(** The rows some other transaction holds a lock on. *)
Definition locked_rows : M (string → bool) := λ E s,
  (Ok (locked E (tick s)), State (S (tick s)) (sdb s)).

(** One statement: the driver fails with an error of its choice, or the
    statement runs; a constraint violation is [None]. *)
Definition ErrConstraint : error := ErrNew "constraint violation".
Definition statement {A} (wrap : error → error) (f : db → option (A * db)) : M A := λ E s,
  let s1 n := State (S (tick s)) n in
  match fault E (tick s) with
  | Some e => (Err (wrap e), s1 (sdb s))
  | None =>
      match f (sdb s) with
      | Some (a, d) => (Ok a, s1 d)
      | None => (Err (wrap ErrConstraint), s1 (sdb s))
      end
  end.
(** A statement that only reads. *)
Definition query {A} (wrap : error → error) (f : db → A) : M A :=
  statement wrap (λ d, Some (f d, d)).

(** Reading the rows of a query already run, which may fail too. *)
Definition collect (wrap : error → error) : M unit := query wrap (λ _, tt).

(** [Begin], a body that says whether to commit, [Commit], and the deferred
    [Rollback] on every other way out. *)
Inductive tx_end := DoCommit | DoRollback.
Definition in_tx {A} (begin_err commit_err : error → error) (body : M (tx_end * A)) : M A := λ E s,
  match fault E (tick s) with
  | Some e => (Err (begin_err e), State (S (tick s)) (sdb s))
  | None =>
      match body E (State (S (tick s)) (sdb s)) with
      | (Err e, s') => (Err e, State (tick s') (rollback (sdb s) (sdb s')))
      | (Ok (DoRollback, a), s') => (Ok a, State (tick s') (rollback (sdb s) (sdb s')))
      | (Ok (DoCommit, a), s') =>
          match fault E (tick s') with
          | Some e => (Err (commit_err e), State (S (tick s')) (rollback (sdb s) (sdb s')))
          | None => (Ok a, State (S (tick s')) (sdb s'))
          end
      end
  end.

(** No driver errors. *)
Definition healthy (E : env) : Prop := ∀ n, fault E n = None.

(** ** Program logic

    [triple P m Q X]: run from a database satisfying [P], [m] ends with a
    value and a database satisfying [Q], or with an error and a database
    satisfying [X]. *)
Definition triple {A} (P : db → Prop) (m : M A) (Q : A → db → Prop) (X : error → db → Prop) : Prop :=
  ∀ E s, P (sdb s) →
    match m E s with
    | (Ok a, s') => Q a (sdb s')
    | (Err e, s') => X e (sdb s')
    end.

Section triple_rules.
Context {A B : Type}.
Implicit Types (P : db → Prop) (X : error → db → Prop).

Lemma triple_conseq (m : M A) (P P' : db → Prop) (Q Q' : A → db → Prop) (X X' : error → db → Prop) :
  triple P' m Q' X' → (∀ d, P d → P' d) → (∀ a d, Q' a d → Q a d) →
  (∀ e d, X' e d → X e d) → triple P m Q X.
Proof.
  intros H HP HQ HX E s Hs. specialize (H E s (HP _ Hs)).
  destruct (m E s) as [[e|a] s']; auto.
Qed.
Lemma triple_ret P (Q : A → db → Prop) X a :
  (∀ d, P d → Q a d) → triple P (mret a) Q X.
Proof. intros H E s Hs. by apply H. Qed.
Lemma triple_raise P (Q : A → db → Prop) X e :
  (∀ d, P d → X e d) → triple P (raise e) Q X.
Proof. intros H E s Hs. by apply H. Qed.
Lemma triple_lift P (Q : A → db → Prop) X r :
  (∀ d, P d → match r with Ok a => Q a d | Err e => X e d end) → triple P (lift r) Q X.
Proof. intros H E s Hs. specialize (H _ Hs). unfold lift. by destruct r. Qed.
Lemma triple_bind P (m : M A) (f : A → M B) (R : A → db → Prop) (Q : B → db → Prop) X :
  triple P m R X → (∀ a, triple (R a) (f a) Q X) → triple P (m ≫= f) Q X.
Proof.
  intros Hm Hf E s Hs. specialize (Hm E s Hs). unfold mbind, M_bind.
  destruct (m E s) as [[e|a] s']; [done|]. by apply Hf.
Qed.
Lemma triple_statement P wrap (f : db → option (A * db)) (Q : A → db → Prop) X :
  (∀ d, P d → match f d with Some (a, d') => Q a d' | None => X (wrap ErrConstraint) d end) →
  (∀ e d, P d → X (wrap e) d) → triple P (statement wrap f) Q X.
Proof.
  intros Hf HX E s Hs. unfold statement. destruct (fault E (tick s)); [by apply HX|].
  specialize (Hf _ Hs). by destruct (f (sdb s)) as [[a d]|].
Qed.
Lemma triple_query P wrap (f : db → A) (Q : A → db → Prop) X :
  (∀ d, P d → Q (f d) d) → (∀ e d, P d → X (wrap e) d) → triple P (query wrap f) Q X.
Proof. intros. by apply triple_statement. Qed.
End triple_rules.

Lemma triple_clock P (Q : Time → db → Prop) X : (∀ t d, P d → Q t d) → triple P clock_Now Q X.
Proof. intros H E s Hs. by apply H. Qed.
Lemma triple_locked P (Q : (string → bool) → db → Prop) X :
  (∀ l d, P d → Q l d) → triple P locked_rows Q X.
Proof. intros H E s Hs. by apply H. Qed.

(** A transaction whose body, started from [d], establishes [Q] when it
    commits, ends in [Q] of a rolled-back database or in [X] of one. *)
Lemma triple_tx {A} (d : db) b c (body : M (tx_end * A)) (Q : A → db → Prop) (X : error → db → Prop) :
  triple (eq d) body
    (λ r d', match r with (DoCommit, a) => Q a d' | (DoRollback, a) => Q a (rollback d d') end)
    (λ _ _, True) →
  (∀ e d', same_tables d d' → X e d') →
  triple (eq d) (in_tx b c body) Q X.
Proof.
  intros Hb HX E s Hs. unfold in_tx. destruct (fault E (tick s)); [by apply HX; subst|].
  specialize (Hb E (State (S (tick s)) (sdb s)) Hs).
  destruct (body E _) as [[e|[[] a]] s']; simpl in *.
  - by apply HX; subst.
  - destruct (fault E (tick s')); [by apply HX; subst|done].
  - by subst.
Qed.

(** From a triple about each starting database to one about a predicate. *)
Lemma triple_forall {A} (P : db → Prop) (m : M A) Q X :
  (∀ d, P d → triple (eq d) m Q X) → triple P m Q X.
Proof. intros H E s Hs. by apply (H _ Hs). Qed.
