(* ===== verification/Postgres.v ===== *)
(** * Package [internal/store/postgres]: the store's operations

    Each method of src/internal/store/postgres/store.go, statement by
    statement and branch by branch: the SQL statements are functions on the
    database, the Go code around them is a computation of [Db.M]. *)

From S2P Require Import Prelude GoStrings GoTime Store Cursor Db.
From Stdlib Require Import Ascii.
Import store.

Module postgres.

(** ** Constants and configuration *)

Definition defaultClaimLimit : Z := 1.
Definition maxClaimLimit : Z := 500.
Definition defaultLeaseSeconds : Z := 300.
Definition defaultReleasesLimit : Z := 50.
Definition maxReleasesLimit : Z := 500.
Definition maxMagnetsBatch : Z := 500.

Record StoreConfig := { QueueMaxAttempts : Z }.

(** [NewStoreWithConfig] replaces a non-positive cap by 3. *)
Definition NewStoreWithConfig (cfg : StoreConfig) : StoreConfig :=
  if QueueMaxAttempts cfg <=? 0 then {| QueueMaxAttempts := 3 |} else cfg.
(** [NewStore]: the zero configuration. *)
Definition NewStore : StoreConfig := NewStoreWithConfig {| QueueMaxAttempts := 0 |}.

Fixpoint isCanonicalInfohash_loop (s : string) : bool :=
  match s with
  | "" => true
  | String c s =>
      if ((code c <? code "0") || (code "9" <? code c))
         && ((code c <? code "a") || (code "f" <? code c))
      then false
      else isCanonicalInfohash_loop s
  end.
Definition isCanonicalInfohash (s : string) : bool :=
  if negb (len s =? 40) then false else isCanonicalInfohash_loop s.

(** ** Ingest *)

Definition ingestSeeds (p : IngestParams) : option string * option Z :=
  let magnet := if bool_decide (ip_Magnet p ≠ "") then Some (ip_Magnet p) else None in
  let sizeBytes := if negb (ip_SizeBytes p =? 0) then Some (ip_SizeBytes p) else None in
  (magnet, sizeBytes).

(** [INSERT INTO releases ... ON CONFLICT (infohash) DO UPDATE SET infohash =
    releases.infohash RETURNING (xmax = 0)]: a new row, or the row as it is. *)
Definition upsert_release (p : IngestParams) (magnet : option string) (sizeBytes : option Z)
    (now : Time) (d : db) : bool * db :=
  match releases d !! ip_Infohash p with
  | Some _ => (false, d)
  | None =>
      (true, set_releases <[ip_Infohash p := {|
        r_infohash := ip_Infohash p;
        r_title := ip_Title p;
        r_magnet := magnet;
        r_size_bytes := sizeBytes;
        r_published_at := pg_ts (ip_PublishedAt p);
        r_sources := [ip_Source p];
        r_match_status := unmatched;
        r_ref := None;
        r_confidence := None;
        r_first_matched_at := None;
        r_attempt_count := 0;
        r_claimed_at := None;
        r_lease_expires_at := None;
        r_claim_token := 0;
        r_created_at := pg_ts now;
        r_updated_at := pg_ts now;
      |}]> d)
  end.

(** [INSERT INTO raw_items ... ON CONFLICT (source, source_id) DO NOTHING]:
    the row's id is drawn from the sequence either way.  The foreign key
    requires the release. *)
Definition same_source (p : IngestParams) (ri : raw_item_row) : bool :=
  bool_decide (raw_source ri = ip_Source p) && bool_decide (raw_source_id ri = ip_SourceID p).
Definition insert_raw_item (p : IngestParams) (now : Time) (d : db) : option (bool * db) :=
  let id := raw_items_id_seq d in
  let advance items := {|
    releases := releases d;
    raw_items := items;
    match_events := match_events d;
    raw_items_id_seq := id + 1;
    match_events_id_seq := match_events_id_seq d;
  |} in
  if existsb (same_source p) (raw_items d) then Some (false, advance (raw_items d))
  else match releases d !! ip_Infohash p with
       | None => None
       | Some _ =>
           Some (true, advance (raw_items d ++ [{|
             raw_id := id;
             raw_infohash := ip_Infohash p;
             raw_source := ip_Source p;
             raw_source_id := ip_SourceID p;
             raw_title := ip_Title p;
             raw_url := ip_URL p;
             raw_published_at := pg_ts (ip_PublishedAt p);
             raw_ingested_at := pg_ts now;
           |}]))
       end.

(** [SELECT ... FROM raw_items WHERE infohash = $1]. *)
Definition raw_items_of (ih : string) (d : db) : list raw_item_row :=
  List.filter (λ ri, bool_decide (raw_infohash ri = ih)) (raw_items d).

(** [ORDER BY published_at DESC, id DESC]. *)
Definition newest_first (a b : raw_item_row) : Prop :=
  raw_published_at b < raw_published_at a
  ∨ raw_published_at a = raw_published_at b ∧ raw_id b ≤ raw_id a.
#[global] Instance newest_first_dec : RelDecision newest_first.
Proof. intros a b. unfold newest_first. apply _. Defined.

(** [ORDER BY published_at DESC, id DESC LIMIT 1], the title of it. *)
Definition newest_title (items : list raw_item_row) : option string :=
  raw_title <$> head (merge_sort newest_first items).
(** [min(published_at)]. *)
Definition earliest (items : list raw_item_row) : option Time :=
  match raw_published_at <$> items with
  | [] => None
  | t :: ts => Some (foldr Z.min t ts)
  end.
(** [array_agg(DISTINCT source ORDER BY source)]; the text order is bytewise. *)
Definition distinct_sources (items : list raw_item_row) : list string :=
  merge_sort String.le (remove_dups (raw_source <$> items)).

Definition coalesce {A} (a b : option A) : option A :=
  match a with Some _ => a | None => b end.

(** The [UPDATE releases r SET title = (...), ... WHERE r.infohash = $1] of
    [recomputeRepresentative]; [title] and [published_at] are [NOT NULL]. *)
Definition recompute_row (ih : string) (magnet : option string) (sizeBytes : option Z)
    (now : Time) (d : db) : option (unit * db) :=
  match releases d !! ih with
  | None => Some (tt, d)
  | Some r =>
      let items := raw_items_of ih d in
      match newest_title items, earliest items with
      | Some title, Some published =>
          Some (tt, set_releases <[ih := {|
            r_infohash := r_infohash r;
            r_title := title;
            r_magnet := coalesce (r_magnet r) magnet;
            r_size_bytes := coalesce (r_size_bytes r) sizeBytes;
            r_published_at := published;
            r_sources := distinct_sources items;
            r_match_status := r_match_status r;
            r_ref := r_ref r;
            r_confidence := r_confidence r;
            r_first_matched_at := r_first_matched_at r;
            r_attempt_count := r_attempt_count r;
            r_claimed_at := r_claimed_at r;
            r_lease_expires_at := r_lease_expires_at r;
            r_claim_token := r_claim_token r;
            r_created_at := r_created_at r;
            r_updated_at := pg_ts now;
          |}]> d)
      | _, _ => None
      end
  end.

Definition recomputeRepresentative (ih : string) (magnet : option string) (sizeBytes : option Z)
    (now : Time) : M unit :=
  statement (wrapf "ingest: recompute representative fields: %w" [])
    (recompute_row ih magnet sizeBytes now).

Definition upsertTx (p : IngestParams) (magnet : option string) (sizeBytes : option Z)
    (now : Time) : M (bool * bool) :=
  created ← statement (wrapf "ingest: upsert release: %w" [])
              (λ d, Some (upsert_release p magnet sizeBytes now d));
  inserted ← statement (wrapf "ingest: insert raw_item: %w" []) (insert_raw_item p now);
  if negb created && inserted then
    _ ← recomputeRepresentative (ip_Infohash p) magnet sizeBytes now;
    mret (created, inserted)
  else mret (created, inserted).

Definition IngestN (p : IngestParams) : M IngestOutcome :=
  if negb (isCanonicalInfohash (ip_Infohash p)) then mret outcome_Duplicate else
  now ← clock_Now;
  let '(magnet, sizeBytes) := ingestSeeds p in
  in_tx (wrapf "ingest: begin tx: %w" []) (wrapf "ingest: commit: %w" [])
    ('(created, inserted) ← upsertTx p magnet sizeBytes now;
     if (created : bool) && negb inserted then mret (DoRollback, outcome_Conflict)
     else mret (DoCommit,
       if created then outcome_New
       else if inserted : bool then outcome_Updated
       else outcome_Duplicate)).

(** ** Claim *)

(** [lease_expires_at IS NULL OR lease_expires_at <= $1]. *)
Definition lease_free (now : Time) (r : release_row) : bool :=
  match r_lease_expires_at r with
  | None => true
  | Some e => e <=? pg_ts now
  end.
Definition is_status (s : match_status) (r : release_row) : bool :=
  bool_decide (r_match_status r = s).

(** The rows the first statement of [Claim] exhausts. *)
Definition exhaustible (now : Time) (max : Z) (r : release_row) : bool :=
  is_status unmatched r && (max <=? r_attempt_count r) && lease_free now r.
Definition exhaust_row (now : Time) (r : release_row) : release_row := {|
  r_infohash := r_infohash r;
  r_title := r_title r;
  r_magnet := r_magnet r;
  r_size_bytes := r_size_bytes r;
  r_published_at := r_published_at r;
  r_sources := r_sources r;
  r_match_status := exhausted;
  r_ref := r_ref r;
  r_confidence := r_confidence r;
  r_first_matched_at := r_first_matched_at r;
  r_attempt_count := r_attempt_count r;
  r_claimed_at := None;
  r_lease_expires_at := None;
  r_claim_token := r_claim_token r;
  r_created_at := r_created_at r;
  r_updated_at := pg_ts now;
|}.
Definition exhaust_stmt (now : Time) (max : Z) (d : db) : db :=
  set_releases (fmap (λ r, if exhaustible now max r then exhaust_row now r else r)) d.

(** The rows the second statement may lease. *)
Definition claimable (now : Time) (max : Z) (r : release_row) : bool :=
  is_status unmatched r && (r_attempt_count r <? max) && lease_free now r.

(** [ORDER BY <key> DESC, infohash DESC]; the text order is bytewise. *)
Definition key_desc (key : release_row → Time) (a b : release_row) : Prop :=
  key b < key a ∨ key a = key b ∧ String.le (r_infohash b) (r_infohash a).
#[global] Instance key_desc_dec key : RelDecision (key_desc key).
Proof. intros a b. unfold key_desc. apply _. Defined.
Definition published_desc := key_desc r_published_at.

Definition lease_row (now leaseExpires : Time) (r : release_row) : release_row := {|
  r_infohash := r_infohash r;
  r_title := r_title r;
  r_magnet := r_magnet r;
  r_size_bytes := r_size_bytes r;
  r_published_at := r_published_at r;
  r_sources := r_sources r;
  r_match_status := r_match_status r;
  r_ref := r_ref r;
  r_confidence := r_confidence r;
  r_first_matched_at := r_first_matched_at r;
  r_attempt_count := r_attempt_count r;
  r_claimed_at := Some (pg_ts now);
  r_lease_expires_at := Some (pg_ts leaseExpires);
  r_claim_token := r_claim_token r + 1;
  r_created_at := r_created_at r;
  r_updated_at := pg_ts now;
|}.

(** The [claimable] CTE: rows locked by another transaction are skipped. *)
Definition select_claimable (now : Time) (max limit : Z) (lock : string → bool) (d : db)
    : list string :=
  r_infohash <$> take (Z.to_nat limit)
    (merge_sort published_desc
      (List.filter (λ r, claimable now max r && negb (lock (r_infohash r))) (rows d))).

(** The whole statement: the [leased] CTE updates the selected rows and the
    final [SELECT] returns them in queue order. *)
Definition claim_stmt (now : Time) (max limit : Z) (leaseExpires : Time) (lock : string → bool)
    (d : db) : list release_row * db :=
  let selected := select_claimable now max limit lock d in
  let d' := set_releases
    (fmap (λ r, if bool_decide (r_infohash r ∈ selected) then lease_row now leaseExpires r else r)) d in
  (merge_sort published_desc (List.filter (λ r, bool_decide (r_infohash r ∈ selected)) (rows d')), d').

(** [ORDER BY id ASC]. *)
Definition id_asc (a b : raw_item_row) : Prop := raw_id a ≤ raw_id b.
#[global] Instance id_asc_dec : RelDecision id_asc.
Proof. intros a b. unfold id_asc. apply _. Defined.

(** [NULLIF(s, '')]. *)
Definition nullif_empty (s : string) : option string :=
  if bool_decide (s = "") then None else Some s.

Definition raw_item_detail (ri : raw_item_row) : RawItemDetail := {|
  rid_ID := raw_id ri;
  rid_Source := raw_source ri;
  rid_SourceID := raw_source_id ri;
  rid_Title := raw_title ri;
  rid_URL := nullif_empty (raw_url ri);
  rid_PublishedAt := raw_published_at ri;
  rid_IngestedAt := raw_ingested_at ri;
|}.
(** [rawItemsByInfohashSQL]. *)
Definition rawItemsByInfohash (ih : string) (d : db) : list RawItemDetail :=
  raw_item_detail <$> merge_sort id_asc (raw_items_of ih d).

Definition rawItemsFor (ih op : string) : M (list RawItemDetail) :=
  items ← query (wrapf "%s: load raw_items for %s: %w" [op; ih]) (rawItemsByInfohash ih);
  _ ← collect (wrapf "%s: collect raw_items for %s: %w" [op; ih]);
  mret items.

Definition claimed_release (op : string) (r : release_row) : M ClaimedRelease :=
  raw ← rawItemsFor (r_infohash r) op;
  mret {|
    cr_Infohash := r_infohash r;
    cr_ClaimToken := r_claim_token r;
    cr_AttemptCount := r_attempt_count r;
    cr_LeaseExpires := default zero_time (r_lease_expires_at r);
    cr_RawItems := raw;
  |}.

Definition claim_limit (limit : Z) : Z :=
  let limit := if limit <=? 0 then defaultClaimLimit else limit in
  if maxClaimLimit <? limit then maxClaimLimit else limit.
(** [time.Duration(leaseSeconds) * time.Second], which wraps. *)
Definition lease_duration (leaseSeconds : Z) : Duration :=
  let leaseSeconds := if leaseSeconds <=? 0 then defaultLeaseSeconds else leaseSeconds in
  wrap64 (leaseSeconds * Second).

Definition Claim (cfg : StoreConfig) (p : ClaimParams) : M ClaimResult :=
  now ← clock_Now;
  let limit := claim_limit (cp_Limit p) in
  let leaseExpires := Add now (lease_duration (cp_LeaseSeconds p)) in
  lock ← locked_rows;
  in_tx (wrapf "claim: begin tx: %w" []) (wrapf "claim: commit: %w" [])
    (_ ← statement (wrapf "claim: exhaust old attempts: %w" [])
           (λ d, Some (tt, exhaust_stmt now (QueueMaxAttempts cfg) d));
     claimed ← statement (wrapf "claim: select+lease: %w" [])
           (λ d, Some (claim_stmt now (QueueMaxAttempts cfg) limit leaseExpires lock d));
     _ ← collect (wrapf "claim: collect leased rows: %w" []);
     items ← mapM (claimed_release "claim") claimed;
     mret (DoCommit, {| clr_Items := items |})).

(** ** Submit *)

Definition validateSubmit (p : SubmitParams) : result unit :=
  if bool_decide (sp_Status p = "matched") then cursor.ValidateRef (sp_Ref p)
  else if bool_decide (sp_Status p = "unmatched" ∨ sp_Status p = "suppressed") then Ok tt
  else Err (Errorf "submit: invalid status %q" [sp_Status p] []).

Definition nullableRef (status ref : string) : option string :=
  if bool_decide (status = "matched") then Some ref else None.
Definition nullableConfidence (status : string) (confidence : option float64) : option float64 :=
  if bool_decide (status = "matched" ∨ status = "suppressed") then confidence else None.

(** [WHERE infohash = $1] of an [UPDATE]. *)
Definition update_row (ih : string) (f : release_row → release_row) (d : db) : db :=
  set_releases (alter f ih) d.

Definition matched_row (ref : string) (confidence : option float64) (now : Time) (r : release_row)
    : release_row := {|
  r_infohash := r_infohash r;
  r_title := r_title r;
  r_magnet := r_magnet r;
  r_size_bytes := r_size_bytes r;
  r_published_at := r_published_at r;
  r_sources := r_sources r;
  r_match_status := matched;
  r_ref := Some ref;
  r_confidence := confidence;
  r_first_matched_at := coalesce (r_first_matched_at r) (Some (pg_ts now));
  r_attempt_count := r_attempt_count r;
  r_claimed_at := None;
  r_lease_expires_at := None;
  r_claim_token := r_claim_token r;
  r_created_at := r_created_at r;
  r_updated_at := pg_ts now;
|}.
Definition closed_row (status : match_status) (attempts : Z) (now : Time) (r : release_row)
    : release_row := {|
  r_infohash := r_infohash r;
  r_title := r_title r;
  r_magnet := r_magnet r;
  r_size_bytes := r_size_bytes r;
  r_published_at := r_published_at r;
  r_sources := r_sources r;
  r_match_status := status;
  r_ref := None;
  r_confidence := None;
  r_first_matched_at := r_first_matched_at r;
  r_attempt_count := attempts;
  r_claimed_at := None;
  r_lease_expires_at := None;
  r_claim_token := r_claim_token r;
  r_created_at := r_created_at r;
  r_updated_at := pg_ts now;
|}.
Definition retried_row (attempts : Z) (now : Time) (r : release_row) : release_row := {|
  r_infohash := r_infohash r;
  r_title := r_title r;
  r_magnet := r_magnet r;
  r_size_bytes := r_size_bytes r;
  r_published_at := r_published_at r;
  r_sources := r_sources r;
  r_match_status := r_match_status r;
  r_ref := r_ref r;
  r_confidence := r_confidence r;
  r_first_matched_at := r_first_matched_at r;
  r_attempt_count := attempts;
  r_claimed_at := r_claimed_at r;
  r_lease_expires_at := r_lease_expires_at r;
  r_claim_token := r_claim_token r;
  r_created_at := r_created_at r;
  r_updated_at := pg_ts now;
|}.

(** [INSERT INTO match_events ...]. *)
Definition append_event (ih : string) (status : match_status) (ref : option string)
    (confidence : option float64) (reason : string) (now : Time) (d : db) : db := {|
  releases := releases d;
  raw_items := raw_items d;
  match_events := match_events d ++ [{|
    ev_id := match_events_id_seq d;
    ev_infohash := ih;
    ev_status := status;
    ev_ref := ref;
    ev_confidence := confidence;
    ev_reason := reason;
    ev_created_at := pg_ts now;
  |}];
  raw_items_id_seq := raw_items_id_seq d;
  match_events_id_seq := match_events_id_seq d + 1;
|}.

(** A label of the enum, or [None]: the database rejects other text. *)
Definition status_of_string (s : string) : option match_status :=
  if bool_decide (s = "unmatched") then Some unmatched
  else if bool_decide (s = "matched") then Some matched
  else if bool_decide (s = "suppressed") then Some suppressed
  else if bool_decide (s = "exhausted") then Some exhausted
  else None.

(** The [switch finalStatus] of [Submit]. *)
Definition submit_update (p : SubmitParams) (finalStatus : string) (newAttemptCount : Z)
    (now : Time) : M unit :=
  let wrap := wrapf "submit %s: update: %w" [sp_Infohash p] in
  if bool_decide (finalStatus = "matched") then
    statement wrap (λ d, Some (tt, update_row (sp_Infohash p)
      (matched_row (sp_Ref p) (nullableConfidence finalStatus (sp_Confidence p)) now) d))
  else if bool_decide (finalStatus = "suppressed" ∨ finalStatus = "exhausted") then
    statement wrap (λ d,
      status ← status_of_string finalStatus;
      Some (tt, update_row (sp_Infohash p) (closed_row status newAttemptCount now) d))
  else if bool_decide (finalStatus = "unmatched") then
    statement wrap (λ d, Some (tt, update_row (sp_Infohash p) (retried_row newAttemptCount now) d))
  else raise (Errorf "submit: invalid status %q" [sp_Status p] []).

(** The columns [SELECT ... FOR UPDATE] reads. *)
Record lease_columns := {
  currentStatus : string;
  currentToken : Z;
  leaseExpires : option Time;
  attemptCount : Z;
}.
Definition load_lease (ih : string) (d : db) : option lease_columns :=
  (λ r, {|
    currentStatus := status_string (r_match_status r);
    currentToken := r_claim_token r;
    leaseExpires := r_lease_expires_at r;
    attemptCount := r_attempt_count r;
  |}) <$> releases d !! ih.

(** [leaseExpires == nil || !leaseExpires.After(now)]. *)
Definition lease_over (now : Time) (leaseExpires : option Time) : bool :=
  match leaseExpires with
  | None => true
  | Some e => negb (After e now)
  end.

Definition Submit_tx (cfg : StoreConfig) (p : SubmitParams) (now : Time) : M (tx_end * unit) :=
  row ← query (wrapf "submit %s: load lease: %w" [sp_Infohash p]) (load_lease (sp_Infohash p));
  match row with
  | None => raise (wrapf "submit %s: %w" [sp_Infohash p] ErrNoSuchRelease)
  | Some l =>
      if negb (currentToken l =? sp_ClaimToken p) || lease_over now (leaseExpires l)
      then raise (wrapf "submit %s: %w" [sp_Infohash p] ErrStaleLease)
      else if bool_decide (currentStatus l ≠ "unmatched")
      then raise (wrapf "submit %s: %w" [sp_Infohash p] ErrNoActiveLease)
      else
        let newAttemptCount :=
          if bool_decide (sp_Status p = "unmatched") then attemptCount l + 1 else attemptCount l in
        let '(finalStatus, clearLease) :=
          if bool_decide (sp_Status p = "unmatched") && (QueueMaxAttempts cfg <=? newAttemptCount)
          then ("exhausted", true)
          else (sp_Status p, bool_decide (sp_Status p = "matched" ∨ sp_Status p = "suppressed")) in
        _ ← submit_update p finalStatus newAttemptCount now;
        if negb clearLease && bool_decide (finalStatus ≠ "unmatched")
        then raise (Errorf "submit: impossible status %q" [finalStatus] [])
        else
          _ ← statement (wrapf "submit %s: append match_event: %w" [sp_Infohash p])
                (λ d,
                  status ← status_of_string finalStatus;
                  Some (tt, append_event (sp_Infohash p) status
                    (nullableRef finalStatus (sp_Ref p))
                    (nullableConfidence finalStatus (sp_Confidence p)) (sp_Reason p) now d));
          mret (DoCommit, tt)
  end.

Definition Submit (cfg : StoreConfig) (p : SubmitParams) : M unit :=
  _ ← lift (validateSubmit p);
  now ← clock_Now;
  in_tx (wrapf "submit: begin tx: %w" []) (wrapf "submit %s: commit: %w" [sp_Infohash p])
    (Submit_tx cfg p now).

(** ** Statistics *)

Definition leased_now (now : Time) (r : release_row) : bool :=
  is_status unmatched r
  && match r_lease_expires_at r with None => false | Some e => pg_ts now <? e end.

Definition queue_stats_sql (now : Time) (max : Z) (d : db) : QueueStats := {|
  qs_Available := count_if (claimable now max) (rows d);
  qs_Leased := count_if (leased_now now) (rows d);
  qs_Unmatched := count_if (is_status unmatched) (rows d);
  qs_Matched := count_if (is_status matched) (rows d);
  qs_Suppressed := count_if (is_status suppressed) (rows d);
  qs_Exhausted := count_if (is_status exhausted) (rows d);
|}.
Definition QueueStats (cfg : StoreConfig) : M store.QueueStats :=
  now ← clock_Now;
  query (wrapf "queue stats: %w" []) (queue_stats_sql now (QueueMaxAttempts cfg)).

Definition catalog_stats_sql (d : db) : CatalogStats := {|
  cs_RawPosts := Z.of_nat (length (raw_items d));
  cs_Infohashes := Z.of_nat (length (rows d));
  cs_Refs := Z.of_nat (length (remove_dups
    (List.filter (λ s, bool_decide (s ≠ "")) (omap r_ref (rows d)))));
|}.
Definition CatalogStats : M store.CatalogStats :=
  query (wrapf "catalog stats: %w" []) catalog_stats_sql.

End postgres.
