(* ===== verification/StoreSpec.v ===== *)
(** * Abstract specification of the store's writes, and the refinement

    What each writing method promises, as one pure transition of the
    database: [ingest_spec], [claim_spec], [submit_spec].  The refinement
    lemmas show that the statement-by-statement code of [Postgres.v], run
    with any clock, any locks and any driver errors, either performs exactly
    the transition of its specification or returns an error and leaves every
    table as it was. *)

From S2P Require Import Prelude GoStrings GoTime Store Cursor Db Postgres.
Import store postgres.

(** ** Transitions *)

(** The row and the raw item a first-seen post creates. *)
Definition new_release (p : IngestParams) (now : Time) : release_row := {|
  r_infohash := ip_Infohash p;
  r_title := ip_Title p;
  r_magnet := (ingestSeeds p).1;
  r_size_bytes := (ingestSeeds p).2;
  r_published_at := pg_ts (ip_PublishedAt p);
  r_sources := [ip_Source p];
  r_match_status := unmatched;
  r_ref := None;
  r_confidence := None;
  r_first_matched_at := None;
  r_attempt_count := 0;
  r_claimed_at := None;
  r_lease_expires_at := None;
  r_claim_token := 0;
  r_created_at := pg_ts now;
  r_updated_at := pg_ts now;
|}.
Definition new_raw_item (p : IngestParams) (now : Time) (id : Z) : raw_item_row := {|
  raw_id := id;
  raw_infohash := ip_Infohash p;
  raw_source := ip_Source p;
  raw_source_id := ip_SourceID p;
  raw_title := ip_Title p;
  raw_url := ip_URL p;
  raw_published_at := pg_ts (ip_PublishedAt p);
  raw_ingested_at := pg_ts now;
|}.

(** The post's raw item is appended, or its id is drawn for nothing. *)
Definition add_raw (p : IngestParams) (now : Time) (d : db) : db := {|
  releases := releases d;
  raw_items := raw_items d ++ [new_raw_item p now (raw_items_id_seq d)];
  match_events := match_events d;
  raw_items_id_seq := raw_items_id_seq d + 1;
  match_events_id_seq := match_events_id_seq d;
|}.
Definition draw_raw_id (d : db) : db := {|
  releases := releases d;
  raw_items := raw_items d;
  match_events := match_events d;
  raw_items_id_seq := raw_items_id_seq d + 1;
  match_events_id_seq := match_events_id_seq d;
|}.

(** The representative fields a set of raw items determines. *)
Definition represent (items : list raw_item_row) (magnet : option string) (size : option Z)
    (now : Time) (r : release_row) : release_row := {|
  r_infohash := r_infohash r;
  r_title := default "" (newest_title items);
  r_magnet := coalesce (r_magnet r) magnet;
  r_size_bytes := coalesce (r_size_bytes r) size;
  r_published_at := default 0 (earliest items);
  r_sources := distinct_sources items;
  r_match_status := r_match_status r;
  r_ref := r_ref r;
  r_confidence := r_confidence r;
  r_first_matched_at := r_first_matched_at r;
  r_attempt_count := r_attempt_count r;
  r_claimed_at := r_claimed_at r;
  r_lease_expires_at := r_lease_expires_at r;
  r_claim_token := r_claim_token r;
  r_created_at := r_created_at r;
  r_updated_at := pg_ts now;
|}.

Definition ingest_spec (now : Time) (p : IngestParams) (d : db) : result (IngestOutcome * db) :=
  if negb (isCanonicalInfohash (ip_Infohash p)) then Ok (outcome_Duplicate, d) else
  match releases d !! ip_Infohash p, existsb (same_source p) (raw_items d) with
  | None, true => Ok (outcome_Conflict, draw_raw_id d)
  | None, false =>
      Ok (outcome_New, set_releases <[ip_Infohash p := new_release p now]> (add_raw p now d))
  | Some _, true => Ok (outcome_Duplicate, draw_raw_id d)
  | Some r, false =>
      let d1 := add_raw p now d in
      Ok (outcome_Updated,
          set_releases <[ip_Infohash p :=
            represent (raw_items_of (ip_Infohash p) d1) (ingestSeeds p).1 (ingestSeeds p).2 now r]> d1)
  end.

Definition claimed_of (d : db) (r : release_row) : ClaimedRelease := {|
  cr_Infohash := r_infohash r;
  cr_ClaimToken := r_claim_token r;
  cr_AttemptCount := r_attempt_count r;
  cr_LeaseExpires := default zero_time (r_lease_expires_at r);
  cr_RawItems := rawItemsByInfohash (r_infohash r) d;
|}.
Definition lease_until (now : Time) (p : ClaimParams) : Time :=
  Add now (lease_duration (cp_LeaseSeconds p)).

Definition claim_spec (cfg : StoreConfig) (now : Time) (lock : string → bool) (p : ClaimParams)
    (d : db) : result (ClaimResult * db) :=
  let '(claimed, d') := claim_stmt now (QueueMaxAttempts cfg) (claim_limit (cp_Limit p))
    (lease_until now p) lock (exhaust_stmt now (QueueMaxAttempts cfg) d) in
  Ok ({| clr_Items := claimed_of d' <$> claimed |}, d').

(** The verdict of a live claim: what the row becomes and the event's label. *)
Inductive verdict := VMatched | VSuppressed | VUnmatched.
Definition parse_verdict (p : SubmitParams) : result verdict :=
  if bool_decide (sp_Status p = "matched") then
    match cursor.ValidateRef (sp_Ref p) with Ok _ => Ok VMatched | Err e => Err e end
  else if bool_decide (sp_Status p = "unmatched") then Ok VUnmatched
  else if bool_decide (sp_Status p = "suppressed") then Ok VSuppressed
  else Err (Errorf "submit: invalid status %q" [sp_Status p] []).

Definition settle (cfg : StoreConfig) (p : SubmitParams) (v : verdict) (now : Time) (r : release_row)
    : release_row * match_status :=
  match v with
  | VMatched => (matched_row (sp_Ref p) (sp_Confidence p) now r, matched)
  | VSuppressed => (closed_row suppressed (r_attempt_count r) now r, suppressed)
  | VUnmatched =>
      let attempts := r_attempt_count r + 1 in
      if QueueMaxAttempts cfg <=? attempts
      then (closed_row exhausted attempts now r, exhausted)
      else (retried_row attempts now r, unmatched)
  end.
Definition event_ref (v : verdict) (p : SubmitParams) : option string :=
  match v with VMatched => Some (sp_Ref p) | _ => None end.
Definition event_confidence (v : verdict) (p : SubmitParams) : option float64 :=
  match v with VMatched | VSuppressed => sp_Confidence p | VUnmatched => None end.

(** A claim is live: its token is the row's and its lease has not run out. *)
Definition live (now token : Z) (r : release_row) : bool :=
  (r_claim_token r =? token)
  && match r_lease_expires_at r with Some e => now <? e | None => false end.

Definition submit_spec (cfg : StoreConfig) (now : Time) (p : SubmitParams) (d : db)
    : result (unit * db) :=
  match parse_verdict p with
  | Err e => Err e
  | Ok v =>
      match releases d !! sp_Infohash p with
      | None => Err (wrapf "submit %s: %w" [sp_Infohash p] ErrNoSuchRelease)
      | Some r =>
          if live now (sp_ClaimToken p) r then
            if decide (r_match_status r = unmatched) then
              let '(r', label) := settle cfg p v now r in
              Ok (tt, append_event (sp_Infohash p) label (event_ref v p) (event_confidence v p)
                        (sp_Reason p) now (set_releases <[sp_Infohash p := r']> d))
            else Err (wrapf "submit %s: %w" [sp_Infohash p] ErrNoActiveLease)
          else Err (wrapf "submit %s: %w" [sp_Infohash p] ErrStaleLease)
      end
  end.

(** ** Refinement *)

(** Sequences only advance. *)
Definition seqs_le (d d' : db) : Prop :=
  raw_items_id_seq d ≤ raw_items_id_seq d' ∧ match_events_id_seq d ≤ match_events_id_seq d'.
#[global] Instance seqs_le_preorder : PreOrder seqs_le.
Proof. unfold seqs_le. split; [intros d|intros d1 d2 d3]; lia. Qed.

(** What a failed call leaves behind. *)
Definition untouched (d d' : db) : Prop := same_tables d d' ∧ seqs_le d d'.

(** [m], started at clock reading [now] and with [lock] held by others,
    performs [spec] or fails and touches no table; without driver errors it
    fails exactly when the specification does, with the same error. *)
Definition refines {A} (m : M A) (spec : Time → (string → bool) → db → result (A * db)) : Prop :=
  ∀ E s,
    let sp := spec (clock E (tick s)) (locked E (S (tick s))) (sdb s) in
    match m E s with
    | (Ok a, s') => sp = Ok (a, sdb s')
    | (Err e, s') => untouched (sdb s) (sdb s') ∧ (healthy E → sp = Err e)
    end.

Lemma untouched_refl d : untouched d d.
Proof. split; reflexivity. Qed.
Lemma untouched_rollback d d' : seqs_le d d' → untouched d (rollback d d').
Proof. by split. Qed.

Lemma alter_lookup {A} (f : A → A) (m : gmap string A) i x :
  m !! i = Some x → alter f i m = <[i := f x]> m.
Proof.
  intros H. apply map_eq. intros j. destruct (decide (i = j)) as [->|].
  - by rewrite lookup_alter_eq, lookup_insert_eq, H.
  - by rewrite lookup_alter_ne, lookup_insert_ne.
Qed.

(** A raw item just added makes the recomputation of its release total. *)
Lemma represent_defined p now id items :
  let l := items ++ [new_raw_item p now id] in
  is_Some (newest_title l) ∧ is_Some (earliest l).
Proof.
  intros l. split.
  - unfold newest_title. destruct (merge_sort newest_first l) eqn:E; [|by eexists].
    pose proof (merge_sort_Permutation newest_first l) as Hp. rewrite E in Hp.
    apply Permutation_nil_l in Hp. subst l. by destruct items.
  - unfold earliest. subst l. destruct items; simpl; by eexists.
Qed.

Ltac m_unfold :=
  unfold in_tx, statement, query, statement, lift, raise, clock_Now, locked_rows,
    mbind, M_bind, mret, M_ret.
Ltac m_cbn := cbn [sdb tick negb andb orb fst snd mbind option_bind].
(** Close an exit on a driver error. *)
Ltac fault_exit :=
  m_cbn; split;
  [split; [done|first [done|split; cbn; lia]]
  |let HE := fresh in intros HE;
   match goal with F : fault _ _ = Some _ |- _ => by rewrite HE in F end].
(** Next statement: it fails (closed by [fault_exit]) or runs. *)
Ltac fault_case E :=
  m_cbn;
  match goal with
  | |- context [match fault E ?n with _ => _ end] =>
      let F := fresh "F" in destruct (fault E n) eqn:F; [fault_exit|clear F]
  end; m_cbn.

Lemma raw_items_of_add p now d :
  raw_items_of (ip_Infohash p) (add_raw p now d)
  = raw_items_of (ip_Infohash p) d ++ [new_raw_item p now (raw_items_id_seq d)].
Proof.
  unfold raw_items_of, add_raw. cbn [raw_items]. rewrite List.filter_app. cbn.
  by rewrite bool_decide_eq_true_2.
Qed.

Lemma recompute_represent p now mg sz d r :
  releases d !! ip_Infohash p = Some r →
  recompute_row (ip_Infohash p) mg sz now (add_raw p now d)
  = Some (tt, set_releases <[ip_Infohash p :=
      represent (raw_items_of (ip_Infohash p) (add_raw p now d)) mg sz now r]> (add_raw p now d)).
Proof.
  intros Hr. unfold recompute_row. cbn [add_raw releases]. rewrite Hr.
  fold (add_raw p now d). rewrite raw_items_of_add.
  destruct (represent_defined p now (raw_items_id_seq d) (raw_items_of (ip_Infohash p) d))
    as [[t Ht] [e He]].
  unfold represent. by rewrite Ht, He.
Qed.

Lemma IngestN_refines p : refines (IngestN p) (λ now _, ingest_spec now p).
Proof.
  intros E s. unfold IngestN, upsertTx, recomputeRepresentative, ingest_spec. m_unfold.
  destruct (negb (isCanonicalInfohash (ip_Infohash p))); [done|].
  unfold new_release. destruct (ingestSeeds p) as [mg sz].
  set (now := clock E (tick s)). clearbody now.
  fault_case E. unfold upsert_release.
  destruct (releases (sdb s) !! ip_Infohash p) as [r|] eqn:Er;
    fault_case E; fault_case E; unfold insert_raw_item; cbn [set_releases raw_items raw_items_id_seq];
    destruct (existsb (same_source p) (raw_items (sdb s))); m_cbn.
  - by fault_case E.
  - rewrite Er. fold (new_raw_item p now (raw_items_id_seq (sdb s))).
    fold (add_raw p now (sdb s)). fault_case E. rewrite recompute_represent with (r := r) by done.
    fault_case E. done.
  - done.
  - cbn [set_releases releases]. rewrite lookup_insert_eq. by fault_case E.
Qed.

Lemma claimed_release_run op r E s :
  match claimed_release op r E s with
  | (Ok c, s') => sdb s' = sdb s ∧ c = claimed_of (sdb s) r
  | (Err _, s') => sdb s' = sdb s ∧ ¬ healthy E
  end.
Proof.
  unfold claimed_release, rawItemsFor, collect. m_unfold.
  destruct (fault E (tick s)) eqn:F1; m_cbn.
  { split; [done|]. intros HE. by rewrite HE in F1. }
  destruct (fault E (S (tick s))) eqn:F2; m_cbn; split; try done.
  intros HE. by rewrite HE in F2.
Qed.

Lemma claimed_releases_run op l E s :
  match mapM (claimed_release op) l E s with
  | (Ok items, s') => sdb s' = sdb s ∧ items = claimed_of (sdb s) <$> l
  | (Err _, s') => sdb s' = sdb s ∧ ¬ healthy E
  end.
Proof.
  revert s. induction l as [|r l IH]; intros s; [done|]. cbn [mapM].
  unfold mbind, M_bind, mret, M_ret. pose proof (claimed_release_run op r E s) as Hr.
  destruct (claimed_release op r E s) as [[e|c] s1]; [done|]. destruct Hr as [<- ->].
  specialize (IH s1). m_cbn.
  destruct (mapM (claimed_release op) l E s1) as [[e|items] s']; [done|].
  destruct IH as [Hs ->]. by split.
Qed.

Lemma Claim_refines cfg p : refines (Claim cfg p) (λ now lock, claim_spec cfg now lock p).
Proof.
  intros E s. pose proof (claimed_releases_run "claim") as Hload.
  unfold Claim, claim_spec, lease_until, collect. set (load := mapM (claimed_release "claim")) in *.
  clearbody load. m_unfold.
  set (now := clock E (tick s)). m_cbn. set (lock := locked E (S (tick s))).
  clearbody now lock. do 3 fault_case E.
  destruct (claim_stmt _ _ _ _ _ _) as [claimed d'] eqn:Ec.
  assert (seqs_le (sdb s) d') as Hseq by (unfold claim_stmt in Ec; injection Ec as <- <-; done).
  fault_case E. match goal with |- context [load claimed E ?s1] => pose proof (Hload claimed E s1) as Hrun end.
  destruct (load claimed E _) as [[e|items] s']; cbn [sdb] in Hrun.
  - destruct Hrun as [-> HE]. split; [by apply untouched_rollback|done].
  - destruct Hrun as [Hs' ->]. m_cbn. destruct (fault E (tick s')) eqn:F.
    + cbn [sdb]. rewrite Hs'. split; [by apply untouched_rollback|].
      intros HE. by rewrite HE in F.
    + cbn [sdb]. by rewrite Hs'.
Qed.

Lemma lease_over_live now token r :
  negb (r_claim_token r =? token) || lease_over now (r_lease_expires_at r)
  = negb (live now token r).
Proof.
  unfold live, lease_over, After. rewrite negb_andb.
  by destruct (r_lease_expires_at r).
Qed.

(** The verdict the validated status stands for. *)
Lemma validate_parse p :
  match validateSubmit p, parse_verdict p with
  | Ok _, Ok v => sp_Status p = match v with VMatched => "matched" | VSuppressed => "suppressed"
                                | VUnmatched => "unmatched" end
  | Err e, Err e' => e = e'
  | _, _ => False
  end.
Proof.
  unfold validateSubmit, parse_verdict.
  destruct (bool_decide (sp_Status p = "matched")) eqn:E1; bool_hyps.
  { by destruct (cursor.ValidateRef (sp_Ref p)). }
  destruct (decide (sp_Status p = "unmatched")) as [E2|E2].
  { rewrite !bool_decide_eq_true_2 by auto. done. }
  rewrite (bool_decide_eq_false_2 (sp_Status p = "unmatched")) by done.
  destruct (decide (sp_Status p = "suppressed")) as [E3|E3].
  - by rewrite !bool_decide_eq_true_2 by auto.
  - by rewrite !bool_decide_eq_false_2 by tauto.
Qed.

Lemma Submit_refines cfg p : refines (Submit cfg p) (λ now _, submit_spec cfg now p).
Proof.
  intros E s. unfold Submit, submit_spec. pose proof (validate_parse p) as Hv.
  m_unfold. destruct (validateSubmit p) as [e|[]], (parse_verdict p) as [e'|v]; try done.
  { subst. split; [apply untouched_refl|done]. }
  set (now := clock E (tick s)). clearbody now. fault_case E.
  unfold Submit_tx, load_lease. m_unfold. fault_case E.
  destruct (releases (sdb s) !! sp_Infohash p) as [r|] eqn:Er; cbn [fmap option_fmap option_map];
    [|by split].
  cbn [currentToken leaseExpires currentStatus attemptCount]. rewrite lease_over_live.
  destruct (live now (sp_ClaimToken p) r); cbn [negb]; [|by split].
  destruct (decide (r_match_status r = unmatched)) as [Hu|Hu].
  2:{ rewrite bool_decide_eq_true_2; [by split|]. intros H. by apply Hu, (inj status_string). }
  rewrite Hu, bool_decide_eq_false_2 by (cbn; tauto).
  assert (∀ f, update_row (sp_Infohash p) f (sdb s)
    = set_releases <[sp_Infohash p := f r]> (sdb s)) as Hupd.
  { intros f. unfold update_row, set_releases. by erewrite alter_lookup. }
  unfold submit_update, status_of_string, nullableRef, nullableConfidence. m_unfold.
  destruct v; rewrite Hv; cbn -[tick sdb fault Z.add Z.leb bool_decide];
    closed_decide; cbv beta iota zeta; cbn [andb];
    try destruct (QueueMaxAttempts cfg <=? r_attempt_count r + 1);
    repeat (closed_decide; cbv beta iota zeta; m_cbn);
    do 3 fault_case E; by rewrite Hupd.
Qed.

#[global] Arguments ingest_spec : simpl never.
#[global] Arguments claim_spec : simpl never.
#[global] Arguments submit_spec : simpl never.
