(* ===== verification/StoreInv.v ===== *)
(** * The store's invariant

    What every reachable database satisfies, whatever the clock, the driver
    and the other transactions do: rows are well formed, the representative
    fields of a release are the ones its raw items determine, its attempt
    count and status are the ones its event log tells, identifiers are unique
    and foreign keys hold.  [reachable] closes the migrated database under
    the store's writing methods, run by any process configuration. *)

From S2P Require Import Prelude GoStrings GoTime Store Cursor Db Postgres StoreSpec.
Import store postgres.

(** ** The invariant *)

Definition whole_us (t : Time) : Prop := pg_ts t = t.

(** A release row under key [ih]. *)
Record row_ok (ih : string) (r : release_row) : Prop := {
  ok_key : r_infohash r = ih;
  ok_canonical : isCanonicalInfohash ih = true;
  ok_attempts : 0 ≤ r_attempt_count r;
  ok_token : 0 ≤ r_claim_token r;
  ok_ref : match r_ref r with
           | Some ref => r_match_status r = matched ∧ cursor.ref_shape ref
           | None => r_match_status r ≠ matched
           end;
  ok_first_matched : is_Some (r_first_matched_at r) ↔ r_match_status r = matched;
  ok_matched_us : ∀ t, r_first_matched_at r = Some t → whole_us t;
  ok_confidence : is_Some (r_confidence r) → r_match_status r = matched;
  ok_lease : match r_lease_expires_at r with
             | Some e => r_match_status r = unmatched ∧ is_Some (r_claimed_at r)
                         ∧ 0 < r_claim_token r ∧ whole_us e
             | None => r_claimed_at r = None
             end;
}.

(** The representative fields are the ones the raw items determine. *)
Definition represented (items : list raw_item_row) (r : release_row) : Prop :=
  newest_title items = Some (r_title r)
  ∧ earliest items = Some (r_published_at r)
  ∧ distinct_sources items = r_sources r.

Definition events_of (ih : string) (d : db) : list match_event_row :=
  List.filter (λ e, bool_decide (ev_infohash e = ih)) (match_events d).
(** An event that spent an attempt. *)
Definition is_retry (e : match_event_row) : bool :=
  bool_decide (ev_status e = unmatched) || bool_decide (ev_status e = exhausted).
(** An event that closed the release. *)
Definition closing (r : release_row) (e : match_event_row) : Prop :=
  ev_status e = r_match_status r
  ∧ ev_ref e = r_ref r
  ∧ (r_match_status r = matched →
     ev_confidence e = r_confidence r ∧ Some (ev_created_at e) = r_first_matched_at r).
Definition all_unmatched (evs : list match_event_row) : Prop :=
  Forall (λ e, ev_status e = unmatched) evs.

(** The log of a release: retries, then at most one closing event, which
    agrees with the row.  Only the sweep of [Claim] exhausts a release
    without logging it. *)
Definition logged (evs : list match_event_row) (r : release_row) : Prop :=
  count_if is_retry evs = r_attempt_count r
  ∧ (all_unmatched evs ∧ (r_match_status r = unmatched ∨ r_match_status r = exhausted)
     ∨ ∃ retries e, evs = retries ++ [e] ∧ all_unmatched retries
                    ∧ r_match_status r ≠ unmatched ∧ closing r e).

Record db_ok (d : db) : Prop := {
  ok_rows : map_Forall row_ok (releases d);
  ok_represented : map_Forall (λ ih, represented (raw_items_of ih d)) (releases d);
  ok_logged : map_Forall (λ ih, logged (events_of ih d)) (releases d);
  ok_raw_fk : Forall (λ ri, is_Some (releases d !! raw_infohash ri)) (raw_items d);
  ok_raw_unique : NoDup ((λ ri, (raw_source ri, raw_source_id ri)) <$> raw_items d);
  ok_raw_us : Forall (λ ri, whole_us (raw_published_at ri)) (raw_items d);
  ok_raw_ids : StronglySorted Z.lt (raw_id <$> raw_items d);
  ok_raw_seq : Forall (λ ri, 0 < raw_id ri < raw_items_id_seq d) (raw_items d);
  ok_raw_seq_pos : 0 < raw_items_id_seq d;
  ok_ev_fk : Forall (λ e, is_Some (releases d !! ev_infohash e)) (match_events d);
  ok_ev_ids : StronglySorted Z.lt (ev_id <$> match_events d);
  ok_ev_seq : Forall (λ e, 0 < ev_id e < match_events_id_seq d) (match_events d);
  ok_ev_seq_pos : 0 < match_events_id_seq d;
}.

(** ** Helper lemmas *)

Lemma StronglySorted_snoc {A} (R : A → A → Prop) l x :
  StronglySorted R l → Forall (λ y, R y x) l → StronglySorted R (l ++ [x]).
Proof.
  intros Hl Hx. apply StronglySorted_app_2; [|done|repeat constructor].
  intros y z Hy Hz. apply list_elem_of_singleton in Hz as ->. rewrite Forall_forall in Hx. auto.
Qed.

Lemma filter_infohash_nil {A} (key : A → string) (ih : string) (l : list A) :
  Forall (λ x, key x ≠ ih) l → List.filter (λ x, bool_decide (key x = ih)) l = [].
Proof. induction 1 as [|x l Hx _ IH]; cbn; [done|]. by rewrite bool_decide_eq_false_2. Qed.

Lemma absent_key {A} (key : A → string) (m : gmap string release_row) ih l :
  m !! ih = None → Forall (λ x : A, is_Some (m !! key x)) l → Forall (λ x, key x ≠ ih) l.
Proof. intros Hm Hl. eapply Forall_impl; [done|]. intros x [r Hr] E. cbn in Hr.
  rewrite E, Hm in Hr. done. Qed.

Lemma dom_grows (m m' : gmap string release_row) {A} (key : A → string) l :
  (∀ k, is_Some (m !! k) → is_Some (m' !! k)) →
  Forall (λ x, is_Some (m !! key x)) l → Forall (λ x, is_Some (m' !! key x)) l.
Proof. intros H Hl. eapply Forall_impl; [done|]. auto. Qed.

Lemma empty_db_ok : db_ok empty_db.
Proof. split; cbn; solve [apply map_Forall_empty|constructor|lia]. Qed.

(** ** Preservation *)

(** An update of the row [ih] alone. *)
Lemma raw_items_of_add_ne p now d ih :
  ih ≠ ip_Infohash p → raw_items_of ih (add_raw p now d) = raw_items_of ih d.
Proof.
  intros H. unfold raw_items_of, add_raw. cbn. rewrite List.filter_app. cbn.
  rewrite bool_decide_eq_false_2 by done. apply app_nil_r.
Qed.

(** The tables around the releases after a new raw item. *)
Lemma add_raw_tables p now d m :
  db_ok d → existsb (same_source p) (raw_items d) = false →
  (∀ k, is_Some (releases d !! k) → is_Some (m !! k)) → is_Some (m !! ip_Infohash p) →
  map_Forall row_ok m →
  map_Forall (λ ih, represented (raw_items_of ih (add_raw p now d))) m →
  map_Forall (λ ih, logged (events_of ih d)) m →
  db_ok (set_releases (λ _, m) (add_raw p now d)).
Proof.
  intros [] Hnew Hdom Hp Hrow Hrep Hlog. split; cbn; try done.
  - apply Forall_app. split; [by eapply dom_grows|by constructor].
  - rewrite fmap_app. apply NoDup_app. split; [done|]. split; [|apply NoDup_singleton].
    intros [a b] H1%list_elem_of_fmap H2%list_elem_of_singleton.
    destruct H1 as (ri&E1&Hri). rewrite E1 in H2. injection H2 as E2 E3.
    assert (existsb (same_source p) (raw_items d) = true); [|congruence].
    apply existsb_exists. exists ri. split; [by apply list_elem_of_In|].
    unfold same_source. by rewrite !bool_decide_eq_true_2.
  - apply Forall_app. split; [done|]. constructor; [apply pg_ts_idemp|constructor].
  - rewrite fmap_app. apply StronglySorted_snoc; [done|]. apply Forall_fmap.
    eapply Forall_impl; [done|]. cbn. lia.
  - apply Forall_app. split; [|constructor; [cbn; lia|constructor]].
    eapply Forall_impl; [done|]. cbn. lia.
  - lia.
  - by eapply dom_grows.
Qed.

Lemma draw_raw_id_ok d : db_ok d → db_ok (draw_raw_id d).
Proof.
  intros []. split; cbn; try done; [|lia].
  eapply Forall_impl; [done|]. cbn. lia.
Qed.

Lemma set_releases_const f d : set_releases f d = set_releases (λ _, f (releases d)) d.
Proof. done. Qed.

Lemma merge_sort_singleton {A} (R : A → A → Prop) `{!RelDecision R} x : merge_sort R [x] = [x].
Proof. done. Qed.

Lemma ingest_new_ok p now d :
  db_ok d → isCanonicalInfohash (ip_Infohash p) = true → releases d !! ip_Infohash p = None →
  existsb (same_source p) (raw_items d) = false →
  db_ok (set_releases <[ip_Infohash p := new_release p now]> (add_raw p now d)).
Proof.
  intros Hok Hc Hr Hs. rewrite set_releases_const. apply add_raw_tables; try done.
  - intros k Hk. cbn. destruct (decide (k = ip_Infohash p)) as [->|]; [by rewrite lookup_insert_eq|].
    by rewrite lookup_insert_ne.
  - cbn. by rewrite lookup_insert_eq.
  - cbn. apply map_Forall_insert_2; [|apply Hok]. split; cbn; try done; try lia.
  - cbn [releases add_raw]. apply map_Forall_insert_2.
    + rewrite raw_items_of_add. unfold raw_items_of.
      rewrite filter_infohash_nil by (eapply absent_key; [done|apply Hok]). done.
    + intros k r Hk. rewrite raw_items_of_add_ne by congruence. by apply Hok.
  - cbn [releases add_raw]. apply map_Forall_insert_2; [|apply Hok]. unfold events_of.
    rewrite filter_infohash_nil by (eapply absent_key; [done|apply Hok]).
    split; [done|]. left. split; [constructor|by left].
Qed.

(** [represent] keeps everything but the representative fields. *)
Lemma represent_row_ok items mg sz now ih r : row_ok ih r → row_ok ih (represent items mg sz now r).
Proof. by intros []. Qed.
Lemma represent_logged items mg sz now evs r :
  logged evs r → logged evs (represent items mg sz now r).
Proof. done. Qed.

Lemma ingest_updated_ok p now d r mg sz :
  db_ok d → releases d !! ip_Infohash p = Some r →
  existsb (same_source p) (raw_items d) = false →
  db_ok (set_releases <[ip_Infohash p :=
    represent (raw_items_of (ip_Infohash p) (add_raw p now d)) mg sz now r]> (add_raw p now d)).
Proof.
  intros Hok Hr Hs. rewrite set_releases_const. apply add_raw_tables; try done; cbn [releases add_raw].
  - intros k Hk. destruct (decide (k = ip_Infohash p)) as [->|]; [by rewrite lookup_insert_eq|].
    by rewrite lookup_insert_ne.
  - by rewrite lookup_insert_eq.
  - apply map_Forall_insert_2; [|apply Hok]. apply represent_row_ok. by apply Hok.
  - intros k r' Hk. destruct (decide (k = ip_Infohash p)) as [->|Hne].
    + rewrite lookup_insert_eq in Hk. injection Hk as <-. rewrite raw_items_of_add.
      destruct (represent_defined p now (raw_items_id_seq d) (raw_items_of (ip_Infohash p) d))
        as [[t Ht] [e He]].
      unfold represented, represent. cbn [r_title r_published_at r_sources]. by rewrite Ht, He.
    + rewrite lookup_insert_ne in Hk by done. rewrite raw_items_of_add_ne by done. by apply Hok.
  - apply map_Forall_insert_2; [|apply Hok]. apply represent_logged. by apply Hok.
Qed.

Lemma ingest_spec_ok now p d out d' :
  db_ok d → ingest_spec now p d = Ok (out, d') → db_ok d'.
Proof.
  intros Hok. unfold ingest_spec. destruct (isCanonicalInfohash (ip_Infohash p)) eqn:Ec; cbn [negb];
    [|by intros [= <- <-]].
  destruct (releases d !! ip_Infohash p) as [r|] eqn:Er, (existsb (same_source p) (raw_items d)) eqn:Es;
    intros [= <- <-]; auto using draw_raw_id_ok, ingest_new_ok, ingest_updated_ok.
Qed.

(** A change of release rows only. *)
Lemma releases_changed_ok d (f : gmap string release_row → gmap string release_row) :
  db_ok d → (∀ k, is_Some (releases d !! k) → is_Some (f (releases d) !! k)) →
  (∀ ih r, f (releases d) !! ih = Some r →
     row_ok ih r ∧ represented (raw_items_of ih d) r ∧ logged (events_of ih d) r) →
  db_ok (set_releases f d).
Proof.
  intros [] Hdom Hrow. split; cbn; try done; try (by eapply dom_grows);
    intros ih r Hr; by apply Hrow.
Qed.

(** The two statements of [Claim] map a function over the rows. *)
Lemma map_rows_ok d g :
  db_ok d →
  (∀ ih r evs, row_ok ih r → logged evs r → row_ok ih (g r) ∧ logged evs (g r)) →
  (∀ items r, represented items r → represented items (g r)) →
  db_ok (set_releases (fmap g) d).
Proof.
  intros Hok Hg Hrep. apply releases_changed_ok; [done| |].
  - intros k [r Hr]. rewrite lookup_fmap, Hr. by eexists.
  - intros ih r'. rewrite lookup_fmap, fmap_Some. intros (r&Hr&->).
    destruct (Hg ih r (events_of ih d)); [by apply Hok..|]. split_and!; [done| |done].
    by apply Hrep, Hok.
Qed.

Lemma exhaust_row_ok now max ih r evs :
  row_ok ih r → logged evs r → exhaustible now max r = true →
  row_ok ih (exhaust_row now r) ∧ logged evs (exhaust_row now r).
Proof.
  intros [] [Hn Hlog] He. unfold exhaustible, is_status in He. bool_hyps.
  assert (r_ref r = None) as Href.
  { destruct (r_ref r); [|done]. destruct ok_ref0. congruence. }
  split; [split; cbn; try done|].
  - by rewrite Href.
  - rewrite ok_first_matched0. split; congruence.
  - intros ?%ok_confidence0. congruence.
  - split; [done|]. destruct Hlog as [[? _]|(?&?&_&_&?&_)]; [|done]. left. by split; [|right].
Qed.

Lemma lease_row_ok now max lease ih r evs :
  row_ok ih r → logged evs r → claimable now max r = true →
  row_ok ih (lease_row now lease r) ∧ logged evs (lease_row now lease r).
Proof.
  intros [] Hlog He. unfold claimable, is_status in He. bool_hyps.
  split; [|done]. split; cbn; try done; [lia|].
  split_and!; [done|done|lia|apply pg_ts_idemp].
Qed.

(** Rows and keys. *)
Lemma elem_of_rows r d : r ∈ rows d ↔ ∃ ih, releases d !! ih = Some r.
Proof.
  unfold rows. rewrite list_elem_of_fmap. split.
  - intros ([ih r']&->&H%elem_of_map_to_list). by exists ih.
  - intros [ih H]. exists (ih, r). by rewrite elem_of_map_to_list.
Qed.

Definition keyed (d : db) : Prop := map_Forall (λ ih r, r_infohash r = ih) (releases d).
Lemma db_ok_keyed d : db_ok d → keyed d.
Proof. intros Hok ih r Hr. by apply Hok. Qed.

Lemma keyed_rows_nodup d : keyed d → NoDup (r_infohash <$> rows d).
Proof.
  intros Hk. unfold rows. rewrite <-list_fmap_compose.
  rewrite (list_fmap_ext _ fst); [apply NoDup_fst_map_to_list|].
  intros i [ih r] Hi. cbn. apply Hk. apply elem_of_map_to_list.
  by eapply list_elem_of_lookup_2.
Qed.

Lemma elem_of_filter_bool {A} (p : A → bool) x l : x ∈ List.filter p l ↔ x ∈ l ∧ p x = true.
Proof. by rewrite !list_elem_of_In, List.filter_In. Qed.

(** The rows [Claim] picks. *)
Definition picked (now : Time) (max limit : Z) (lock : string → bool) (d : db) : list release_row :=
  take (Z.to_nat limit)
    (merge_sort published_desc
      (List.filter (λ r, claimable now max r && negb (lock (r_infohash r))) (rows d))).
Lemma elem_of_picked now max limit lock d r :
  r ∈ picked now max limit lock d →
  (∃ ih, releases d !! ih = Some r) ∧ claimable now max r = true ∧ lock (r_infohash r) = false.
Proof.
  intros H. apply (subseteq_take _) in H. rewrite merge_sort_Permutation in H.
  apply elem_of_filter_bool in H as [Hr H]. bool_hyps. by rewrite elem_of_rows in Hr.
Qed.
Lemma selected_row now max limit lock d ih :
  keyed d → ih ∈ select_claimable now max limit lock d →
  ∃ r, releases d !! ih = Some r ∧ claimable now max r = true ∧ lock ih = false.
Proof.
  intros Hk (r&->&H)%list_elem_of_fmap. apply elem_of_picked in H as ([ih Hr]&?&?).
  rewrite (Hk _ _ Hr) in *. by exists r.
Qed.

Lemma exhaust_stmt_ok now max d : db_ok d → db_ok (exhaust_stmt now max d).
Proof.
  intros Hok. apply map_rows_ok; [done| |].
  - intros ih r evs Hr Hl. destruct (exhaustible _ _ _) eqn:E; [by eapply exhaust_row_ok|done].
  - intros items r. by destruct (exhaustible _ _ _).
Qed.

Lemma claim_stmt_ok now max limit lease lock d :
  db_ok d → db_ok (claim_stmt now max limit lease lock d).2.
Proof.
  intros Hok. unfold claim_stmt. cbn [snd]. set (sel := select_claimable _ _ _ _ _).
  pose proof (λ ih, selected_row now max limit lock d ih (db_ok_keyed d Hok)) as Hsel.
  fold sel in Hsel. apply releases_changed_ok; [done| |].
  - intros k [r Hr]. rewrite lookup_fmap, Hr. by eexists.
  - intros ih r'. rewrite lookup_fmap, fmap_Some. intros (r&Hr&->).
    assert (r_infohash r = ih) as Hih by by apply Hok.
    split_and!; rewrite Hih; case_bool_decide as Hin; try (by apply Hok);
      apply Hsel in Hin as (r0&Hr0&Hcl&_); rewrite Hr in Hr0; injection Hr0 as <-.
    + eapply lease_row_ok; [by apply Hok|by apply Hok|done].
    + assert (represented (raw_items_of ih d) r) by by apply Hok. done.
    + eapply lease_row_ok; [by apply Hok|by apply Hok|done].
Qed.

Lemma claim_spec_ok cfg now lock p d res d' :
  db_ok d → claim_spec cfg now lock p d = Ok (res, d') → db_ok d'.
Proof.
  intros Hok. unfold claim_spec. destruct (claim_stmt _ _ _ _ _ _) as [l d1] eqn:E.
  intros [= <- <-]. change d1 with (l, d1).2. rewrite <-E. by apply claim_stmt_ok, exhaust_stmt_ok.
Qed.

(** Settling a live claim. *)
Lemma parse_verdict_ref p : parse_verdict p = Ok VMatched → cursor.ref_shape (sp_Ref p).
Proof.
  unfold parse_verdict. case_bool_decide; [|by repeat case_bool_decide].
  destruct (cursor.ValidateRef (sp_Ref p)) as [e|[]] eqn:E; [done|]. intros _.
  by apply cursor.ValidateRef_Ok.
Qed.

Lemma settle_row_ok cfg p v now ih r :
  row_ok ih r → r_match_status r = unmatched → parse_verdict p = Ok v →
  row_ok ih (settle cfg p v now r).1.
Proof.
  intros Hr Hu Hv. assert (r_first_matched_at r = None) as Hf.
  { destruct (r_first_matched_at r) eqn:E; [|done].
    assert (r_match_status r = matched); [|congruence]. apply (ok_first_matched _ _ Hr). by rewrite E. }
  destruct Hr, v; cbn.
  - split; cbn; try done; rewrite ?Hf; cbn.
    + split; [done|]. by apply parse_verdict_ref.
    + by eauto.
    + intros t [= <-]. apply pg_ts_idemp.
  - split; cbn; try done. rewrite Hf. by split.
  - destruct (QueueMaxAttempts cfg <=? r_attempt_count r + 1); split; cbn; try done; try lia.
    rewrite Hf. by split.
Qed.

(** The event of a verdict. *)
Definition verdict_event (id : Z) (p : SubmitParams) (v : verdict) (label : match_status) (now : Time)
    : match_event_row := {|
  ev_id := id;
  ev_infohash := sp_Infohash p;
  ev_status := label;
  ev_ref := event_ref v p;
  ev_confidence := event_confidence v p;
  ev_reason := sp_Reason p;
  ev_created_at := pg_ts now;
|}.

Lemma count_if_snoc {A} (f : A → bool) l x :
  count_if f (l ++ [x]) = count_if f l + if f x then 1 else 0.
Proof. rewrite count_if_app. f_equal. unfold count_if. cbn. by destruct (f x). Qed.

Lemma settle_logged cfg p v now id ih r evs :
  row_ok ih r → r_match_status r = unmatched → logged evs r →
  logged (evs ++ [verdict_event id p v (settle cfg p v now r).2 now]) (settle cfg p v now r).1.
Proof.
  intros Hr Hu [Hn Hlog].
  assert (all_unmatched evs) as Hall by (destruct Hlog as [[]|(?&?&?&?&?&_)]; done).
  assert (r_first_matched_at r = None) as Hf.
  { destruct (r_first_matched_at r) eqn:E; [|done].
    assert (r_match_status r = matched); [|congruence]. apply (ok_first_matched _ _ Hr). by rewrite E. }
  unfold logged. rewrite count_if_snoc, Hn. unfold is_retry.
  destruct v; cbn -[bool_decide]; closed_decide; cbn [orb].
  - split; [lia|]. right. eexists evs, _. split; [done|]. split; [done|]. split; [done|].
    split; [done|]. split; [done|]. intros _. cbn. by rewrite Hf.
  - split; [lia|]. right. eexists evs, _. by split_and!.
  - destruct (QueueMaxAttempts cfg <=? r_attempt_count r + 1);
      cbn -[bool_decide]; closed_decide; cbn [orb]; (split; [lia|]).
    + right. eexists evs, _. by split_and!.
    + left. split; [|by left]. apply Forall_app. split; [done|]. by constructor.
Qed.

Lemma events_of_append ih d ih' label ref conf reason now :
  events_of ih (append_event ih' label ref conf reason now d)
  = events_of ih d ++ if decide (ih' = ih) then [MatchEventRow (match_events_id_seq d) ih' label ref conf reason (pg_ts now)] else [].
Proof.
  unfold events_of, append_event. cbn [match_events]. rewrite List.filter_app. f_equal. cbn.
  by case_bool_decide; case_decide.
Qed.

Lemma append_event_ok d p v cfg now r :
  db_ok d → releases d !! sp_Infohash p = Some r → r_match_status r = unmatched →
  parse_verdict p = Ok v →
  let '(r', label) := settle cfg p v now r in
  db_ok (append_event (sp_Infohash p) label (event_ref v p) (event_confidence v p) (sp_Reason p) now
           (set_releases <[sp_Infohash p := r']> d)).
Proof.
  intros Hok Hr Hu Hv. assert (row_ok (sp_Infohash p) r) as Hrow by by apply Hok.
  pose proof (settle_row_ok cfg p v now _ _ Hrow Hu Hv) as Hrow'.
  pose proof (settle_logged cfg p v now (match_events_id_seq d) _ _ _ Hrow Hu (ok_logged _ Hok _ _ Hr)) as Hlog.
  assert (∀ items, represented items r → represented items (settle cfg p v now r).1) as Hrep.
  { intros items. unfold settle. destruct v; [done..|]. by destruct (QueueMaxAttempts cfg <=? _). }
  destruct (settle cfg p v now r) as [r' label]; cbn [fst snd] in *.
  assert (∀ k, is_Some (releases d !! k) → is_Some (<[sp_Infohash p := r']> (releases d) !! k)) as Hdom.
  { intros k Hk. destruct (decide (sp_Infohash p = k)) as [->|].
    - by rewrite lookup_insert_eq.
    - by rewrite lookup_insert_ne. }
  destruct Hok. split; cbn [releases raw_items match_events raw_items_id_seq match_events_id_seq
    append_event set_releases]; try done.
  - by apply map_Forall_insert_2.
  - apply map_Forall_insert_2; [|done]. by apply Hrep, ok_represented0.
  - apply map_Forall_lookup. intros k r'' Hk. rewrite events_of_append. cbn [match_events_id_seq set_releases].
    destruct (decide (sp_Infohash p = k)) as [<-|Hne].
    + rewrite lookup_insert_eq in Hk. injection Hk as <-. done.
    + rewrite lookup_insert_ne in Hk by done. rewrite app_nil_r. by apply ok_logged0.
  - by eapply dom_grows.
  - apply Forall_app. split; [by eapply dom_grows|]. constructor; [|done]. cbn.
    by rewrite lookup_insert_eq.
  - rewrite fmap_app. apply StronglySorted_snoc; [done|]. apply Forall_fmap.
    eapply Forall_impl; [done|]. cbn. lia.
  - apply Forall_app. split; [|constructor; [cbn; lia|constructor]].
    eapply Forall_impl; [done|]. cbn. lia.
  - lia.
Qed.

Lemma submit_spec_ok cfg now p d u d' :
  db_ok d → submit_spec cfg now p d = Ok (u, d') → db_ok d'.
Proof.
  intros Hok. unfold submit_spec. destruct (parse_verdict p) as [|v] eqn:Ev; [done|].
  destruct (releases d !! sp_Infohash p) as [r|] eqn:Er; [|done].
  destruct (live _ _ _); [|done]. destruct (decide _) as [Hu|]; [|done].
  pose proof (append_event_ok d p v cfg now r Hok Er Hu Ev) as H.
  destruct (settle cfg p v now r). by intros [= <- <-].
Qed.

(** ** Reachable databases *)

(** The writing methods, each with the configuration of the process that
    runs it. *)
Inductive op :=
  | OpIngest (p : IngestParams)
  | OpClaim (cfg : StoreConfig) (p : ClaimParams)
  | OpSubmit (cfg : StoreConfig) (p : SubmitParams).
Definition run_op (o : op) : M unit :=
  match o with
  | OpIngest p => _ ← IngestN p; mret tt
  | OpClaim cfg p => _ ← Claim cfg p; mret tt
  | OpSubmit cfg p => Submit cfg p
  end.
Definition op_spec (o : op) (now : Time) (lock : string → bool) (d : db) : result (unit * db) :=
  match o with
  | OpIngest p => '(_, d') ← ingest_spec now p d; Ok (tt, d')
  | OpClaim cfg p => '(_, d') ← claim_spec cfg now lock p d; Ok (tt, d')
  | OpSubmit cfg p => submit_spec cfg now p d
  end.

Lemma refines_void {A} (m : M A) spec :
  refines m spec →
  refines (_ ← m; mret tt) (λ now lock d, '(_, d') ← spec now lock d; Ok (tt, d')).
Proof.
  intros H E s. specialize (H E s). cbn zeta in *. unfold mbind, M_bind at 1, mret, M_ret.
  destruct (m E s) as [[e|a] s'].
  - destruct H as [? H]. split; [done|]. intros HE. cbn. by rewrite (H HE).
  - cbn. by rewrite H.
Qed.

Lemma run_op_refines o : refines (run_op o) (op_spec o).
Proof.
  destruct o; cbn.
  - exact (refines_void _ _ (IngestN_refines p)).
  - exact (refines_void _ _ (Claim_refines cfg p)).
  - exact (Submit_refines cfg p).
Qed.

(** One call, in any environment whose clock readings satisfy [P], at any
    step of the oracles. *)
Definition step_in (P : Time → Prop) (d d' : db) : Prop :=
  ∃ o E n, (∀ k, P (clock E k)) ∧ sdb (run_op o E (State n d)).2 = d'.
Definition step : db → db → Prop := step_in (λ _, True).
Definition reachable (d : db) : Prop := rtc step empty_db d.

Lemma untouched_ok d d' : db_ok d → untouched d d' → db_ok d'.
Proof.
  intros [] [(Hr&Hi&He) [H1 H2]]. destruct d', d; cbn in *. subst. split; cbn; try done; try lia.
  - eapply Forall_impl; [exact ok_raw_seq0|]. cbn. lia.
  - eapply Forall_impl; [exact ok_ev_seq0|]. cbn. lia.
Qed.

Lemma op_spec_ok o now lock d u d' : db_ok d → op_spec o now lock d = Ok (u, d') → db_ok d'.
Proof.
  intros Hok. destruct o; cbn.
  - destruct (ingest_spec now p d) as [|[]] eqn:E; [done|]. intros [= <- <-].
    by eapply ingest_spec_ok.
  - intros [= <- <-]. by eapply claim_spec_ok.
  - by apply submit_spec_ok.
Qed.

Lemma step_in_ok P d d' : db_ok d → step_in P d d' → db_ok d'.
Proof.
  intros Hok (o&E&n&_&<-). pose proof (run_op_refines o E (State n d)) as H. cbn zeta in H.
  destruct (run_op o E (State n d)) as [[e|u] s']; cbn in *.
  - by eapply untouched_ok; [|apply H].
  - by eapply op_spec_ok.
Qed.

Lemma steps_in_ok P d d' : db_ok d → rtc (step_in P) d d' → db_ok d'.
Proof. intros Hok Hr. induction Hr; eauto using step_in_ok. Qed.

Lemma reachable_ok d : reachable d → db_ok d.
Proof. apply steps_in_ok, empty_db_ok. Qed.

Lemma run_op_step o E n d : step d (sdb (run_op o E (State n d)).2).
Proof. by exists o, E, n. Qed.
Lemma reachable_run o E n d : reachable d → reachable (sdb (run_op o E (State n d)).2).
Proof. intros H. eapply rtc_r; [exact H|apply run_op_step]. Qed.
