(* ===== verification/Queue.v ===== *)
(** * The queue: claiming, leases, fencing and settlement

    Theorems about sequences of [IngestN], [Claim] and [Submit] calls made by
    any number of processes: what a claim hands out, who may settle a
    release, how a row evolves, and what the statistics count. *)

From S2P Require Import Prelude GoStrings GoTime Store Cursor Db Postgres StoreSpec StoreInv.
Import store postgres.

(** ** Queue order *)

#[global] Instance key_desc_trans key : Transitive (key_desc key).
Proof.
  intros a b c [|[E1 H1]] [|[E2 H2]]; unfold key_desc; [left; lia..|].
  right. split; [congruence|]. by transitivity (r_infohash b).
Qed.
#[global] Instance key_desc_total key : Total (key_desc key).
Proof.
  intros a b. unfold key_desc.
  destruct (Z.lt_total (key a) (key b)) as [|[E|]]; [by right; left| |by left; left].
  destruct (total String.le (r_infohash a) (r_infohash b)); [right|left]; right; auto.
Qed.
Lemma key_desc_antisym key a b :
  key_desc key a b → key_desc key b a → r_infohash a = r_infohash b.
Proof. unfold key_desc. intros [|[? ?]] [|[? ?]]; [lia..|]. by apply (anti_symm String.le). Qed.

Lemma rows_fmap g d : rows (set_releases (fmap g) d) = g <$> rows d.
Proof.
  unfold rows, set_releases. cbn. rewrite map_to_list_fmap, <-!list_fmap_compose. done.
Qed.

Lemma rows_key_inj d r1 r2 :
  keyed d → r1 ∈ rows d → r2 ∈ rows d → r_infohash r1 = r_infohash r2 → r1 = r2.
Proof.
  intros Hk [k1 H1]%elem_of_rows [k2 H2]%elem_of_rows.
  rewrite (Hk _ _ H1), (Hk _ _ H2). congruence.
Qed.
Lemma rows_nodup d : keyed d → NoDup (rows d).
Proof. intros. by eapply NoDup_fmap_1, keyed_rows_nodup. Qed.

Lemma filter_fmap_bool {A B} (g : A → B) (p : B → bool) l :
  List.filter p (g <$> l) = g <$> List.filter (λ x, p (g x)) l.
Proof. induction l as [|x l IH]; cbn; [done|]. destruct (p (g x)); cbn; by rewrite IH. Qed.
Lemma filter_ext_bool {A} (p q : A → bool) l :
  (∀ x, x ∈ l → p x = q x) → List.filter p l = List.filter q l.
Proof.
  induction l as [|x l IH]; intros H; cbn; [done|]. rewrite H by set_solver.
  rewrite IH by set_solver. done.
Qed.
Lemma sublist_filter_bool {A} (p : A → bool) l : List.filter p l `sublist_of` l.
Proof. induction l as [|x l IH]; cbn; [constructor|]. destruct (p x); by constructor. Qed.

(** ** What a claim returns *)

Lemma StronglySorted_take {A} (R : A → A → Prop) n l :
  StronglySorted R l → StronglySorted R (take n l).
Proof. intros H. rewrite <-(take_drop n l) in H. by apply StronglySorted_app in H as (?&?&?). Qed.

Section claimed.
Context (now : Time) (max limit : Z) (lease : Time) (lock : string → bool) (d : db).
Hypothesis Hkeyed : keyed d.

Let pk := picked now max limit lock d.
Let sel := select_claimable now max limit lock d.
Let g (r : release_row) := if bool_decide (r_infohash r ∈ sel) then lease_row now lease r else r.

Lemma picked_in_rows r : r ∈ pk → r ∈ rows d.
Proof. intros Hr. apply elem_of_rows. by eapply elem_of_picked. Qed.

Lemma picked_nodup : NoDup pk.
Proof.
  eapply sublist_NoDup; [|apply sublist_take]. rewrite merge_sort_Permutation.
  eapply sublist_NoDup; [|apply sublist_filter_bool]. by apply rows_nodup.
Qed.

Lemma selected_picked : List.filter (λ r, bool_decide (r_infohash r ∈ sel)) (rows d) ≡ₚ pk.
Proof.
  apply NoDup_Permutation; [|apply picked_nodup|].
  - eapply sublist_NoDup; [|apply sublist_filter_bool]. by apply rows_nodup.
  - intros r. rewrite elem_of_filter_bool, bool_decide_eq_true. unfold sel, select_claimable.
    fold (picked now max limit lock d) pk. rewrite list_elem_of_fmap. split.
    + intros [Hr (r'&E&Hr')]. by rewrite (rows_key_inj d r r') by auto using picked_in_rows.
    + intros Hr. split; [by apply picked_in_rows|]. by exists r.
Qed.

Lemma g_key r : r_infohash (g r) = r_infohash r.
Proof. unfold g. by case_bool_decide. Qed.

(** The leased rows, read back in queue order, are the picked ones. *)
Lemma claim_stmt_rows : (claim_stmt now max limit lease lock d).1 = lease_row now lease <$> pk.
Proof.
  unfold claim_stmt. cbn [fst]. fold sel g. rewrite rows_fmap, filter_fmap_bool.
  rewrite (filter_ext_bool _ (λ r, bool_decide (r_infohash r ∈ sel)))
    by (intros r _; by rewrite g_key).
  assert (g <$> pk = lease_row now lease <$> pk) as Hpk.
  { apply list_fmap_ext. intros i r Hr%list_elem_of_lookup_2. unfold g.
    rewrite bool_decide_eq_true_2; [done|]. by apply list_elem_of_fmap_2. }
  apply (StronglySorted_unique_strong published_desc).
  - intros r1 r2 H1 H2 H12 H21. pose proof (key_desc_antisym _ _ _ H12 H21) as E.
    rewrite merge_sort_Permutation, selected_picked in H1. rewrite <-Hpk in H2.
    apply list_elem_of_fmap in H1 as (s1&->&H1), H2 as (s2&->&H2).
    rewrite !g_key in E. by rewrite (rows_key_inj d s1 s2) by auto using picked_in_rows.
  - apply StronglySorted_merge_sort; apply _.
  - apply (StronglySorted_fmap _ published_desc); [done|].
    apply StronglySorted_take, StronglySorted_merge_sort; apply _.
  - by rewrite merge_sort_Permutation, selected_picked, Hpk.
Qed.
End claimed.

(** The sweep of old attempts does not move the queue. *)
Lemma claimable_exhaustible now max r : claimable now max r = true → exhaustible now max r = false.
Proof.
  unfold claimable, exhaustible. destruct (is_status unmatched r); [|done].
  destruct (r_attempt_count r <? max) eqn:E1, (max <=? r_attempt_count r) eqn:E2; bool_hyps; try done; lia.
Qed.
Lemma picked_exhaust now max limit lock d :
  picked now max limit lock (exhaust_stmt now max d) = picked now max limit lock d.
Proof.
  unfold picked, exhaust_stmt. do 2 f_equal. rewrite rows_fmap, filter_fmap_bool.
  rewrite (filter_ext_bool _ (λ r, claimable now max r && negb (lock (r_infohash r)))).
  - rewrite <-list_fmap_id. apply list_fmap_ext. intros i r Hr%list_elem_of_lookup_2.
    apply elem_of_filter_bool in Hr as [_ Hr]. bool_hyps. by rewrite claimable_exhaustible.
  - intros r _. destruct (exhaustible now max r) eqn:E; [|done].
    destruct (claimable now max r) eqn:E2; [by rewrite (claimable_exhaustible _ _ _ E2) in E|].
    unfold claimable, is_status, exhaust_row. cbn [r_match_status]. by rewrite bool_decide_eq_false_2.
Qed.

Lemma claim_limit_bounds l : 1 ≤ claim_limit l ≤ 500.
Proof.
  unfold claim_limit, defaultClaimLimit, maxClaimLimit.
  destruct (l <=? 0) eqn:?; [by vm_compute|]. destruct (500 <? l) eqn:?; bool_hyps; lia.
Qed.

Definition claim_picked (cfg : StoreConfig) (now : Time) (lock : string → bool) (p : ClaimParams)
    (d : db) : list release_row :=
  picked now (QueueMaxAttempts cfg) (claim_limit (cp_Limit p)) lock d.

(** One row, across a successful claim. *)
Definition claim_row (cfg : StoreConfig) (now : Time) (p : ClaimParams) (taken : list release_row)
    (r : release_row) : release_row :=
  if bool_decide (r_infohash r ∈ r_infohash <$> taken) then lease_row now (lease_until now p) r
  else if exhaustible now (QueueMaxAttempts cfg) r then exhaust_row now r
  else r.
Definition claimed_item (now : Time) (p : ClaimParams) (d : db) (r : release_row) : ClaimedRelease := {|
  cr_Infohash := r_infohash r;
  cr_ClaimToken := r_claim_token r + 1;
  cr_AttemptCount := r_attempt_count r;
  cr_LeaseExpires := pg_ts (lease_until now p);
  cr_RawItems := rawItemsByInfohash (r_infohash r) d;
|}.

Lemma set_releases_ext f d d' :
  (raw_items d' = raw_items d ∧ match_events d' = match_events d
   ∧ raw_items_id_seq d' = raw_items_id_seq d ∧ match_events_id_seq d' = match_events_id_seq d) →
  releases d' = f (releases d) → d' = set_releases f d.
Proof. destruct d', d. cbn. unfold set_releases. cbn. intros (->&->&->&->) ->. done. Qed.

Lemma claim_spec_db cfg now lock p d res d' :
  keyed d → claim_spec cfg now lock p d = Ok (res, d') →
  d' = set_releases (fmap (claim_row cfg now p (claim_picked cfg now lock p d))) d.
Proof.
  intros Hk. unfold claim_spec, claim_stmt. intros [= _ <-].
  apply set_releases_ext; [done|]. apply map_eq. intros ih.
  set (d1 := exhaust_stmt now (QueueMaxAttempts cfg) d).
  assert (releases d1 = (λ r, if exhaustible now (QueueMaxAttempts cfg) r then exhaust_row now r else r)
    <$> releases d) as E1 by done.
  cbn [set_releases releases]. rewrite E1, !lookup_fmap. subst d1. clear E1.
  destruct (releases d !! ih) as [r|] eqn:Er; [cbn|done]. f_equal.
  unfold select_claimable. fold (picked now (QueueMaxAttempts cfg) (claim_limit (cp_Limit p)) lock
    (exhaust_stmt now (QueueMaxAttempts cfg) d)). rewrite picked_exhaust.
  fold (claim_picked cfg now lock p d). unfold claim_row.
  assert (r_infohash (if exhaustible now (QueueMaxAttempts cfg) r then exhaust_row now r else r)
    = r_infohash r) as -> by by destruct (exhaustible _ _ _).
  case_bool_decide as Hin; [|done].
  apply list_elem_of_fmap in Hin as (r'&E&Hr').
  assert (r' ∈ rows d) by by eapply picked_in_rows.
  rewrite (rows_key_inj d r r') by (try done; apply elem_of_rows; eauto).
  unfold claim_picked in Hr'. apply elem_of_picked in Hr' as (_&Hcl&_).
  by rewrite claimable_exhaustible.
Qed.

Lemma rawItemsByInfohash_proper d d' ih :
  raw_items d = raw_items d' → rawItemsByInfohash ih d = rawItemsByInfohash ih d'.
Proof. intros H. unfold rawItemsByInfohash, raw_items_of. by rewrite H. Qed.

Lemma claim_spec_items cfg now lock p d res d' :
  keyed d → claim_spec cfg now lock p d = Ok (res, d') →
  clr_Items res = claimed_item now p d <$> claim_picked cfg now lock p d.
Proof.
  intros Hk H. pose proof (claim_spec_db _ _ _ _ _ _ _ Hk H) as Hd'. revert H.
  unfold claim_spec. destruct (claim_stmt _ _ _ _ _ _) as [l d1] eqn:E. intros [= <- ->].
  change l with (l, d').1. rewrite <-E, claim_stmt_rows, picked_exhaust.
  2:{ intros ih r. unfold exhaust_stmt, set_releases. cbn. rewrite lookup_fmap, fmap_Some.
      intros (r0&Hr0&->). rewrite <-(Hk _ _ Hr0). by destruct (exhaustible _ _ _). }
  cbn [clr_Items]. rewrite <-list_fmap_compose. apply list_fmap_ext. intros i r Hr.
  unfold claimed_of, claimed_item. cbn. f_equal. by apply rawItemsByInfohash_proper; subst.
Qed.

(** ** The life of a release *)

(** What one call may do to one row. *)
Inductive row_step (now : Time) (r : release_row) : release_row → Prop :=
  | row_same : row_step now r r
  | row_represented items mg sz : row_step now r (represent items mg sz now r)
  | row_exhausted max : exhaustible now max r = true → row_step now r (exhaust_row now r)
  | row_leased max lease : claimable now max r = true → row_step now r (lease_row now lease r)
  | row_settled cfg p v :
      live now (sp_ClaimToken p) r = true → r_match_status r = unmatched → parse_verdict p = Ok v →
      row_step now r (settle cfg p v now r).1.

Lemma op_spec_row o now lock d u d' ih r :
  keyed d → op_spec o now lock d = Ok (u, d') → releases d !! ih = Some r →
  ∃ r', releases d' !! ih = Some r' ∧ row_step now r r'.
Proof.
  intros Hk H Hr. destruct o; cbn in H.
  - unfold ingest_spec in H. destruct (negb _); [injection H as <- <-; eauto using row_step|].
    destruct (releases d !! ip_Infohash p) as [r0|] eqn:E0, (existsb (same_source p) (raw_items d));
      injection H as <- <-; cbn; eauto using row_step.
    + destruct (decide (ip_Infohash p = ih)) as [<-|].
      * rewrite lookup_insert_eq. rewrite E0 in Hr. injection Hr as ->. eauto using row_step.
      * rewrite lookup_insert_ne by done. eauto using row_step.
    + rewrite lookup_insert_ne by congruence. eauto using row_step.
  - destruct (claim_spec cfg now lock p d) as [|[res d1]] eqn:E; [done|].
    injection H as <- ->. rewrite (claim_spec_db _ _ _ _ _ _ _ Hk E). cbn.
    rewrite lookup_fmap, Hr. cbn. eexists. split; [done|]. unfold claim_row.
    case_bool_decide as Hin; [|destruct (exhaustible _ _ _) eqn:?; eauto using row_step].
    apply list_elem_of_fmap in Hin as (r'&Er&Hin).
    assert (r' ∈ rows d) by by eapply picked_in_rows.
    rewrite (rows_key_inj d r r') by (try done; apply elem_of_rows; eauto).
    apply elem_of_picked in Hin as (_&?&_). eauto using row_step.
  - unfold submit_spec in H. destruct (parse_verdict p) as [|v] eqn:Ev; [done|].
    destruct (releases d !! sp_Infohash p) as [r0|] eqn:E0; [|done].
    destruct (live _ _ _) eqn:El; [|done]. destruct (decide _); [|done].
    destruct (settle cfg p v now r0) as [r' label] eqn:Es. injection H as <- <-. cbn.
    destruct (decide (sp_Infohash p = ih)) as [<-|].
    + rewrite lookup_insert_eq. rewrite E0 in Hr. injection Hr as ->. eexists. split; [done|].
      change r' with (r', label).1. rewrite <-Es. eauto using row_step.
    + rewrite lookup_insert_ne by done. eauto using row_step.
Qed.

Lemma step_row P d d' ih r :
  db_ok d → step_in P d d' → releases d !! ih = Some r →
  ∃ now r', P now ∧ releases d' !! ih = Some r' ∧ row_step now r r'.
Proof.
  intros Hok (o&E&n&HP&<-) Hr. pose proof (run_op_refines o E (State n d)) as H. cbn zeta in H.
  exists (clock E n). destruct (run_op o E (State n d)) as [[e|u] s'] eqn:Erun; cbn in *.
  - destruct H as [[(<-&_) _] _]. eauto using row_step.
  - eapply op_spec_row in H; [|by apply db_ok_keyed|done]. destruct H as (r'&?&?). eauto.
Qed.

(** What holds of a row and is kept by its every step, holds along calls. *)
Lemma steps_row P (R : release_row → release_row → Prop) `{!PreOrder R} d d' ih r :
  (∀ now r1 r2, P now → row_ok ih r1 → row_step now r1 r2 → R r1 r2) →
  db_ok d → rtc (step_in P) d d' → releases d !! ih = Some r →
  ∃ r', releases d' !! ih = Some r' ∧ R r r'.
Proof.
  intros HR Hok Hs. revert r. induction Hs as [d|d d1 d2 H1 _ IH]; intros r Hr; [by exists r|].
  assert (row_ok ih r) by by apply Hok.
  destruct (step_row _ _ _ _ _ Hok H1 Hr) as (now&r1&HP&Hr1&Hs1).
  destruct (IH (step_in_ok _ _ _ Hok H1) _ Hr1) as (r2&?&?).
  exists r2. split; [done|]. etrans; [by eapply HR|done].
Qed.

(** ** History *)

(** A later state of the same release. *)
Record evolves (r r' : release_row) : Prop := {
  ev_key : r_infohash r' = r_infohash r;
  ev_created : r_created_at r' = r_created_at r;
  ev_token : r_claim_token r ≤ r_claim_token r';
  ev_attempts : r_attempt_count r ≤ r_attempt_count r';
  ev_magnet : is_Some (r_magnet r) → r_magnet r' = r_magnet r;
  ev_size : is_Some (r_size_bytes r) → r_size_bytes r' = r_size_bytes r;
  ev_final : r_match_status r ≠ unmatched →
    r_match_status r' = r_match_status r ∧ r_ref r' = r_ref r
    ∧ r_confidence r' = r_confidence r ∧ r_first_matched_at r' = r_first_matched_at r
    ∧ r_attempt_count r' = r_attempt_count r ∧ r_claim_token r' = r_claim_token r
    ∧ r_lease_expires_at r' = r_lease_expires_at r;
}.
#[global] Instance evolves_preorder : PreOrder evolves.
Proof.
  split.
  - intros r. by split.
  - intros r1 r2 r3 [] []. split; try lia; try congruence.
    + intros H. rewrite <-(ev_magnet0 H). apply ev_magnet1. by rewrite ev_magnet0.
    + intros H. rewrite <-(ev_size0 H). apply ev_size1. by rewrite ev_size0.
    + intros H. destruct (ev_final0 H) as (Hs&?&?&?&?&?&?).
      rewrite <-Hs in H. destruct (ev_final1 H) as (?&?&?&?&?&?&?). split_and!; congruence.
Qed.

Lemma row_step_evolves now ih r r' : row_ok ih r → row_step now r r' → evolves r r'.
Proof.
  intros Hr [|items mg sz|max He|max lease Hc|cfg p v Hl Hu Hv].
  - reflexivity.
  - split; cbn; try done; intros [x Hx]; rewrite Hx; done.
  - unfold exhaustible, is_status in He. bool_hyps. by split.
  - unfold claimable, is_status in Hc. bool_hyps. split; cbn; try done; lia.
  - destruct v; cbn; [split; cbn; done..|].
    destruct (QueueMaxAttempts cfg <=? r_attempt_count r + 1); split; cbn; try done; lia.
Qed.

Lemma evolves_steps P d d' ih r :
  db_ok d → rtc (step_in P) d d' → releases d !! ih = Some r →
  ∃ r', releases d' !! ih = Some r' ∧ evolves r r'.
Proof. apply (steps_row P evolves). eauto using row_step_evolves. Qed.

(** ** Leases *)

(** The SQL test for a free lease and the Go test for a live one agree: at
    any instant a leased row is either claimable again or still its
    holder's, never both and never neither. *)
Lemma lease_free_live now ih r :
  row_ok ih r → is_Some (r_lease_expires_at r) →
  lease_free now r = negb (live now (r_claim_token r) r).
Proof.
  intros Hok [e He]. pose proof (ok_lease _ _ Hok) as Hl. rewrite He in Hl.
  destruct Hl as (_&_&_&He').
  unfold lease_free, live. rewrite He, Z.eqb_refl. cbn.
  pose proof (pg_ts_le now). destruct (now <? e) eqn:E1, (e <=? pg_ts now) eqn:E2; bool_hyps;
    try done; try lia. pose proof (pg_ts_mono e now). unfold whole_us in He'. lia.
Qed.

(** Under lease [e]: nobody may touch the row's lease before [e]. *)
Definition held (e : Time) (r : release_row) : Prop :=
  r_match_status r = unmatched → r_lease_expires_at r = Some e.

Lemma held_not_free now e ih r :
  row_ok ih r → held e r → now < e → is_status unmatched r && lease_free now r = false.
Proof.
  intros Hok Hh Hlt. unfold is_status. case_bool_decide as Hs; [|done]. cbn.
  unfold lease_free. rewrite (Hh Hs). pose proof (pg_ts_le now). apply Z.leb_gt. lia.
Qed.

Lemma row_step_held now e ih r r' :
  now < e → row_ok ih r → row_step now r r' → held e r →
  held e r' ∧ r_claim_token r' = r_claim_token r.
Proof.
  intros Hlt Hok Hs Hh. pose proof (held_not_free now e ih r Hok Hh Hlt) as Hf.
  destruct Hs as [|items mg sz|max He|max lease Hc|cfg p v Hl Hu Hv].
  - done.
  - done.
  - unfold exhaustible in He. bool_hyps. apply andb_false_iff in Hf as [|]; congruence.
  - unfold claimable in Hc. bool_hyps. apply andb_false_iff in Hf as [|]; congruence.
  - destruct v; cbn; [done..|].
    by destruct (QueueMaxAttempts cfg <=? r_attempt_count r + 1).
Qed.

Lemma held_steps e d d' ih r :
  db_ok d → rtc (step_in (λ t, t < e)) d d' → releases d !! ih = Some r → held e r →
  ∃ r', releases d' !! ih = Some r' ∧ held e r' ∧ r_claim_token r' = r_claim_token r.
Proof.
  intros Hok Hs Hr Hh.
  pose (R r1 r2 := held e r1 → held e r2 ∧ r_claim_token r2 = r_claim_token r1).
  assert (PreOrder R) as HR.
  { split; [by intros x|]. intros x y z H1 H2 H. destruct (H1 H) as [Hy E]. destruct (H2 Hy).
    split; [done|congruence]. }
  destruct (steps_row (λ t, t < e) R d d' ih r) as (r'&?&HR'); [|done..|].
  - intros now r1 r2 Hlt Hok1 Hs1 Hh1. eauto using row_step_held.
  - exists r'. split; [done|]. by apply HR'.
Qed.

(** ** Append-only tables *)

Definition appended (d d' : db) : Prop :=
  raw_items d `prefix_of` raw_items d' ∧ match_events d `prefix_of` match_events d'.
#[global] Instance appended_preorder : PreOrder appended.
Proof.
  split; [by intros d|]. intros d1 d2 d3 [] []. split; by etrans.
Qed.
Lemma op_spec_appended o now lock d u d' : op_spec o now lock d = Ok (u, d') → appended d d'.
Proof.
  intros H. destruct o; cbn in H.
  - unfold ingest_spec in H. destruct (negb _); [by injection H as <- <-|].
    destruct (releases d !! ip_Infohash p), (existsb (same_source p) (raw_items d));
      injection H as <- <-; split; cbn; try done; by apply prefix_app_r.
  - unfold claim_spec, claim_stmt in H. cbn in H. by injection H as <- <-.
  - unfold submit_spec in H. repeat split_match_in H; try done. injection H as <- <-.
    split; cbn; [done|]. by apply prefix_app_r.
Qed.
Lemma step_appended P d d' : step_in P d d' → appended d d'.
Proof.
  intros (o&E&n&_&<-). pose proof (run_op_refines o E (State n d)) as H. cbn zeta in H.
  destruct (run_op o E (State n d)) as [[e|u] s']; cbn in *.
  - destruct H as [[(_&H1&H2) _] _]. split; [by rewrite H1|by rewrite H2].
  - by eapply op_spec_appended.
Qed.
Lemma steps_appended P d d' : rtc (step_in P) d d' → appended d d'.
Proof. induction 1 as [|? ? ? H%step_appended]; [done|by etrans]. Qed.

(** ** The calls, one by one *)

(** A release a claim returned: what its row is afterwards. *)
Lemma claim_returns cfg p E n d res s' c :
  db_ok d → Claim cfg p E (State n d) = (Ok res, s') → c ∈ clr_Items res →
  ∃ r, releases d !! cr_Infohash c = Some r
    ∧ claimable (clock E n) (QueueMaxAttempts cfg) r = true
    ∧ c = claimed_item (clock E n) p d r
    ∧ releases (sdb s') !! cr_Infohash c = Some (lease_row (clock E n) (lease_until (clock E n) p) r).
Proof.
  intros Hok HC Hc. pose proof (db_ok_keyed _ Hok) as Hk.
  pose proof (Claim_refines cfg p E (State n d)) as H. cbn zeta in H. rewrite HC in H.
  cbn [tick sdb] in H. pose proof (claim_spec_db _ _ _ _ _ _ _ Hk H) as Hdb.
  rewrite (claim_spec_items _ _ _ _ _ _ _ Hk H) in Hc.
  apply list_elem_of_fmap in Hc as (r&->&Hin).
  assert (r ∈ rows d) as [ih Hr]%elem_of_rows by by eapply picked_in_rows.
  pose proof (Hk _ _ Hr) as <-. exists r. cbn. split_and!; [done|by eapply elem_of_picked|done|].
  rewrite Hdb. cbn. rewrite lookup_fmap, Hr. cbn. f_equal. unfold claim_row.
  rewrite bool_decide_eq_true_2; [done|]. by apply list_elem_of_fmap_2.
Qed.

Lemma run_Claim_step P cfg p E n d s' r :
  (∀ k, P (clock E k)) → Claim cfg p E (State n d) = (r, s') → step_in P d (sdb s').
Proof.
  intros HP HC. exists (OpClaim cfg p), E, n. split; [done|]. cbn. unfold mbind, M_bind.
  rewrite HC. by destruct r.
Qed.
Lemma run_Claim_ok cfg p E n d s' r :
  db_ok d → Claim cfg p E (State n d) = (r, s') → db_ok (sdb s').
Proof. intros Hok HC. eapply (step_in_ok (λ _, True)); [done|]. by eapply run_Claim_step. Qed.

(** [Submit] with no driver error, against a known row. *)
Lemma submit_runs cfg q E n d r v :
  healthy E → parse_verdict q = Ok v → releases d !! sp_Infohash q = Some r →
  match Submit cfg q E (State n d) with
  | (Ok _, s') =>
      live (clock E n) (sp_ClaimToken q) r = true ∧ r_match_status r = unmatched
      ∧ releases (sdb s') !! sp_Infohash q = Some (settle cfg q v (clock E n) r).1
  | (Err e, s') =>
      same_tables d (sdb s')
      ∧ (live (clock E n) (sp_ClaimToken q) r = true → r_match_status r ≠ unmatched
         ∧ e = wrapf "submit %s: %w" [sp_Infohash q] ErrNoActiveLease)
      ∧ (live (clock E n) (sp_ClaimToken q) r = false →
         e = wrapf "submit %s: %w" [sp_Infohash q] ErrStaleLease)
  end.
Proof.
  intros HE Hv Hr. pose proof (Submit_refines cfg q E (State n d)) as H. cbn zeta in H.
  cbn [tick sdb] in H. unfold submit_spec in H. rewrite Hv, Hr in H.
  destruct (Submit cfg q E (State n d)) as [[e|u] s'].
  - destruct H as [[? _] H]. specialize (H HE). split; [done|].
    destruct (live _ _ _); [|split; [done|intros _; congruence]]. split; [|done]. intros _.
    destruct (decide _); [|split; congruence]. by destruct (settle cfg q v (clock E n) r).
  - destruct (live _ _ _); [|done]. destruct (decide _); [|done].
    destruct (settle cfg q v (clock E n) r). injection H as _ <-. split_and!; try done.
    cbn. by rewrite lookup_insert_eq.
Qed.

(** A token that is not the row's any more. *)
Lemma submit_wrong_token cfg q E n d r :
  releases d !! sp_Infohash q = Some r → r_claim_token r ≠ sp_ClaimToken q →
  match Submit cfg q E (State n d) with
  | (Ok _, _) => False
  | (Err e, s') => same_tables d (sdb s')
      ∧ (healthy E → validateSubmit q = Ok tt → Is e ErrStaleLease)
  end.
Proof.
  intros Hr Ht. pose proof (Submit_refines cfg q E (State n d)) as H. cbn zeta in H.
  pose proof (validate_parse q) as Hvp.
  cbn [tick sdb] in H. unfold submit_spec, live in H. rewrite Hr in H.
  apply Z.eqb_neq in Ht. rewrite Ht in H. cbn [andb] in H.
  destruct (Submit cfg q E (State n d)) as [[e|u] s']; [|by destruct (parse_verdict q)].
  destruct H as [[? _] H]. split; [done|]. intros HE Hval. specialize (H HE).
  rewrite Hval in Hvp. destruct (parse_verdict q); [done|]. injection H as <-. done.
Qed.

(** ** One configuration for the whole life of the database *)

Section budget.
Context (cfg : StoreConfig).
Hypothesis Hpos : 0 < QueueMaxAttempts cfg.

Definition op_uses (o : op) : Prop :=
  match o with OpIngest _ => True | OpClaim c _ | OpSubmit c _ => c = cfg end.
Definition step_cfg (d d' : db) : Prop :=
  ∃ o E n, op_uses o ∧ sdb (run_op o E (State n d)).2 = d'.
Definition reachable_cfg (d : db) : Prop := rtc step_cfg empty_db d.

(** Under one cap, the attempts never pass it. *)
Definition budget_ok (r : release_row) : Prop :=
  match r_match_status r with
  | exhausted => r_attempt_count r = QueueMaxAttempts cfg
  | _ => r_attempt_count r < QueueMaxAttempts cfg
  end.
Definition budgets_ok (d : db) : Prop := map_Forall (λ _, budget_ok) (releases d).

Lemma reachable_cfg_reachable d : reachable_cfg d → reachable d.
Proof.
  intros H. eapply rtc_subrel; [|exact H]. intros x y (o&E&n&_&?). exists o, E, n. by split.
Qed.

Lemma settle_budget p v now r :
  budget_ok r → r_match_status r = unmatched → budget_ok (settle cfg p v now r).1.
Proof.
  unfold budget_ok. intros Hb Hu. rewrite Hu in Hb. destruct v; cbn; [done..|].
  destruct (QueueMaxAttempts cfg <=? r_attempt_count r + 1) eqn:E; bool_hyps; cbn.
  - lia.
  - rewrite Hu. done.
Qed.

Lemma op_spec_budget o now lock d u d' :
  keyed d → budgets_ok d → op_uses o → op_spec o now lock d = Ok (u, d') → budgets_ok d'.
Proof.
  intros Hk Hb Ho H. destruct o; cbn in H, Ho.
  - unfold ingest_spec in H. destruct (negb _); [by injection H as <- <-|].
    destruct (releases d !! ip_Infohash p) as [r|] eqn:Er, (existsb (same_source p) (raw_items d));
      injection H as <- <-; try done; cbn; apply map_Forall_insert_2; try done.
    exact (Hb _ _ Er).
  - destruct (claim_spec cfg0 now lock p d) as [|[res d1]] eqn:E; [done|].
    injection H as <- ->. rewrite (claim_spec_db _ _ _ _ _ _ _ Hk E), Ho.
    intros ih r'. cbn. rewrite lookup_fmap, fmap_Some. intros (r&Hr&->).
    pose proof (Hb _ _ Hr) as Hbr. unfold claim_row. case_bool_decide; [exact Hbr|].
    destruct (exhaustible _ _ _) eqn:He; [|done]. unfold exhaustible, is_status in He. bool_hyps.
    unfold budget_ok in Hbr. rewrite H0 in Hbr. lia.
  - subst. unfold submit_spec in H. destruct (parse_verdict p) as [|v]; [done|].
    destruct (releases d !! sp_Infohash p) as [r|] eqn:Er; [|done].
    destruct (live _ _ _); [|done]. destruct (decide _) as [Hu|]; [|done].
    pose proof (settle_budget p v now r (Hb _ _ Er) Hu) as Hs.
    destruct (settle cfg p v now r). injection H as <- <-. cbn. by apply map_Forall_insert_2.
Qed.

Lemma budget_reachable d : reachable_cfg d → budgets_ok d.
Proof.
  intros H. cut (db_ok d ∧ budgets_ok d); [tauto|].
  revert d H. refine (rtc_ind_r _ _ _ _).
  { split; [apply empty_db_ok|apply map_Forall_empty]. }
  intros d d1 _ (o&E&n&Ho&<-) IH. destruct IH as [Hok Hb]. split; [eapply step_in_ok; [done|apply run_op_step]|].
  pose proof (run_op_refines o E (State n d)) as H. cbn zeta in H.
  destruct (run_op o E (State n d)) as [[e|u] s']; cbn in *.
  - destruct H as [[(Hr&_) _] _]. unfold budgets_ok. by rewrite <-Hr.
  - eapply op_spec_budget; [|done..]. by apply db_ok_keyed.
Qed.
End budget.

(** ** Statistics *)

Lemma leased_now_live now ih r :
  row_ok ih r → leased_now now r = live now (r_claim_token r) r.
Proof.
  intros Hok. pose proof (ok_lease _ _ Hok) as Hl. unfold leased_now, live, is_status.
  rewrite Z.eqb_refl. destruct (r_lease_expires_at r) as [e|] eqn:He; [|by rewrite andb_false_r].
  destruct Hl as (Hu&_). rewrite bool_decide_eq_true_2 by done. cbn.
  pose proof (lease_free_live now ih r Hok ltac:(by rewrite He)) as H.
  unfold lease_free, live in H. rewrite He, Z.eqb_refl in H. cbn in H.
  rewrite Z.ltb_antisym, H. by destruct (now <? e).
Qed.

Lemma count_if_status_sum l :
  count_if (is_status unmatched) l + count_if (is_status matched) l
  + count_if (is_status suppressed) l + count_if (is_status exhausted) l = Z.of_nat (length l).
Proof.
  unfold count_if, is_status. induction l as [|r l IH]; [done|]. cbn -[bool_decide].
  destruct (r_match_status r); closed_decide; cbn -[bool_decide length]; cbn [length]; lia.
Qed.

Lemma count_unmatched now max l :
  count_if (is_status unmatched) l
  = count_if (claimable now max) l + count_if (leased_now now) l + count_if (exhaustible now max) l.
Proof.
  unfold count_if, claimable, exhaustible, leased_now, lease_free. induction l as [|r l IH]; [done|].
  cbn. destruct (is_status unmatched r); cbn [andb]; [|lia].
  destruct (Z.ltb_spec (r_attempt_count r) max), (Z.leb_spec max (r_attempt_count r)); try lia;
    (destruct (r_lease_expires_at r) as [e|]; cbn [andb length]; [|lia]);
    destruct (Z.leb_spec e (pg_ts now)), (Z.ltb_spec (pg_ts now) e); cbn [length]; lia.
Qed.

Lemma nodup_subset_length {A} (l k : list A) :
  NoDup l → (∀ x, x ∈ l → x ∈ k) → (length l ≤ length k)%nat.
Proof. intros Hl Hs. by apply submseteq_length, NoDup_submseteq. Qed.

Lemma refs_le_matched now max d :
  db_ok d → cs_Refs (catalog_stats_sql d) ≤ qs_Matched (queue_stats_sql now max d).
Proof.
  intros Hok. unfold catalog_stats_sql, queue_stats_sql, count_if. cbn. apply inj_le.
  transitivity (length (omap r_ref (rows d))).
  - apply nodup_subset_length; [apply NoDup_remove_dups|]. intros x. rewrite elem_of_remove_dups.
    rewrite elem_of_filter_bool. tauto.
  - assert (∀ r, r ∈ rows d → is_Some (r_ref r) → r_match_status r = matched) as Hm.
    { intros r [ih Hr]%elem_of_rows [ref E]. pose proof (ok_ref _ _ (ok_rows _ Hok _ _ Hr)) as H.
      rewrite E in H. tauto. }
    induction (rows d) as [|r l IH]; [done|]. specialize (IH ltac:(intros; apply Hm; set_solver)).
    cbn. unfold is_status at 1. destruct (r_ref r) as [ref|] eqn:E.
    + rewrite bool_decide_eq_true_2 by (apply Hm; [set_solver|by rewrite E]). cbn. lia.
    + case_bool_decide; cbn; lia.
Qed.

Lemma infohashes_le_raw d :
  db_ok d → cs_Infohashes (catalog_stats_sql d) ≤ cs_RawPosts (catalog_stats_sql d).
Proof.
  intros Hok. cbn. apply inj_le.
  rewrite <-(length_fmap r_infohash (rows d)), <-(length_fmap raw_infohash (raw_items d)).
  apply nodup_subset_length; [by apply keyed_rows_nodup, db_ok_keyed|].
  intros ih (r&->&[k Hr]%elem_of_rows)%list_elem_of_fmap.
  pose proof (db_ok_keyed _ Hok _ _ Hr) as <-.
  destruct (ok_represented _ Hok _ _ Hr) as (_&He&_). unfold earliest in He.
  destruct (raw_items_of (r_infohash r) d) as [|ri l] eqn:E; [done|].
  assert (ri ∈ raw_items_of (r_infohash r) d) as Hri by (rewrite E; constructor).
  apply elem_of_filter_bool in Hri as [Hri Hk]. bool_hyps. rewrite <-Hk. by apply list_elem_of_fmap_2.
Qed.

(** ** Ingesting again *)

Lemma ingest_known now p d :
  isCanonicalInfohash (ip_Infohash p) = true → is_Some (releases d !! ip_Infohash p) →
  existsb (same_source p) (raw_items d) = true →
  ingest_spec now p d = Ok (outcome_Duplicate, draw_raw_id d).
Proof. intros Hc [r Hr] Hs. unfold ingest_spec. by rewrite Hc, Hr, Hs. Qed.

Lemma ingest_outcome now p d out d' :
  ingest_spec now p d = Ok (out, d') → out ≠ outcome_Conflict →
  isCanonicalInfohash (ip_Infohash p) = true →
  is_Some (releases d' !! ip_Infohash p) ∧ existsb (same_source p) (raw_items d') = true.
Proof.
  intros H Hout Hc. unfold ingest_spec in H. rewrite Hc in H. cbn [negb] in H.
  assert (existsb (same_source p) (raw_items (add_raw p now d)) = true) as Hnew.
  { unfold add_raw. cbn [raw_items]. rewrite existsb_app. apply orb_true_iff. right. cbn.
    unfold same_source. cbn. by rewrite !bool_decide_eq_true_2. }
  destruct (releases d !! ip_Infohash p) as [r|] eqn:Er, (existsb (same_source p) (raw_items d)) eqn:Es;
    injection H as <- <-; try done; cbn -[add_raw].
  - by rewrite lookup_insert_eq.
  - by rewrite lookup_insert_eq.
Qed.

Lemma steps_keep_source P p d d' :
  rtc (step_in P) d d' → existsb (same_source p) (raw_items d) = true →
  existsb (same_source p) (raw_items d') = true.
Proof.
  intros [[k ->] _]%steps_appended H. rewrite existsb_app, H. done.
Qed.

Lemma run_IngestN_ok p E n d s' r :
  db_ok d → IngestN p E (State n d) = (r, s') → db_ok (sdb s').
Proof.
  intros Hok HI. eapply (step_in_ok (λ _, True)); [done|]. exists (OpIngest p), E, n.
  split; [done|]. cbn. unfold mbind, M_bind. rewrite HI. by destruct r.
Qed.
