(* ===== verification/QueueThms.v ===== *)
(** * The store's guarantees

    What the store promises its callers over whole histories: the invariant,
    atomic writes, what a claim hands out, exclusive leases, fencing tokens,
    final verdicts, the attempt budget and the statistics. *)

From S2P Require Import Prelude GoStrings GoTime Store Cursor Db Postgres StoreSpec StoreInv Queue.
Import store postgres.

(** ** A small history, for the witnesses *)

Module demo.

Definition base : Time := 1000000000000000000.
(** No driver error, no competing lock, the clock stopped at [t]. *)
Definition quiet (t : Time) : env := {| clock _ := t; fault _ := None; locked _ _ := false |}.
Definition ih1 : string := "aaaaaaaaaaaaaaaaaaaaaaaaaaaaaaaaaaaaaaaa".
Definition ih2 : string := "bbbbbbbbbbbbbbbbbbbbbbbbbbbbbbbbbbbbbbbb".
Definition post (ih source id title : string) (t : Time) : IngestParams := {|
  ip_Source := source; ip_SourceID := id; ip_Title := title; ip_Infohash := ih; ip_Magnet := "";
  ip_SizeBytes := 0; ip_URL := ""; ip_PublishedAt := t;
|}.
Definition cfg : StoreConfig := {| QueueMaxAttempts := 3 |}.
Definition take_one : ClaimParams := {| cp_Limit := 1; cp_LeaseSeconds := 60 |}.
Definition verdict_of (ih : string) (token : Z) (status ref : string) : SubmitParams := {|
  sp_Infohash := ih; sp_ClaimToken := token; sp_Status := status; sp_Ref := ref;
  sp_Confidence := None; sp_Reason := "";
|}.

Definition after (o : op) (t : Time) (d : db) : db := sdb (run_op o (quiet t) (State 0 d)).2.
(** Two posts, then one claim, which takes the newer. *)
Definition d1 : db := after (OpIngest (post ih1 "dmhy" "1" "old" (base - 5 * Second))) base empty_db.
Definition d2 : db := after (OpIngest (post ih2 "nyaa" "2" "new" (base - 3 * Second))) base d1.
Definition d3 : db := after (OpClaim cfg take_one) base d2.
(** Another process claims it again, after the lease. *)
Definition d4 : db := after (OpClaim cfg take_one) (base + 61 * Second) d3.

Lemma after_reachable o t d : reachable d → reachable (after o t d).
Proof. apply reachable_run. Qed.
Lemma d2_reachable : reachable d2.
Proof. apply after_reachable, after_reachable. constructor. Qed.
Lemma d4_reachable : reachable d4.
Proof. apply after_reachable, after_reachable, d2_reachable. Qed.
Lemma after_steps (P : Time → Prop) o t d : P t → step_in P d (after o t d).
Proof. intros HP. by exists o, (quiet t), 0%nat. Qed.

(** What the one-release claim at [t] returns. *)
Definition handed (t : Time) (d : db) : list ClaimedRelease :=
  match (Claim cfg take_one (quiet t) (State 0 d)).1 with Ok res => clr_Items res | Err _ => [] end.
Definition item (ih source id title : string) (raw_id token : Z) (published ingested expires : Time)
    : ClaimedRelease := {|
  cr_Infohash := ih; cr_ClaimToken := token; cr_AttemptCount := 0; cr_LeaseExpires := expires;
  cr_RawItems := [{| rid_ID := raw_id; rid_Source := source; rid_SourceID := id; rid_Title := title;
                     rid_URL := None; rid_PublishedAt := published; rid_IngestedAt := ingested |}];
|}.
Definition first : ClaimedRelease :=
  item ih2 "nyaa" "2" "new" 2 1 (base - 3 * Second) base (base + 60 * Second).
Definition second : ClaimedRelease :=
  item ih1 "dmhy" "1" "old" 1 1 (base - 5 * Second) base (base + 90 * Second).
Definition again : ClaimedRelease :=
  item ih2 "nyaa" "2" "new" 2 2 (base - 3 * Second) base (base + 121 * Second).

Lemma handed_run t d c :
  c ∈ handed t d →
  ∃ res s', Claim cfg take_one (quiet t) (State 0 d) = (Ok res, s') ∧ c ∈ clr_Items res
            ∧ sdb s' = after (OpClaim cfg take_one) t d.
Proof.
  unfold handed, after, run_op, mbind, M_bind.
  destruct (Claim cfg take_one (quiet t) (State 0 d)) as [[e|res] s'].
  - by intros ?%not_elem_of_nil.
  - intros Hc. by exists res, s'.
Qed.
Lemma ingested_run p t d :
  (IngestN p (quiet t) (State 0 d)).1 = Ok outcome_New →
  ∃ s', IngestN p (quiet t) (State 0 d) = (Ok outcome_New, s') ∧ sdb s' = after (OpIngest p) t d.
Proof.
  unfold after, run_op, mbind, M_bind. destruct (IngestN p (quiet t) (State 0 d)) as [r s'].
  cbn. intros ->. by exists s'.
Qed.
Lemma first_handed : first ∈ handed base d2.
Proof. assert (handed base d2 = [first]) as -> by (vm_compute; reflexivity). constructor. Qed.
Lemma second_handed : second ∈ handed (base + 30 * Second) d3.
Proof.
  assert (handed (base + 30 * Second) d3 = [second]) as -> by (vm_compute; reflexivity). constructor.
Qed.
Lemma again_handed : again ∈ handed (base + 61 * Second) d3.
Proof.
  assert (handed (base + 61 * Second) d3 = [again]) as -> by (vm_compute; reflexivity). constructor.
Qed.

End demo.
Import demo.

(** ** The invariant *)

(** C1: every database the store's calls can reach, with any clock, any
    driver errors, any competing locks and any configuration, satisfies the
    store's invariant. *)
Theorem store_invariant d : reachable d → db_ok d.
Proof. apply reachable_ok. Qed.
Lemma store_invariant_witness : db_ok d4.
Proof. apply store_invariant, d4_reachable. Defined.

(** ** Atomic writes *)

(** C7: [IngestN] performs exactly the transition of its specification, or
    fails and leaves every table as it was; without driver errors it fails
    never. *)
Theorem ingest_atomic p : refines (IngestN p) (λ now _ d, ingest_spec now p d).
Proof. apply IngestN_refines. Qed.

(** C6: [Submit] performs exactly the transition of its specification, or
    fails and leaves every table as it was; without driver errors it fails
    exactly when the specification does and with the same error. *)
Theorem submit_atomic cfg p : refines (Submit cfg p) (λ now _ d, submit_spec cfg now p d).
Proof. apply Submit_refines. Qed.

(** ** What a claim hands out *)

(** C5: a claim returns the first [limit] releases of the queue - the
    unmatched releases with attempts left, without a running lease and not
    locked by another transaction, newest first - each with the next token,
    the attempts already spent, the new lease and all its raw items; it
    leases exactly those rows, exhausts the unleased ones out of attempts and
    changes nothing else; a failed claim changes nothing. *)
Theorem claim_takes_queue_head cfg p E n d :
  reachable d →
  let now := clock E n in
  let lock := locked E (S n) in
  match Claim cfg p E (State n d) with
  | (Err _, s') => same_tables d (sdb s')
  | (Ok res, s') =>
      ∃ taken rest,
        StronglySorted published_desc (taken ++ rest)
        ∧ taken ++ rest ≡ₚ List.filter (λ r, claimable now (QueueMaxAttempts cfg) r
                                             && negb (lock (r_infohash r))) (rows d)
        ∧ Z.of_nat (length taken) = Z.min (claim_limit (cp_Limit p)) (Z.of_nat (length (taken ++ rest)))
        ∧ clr_Items res = claimed_item now p d <$> taken
        ∧ sdb s' = set_releases (fmap (claim_row cfg now p taken)) d
  end.
Proof.
  intros Hd%reachable_ok%db_ok_keyed now lock.
  pose proof (Claim_refines cfg p E (State n d)) as H. cbn zeta in H.
  destruct (Claim cfg p E (State n d)) as [[e|res] s']; [by destruct H as [[? _] _]|].
  cbn [tick sdb] in H. fold now lock in H.
  set (queue := merge_sort published_desc (List.filter (λ r, claimable now (QueueMaxAttempts cfg) r
    && negb (lock (r_infohash r))) (rows d))).
  exists (take (Z.to_nat (claim_limit (cp_Limit p))) queue), (drop (Z.to_nat (claim_limit (cp_Limit p))) queue).
  rewrite take_drop. split_and!.
  - apply StronglySorted_merge_sort; apply _.
  - apply merge_sort_Permutation.
  - rewrite length_take. pose proof (claim_limit_bounds (cp_Limit p)). lia.
  - by eapply claim_spec_items.
  - by eapply claim_spec_db.
Qed.
Lemma claim_takes_queue_head_witness :
  match Claim cfg take_one (quiet base) (State 0 d2) with
  | (Err _, s') => False
  | (Ok res, s') =>
      ∃ taken, r_infohash <$> taken = [ih2] ∧ clr_Items res = claimed_item base take_one d2 <$> taken
  end.
Proof.
  pose proof (claim_takes_queue_head cfg take_one (quiet base) 0 d2 d2_reachable) as H.
  assert (match Claim cfg take_one (quiet base) (State 0 d2) with
          | (Err _, s') => False | (Ok res, s') => cr_Infohash <$> clr_Items res = [ih2] end) as Hc
    by (vm_compute; reflexivity).
  destruct (Claim cfg take_one (quiet base) (State 0 d2)) as [[e|res] s']; [done|].
  destruct H as (taken&rest&_&_&_&Hitems&_). exists taken. split; [|exact Hitems].
  rewrite Hitems, <-list_fmap_compose in Hc. exact Hc.
Defined.

(** ** Histories *)

(** C15: along any sequence of calls nothing is deleted or rewritten: raw
    items and match events are only appended, a release stays under its key,
    its creation time, its first magnet and its first size stay, its token
    and attempts only grow, and once it has a verdict (matched, suppressed or
    exhausted) its status, ref, confidence, match time, attempts and token
    are final. *)
Theorem history_is_kept d d' ih r :
  reachable d → rtc step d d' → releases d !! ih = Some r →
  raw_items d `prefix_of` raw_items d' ∧ match_events d `prefix_of` match_events d'
  ∧ ∃ r', releases d' !! ih = Some r' ∧ evolves r r'.
Proof.
  intros Hd%reachable_ok Hs Hr. destruct (steps_appended _ _ _ Hs). split_and!; [done..|].
  by eapply evolves_steps.
Qed.
Lemma history_is_kept_witness : ∃ r r', releases d2 !! ih2 = Some r ∧ evolves r r'.
Proof.
  destruct (releases d2 !! ih2) as [r|] eqn:Hr; [|by vm_compute in Hr].
  assert (rtc step d2 d3) as Hs by (eapply rtc_once, after_steps; done).
  destruct (history_is_kept d2 d3 ih2 r d2_reachable Hs Hr) as (_&_&r'&_&Hev).
  exists r, r'. split; [reflexivity|exact Hev].
Defined.

(** ** Leases and tokens *)

(** C2: until its lease ends, a claimed release is handed out by no other
    claim of any process, whatever else happens in between. *)
Theorem lease_exclusive cfg p E n d res s1 c cfg' p' E' n' d' res' s2 c' :
  reachable d →
  Claim cfg p E (State n d) = (Ok res, s1) → c ∈ clr_Items res →
  rtc (step_in (λ t, t < cr_LeaseExpires c)) (sdb s1) d' →
  clock E' n' < cr_LeaseExpires c →
  Claim cfg' p' E' (State n' d') = (Ok res', s2) → c' ∈ clr_Items res' →
  cr_Infohash c' ≠ cr_Infohash c.
Proof.
  intros Hd%reachable_ok HC Hc Hs Hlt HC' Hc' Heq.
  pose proof (run_Claim_ok _ _ _ _ _ _ _ Hd HC) as Hd1.
  destruct (claim_returns _ _ _ _ _ _ _ _ Hd HC Hc) as (r&_&_&Ec&Hr1).
  assert (r_lease_expires_at (lease_row (clock E n) (lease_until (clock E n) p) r)
          = Some (cr_LeaseExpires c)) as Hl by by rewrite Ec.
  destruct (held_steps (cr_LeaseExpires c) _ _ _ _ Hd1 Hs Hr1) as (r'&Hr'&Hh&_); [by intros _|].
  pose proof (steps_in_ok _ _ _ Hd1 Hs) as Hd'.
  destruct (claim_returns _ _ _ _ _ _ _ _ Hd' HC' Hc') as (r2&Hr2&Hcl&_).
  rewrite Heq, Hr' in Hr2. injection Hr2 as <-. assert (row_ok (cr_Infohash c) r') by by apply Hd'.
  pose proof (held_not_free (clock E' n') _ _ _ H Hh Hlt) as Hf.
  unfold claimable in Hcl. bool_hyps. apply andb_false_iff in Hf as [|]; congruence.
Qed.
(** The second release is the only one a claim 30 s later can get. *)
Lemma lease_exclusive_witness : cr_Infohash second ≠ cr_Infohash first.
Proof.
  destruct (handed_run _ _ _ first_handed) as (res&s1&HC&Hc&Hd).
  destruct (handed_run _ _ _ second_handed) as (res'&s2&HC'&Hc'&_).
  refine (lease_exclusive cfg take_one (quiet base) 0 d2 res s1 first cfg take_one
    (quiet (base + 30 * Second)) 0 d3 res' s2 second d2_reachable HC Hc _ _ HC' Hc').
  - rewrite Hd. constructor.
  - vm_compute. reflexivity.
Defined.

(** C3: once another claim has taken a release over, the old holder is
    fenced off for good: its token is smaller, and whatever it submits,
    whenever, fails and changes nothing - with the stale-lease error when the
    verdict is valid and the driver healthy. *)
Theorem stale_claim_fenced cfg p E n d res s1 c cfg' p' E' n' d2 res' s2 c' d3 :
  reachable d →
  Claim cfg p E (State n d) = (Ok res, s1) → c ∈ clr_Items res →
  rtc step (sdb s1) d2 →
  Claim cfg' p' E' (State n' d2) = (Ok res', s2) → c' ∈ clr_Items res' →
  cr_Infohash c' = cr_Infohash c →
  rtc step (sdb s2) d3 →
  cr_ClaimToken c < cr_ClaimToken c'
  ∧ ∀ cfg'' q E'' n'', sp_Infohash q = cr_Infohash c → sp_ClaimToken q = cr_ClaimToken c →
    match Submit cfg'' q E'' (State n'' d3) with
    | (Ok _, _) => False
    | (Err e, s') => same_tables d3 (sdb s')
        ∧ (healthy E'' → validateSubmit q = Ok tt → Is e ErrStaleLease)
    end.
Proof.
  intros Hd%reachable_ok HC Hc Hs HC' Hc' Heq Hs'.
  pose proof (run_Claim_ok _ _ _ _ _ _ _ Hd HC) as Hd1.
  destruct (claim_returns _ _ _ _ _ _ _ _ Hd HC Hc) as (r&_&_&Ec&Hr1).
  destruct (evolves_steps _ _ _ _ _ Hd1 Hs Hr1) as (r2&Hr2&He2).
  pose proof (steps_in_ok _ _ _ Hd1 Hs) as Hd2.
  destruct (claim_returns _ _ _ _ _ _ _ _ Hd2 HC' Hc') as (r2'&Hr2'&_&Ec'&Hr3).
  rewrite Heq, Hr2 in Hr2'. injection Hr2' as <-. rewrite Heq in Hr3.
  pose proof (run_Claim_ok _ _ _ _ _ _ _ Hd2 HC') as Hd3.
  destruct (evolves_steps _ _ _ _ _ Hd3 Hs' Hr3) as (r4&Hr4&He4).
  assert (cr_ClaimToken c = r_claim_token r + 1) as Et by (rewrite Ec; done).
  assert (cr_ClaimToken c' = r_claim_token r2 + 1) as Et' by (rewrite Ec'; done).
  apply ev_token in He2, He4. cbn in He2, He4. split; [lia|].
  intros cfg'' q E'' n'' Eih Etok. apply submit_wrong_token with (r := r4); [by rewrite Eih|lia].
Qed.
Lemma stale_claim_fenced_witness :
  (Submit cfg (verdict_of ih2 1 "matched" "anidb:1") (quiet (base + 62 * Second)) (State 0 d4)).1
  = Err (wrapf "submit %s: %w" [ih2] ErrStaleLease)
  ∧ cr_ClaimToken first < cr_ClaimToken again.
Proof.
  split; [vm_compute; reflexivity|].
  destruct (handed_run _ _ _ first_handed) as (res&s1&HC&Hc&Hd).
  destruct (handed_run _ _ _ again_handed) as (res'&s2&HC'&Hc'&Hd').
  refine (proj1 (stale_claim_fenced cfg take_one (quiet base) 0 d2 res s1 first cfg take_one
    (quiet (base + 61 * Second)) 0 d3 res' s2 again d4 d2_reachable HC Hc _ HC' Hc' _ _)).
  - rewrite Hd. constructor.
  - reflexivity.
  - rewrite Hd'. constructor.
Defined.

(** The row of a claimed release, before the lease ends: it answers to the
    claim's token as long as it has no verdict. *)
Lemma holder_live cfg p E n d res s1 c d' :
  reachable d →
  Claim cfg p E (State n d) = (Ok res, s1) → c ∈ clr_Items res →
  rtc (step_in (λ t, t < cr_LeaseExpires c)) (sdb s1) d' →
  ∃ r, releases d' !! cr_Infohash c = Some r
    ∧ ∀ now, now < cr_LeaseExpires c → live now (cr_ClaimToken c) r = bool_decide (r_match_status r = unmatched).
Proof.
  intros Hd%reachable_ok HC Hc Hs.
  pose proof (run_Claim_ok _ _ _ _ _ _ _ Hd HC) as Hd1.
  destruct (claim_returns _ _ _ _ _ _ _ _ Hd HC Hc) as (r&_&_&Ec&Hr1).
  assert (r_lease_expires_at (lease_row (clock E n) (lease_until (clock E n) p) r)
          = Some (cr_LeaseExpires c)) as Hl by by rewrite Ec.
  destruct (held_steps (cr_LeaseExpires c) _ _ _ _ Hd1 Hs Hr1) as (r'&Hr'&Hh&Ht); [by intros _|].
  assert (cr_ClaimToken c = r_claim_token r') as Et by (rewrite Ht, Ec; done).
  pose proof (steps_in_ok _ _ _ Hd1 Hs) as Hd'. assert (row_ok (cr_Infohash c) r') as Hok by by apply Hd'.
  exists r'. split; [done|]. intros now Hlt. unfold live. rewrite Et, Z.eqb_refl. cbn. case_bool_decide as Hu.
  - rewrite (Hh Hu). by apply Z.ltb_lt.
  - pose proof (ok_lease _ _ Hok). destruct (r_lease_expires_at r'); [|done]. tauto.
Qed.

(** The holder of a claim decides: before its lease ends, whatever other
    processes do, a valid verdict with its token is accepted as long as the
    release has none, and is then the row's; a release that has one already
    answers with the stale-lease error. *)
Theorem holder_settles cfg p E n d res s1 c d' cfg' q E' n' v :
  reachable d →
  Claim cfg p E (State n d) = (Ok res, s1) → c ∈ clr_Items res →
  rtc (step_in (λ t, t < cr_LeaseExpires c)) (sdb s1) d' →
  clock E' n' < cr_LeaseExpires c → healthy E' →
  sp_Infohash q = cr_Infohash c → sp_ClaimToken q = cr_ClaimToken c → parse_verdict q = Ok v →
  ∃ r, releases d' !! cr_Infohash c = Some r
    ∧ match Submit cfg' q E' (State n' d') with
      | (Ok _, s') => r_match_status r = unmatched
          ∧ releases (sdb s') !! cr_Infohash c = Some (settle cfg' q v (clock E' n') r).1
      | (Err e, s') => r_match_status r ≠ unmatched ∧ Is e ErrStaleLease ∧ same_tables d' (sdb s')
      end.
Proof.
  intros Hd HC Hc Hs Hlt HE Eih Etok Hv. destruct (holder_live _ _ _ _ _ _ _ _ _ Hd HC Hc Hs) as (r&Hr&Hlive).
  exists r. split; [done|]. specialize (Hlive _ Hlt). rewrite <-Eih in Hr. rewrite <-Eih. rewrite <-Etok in Hlive.
  pose proof (submit_runs cfg' q E' n' d' r v HE Hv Hr) as Hrun.
  rewrite Hlive in Hrun. destruct (Submit cfg' q E' (State n' d')) as [[e|u] s'];
    [|by destruct Hrun as (_&?&?)].
  destruct Hrun as (?&H1&H2). case_bool_decide as Hu; [by destruct (H1 eq_refl)|].
  rewrite (H2 eq_refl). done.
Qed.

(** ** The attempt budget *)

(** C16: as long as every process runs with one configured cap, no release
    spends more attempts than it: an unmatched release has some left, an
    exhausted one has spent exactly all of them, and the log counts them. *)
Theorem attempt_budget conf d ih r :
  let cfg := NewStoreWithConfig conf in
  reachable_cfg cfg d → releases d !! ih = Some r →
  count_if is_retry (events_of ih d) = r_attempt_count r
  ∧ 0 ≤ r_attempt_count r ≤ QueueMaxAttempts cfg
  ∧ (r_match_status r = unmatched → r_attempt_count r < QueueMaxAttempts cfg)
  ∧ (r_match_status r = exhausted → r_attempt_count r = QueueMaxAttempts cfg).
Proof.
  intros cfg Hd Hr. assert (0 < QueueMaxAttempts cfg) as Hpos.
  { unfold cfg, NewStoreWithConfig. destruct (QueueMaxAttempts conf <=? 0) eqn:?; bool_hyps; cbn; lia. }
  pose proof (budget_reachable cfg Hpos d Hd ih r Hr) as Hb. apply reachable_cfg_reachable in Hd.
  apply reachable_ok in Hd. destruct (ok_logged _ Hd _ _ Hr) as [Hl _].
  pose proof (ok_attempts _ _ (ok_rows _ Hd _ _ Hr)). unfold budget_ok in Hb.
  split; [done|]. destruct (r_match_status r); split_and!; try lia; done.
Qed.
Lemma attempt_budget_witness : ∃ r, releases d2 !! ih1 = Some r ∧ r_attempt_count r < 3.
Proof.
  destruct (releases d2 !! ih1) as [r|] eqn:Hr; [|by vm_compute in Hr].
  exists r. split; [reflexivity|].
  assert (reachable_cfg (NewStoreWithConfig cfg) d2) as Hd.
  { eapply rtc_l; [exists (OpIngest (post ih1 "dmhy" "1" "old" (base - 5 * Second))), (quiet base), 0%nat;
      split; reflexivity|].
    eapply rtc_l; [exists (OpIngest (post ih2 "nyaa" "2" "new" (base - 3 * Second))), (quiet base), 0%nat;
      split; reflexivity|]. constructor. }
  apply (attempt_budget cfg d2 ih1 r Hd Hr).
  assert (r_match_status <$> releases d2 !! ih1 = Some unmatched) as Hs by (vm_compute; reflexivity).
  rewrite Hr in Hs. injection Hs as Hs. exact Hs.
Defined.

(** ** Statistics *)

(** C17: the gauges add up in every reachable database: the four statuses
    partition the infohashes, the unmatched releases are the available, the
    leased and the ones the next claim will exhaust, the leased ones are
    those whose holder could still submit, the refs are at most the matched
    releases and the infohashes at most the raw posts. *)
Theorem stats_add_up cfg d E n :
  reachable d → healthy E →
  ∃ q c s1 s2,
    QueueStats cfg E (State n d) = (Ok q, s1) ∧ CatalogStats E (State n d) = (Ok c, s2)
    ∧ sdb s1 = d ∧ sdb s2 = d
    ∧ qs_Unmatched q + qs_Matched q + qs_Suppressed q + qs_Exhausted q = cs_Infohashes c
    ∧ qs_Unmatched q = qs_Available q + qs_Leased q
                       + count_if (exhaustible (clock E n) (QueueMaxAttempts cfg)) (rows d)
    ∧ qs_Leased q = count_if (λ r, live (clock E n) (r_claim_token r) r) (rows d)
    ∧ cs_Refs c ≤ qs_Matched q
    ∧ cs_Infohashes c ≤ cs_RawPosts c.
Proof.
  intros Hd%reachable_ok HE.
  eexists (queue_stats_sql (clock E n) (QueueMaxAttempts cfg) d), (catalog_stats_sql d), _, _.
  split_and!.
  - unfold QueueStats, query, statement, mbind, M_bind. cbn. by rewrite HE.
  - unfold CatalogStats, query, statement. cbn. by rewrite HE.
  - done.
  - done.
  - apply count_if_status_sum.
  - apply count_unmatched.
  - apply count_if_ext. intros r [ih Hr]%elem_of_rows. eapply leased_now_live. by apply Hd.
  - by apply refs_le_matched.
  - by apply infohashes_le_raw.
Qed.
Lemma stats_add_up_witness :
  ∃ q, (QueueStats cfg (quiet (base + 10 * Second)) (State 0 d3)).1 = Ok q
       ∧ qs_Unmatched q = qs_Available q + qs_Leased q ∧ qs_Leased q = 1.
Proof.
  destruct (stats_add_up cfg d3 (quiet (base + 10 * Second)) 0 (after_reachable _ _ _ d2_reachable)
    (λ _, eq_refl)) as (q&c&s1&s2&HQ&_&_&_&_&Hu&_).
  exists q. rewrite HQ. split; [reflexivity|]. rewrite Hu.
  assert (count_if (exhaustible (clock (quiet (base + 10 * Second)) 0) (QueueMaxAttempts cfg))
    (rows d3) = 0) as -> by (vm_compute; reflexivity).
  split; [lia|]. assert (∃ s, QueueStats cfg (quiet (base + 10 * Second)) (State 0 d3)
    = (Ok (queue_stats_sql (base + 10 * Second) 3 d3), s)) as [s E] by (eexists; reflexivity).
  rewrite E in HQ. injection HQ as <- <-. vm_compute. reflexivity.
Defined.

(** ** Ingesting twice *)

(** C18: a post the store has taken in is a duplicate from then on: after any
    further calls, ingesting it again reports [Duplicate] and changes no
    table. *)
Theorem ingest_idempotent p E n d out s1 d' E' n' :
  reachable d → IngestN p E (State n d) = (Ok out, s1) → out ≠ outcome_Conflict →
  rtc step (sdb s1) d' → healthy E' →
  ∃ s2, IngestN p E' (State n' d') = (Ok outcome_Duplicate, s2) ∧ same_tables d' (sdb s2).
Proof.
  intros Hd%reachable_ok H Hout Hs HE. pose proof (run_IngestN_ok _ _ _ _ _ _ Hd H) as Hd1.
  pose proof (IngestN_refines p E (State n d)) as H1. cbn zeta in H1.
  rewrite H in H1. pose proof (IngestN_refines p E' (State n' d')) as H2. cbn zeta in H2.
  cbn [sdb tick] in *. destruct (isCanonicalInfohash (ip_Infohash p)) eqn:Hc.
  - destruct (ingest_outcome _ _ _ _ _ H1 Hout Hc) as [[r Hr] Hsrc].
    destruct (evolves_steps _ _ _ _ _ Hd1 Hs Hr) as (r'&Hr'&_).
    rewrite (ingest_known _ _ _ Hc ltac:(by rewrite Hr') (steps_keep_source _ _ _ _ Hs Hsrc)) in H2.
    destruct (IngestN p E' (State n' d')) as [[e|o] s2]; [by destruct H2 as [_ H2%(λ f, f HE)]|].
    injection H2 as <- E2. exists s2. by rewrite <-E2.
  - unfold ingest_spec in H2. rewrite Hc in H2. cbn [negb] in H2.
    destruct (IngestN p E' (State n' d')) as [[e|o] s2]; [by destruct H2 as [_ H2%(λ f, f HE)]|].
    injection H2 as <- E2. exists s2. by rewrite <-E2.
Qed.
Lemma ingest_idempotent_witness :
  ∃ s2, IngestN (post ih2 "nyaa" "2" "new" (base - 3 * Second)) (quiet (base + 9 * Second)) (State 0 d4)
        = (Ok outcome_Duplicate, s2) ∧ same_tables d4 (sdb s2).
Proof.
  set (p := post ih2 "nyaa" "2" "new" (base - 3 * Second)).
  destruct (ingested_run p base d1) as (s1&HI&Hs1); [vm_compute; reflexivity|].
  refine (ingest_idempotent p (quiet base) 0 d1 outcome_New s1 d4 (quiet (base + 9 * Second)) 0
    (after_reachable _ _ _ (rtc_refl _ _)) HI _ _ (λ _, eq_refl)).
  - discriminate.
  - rewrite Hs1. fold d2. eapply rtc_l; [apply (after_steps (λ _, True)); exact I|].
    apply rtc_once, (after_steps (λ _, True)). exact I.
Defined.

(** ** What a submission answers *)

(** C14: without driver errors, a submission to a reachable database has
    exactly these answers, in this order of precedence: an invalid status or
    ref, no such release, a stale lease (wrong token or lease over - which
    includes every release that has its verdict), or success.  The
    no-active-lease error never comes. *)
Theorem submit_answers cfg p E n d :
  reachable d → healthy E →
  let '(res, s') := Submit cfg p E (State n d) in
  match validateSubmit p, releases d !! sp_Infohash p with
  | Err e, _ => res = Err e ∧ s' = State n d
  | Ok _, None => res = Err (wrapf "submit %s: %w" [sp_Infohash p] ErrNoSuchRelease)
                  ∧ same_tables d (sdb s')
  | Ok _, Some r =>
      if live (clock E n) (sp_ClaimToken p) r
      then res = Ok tt ∧ r_match_status r = unmatched
           ∧ length (match_events (sdb s')) = S (length (match_events d))
      else res = Err (wrapf "submit %s: %w" [sp_Infohash p] ErrStaleLease) ∧ same_tables d (sdb s')
  end.
Proof.
  intros Hd%reachable_ok HE. pose proof (Submit_refines cfg p E (State n d)) as H. cbn zeta in H.
  pose proof (validate_parse p) as Hv. destruct (validateSubmit p) as [e|[]] eqn:Eval.
  { unfold Submit, mbind, M_bind, lift. by rewrite Eval. }
  cbn [sdb tick] in H. unfold submit_spec in H. destruct (parse_verdict p) as [|v]; [done|].
  destruct (releases d !! sp_Infohash p) as [r|] eqn:Hr.
  2:{ destruct (Submit cfg p E (State n d)) as [[e|u] s']; [|done].
      destruct H as [[? _] H]. specialize (H HE). by injection H as <-. }
  pose proof (ok_lease _ _ (ok_rows _ Hd _ _ Hr)) as Hl.
  destruct (live (clock E n) (sp_ClaimToken p) r) eqn:Elive.
  - assert (r_match_status r = unmatched) as Hu.
    { unfold live in Elive. destruct (r_lease_expires_at r); [tauto|]. by rewrite andb_false_r in Elive. }
    rewrite decide_True in H by done. destruct (settle cfg p v (clock E n) r) as [r' label].
    destruct (Submit cfg p E (State n d)) as [[e|[]] s']; [by destruct H as [_ H%(λ f, f HE)]|].
    injection H as <-. cbn. rewrite length_app. cbn. split_and!; [done|done|lia].
  - destruct (Submit cfg p E (State n d)) as [[e|u] s']; [|done].
    destruct H as [[? _] H]. specialize (H HE). by injection H as <-.
Qed.
Lemma submit_answers_witness :
  (Submit cfg (verdict_of ih2 1 "matched" "anidb:1") (quiet (base + 60 * Second)) (State 0 d3)).1
  = Err (wrapf "submit %s: %w" [ih2] ErrStaleLease).
Proof.
  pose proof (submit_answers cfg (verdict_of ih2 1 "matched" "anidb:1") (quiet (base + 60 * Second)) 0 d3
    (after_reachable _ _ _ d2_reachable) (λ _, eq_refl)) as H.
  destruct (Submit cfg _ _ (State 0 d3)) as [res s'].
  assert (validateSubmit (verdict_of ih2 1 "matched" "anidb:1") = Ok tt) as E1 by (vm_compute; reflexivity).
  assert ((live (base + 60 * Second) 1 <$> releases d3 !! ih2) = Some false) as E2 by (vm_compute; reflexivity).
  rewrite E1 in H. cbn [sp_Infohash verdict_of] in H. destruct (releases d3 !! ih2) as [r|]; [|discriminate].
  injection E2 as E2. cbn [clock quiet sp_ClaimToken verdict_of] in H. rewrite E2 in H. apply H.
Defined.

(** A lease of more than 292 years wraps around to one that is over already:
    the release is handed out to the next caller while the first one works on
    it. *)
Definition endless : ClaimParams := {| cp_Limit := 1; cp_LeaseSeconds := 9300000000 |}.
Lemma long_lease_wraps :
  (match (Claim cfg endless (quiet base) (State 0 d2)).1 with Ok res => cr_Infohash <$> clr_Items res | _ => [] end)
    = [ih2]
  ∧ cr_Infohash <$> handed (base + Second) (after (OpClaim cfg endless) base d2) = [ih2].
Proof. split; vm_compute; reflexivity. Qed.
