(* ===== verification/Listing.v ===== *)
(** * Package [internal/store/postgres]: the read methods

    [ListReleases] with its keyset pagination, [GetRelease],
    [ResolveMagnets] and [Ping] (src/internal/store/postgres/store.go), and
    the whole store as an instance of the [Store] interface. *)

From S2P Require Import Prelude GoStrings GoTime Encoding Store Cursor Db Postgres.
Import store postgres.

Module listing.

(** ** [ListReleases] *)

(** The columns a listing selects, with the [COALESCE] of each; the float
    whose bits are zero is [0.0]. *)
Definition release_item (r : release_row) : ReleaseItem := {|
  ri_Infohash := r_infohash r;
  ri_Ref := default "" (r_ref r);
  ri_Title := r_title r;
  ri_SizeBytes := default 0 (r_size_bytes r);
  ri_PublishedAt := r_published_at r;
  ri_Confidence := default float_zero (r_confidence r);
  ri_Sources := r_sources r;
|}.

(** [NOT hasSeek OR (key, infohash) < (seekKey, seekHash)]. *)
Definition seeks (key : release_row → Time) (seekKey : Time) (seekHash : string) (hasSeek : bool)
    (r : release_row) : bool :=
  negb hasSeek
  || (key r <? pg_ts seekKey)
  || ((key r =? pg_ts seekKey) && String.ltb (r_infohash r) seekHash).

(** [WHERE where AND seek ORDER BY key DESC, infohash DESC LIMIT fetch]. *)
Definition seek_query (cond : release_row → bool) (key : release_row → Time)
    (seekKey : Time) (seekHash : string) (hasSeek : bool) (fetch : Z) (d : db)
    : list (ReleaseItem * Time) :=
  (λ r, (release_item r, key r)) <$>
    take (Z.to_nat fetch)
      (merge_sort (key_desc key)
        (List.filter (λ r, cond r && seeks key seekKey seekHash hasSeek r) (rows d))).

(** [first_matched_at], where it is not [NULL]. *)
Definition matched_at (r : release_row) : Time := default 0 (r_first_matched_at r).
(** [first_matched_at > $1]. *)
Definition matched_after (since : Time) (r : release_row) : bool :=
  match r_first_matched_at r with None => false | Some t => pg_ts since <? t end.
Definition has_ref (ref : string) (r : release_row) : bool := bool_decide (r_ref r = Some ref).

(** Only called with a [Since] when the path is not the catalog's; the other
    case would dereference nil. *)
Definition listReleaseRows (q : ReleaseQuery) (path : cursor.Path) (seekKey : Time) (seekHash : string)
    (hasSeek : bool) (fetch : Z) (d : db) : list (ReleaseItem * Time) :=
  if path =? cursor.PathCatalog then
    if bool_decide (rq_Ref q = "") then
      seek_query (is_status matched) r_published_at seekKey seekHash hasSeek fetch d
    else
      seek_query (λ r, is_status matched r && has_ref (rq_Ref q) r)
        r_published_at seekKey seekHash hasSeek fetch d
  else match rq_Since q with
  | None => []
  | Some since =>
      if bool_decide (rq_Ref q = "") then
        seek_query (λ r, is_status matched r && matched_after since r)
          matched_at seekKey seekHash hasSeek fetch d
      else
        seek_query (λ r, is_status matched r && has_ref (rq_Ref q) r && matched_after since r)
          matched_at seekKey seekHash hasSeek fetch d
  end.

Definition releases_limit (limit : Z) : Z :=
  let limit := if limit <=? 0 then defaultReleasesLimit else limit in
  if maxReleasesLimit <? limit then maxReleasesLimit else limit.

Section list_releases.
Context `{C : cursor.CursorCodec}.

Definition seek_of (q : ReleaseQuery) (path : cursor.Path) : result (option cursor.Cursor) :=
  if bool_decide (rq_Cursor q ≠ "") then
    match cursor.Decode (rq_Cursor q) (rq_Ref q) path with
    | Err _ => Err cursor.ErrInvalidCursor
    | Ok c => Ok (Some c)
    end
  else Ok None.

Definition next_cursor (q : ReleaseQuery) (path : cursor.Path) (keyed : list (ReleaseItem * Time))
    : result string :=
  match last keyed with
  | None => Ok ""
  | Some (item, key) =>
      match cursor.Encode {| cursor.c_Ref := rq_Ref q; cursor.c_Path := path;
                             cursor.c_Key := key; cursor.c_Infohash := ri_Infohash item |} with
      | Err e => Err (wrapf "list_releases %s: encode cursor: %w" [rq_Ref q] e)
      | Ok enc => Ok enc
      end
  end.

Definition ListReleases (q : ReleaseQuery) : M ReleasePage :=
  _ ← lift (if bool_decide (rq_Ref q ≠ "") then cursor.ValidateRef (rq_Ref q) else Ok tt);
  let limit := releases_limit (rq_Limit q) in
  let path := match rq_Since q with None => cursor.PathCatalog | Some _ => cursor.PathDelta end in
  seek ← lift (seek_of q path);
  let fetch := limit + 1 in
  let '(seekKey, seekHash, hasSeek) :=
    match seek with
    | None => (zero_time, "", false)
    | Some c => (cursor.c_Key c, cursor.c_Infohash c, true)
    end in
  keyed ← query (wrapf "list_releases %s: %w" [rq_Ref q])
            (listReleaseRows q path seekKey seekHash hasSeek fetch);
  _ ← collect (wrapf "list_releases %s: collect: %w" [rq_Ref q]);
  let hasMore := limit <? Z.of_nat (length keyed) in
  let keyed := if hasMore then take (Z.to_nat limit) keyed else keyed in
  next ← (if hasMore then lift (next_cursor q path keyed) else mret "");
  mret {| rp_Releases := keyed.*1; rp_NextCursor := next |}.
End list_releases.

(** ** [GetRelease] *)

(** [ORDER BY created_at ASC, id ASC]. *)
Definition event_asc (a b : match_event_row) : Prop :=
  ev_created_at a < ev_created_at b ∨ ev_created_at a = ev_created_at b ∧ ev_id a ≤ ev_id b.
#[global] Instance event_asc_dec : RelDecision event_asc.
Proof. intros a b. unfold event_asc. apply _. Defined.

Definition match_event_detail (e : match_event_row) : MatchEventDetail := {|
  med_ID := ev_id e;
  med_Status := status_string (ev_status e);
  med_Ref := ev_ref e;
  med_Confidence := ev_confidence e;
  med_Reason := nullif_empty (ev_reason e);
  med_CreatedAt := ev_created_at e;
|}.
Definition match_events_sql (ih : string) (d : db) : list MatchEventDetail :=
  match_event_detail <$> merge_sort event_asc
    (List.filter (λ e, bool_decide (ev_infohash e = ih)) (match_events d)).
Definition releaseMatchEvents (infohash : string) : M (list MatchEventDetail) :=
  events ← query (wrapf "get_release %s: load match_events: %w" [infohash]) (match_events_sql infohash);
  _ ← collect (wrapf "get_release %s: collect match_events: %w" [infohash]);
  mret events.

Definition release_detail (r : release_row) (raw : list RawItemDetail) (events : list MatchEventDetail)
    : ReleaseDetail := {|
  rd_Infohash := r_infohash r;
  rd_Title := r_title r;
  rd_Magnet := r_magnet r;
  rd_SizeBytes := r_size_bytes r;
  rd_PublishedAt := r_published_at r;
  rd_Sources := r_sources r;
  rd_MatchStatus := status_string (r_match_status r);
  rd_Ref := r_ref r;
  rd_Confidence := r_confidence r;
  rd_FirstMatchedAt := r_first_matched_at r;
  rd_AttemptCount := r_attempt_count r;
  rd_CreatedAt := r_created_at r;
  rd_UpdatedAt := r_updated_at r;
  rd_RawItems := raw;
  rd_MatchEvents := events;
|}.

(** A read-only, repeatable-read transaction: all three queries see one
    database. *)
Definition GetRelease (infohash : string) : M ReleaseDetail :=
  in_tx (wrapf "get_release %s: begin tx: %w" [infohash]) (wrapf "get_release %s: commit: %w" [infohash])
    (row ← query (wrapf "get_release %s: %w" [infohash]) (λ d, releases d !! infohash);
     match row with
     | None => raise (wrapf "get_release %s: %w" [infohash] ErrNoSuchRelease)
     | Some r =>
         rawItems ← rawItemsFor infohash ("get_release " +:+ infohash);
         matchEvents ← releaseMatchEvents infohash;
         mret (DoCommit, release_detail r rawItems matchEvents)
     end).

(** ** [ResolveMagnets] and [Ping] *)

Definition magnets_sql (infohashes : list string) (d : db) : list (string * string) :=
  omap (λ r, if bool_decide (r_infohash r ∈ infohashes)
             then (λ m, (r_infohash r, m)) <$> r_magnet r else None) (rows d).

Definition ResolveMagnets (infohashes : list string) : M (gmap string string) :=
  let n := Z.of_nat (length infohashes) in
  if maxMagnetsBatch <? n then
    raise (Errorf "resolve_magnets: batch of %d exceeds hard cap %d" [Itoa n; Itoa maxMagnetsBatch] [])
  else if n =? 0 then mret ∅
  else
    found ← query (wrapf "resolve_magnets: %w" []) (magnets_sql infohashes);
    _ ← collect (wrapf "resolve_magnets: scan: %w" []);
    _ ← collect (wrapf "resolve_magnets: rows: %w" []);
    mret (foldl (λ out '(ih, magnet), <[ih := magnet]> out) ∅ found).

Definition Ping (nil_pool : bool) : M unit :=
  if nil_pool then raise (ErrNew "takuhai/postgres: nil pool") else query id (λ _, tt).

(** ** The store *)

Definition pg_store `{cursor.CursorCodec} (cfg : StoreConfig) (E : env) : store.Store state := {|
  store.Ping := Ping false E;
  store.IngestN p := IngestN p E;
  store.Claim p := Claim cfg p E;
  store.Submit p := Submit cfg p E;
  store_QueueStats := QueueStats cfg E;
  store_CatalogStats := CatalogStats E;
  store.ListReleases q := ListReleases q E;
  store.GetRelease ih := GetRelease ih E;
  store.ResolveMagnets ihs := ResolveMagnets ihs E;
|}.

End listing.
