(* ===== verification/ListingThms.v ===== *)
(** * What the read methods return

    Following [next_cursor] visits every matching release exactly once, in
    order; [GetRelease] and [ResolveMagnets] return what the tables hold. *)

From S2P Require Import Prelude GoStrings GoTime Encoding Store Cursor Db Postgres.
From S2P Require Import StoreSpec StoreInv Queue QueueThms Listing GoTimeFmt GoJsonText CursorCodec.
From Stdlib Require Import Ascii.
Import store postgres listing.

(** ** Specification of a listing *)

(** The releases a query lists. *)
Definition listed (q : ReleaseQuery) (r : release_row) : bool :=
  is_status matched r
  && (bool_decide (rq_Ref q = "") || has_ref (rq_Ref q) r)
  && match rq_Since q with None => true | Some since => matched_after since r end.
(** Its sort key. *)
Definition key_of (q : ReleaseQuery) : release_row → Time :=
  match rq_Since q with None => r_published_at | Some _ => matched_at end.
Definition path_of (q : ReleaseQuery) : cursor.Path :=
  match rq_Since q with None => cursor.PathCatalog | Some _ => cursor.PathDelta end.
(** The whole listing, newest first, ties by infohash. *)
Definition listing_of (q : ReleaseQuery) (d : db) : list release_row :=
  merge_sort (key_desc (key_of q)) (List.filter (listed q) (rows d)).

Lemma seek_query_ext c1 c2 key k h b n d :
  (∀ r, c1 r = c2 r) → seek_query c1 key k h b n d = seek_query c2 key k h b n d.
Proof.
  intros H. unfold seek_query. do 3 f_equal. apply filter_ext_bool. intros r _. by rewrite H.
Qed.

Lemma listReleaseRows_spec q k h b n d :
  listReleaseRows q (path_of q) k h b n d = seek_query (listed q) (key_of q) k h b n d.
Proof.
  unfold listReleaseRows, path_of, key_of.
  destruct (rq_Since q) as [t|] eqn:Et; cbn [Z.eqb]; case_bool_decide as Hr;
    apply seek_query_ext; intros r; unfold listed; rewrite Et; case_bool_decide; try done;
    cbn; by rewrite ?andb_true_r.
Qed.

(** ** Seeking *)

Lemma ltb_leb a b : String.ltb a b = negb (String.leb b a).
Proof.
  unfold String.ltb, String.leb. rewrite (String.compare_antisym a b).
  by destruct (String.compare b a).
Qed.

Lemma seeks_self key r h : h = r_infohash r → pg_ts (key r) = key r → seeks key (key r) h true r = false.
Proof.
  intros -> Hus. unfold seeks. rewrite Hus, Z.ltb_irrefl, Z.eqb_refl. cbn.
  rewrite ltb_leb. destruct (String.leb (r_infohash r) (r_infohash r)) eqn:E; [done|].
  destruct (String.leb_total (r_infohash r) (r_infohash r)); congruence.
Qed.
Lemma seeks_desc key x y :
  pg_ts (key x) = key x → r_infohash x ≠ r_infohash y →
  seeks key (key x) (r_infohash x) true y = bool_decide (key_desc key x y).
Proof.
  intros Hus Hne. unfold seeks, key_desc. rewrite Hus. cbn [negb orb].
  destruct (Z.ltb_spec (key y) (key x)); cbn.
  { by rewrite bool_decide_eq_true_2 by by left. }
  destruct (Z.eqb_spec (key y) (key x)); cbn.
  2:{ rewrite bool_decide_eq_false_2; [done|]. intros [|[]]; [lia|congruence]. }
  rewrite ltb_leb. symmetry. destruct (String.leb (r_infohash x) (r_infohash y)) eqn:E1; cbn.
  - rewrite bool_decide_eq_false_2; [done|]. intros [Hlt|[_ Hle]]; [lia|].
    apply Hne. apply (anti_symm String.le); [|done]. unfold String.le. by rewrite E1.
  - rewrite bool_decide_eq_true_2; [done|]. right. split; [done|].
    destruct (total String.le (r_infohash x) (r_infohash y)) as [Hle|Hle]; [|done].
    unfold String.le in Hle. rewrite E1 in Hle. done.
Qed.

Lemma filter_all_true {A} (p : A → bool) l : (∀ x, x ∈ l → p x = true) → List.filter p l = l.
Proof.
  induction l as [|x l IH]; intros H; cbn; [done|]. rewrite H by set_solver.
  rewrite IH; [done|]. set_solver.
Qed.
Lemma filter_all_false {A} (p : A → bool) l : (∀ x, x ∈ l → p x = false) → List.filter p l = [].
Proof.
  induction l as [|x l IH]; intros H; cbn; [done|]. rewrite H by set_solver. apply IH. set_solver.
Qed.
Lemma filter_filter_bool {A} (p q : A → bool) l :
  List.filter q (List.filter p l) = List.filter (λ x, p x && q x) l.
Proof.
  induction l as [|x l IH]; cbn; [done|]. destruct (p x); cbn; [|done]. by rewrite IH.
Qed.

#[global] Instance filter_bool_perm {A} (p : A → bool) :
  Proper (Permutation ==> Permutation) (List.filter p).
Proof.
  intros l k H. induction H as [|x l k _ IH|x y l|l1 l2 l3 _ IH1 _ IH2]; cbn; [done| | |].
  - destruct (p x); [by constructor|done].
  - destruct (p x), (p y); try done. constructor.
  - by rewrite IH1.
Qed.

(** Sorting what lies after an element is dropping up to it. *)
Lemma seek_suffix key cond d l1 x l2 :
  keyed d → pg_ts (key x) = key x →
  merge_sort (key_desc key) (List.filter cond (rows d)) = l1 ++ x :: l2 →
  merge_sort (key_desc key) (List.filter (λ r, cond r && seeks key (key x) (r_infohash x) true r) (rows d))
  = l2.
Proof.
  intros Hk Hus Hfull.
  assert (l1 ++ x :: l2 ≡ₚ List.filter cond (rows d)) as Hperm by (rewrite <-Hfull; apply merge_sort_Permutation).
  assert (StronglySorted (key_desc key) (l1 ++ x :: l2)) as Hsort
    by (rewrite <-Hfull; apply StronglySorted_merge_sort; apply _).
  assert (∀ r, r ∈ l1 ++ x :: l2 → r ∈ rows d) as Hin.
  { intros r. rewrite Hperm, elem_of_filter_bool. tauto. }
  assert (NoDup (l1 ++ x :: l2)) as Hnd.
  { rewrite Hperm. eapply sublist_NoDup; [|apply sublist_filter_bool]. by apply rows_nodup. }
  assert (∀ r1 r2, r1 ∈ l1 ++ x :: l2 → r2 ∈ l1 ++ x :: l2 → key_desc key r1 r2 → key_desc key r2 r1 → r1 = r2) as Hanti.
  { intros r1 r2 H1 H2 H12 H21. apply (rows_key_inj d); auto. by eapply key_desc_antisym. }
  apply StronglySorted_app in Hsort as (H1&_&H2). apply StronglySorted_cons in H2 as [H3 H2].
  apply NoDup_app in Hnd as (_&Hnd1&Hnd2). apply NoDup_cons in Hnd2 as [Hnd2 _].
  assert (∀ y, y ∈ l1 ++ x :: l2 → y ≠ x → r_infohash x ≠ r_infohash y) as Hne.
  { intros y Hy Hyx E. apply Hyx. symmetry. apply (rows_key_inj d); auto. apply Hin. set_solver. }
  apply (StronglySorted_unique_strong (key_desc key)).
  - intros r1 r2 Hr1 Hr2. rewrite merge_sort_Permutation, elem_of_filter_bool in Hr1.
    destruct Hr1 as [? ?]. bool_hyps. apply Hanti; [|set_solver].
    rewrite Hperm, elem_of_filter_bool. done.
  - apply StronglySorted_merge_sort; apply _.
  - done.
  - rewrite merge_sort_Permutation, <-filter_filter_bool.
    assert (List.filter (seeks key (key x) (r_infohash x) true) (l1 ++ x :: l2) = l2) as <-.
    { rewrite List.filter_app. cbn [List.filter]. rewrite seeks_self by done.
      rewrite filter_all_false, filter_all_true; [done|..].
      - intros y Hy. rewrite seeks_desc; [|done|apply Hne; set_solver].
        rewrite bool_decide_eq_true. rewrite Forall_forall in H3. auto.
      - intros y Hy. rewrite seeks_desc; [|done|apply Hne; set_solver].
        rewrite bool_decide_eq_false. intros Hd.
        assert (y = x) as -> by (apply Hanti; set_solver).
        apply (Hnd1 x Hy). constructor. }
    by rewrite Hperm.
Qed.

(** ** The sort keys are whole microseconds *)

Lemma earliest_whole items t :
  Forall (λ ri, whole_us (raw_published_at ri)) items → earliest items = Some t → whole_us t.
Proof.
  unfold earliest. intros Hall. destruct items as [|ri items]; [done|]. cbn. intros [= <-].
  apply Forall_cons in Hall as [H Hall]. induction Hall as [|ri' l H' _ IH]; cbn; [done|].
  destruct (Z.min_spec (raw_published_at ri') (foldr Z.min (raw_published_at ri) (raw_published_at <$> l)))
    as [[_ E]|[_ E]]; unfold compose in *; by rewrite E.
Qed.

Lemma key_whole q d r : db_ok d → r ∈ rows d → listed q r = true → pg_ts (key_of q r) = key_of q r.
Proof.
  intros Hok [ih Hr]%elem_of_rows Hl. unfold key_of. unfold listed in Hl.
  destruct (rq_Since q) as [since|].
  - unfold matched_after, matched_at in *. bool_hyps.
    destruct (r_first_matched_at r) as [t|] eqn:E; [|done].
    by apply (ok_matched_us _ _ (ok_rows _ Hok _ _ Hr)).
  - destruct (ok_represented _ Hok _ _ Hr) as (_&He&_). eapply earliest_whole; [|exact He].
    apply Forall_forall. intros ri [Hri _]%elem_of_filter_bool.
    pose proof (ok_raw_us _ Hok) as H. rewrite Forall_forall in H. auto.
Qed.

(** ** Pages *)

Definition with_cursor (q : ReleaseQuery) (c : string) : ReleaseQuery := {|
  rq_Ref := rq_Ref q; rq_Since := rq_Since q; rq_Limit := rq_Limit q; rq_Cursor := c;
|}.
Definition keyed_item (q : ReleaseQuery) (r : release_row) : ReleaseItem * Time :=
  (release_item r, key_of q r).

Lemma releases_limit_bounds l : 1 ≤ releases_limit l ≤ 500.
Proof.
  unfold releases_limit, defaultReleasesLimit, maxReleasesLimit.
  destruct (l <=? 0) eqn:?; [by vm_compute|]. destruct (500 <? l) eqn:?; bool_hyps; lia.
Qed.

Section pages.
Context `{C : cursor.CursorCodec} {text_ok : string → Prop} {time_ok : Time → Prop}.
Context `{L : !cursor.CursorCodecLaws C text_ok time_ok}.

(** Follow [next_cursor] until it is empty. *)
Fixpoint walk (fuel : nat) (q : ReleaseQuery) : M (list ReleaseItem) :=
  match fuel with
  | O => raise (ErrNew "out of fuel")
  | S fuel =>
      page ← ListReleases q;
      if bool_decide (rp_NextCursor page = "") then mret (rp_Releases page)
      else rest ← walk fuel (with_cursor q (rp_NextCursor page)); mret (rp_Releases page ++ rest)
  end.

(** The page that starts at [l]. *)
Lemma ListReleases_run q E s l sk :
  healthy E → (rq_Ref q = "" ∨ cursor.ref_shape (rq_Ref q)) →
  seek_of q (path_of q) = Ok sk →
  (let '(k, h, b) := match sk with
                     | None => (zero_time, "", false)
                     | Some c => (cursor.c_Key c, cursor.c_Infohash c, true) end in
   ∀ fetch, listReleaseRows q (path_of q) k h b fetch (sdb s) = keyed_item q <$> take (Z.to_nat fetch) l) →
  let limit := releases_limit (rq_Limit q) in
  let next := if limit <? Z.of_nat (length l)
              then next_cursor q (path_of q) (keyed_item q <$> take (Z.to_nat limit) l) else Ok "" in
  ∃ s', sdb s' = sdb s ∧
    ListReleases q E s =
      (next ≫= λ n, Ok {| rp_Releases := release_item <$> take (Z.to_nat limit) l; rp_NextCursor := n |}, s').
Proof.
  intros HE Href Hseek Hrows limit next. pose proof (releases_limit_bounds (rq_Limit q)) as Hlim.
  fold limit in Hlim. unfold ListReleases. fold (path_of q). fold limit.
  unfold mbind, M_bind, lift at 1.
  assert ((if bool_decide (rq_Ref q ≠ "") then cursor.ValidateRef (rq_Ref q) else Ok tt) = Ok tt) as ->.
  { case_bool_decide as Hne; [|done]. apply cursor.ValidateRef_Ok. by destruct Href. }
  unfold lift at 1. rewrite Hseek.
  destruct (match sk with None => _ | Some c => _ end) as [[k h] b].
  unfold collect, query, statement. rewrite HE. cbn [sdb tick]. rewrite HE, Hrows. cbn [sdb tick].
  rewrite length_fmap, length_take.
  assert ((limit <? Z.of_nat (Z.to_nat (limit + 1) `min` length l)) = (limit <? Z.of_nat (length l))) as ->.
  { destruct (Z.ltb_spec limit (Z.of_nat (length l))); [apply Z.ltb_lt|apply Z.ltb_ge]; lia. }
  subst next. destruct (Z.ltb_spec limit (Z.of_nat (length l))) as [Hmore|Hless].
  - rewrite <-fmap_take, take_take, Nat.min_l by lia.
    destruct (next_cursor _ _ _) as [e|n]; [by eexists; split; [|reflexivity]|].
    cbn. eexists; split; [|do 3 f_equal; by rewrite <-list_fmap_compose]. done.
  - eexists. split; [|cbn; do 3 f_equal; rewrite !take_ge by lia; by rewrite <-list_fmap_compose]. done.
Qed.

(** [q]'s cursor points at the suffix [l] of its listing. *)
Definition at_suffix (q : ReleaseQuery) (d : db) (l : list release_row) : Prop :=
  (rq_Cursor q = "" ∧ l = listing_of q d)
  ∨ ∃ pre x, listing_of q d = pre ++ x :: l
      ∧ seek_of q (path_of q) = Ok (Some {|
          cursor.c_Ref := rq_Ref q; cursor.c_Path := path_of q;
          cursor.c_Key := key_of q x; cursor.c_Infohash := r_infohash x |}).

Lemma listing_elem q d r : r ∈ listing_of q d ↔ r ∈ rows d ∧ listed q r = true.
Proof. unfold listing_of. by rewrite merge_sort_Permutation, elem_of_filter_bool. Qed.

Lemma page_at q d l E s :
  db_ok d → sdb s = d → healthy E → (rq_Ref q = "" ∨ cursor.ref_shape (rq_Ref q)) →
  at_suffix q d l →
  let limit := releases_limit (rq_Limit q) in
  let next := if limit <? Z.of_nat (length l)
              then next_cursor q (path_of q) (keyed_item q <$> take (Z.to_nat limit) l) else Ok "" in
  ∃ s', sdb s' = d ∧
    ListReleases q E s =
      (next ≫= λ n, Ok {| rp_Releases := release_item <$> take (Z.to_nat limit) l; rp_NextCursor := n |}, s').
Proof.
  intros Hok <- HE Href [[Hc ->]|(pre&x&Hfull&Hseek)].
  - eapply (ListReleases_run q E s _ None); [done|done| |].
    + unfold seek_of. by rewrite Hc.
    + intros fetch. rewrite listReleaseRows_spec. unfold seek_query, listing_of, keyed_item.
      do 3 f_equal. apply filter_ext_bool. intros r _. unfold seeks. cbn. by rewrite andb_true_r.
  - eapply (ListReleases_run q E s _ (Some _)); [done|done|exact Hseek|].
    cbn. intros fetch. rewrite listReleaseRows_spec. unfold seek_query, keyed_item.
    do 2 f_equal. eapply seek_suffix; [by apply db_ok_keyed| |exact Hfull].
    assert (x ∈ listing_of q (sdb s)) as [Hx Hl]%listing_elem by (rewrite Hfull; set_solver).
    by eapply key_whole.
Qed.

Lemma at_suffix_next q d l n E :
  (∀ r, r ∈ rows d → text_ok (r_infohash r) ∧ time_ok (key_of q r)) → text_ok (rq_Ref q) →
  (∃ pre, listing_of q d = pre ++ l) → (0 < n < length l)%nat →
  next_cursor q (path_of q) (keyed_item q <$> take n l) = E →
  ∃ c, E = Ok c ∧ c ≠ "" ∧ at_suffix (with_cursor q c) d (drop n l).
Proof using L.
  intros Hrows Href [pre Hpre] Hn <-.
  destruct (lookup_lt_is_Some_2 l (pred n)) as [x Hx]; [lia|].
  assert (take n l = take (pred n) l ++ [x]) as Htake.
  { replace n with (S (pred n)) at 1 by lia. by apply take_S_r. }
  assert (l = take (pred n) l ++ x :: drop n l) as Hl.
  { replace n with (S (pred n)) at 2 by lia. symmetry. by apply take_drop_middle. }
  assert (x ∈ rows d) as Hxr.
  { eapply listing_elem. rewrite Hpre. apply list_elem_of_lookup_2 in Hx. set_solver. }
  unfold next_cursor. rewrite Htake, fmap_app.
  change (keyed_item q <$> [x]) with [keyed_item q x]. rewrite last_snoc. cbn.
  destruct (Hrows x Hxr) as [Ht Hk].
  destruct (cursor.Encode_Decode {| cursor.c_Ref := rq_Ref q; cursor.c_Path := path_of q;
    cursor.c_Key := key_of q x; cursor.c_Infohash := r_infohash x |}) as (c&Henc&Hne&Hdec).
  { split_and!; try done; unfold path_of; destruct (rq_Since q); by vm_compute. }
  rewrite Henc. exists c. split_and!; [done|done|]. right.
  exists (pre ++ take (pred n) l), x. split; [by rewrite <-app_assoc, <-Hl|].
  unfold seek_of, path_of, key_of. cbn. fold (path_of q). rewrite bool_decide_eq_true_2 by done.
  rewrite Hdec. cbn. by rewrite bool_decide_eq_true_2, Z.eqb_refl.
Qed.

Lemma walk_suffix fuel q d l E s :
  db_ok d → sdb s = d → healthy E → (rq_Ref q = "" ∨ cursor.ref_shape (rq_Ref q)) →
  (∀ r, r ∈ rows d → text_ok (r_infohash r) ∧ time_ok (key_of q r)) → text_ok (rq_Ref q) →
  at_suffix q d l → (length l < fuel)%nat →
  ∃ s', sdb s' = d ∧ walk fuel q E s = (Ok (release_item <$> l), s').
Proof using L.
  intros Hok. revert q l s. induction fuel as [|fuel IH]; intros q l s Hs HE Href Hrows Htref Hat Hf; [lia|].
  destruct (page_at q d l E s Hok Hs HE Href Hat) as (s1&Hs1&Hrun).
  pose proof (releases_limit_bounds (rq_Limit q)) as Hlim.
  cbn [walk]. unfold mbind, M_bind at 1. rewrite Hrun. clear Hrun.
  set (limit := releases_limit (rq_Limit q)) in *.
  destruct (Z.ltb_spec limit (Z.of_nat (length l))) as [Hmore|Hless].
  - destruct (at_suffix_next q d l (Z.to_nat limit) _ Hrows Htref
      ltac:(destruct Hat as [[_ ->]|(pre&x&->&_)]; [by exists []|exists (pre ++ [x]); by rewrite <-app_assoc])
      ltac:(lia) eq_refl) as (c&->&Hne&Hat').
    cbn. rewrite bool_decide_eq_false_2 by done.
    destruct (IH (with_cursor q c) (drop (Z.to_nat limit) l) s1) as (s2&Hs2&Hrest); try done.
    { rewrite length_drop. lia. }
    unfold mbind, M_bind, mret, M_ret. rewrite Hrest. exists s2. split; [done|].
    by rewrite <-fmap_app, take_drop.
  - cbn. exists s1. split; [done|]. by rewrite take_ge by lia.
Qed.
End pages.

(** ** The theorems *)

Lemma canonical_ascii s : isCanonicalInfohash s = true → utf8_text s.
Proof.
  unfold isCanonicalInfohash. destruct (negb _); [done|]. intros H. apply ascii_utf8.
  induction s as [|c s IH]; [done|]. cbn in *.
  destruct (_ && _) eqn:E in H; [done|]. rewrite IH by done.
  rewrite andb_true_r. destruct c as [[] [] [] [] [] [] [] []]; by vm_compute in E.
Qed.

(** C24: following the cursors from the first page, whatever the page size,
    visits every matched release the query asks for exactly once: the pages
    put together are those releases, newest first (by publication time, or by
    first-match time when [since] is given), ties in descending infohash
    order; it takes at most one page per release and one more.  (The walk is
    over a store that does not change meanwhile, by a healthy driver; the keys
    must lie in the years 0 to 9999, which a cursor can spell, and a ref that
    is asked for must have the shape of one.) *)
Theorem listing_complete fuel q E s :
  reachable (sdb s) → healthy E →
  (rq_Ref q = "" ∨ cursor.ref_shape (rq_Ref q)) → utf8_text (rq_Ref q) → rq_Cursor q = "" →
  (∀ r, r ∈ rows (sdb s) → rfc3339_range (key_of q r)) →
  (length (rows (sdb s)) < fuel)%nat →
  ∃ l s', walk fuel q E s = (Ok (release_item <$> l), s') ∧ sdb s' = sdb s
    ∧ l ≡ₚ List.filter (listed q) (rows (sdb s))
    ∧ StronglySorted (key_desc (key_of q)) l.
Proof.
  intros Hd%reachable_ok HE Href Hutf Hc Htime Hfuel. exists (listing_of q (sdb s)).
  destruct (walk_suffix fuel q (sdb s) (listing_of q (sdb s)) E s) as (s'&Hs'&Hw); try done.
  - intros r Hr. split; [|auto]. apply elem_of_rows in Hr as [ih Hr].
    pose proof (ok_rows _ Hd _ _ Hr) as [Hkey Hcan]. subst ih. by apply canonical_ascii.
  - by left.
  - unfold listing_of. rewrite merge_sort_Permutation.
    eapply Nat.le_lt_trans; [|done]. apply sublist_length, sublist_filter_bool.
  - exists s'. split_and!; [done|done|apply merge_sort_Permutation|].
    apply StronglySorted_merge_sort; apply _.
Qed.

Import demo.

(** Two matched releases. *)
Definition d5 : db := after (OpSubmit cfg (verdict_of ih2 1 "matched" "anidb:1")) (base + Second) d3.
Definition d6 : db := after (OpClaim cfg take_one) (base + 2 * Second) d5.
Definition shelf : db := after (OpSubmit cfg (verdict_of ih1 1 "matched" "anidb:1")) (base + 3 * Second) d6.
Lemma shelf_reachable : reachable shelf.
Proof. do 4 apply after_reachable. apply d2_reachable. Qed.
Definition one_by_one : ReleaseQuery := {|
  rq_Ref := "anidb:1"; rq_Since := None; rq_Limit := 1; rq_Cursor := "";
|}.
Lemma rfc3339_rows l :
  forallb (λ t, let '(y, _, _) := civil_from_days (t / Day_ns) in (0 <=? y) && (y <=? 9999)) l = true →
  ∀ t, t ∈ l → rfc3339_range t.
Proof.
  intros H t Ht%list_elem_of_In. rewrite forallb_forall in H. specialize (H t Ht).
  unfold rfc3339_range. destruct (civil_from_days _) as [[y m] d]. bool_hyps. lia.
Qed.

Lemma shelf_times r : r ∈ rows shelf → rfc3339_range (r_published_at r).
Proof.
  intros Hr. apply (rfc3339_rows (r_published_at <$> rows shelf)); [vm_compute; reflexivity|].
  generalize (rows shelf) as l, Hr. intros l Hl. by apply list_elem_of_fmap_2.
Qed.

Lemma listing_complete_witness :
  ∃ l s', walk 3 one_by_one (quiet base) (State 0 shelf) = (Ok (release_item <$> l), s') ∧ length l = 2%nat.
Proof.
  destruct (listing_complete 3 one_by_one (quiet base) (State 0 shelf)) as (l&s'&H&_&Hl&_).
  - apply shelf_reachable.
  - done.
  - right. apply cursor.refRe_shape. reflexivity.
  - reflexivity.
  - reflexivity.
  - exact shelf_times.
  - apply Nat.ltb_lt. vm_compute. reflexivity.
  - exists l, s'. split; [exact H|]. rewrite Hl. vm_compute. reflexivity.
Defined.

Lemma next_cursor_error q path keyed e :
  next_cursor q path keyed = Err e → ∃ e', e = wrapf "list_releases %s: encode cursor: %w" [rq_Ref q] e'.
Proof.
  unfold next_cursor. destruct (last keyed) as [[item key]|]; [|done].
  destruct (cursor.Encode _) as [e'|enc]; [|done]. intros [= <-]. by exists e'.
Qed.
(** The answers once the request is accepted. *)
Lemma page_answer q (rows_sql : db → list (ReleaseItem * Time)) E s :
  let limit := releases_limit (rq_Limit q) in
  let '(res, s') :=
    (keyed ← query (wrapf "list_releases %s: %w" [rq_Ref q]) rows_sql;
     _ ← collect (wrapf "list_releases %s: collect: %w" [rq_Ref q]);
     let hasMore := limit <? Z.of_nat (length keyed) in
     let keyed := if hasMore then take (Z.to_nat limit) keyed else keyed in
     next ← (if hasMore then lift (next_cursor q (path_of q) keyed) else mret "");
     mret {| rp_Releases := keyed.*1; rp_NextCursor := next |}) E s in
  sdb s' = sdb s ∧
  match res with
  | Err e => e ≠ cursor.ErrInvalidRef ∧ e ≠ cursor.ErrInvalidCursor
  | Ok page => Z.of_nat (length (rp_Releases page)) ≤ limit ≤ 500
  end.
Proof.
  intros limit. pose proof (releases_limit_bounds (rq_Limit q)) as Hl. fold limit in Hl.
  unfold collect, query, statement, lift, mbind, M_bind, mret, M_ret.
  destruct (fault E (tick s)); [done|]. cbn [sdb tick].
  destruct (fault E (S (tick s))); [done|]. cbn [sdb tick].
  destruct (Z.ltb_spec limit (Z.of_nat (length (rows_sql (sdb s))))) as [Hm|Hm].
  - destruct (next_cursor _ _ _) as [e|n] eqn:En.
    + by apply next_cursor_error in En as [e' ->].
    + cbn. split; [done|]. rewrite length_fmap, length_take. lia.
  - cbn. split; [done|]. rewrite length_fmap. lia.
Qed.

(** What a listing answers before it looks at the tables, and how big a
    page is: a malformed ref is [ErrInvalidRef] and a cursor that does not
    decode for this ref and path is [ErrInvalidCursor], both before any
    statement; a page has at most 500 releases, whatever limit is asked for. *)
Theorem listing_answers q E s :
  let '(res, s') := ListReleases q E s in
  match if bool_decide (rq_Ref q = "") then Ok tt else cursor.ValidateRef (rq_Ref q),
        if bool_decide (rq_Cursor q = "") then Ok tt
        else (_ ← cursor.Decode (rq_Cursor q) (rq_Ref q) (path_of q); Ok tt) with
  | Err e, _ => e = cursor.ErrInvalidRef ∧ res = Err e ∧ s' = s
  | _, Err e => e = cursor.ErrInvalidCursor ∧ res = Err e ∧ s' = s
  | Ok _, Ok _ =>
      sdb s' = sdb s ∧
      match res with
      | Err e => e ≠ cursor.ErrInvalidRef ∧ e ≠ cursor.ErrInvalidCursor
      | Ok page => Z.of_nat (length (rp_Releases page)) ≤ releases_limit (rq_Limit q) ≤ 500
      end
  end.
Proof.
  unfold ListReleases, lift, mbind, M_bind. rewrite bool_decide_not. fold (path_of q). unfold seek_of at 1.
  destruct (bool_decide (rq_Ref q = "")); cbn [negb].
  2: destruct (cursor.ValidateRef (rq_Ref q)) as [e|[]] eqn:Er; [by apply cursor.ValidateRef_Err in Er as [-> _]|].
  all: rewrite bool_decide_not; destruct (bool_decide (rq_Cursor q = "")); cbn [negb].
  all: try (destruct (cursor.Decode _ _ _) as [e|c] eqn:Ec; [by apply cursor.Decode_error in Ec as ->|]).
  all: unfold mbind, result_bind; apply page_answer.
Qed.
