(* ===== verification/DetailThms.v ===== *)
(** * What [GetRelease] and [ResolveMagnets] return

    The parts of a release's detail agree with each other, and a magnet is
    returned exactly for the requested releases that have one. *)

From S2P Require Import Prelude GoStrings GoTime Store Cursor Db Postgres.
From S2P Require Import StoreSpec StoreInv Queue QueueThms Listing ListingThms.
Import store postgres listing.

(** ** The representative fields *)

#[global] Instance newest_first_trans : Transitive newest_first.
Proof. intros a b c. unfold newest_first. lia. Qed.
#[global] Instance newest_first_total : Total newest_first.
Proof. intros a b. unfold newest_first. lia. Qed.
#[global] Instance id_asc_trans : Transitive id_asc.
Proof. intros a b c. unfold id_asc. lia. Qed.
#[global] Instance id_asc_total : Total id_asc.
Proof. intros a b. unfold id_asc. lia. Qed.
#[global] Instance event_asc_trans : Transitive event_asc.
Proof. intros a b c. unfold event_asc. lia. Qed.
#[global] Instance event_asc_total : Total event_asc.
Proof. intros a b. unfold event_asc. lia. Qed.

Lemma represented_title items r :
  represented items r →
  ∃ ri, ri ∈ items ∧ raw_title ri = r_title r
        ∧ ∀ ri', ri' ∈ items → raw_published_at ri' ≤ raw_published_at ri.
Proof.
  intros (Ht&_&_). unfold newest_title in Ht.
  destruct (merge_sort newest_first items) as [|ri l] eqn:E; [done|]. injection Ht as Ht.
  assert (StronglySorted newest_first (ri :: l)) as Hs by (rewrite <-E; apply StronglySorted_merge_sort; apply _).
  assert (ri :: l ≡ₚ items) as Hp by (rewrite <-E; apply merge_sort_Permutation).
  exists ri. split_and!; [rewrite <-Hp; constructor|done|]. intros ri'. rewrite <-Hp.
  intros Hin. assert (ri' = ri ∨ ri' ∈ l) as [->|Hri'] by set_solver; [done|].
  apply StronglySorted_cons in Hs as [Hs _]. rewrite Forall_forall in Hs.
  destruct (Hs _ Hri') as [|[-> _]]; lia.
Qed.

Lemma represented_published items r :
  represented items r →
  (∃ ri, ri ∈ items ∧ raw_published_at ri = r_published_at r)
  ∧ ∀ ri, ri ∈ items → r_published_at r ≤ raw_published_at ri.
Proof.
  intros (_&He&_). unfold earliest in He. destruct items as [|x items]; [done|]. cbn in He. injection He as <-.
  induction items as [|y items [IH1 IH2]]; cbn.
  - split; [by exists x; split; [constructor|]|]. intros ri ->%list_elem_of_singleton. lia.
  - set (m := foldr _ _ _) in *. split.
    + destruct (Z.min_spec (raw_published_at y) m) as [[_ E]|[_ E]].
      * exists y. split; [set_solver|]. done.
      * destruct IH1 as (ri&Hri&E'). exists ri. split; [set_solver|]. by unfold compose in *; rewrite E.
    + intros ri Hri. assert (ri = y ∨ ri ∈ x :: items) as [->|H] by set_solver.
      * apply Z.le_min_l.
      * etransitivity; [apply Z.le_min_r|auto].
Qed.

Lemma represented_sources items r src :
  represented items r → (src ∈ r_sources r ↔ ∃ ri, ri ∈ items ∧ raw_source ri = src).
Proof.
  intros (_&_&<-). unfold distinct_sources.
  rewrite merge_sort_Permutation, elem_of_remove_dups, list_elem_of_fmap. naive_solver.
Qed.

(** ** Running the read methods *)

(** The detail of a row. *)
Definition detail_of (ih : string) (r : release_row) (d : db) : ReleaseDetail :=
  release_detail r (rawItemsByInfohash ih d) (match_events_sql ih d).

Lemma GetRelease_run ih E s :
  healthy E →
  ∃ s', same_tables (sdb s) (sdb s') ∧
    GetRelease ih E s =
      (match releases (sdb s) !! ih with
       | None => Err (wrapf "get_release %s: %w" [ih] ErrNoSuchRelease)
       | Some r => Ok (detail_of ih r (sdb s))
       end, s').
Proof.
  intros HE. unfold GetRelease, in_tx, mbind, M_bind. rewrite HE.
  unfold query at 1, statement. rewrite HE. cbn [sdb tick].
  destruct (releases (sdb s) !! ih) as [r|].
  - unfold rawItemsFor, releaseMatchEvents, collect, query, statement, mbind, M_bind, mret, M_ret.
    rewrite !HE. cbn [sdb tick]. repeat (rewrite HE; cbn [sdb tick]). by eexists; split; [|reflexivity].
  - by eexists; split; [|reflexivity].
Qed.

(** ** The detail is consistent *)

Definition spent (e : MatchEventDetail) : bool :=
  bool_decide (med_Status e = "unmatched") || bool_decide (med_Status e = "exhausted").

Record consistent (det : ReleaseDetail) : Prop := {
  cons_raw_order : StronglySorted Z.lt (rid_ID <$> rd_RawItems det);
  cons_title : ∃ x, x ∈ rd_RawItems det ∧ rid_Title x = rd_Title det
                    ∧ ∀ y, y ∈ rd_RawItems det → rid_PublishedAt y ≤ rid_PublishedAt x;
  cons_published : (∃ x, x ∈ rd_RawItems det ∧ rid_PublishedAt x = rd_PublishedAt det)
                   ∧ ∀ y, y ∈ rd_RawItems det → rd_PublishedAt det ≤ rid_PublishedAt y;
  cons_sources src : src ∈ rd_Sources det ↔ ∃ x, x ∈ rd_RawItems det ∧ rid_Source x = src;
  cons_attempts : count_if spent (rd_MatchEvents det) = rd_AttemptCount det;
  cons_matched : rd_MatchStatus det = "matched" ↔ is_Some (rd_Ref det);
  cons_verdict : rd_MatchStatus det = "matched" →
    ∃ e, e ∈ rd_MatchEvents det ∧ med_Status e = "matched" ∧ med_Ref e = rd_Ref det
         ∧ med_Confidence e = rd_Confidence det ∧ Some (med_CreatedAt e) = rd_FirstMatchedAt det;
}.

Lemma count_if_perm {A} (p : A → bool) l k : l ≡ₚ k → count_if p l = count_if p k.
Proof. intros H. unfold count_if. by rewrite H. Qed.
Lemma count_if_fmap {A B} (f : A → B) (p : B → bool) l : count_if p (f <$> l) = count_if (λ x, p (f x)) l.
Proof.
  unfold count_if. f_equal. induction l as [|x l IH]; cbn; [done|]. by destruct (p (f x)); cbn; rewrite IH.
Qed.

Lemma elem_of_raw ih d x :
  x ∈ rawItemsByInfohash ih d ↔ ∃ ri, ri ∈ raw_items_of ih d ∧ x = raw_item_detail ri.
Proof.
  unfold rawItemsByInfohash. rewrite list_elem_of_fmap.
  setoid_rewrite merge_sort_Permutation. naive_solver.
Qed.
Lemma elem_of_events ih d x :
  x ∈ match_events_sql ih d ↔ ∃ e, e ∈ events_of ih d ∧ x = match_event_detail e.
Proof.
  unfold match_events_sql. rewrite list_elem_of_fmap. setoid_rewrite merge_sort_Permutation.
  unfold events_of. naive_solver.
Qed.

Lemma strictly_sorted {A} (f : A → Z) l :
  StronglySorted (λ a b, f a ≤ f b) l → NoDup (f <$> l) → StronglySorted Z.lt (f <$> l).
Proof.
  induction 1 as [|x l Hl IH Hx]; cbn; [constructor|]. intros [Hnot Hnd]%NoDup_cons.
  constructor; [auto|]. apply Forall_fmap, Forall_forall. intros y Hy. rewrite Forall_forall in Hx.
  specialize (Hx y Hy). cbn. assert (f x ≠ f y); [|lia].
  intros E. apply Hnot. rewrite E. by apply list_elem_of_fmap_2.
Qed.
Lemma sorted_nodup l : StronglySorted Z.lt l → NoDup l.
Proof.
  induction 1 as [|x l Hl IH Hx]; constructor; [|done]. intros Hin. rewrite Forall_forall in Hx.
  specialize (Hx x Hin). lia.
Qed.
Lemma sublist_fmap_filter {A B} (f : A → B) p l : f <$> List.filter p l `sublist_of` f <$> l.
Proof.
  induction l as [|x l IH]; cbn; [constructor|]. destruct (p x); cbn; by constructor.
Qed.

Lemma raw_order ih d : db_ok d → StronglySorted Z.lt (rid_ID <$> rawItemsByInfohash ih d).
Proof.
  intros Hd. unfold rawItemsByInfohash. rewrite <-list_fmap_compose.
  apply (strictly_sorted raw_id).
  - change (λ a b, raw_id a ≤ raw_id b) with id_asc. apply StronglySorted_merge_sort; apply _.
  - rewrite merge_sort_Permutation. eapply sublist_NoDup; [|apply sublist_fmap_filter].
    apply sorted_nodup, Hd.
Qed.

Lemma spent_is_retry e : spent (match_event_detail e) = is_retry e.
Proof. unfold spent, is_retry. by destruct e as [? ? [] ? ? ? ?]. Qed.
Lemma status_string_matched st : status_string st = "matched" ↔ st = matched.
Proof. by destruct st. Qed.

Lemma detail_consistent ih r d :
  db_ok d → releases d !! ih = Some r → consistent (detail_of ih r d).
Proof.
  intros Hd Hr. pose proof (ok_rows _ Hd _ _ Hr) as Hrow. pose proof (ok_represented _ Hd _ _ Hr) as Hrep.
  destruct (ok_logged _ Hd _ _ Hr) as [Hcount Hlog]. split; cbn [detail_of release_detail
    rd_RawItems rd_MatchEvents rd_Title rd_PublishedAt rd_Sources rd_AttemptCount rd_MatchStatus rd_Ref
    rd_Confidence rd_FirstMatchedAt].
  - by apply raw_order.
  - destruct (represented_title _ _ Hrep) as (ri&Hri&Ht&Hmax). exists (raw_item_detail ri).
    split_and!; [apply elem_of_raw; eauto|done|]. intros y (ri'&Hri'&->)%elem_of_raw. by apply Hmax.
  - destruct (represented_published _ _ Hrep) as [(ri&Hri&Ht) Hmin]. split.
    + exists (raw_item_detail ri). split; [apply elem_of_raw; eauto|done].
    + intros y (ri'&Hri'&->)%elem_of_raw. by apply Hmin.
  - intros src. rewrite (represented_sources _ _ _ Hrep). split.
    + intros (ri&Hri&<-). exists (raw_item_detail ri). split; [apply elem_of_raw; eauto|done].
    + intros (x&(ri&Hri&->)%elem_of_raw&<-). eauto.
  - rewrite <-Hcount. unfold match_events_sql. rewrite count_if_fmap.
    rewrite (count_if_ext _ is_retry) by (intros; apply spent_is_retry).
    apply count_if_perm, merge_sort_Permutation.
  - rewrite status_string_matched. pose proof (ok_ref _ _ Hrow) as H.
    destruct (r_ref r); [|split; [by intros|by intros []]]. split; [done|]. by destruct H.
  - rewrite status_string_matched. intros Hm.
    destruct Hlog as [[_ [H|H]]|(retries&e&He&_&_&Hst&Href&Hrest)]; [congruence..|].
    destruct (Hrest Hm) as [Hconf Hfirst]. exists (match_event_detail e). split_and!.
    + apply elem_of_events. exists e. split; [rewrite He; set_solver|done].
    + cbn. by rewrite Hst, Hm.
    + by rewrite <-Href.
    + done.
    + done.
Qed.

(** C29: without driver errors, [GetRelease] finds a release exactly when the
    store has it and then returns a detail whose parts agree: all its raw
    items in id order, of which the newest gives the title, the earliest the
    publication time and all of them the sources; all its events, of which
    the unmatched and exhausted ones are the attempts spent; and, when it is
    matched, the event that says so with the same ref, confidence and time.
    Nothing is written. *)
Theorem get_release_consistent ih E s :
  reachable (sdb s) → healthy E →
  let '(res, s') := GetRelease ih E s in
  same_tables (sdb s) (sdb s') ∧
  match res with
  | Err e => e = wrapf "get_release %s: %w" [ih] ErrNoSuchRelease ∧ releases (sdb s) !! ih = None
  | Ok det =>
      rd_Infohash det = ih ∧ consistent det
      ∧ (∃ r, releases (sdb s) !! ih = Some r ∧ rd_MatchStatus det = status_string (r_match_status r))
      ∧ rd_RawItems det ≡ₚ raw_item_detail <$> raw_items_of ih (sdb s)
      ∧ rd_MatchEvents det ≡ₚ match_event_detail <$> events_of ih (sdb s)
  end.
Proof.
  intros Hd%reachable_ok HE. destruct (GetRelease_run ih E s HE) as (s'&Hs&->). split; [done|].
  destruct (releases (sdb s) !! ih) as [r|] eqn:Hr; [|done]. split_and!.
  - apply (ok_key _ _ (ok_rows _ Hd _ _ Hr)).
  - by apply detail_consistent.
  - by exists r.
  - cbn. unfold rawItemsByInfohash. by rewrite merge_sort_Permutation.
  - cbn. unfold match_events_sql. by rewrite merge_sort_Permutation.
Qed.

Lemma get_release_consistent_witness :
  let '(res, s') := GetRelease demo.ih2 (demo.quiet demo.base) (State 0 shelf) in
  match res with Err _ => False | Ok det => consistent det ∧ rd_MatchStatus det = "matched" end.
Proof.
  pose proof (get_release_consistent demo.ih2 (demo.quiet demo.base) (State 0 shelf) shelf_reachable
    (λ _, eq_refl)) as H.
  assert ((r_match_status <$> releases shelf !! demo.ih2) = Some matched) as E by (vm_compute; reflexivity).
  destruct (GetRelease _ _ _) as [[e|det] s']; destruct H as [_ H]; cbn [sdb] in H.
  - destruct H as [_ H]. rewrite H in E. discriminate.
  - destruct H as (_&Hc&(r&Hr&Hs)&_). split; [exact Hc|]. rewrite Hs.
    rewrite Hr in E. injection E as ->. reflexivity.
Defined.

(** ** The read operations write nothing, whatever the driver does *)

Definition reads {A} (m : M A) : Prop := ∀ E s, sdb (m E s).2 = sdb s.

Lemma reads_ret {A} (a : A) : reads (mret a).
Proof. by intros E s. Qed.
Lemma reads_lift {A} (r : result A) : reads (lift r).
Proof. by intros E s. Qed.
Lemma reads_raise {A} e : reads (raise e : M A).
Proof. by intros E s. Qed.
Lemma reads_query {A} wrap (f : db → A) : reads (query wrap f).
Proof. intros E s. unfold query, statement. by destruct (fault E (tick s)). Qed.
Lemma reads_collect wrap : reads (collect wrap).
Proof. apply reads_query. Qed.
Lemma reads_bind {A B} (m : M A) (f : A → M B) : reads m → (∀ a, reads (f a)) → reads (m ≫= f).
Proof.
  intros Hm Hf E s. unfold mbind, M_bind. specialize (Hm E s). destruct (m E s) as [[e|a] s']; [done|].
  rewrite <-Hm. apply Hf.
Qed.
Lemma rollback_refl d : rollback d d = d.
Proof. by destruct d. Qed.
Lemma reads_in_tx {A} b c (body : M (tx_end * A)) : reads body → reads (in_tx b c body).
Proof.
  intros Hb E s. unfold in_tx. destruct (fault E (tick s)); [done|].
  specialize (Hb E (State (S (tick s)) (sdb s))). cbn in Hb.
  destruct (body E _) as [[e|[[] a]] s']; cbn in *; rewrite ?Hb; [apply rollback_refl| |apply rollback_refl].
  destruct (fault E (tick s')); cbn; [apply rollback_refl|done].
Qed.
Create HintDb reads.
#[export] Hint Resolve reads_ret reads_lift reads_raise reads_query reads_collect reads_bind reads_in_tx : reads.

Lemma ListReleases_reads `{cursor.CursorCodec} q : reads (ListReleases q).
Proof.
  unfold ListReleases. apply reads_bind; [auto with reads|intros _].
  apply reads_bind; [auto with reads|intros seek].
  destruct (match seek with None => _ | Some c => _ end) as [[seekKey seekHash] hasSeek].
  apply reads_bind; [auto with reads|intros keyed]. apply reads_bind; [auto with reads|intros _].
  apply reads_bind; [destruct (_ <? _); auto with reads|auto with reads].
Qed.
Lemma GetRelease_reads ih : reads (GetRelease ih).
Proof.
  apply reads_in_tx, reads_bind; [auto with reads|intros [r|]; [|auto with reads]].
  unfold rawItemsFor, releaseMatchEvents.
  repeat (apply reads_bind; [|intros ?]); auto with reads.
Qed.
Lemma ResolveMagnets_reads ihs : reads (ResolveMagnets ihs).
Proof. unfold ResolveMagnets. destruct (_ <? _); [|destruct (_ =? _)];
  repeat (apply reads_bind; [|intros ?]); auto with reads. Qed.

(** ** Magnets *)

Lemma foldl_insert_lookup (l : list (string * string)) (m : gmap string string) k v :
  NoDup (l.*1) →
  foldl (λ out '(ih, magnet), <[ih := magnet]> out) m l !! k = Some v ↔
  (k, v) ∈ l ∨ k ∉ l.*1 ∧ m !! k = Some v.
Proof.
  revert m. induction l as [|[k' v'] l IH]; intros m; cbn; [set_solver|].
  intros [Hnot Hnd]%NoDup_cons. rewrite IH by done. destruct (decide (k = k')) as [->|Hne].
  - rewrite lookup_insert_eq. split.
    + intros [H|[_ [= ->]]]; [|set_solver]. left. set_solver.
    + intros [H|[H _]]; [|set_solver].
      assert ((k', v) = (k', v') ∨ (k', v) ∈ l) as [[= ->]|Hl] by set_solver; [by right|].
      by destruct Hnot; apply (list_elem_of_fmap_2 fst) in Hl.
  - rewrite lookup_insert_ne by done. set_solver.
Qed.

Lemma magnets_sql_keys infohashes d : keyed d → NoDup ((magnets_sql infohashes d).*1).
Proof.
  intros Hk%keyed_rows_nodup. unfold magnets_sql.
  assert ((omap (λ r, if bool_decide (r_infohash r ∈ infohashes)
             then (λ m, (r_infohash r, m)) <$> r_magnet r else None) (rows d)).*1
    `sublist_of` r_infohash <$> rows d) as Hsub; [|by eapply sublist_NoDup].
  clear. induction (rows d) as [|r l IH]; cbn; [constructor|].
  destruct (bool_decide _); [|by constructor]. destruct (r_magnet r); cbn; by constructor.
Qed.
Lemma elem_of_magnets infohashes d k v :
  keyed d →
  (k, v) ∈ magnets_sql infohashes d ↔
  k ∈ infohashes ∧ ∃ r, releases d !! k = Some r ∧ r_magnet r = Some v.
Proof.
  intros Hk. unfold magnets_sql. rewrite list_elem_of_omap. split.
  - intros (r&[ih Hr]%elem_of_rows&H). case_bool_decide as Hin; [|done].
    pose proof (Hk _ _ Hr) as <-. destruct (r_magnet r) eqn:Em; [|done]. injection H as <- <-. eauto.
  - intros (Hin&r&Hr&Hm). exists r. split; [apply elem_of_rows; eauto|].
    pose proof (Hk _ _ Hr) as <-. by rewrite bool_decide_eq_true_2, Hm.
Qed.

Lemma ResolveMagnets_run ihs E n d :
  keyed d → healthy E →
  let '(res, s') := ResolveMagnets ihs E (State n d) in
  sdb s' = d ∧
  if 500 <? Z.of_nat (length ihs)
  then s' = State n d ∧ res = Err (Errorf "resolve_magnets: batch of %d exceeds hard cap %d"
                             [Itoa (Z.of_nat (length ihs)); "500"] [])
  else ∃ found, res = Ok found ∧
    ∀ ih magnet, found !! ih = Some magnet ↔
      ih ∈ ihs ∧ ∃ r, releases d !! ih = Some r ∧ r_magnet r = Some magnet.
Proof.
  intros Hd HE. unfold ResolveMagnets, maxMagnetsBatch.
  destruct (500 <? _); [done|]. destruct (Z.eqb_spec (Z.of_nat (length ihs)) 0) as [H0|_].
  - split; [done|]. exists ∅. split; [done|]. intros ih magnet.
    rewrite (nil_length_inv ihs) by lia. rewrite lookup_empty. set_solver.
  - unfold collect, query, statement, mbind, M_bind. rewrite HE. cbn [sdb tick].
    do 2 (rewrite HE; cbn [sdb tick]). split; [done|]. eexists. split; [done|].
    intros ih magnet. rewrite foldl_insert_lookup by by apply magnets_sql_keys.
    rewrite elem_of_magnets by done. set_solver.
Qed.

(** Without driver errors, a batch of at most 500 infohashes resolves to
    exactly the magnets the store holds for the requested releases, and a
    larger batch is refused before any query; nothing is written. *)
Theorem resolve_magnets_exact ihs E n d :
  reachable d → healthy E →
  let '(res, s') := ResolveMagnets ihs E (State n d) in
  sdb s' = d ∧
  if 500 <? Z.of_nat (length ihs)
  then s' = State n d ∧ res = Err (Errorf "resolve_magnets: batch of %d exceeds hard cap %d"
                             [Itoa (Z.of_nat (length ihs)); "500"] [])
  else ∃ found, res = Ok found ∧
    ∀ ih magnet, found !! ih = Some magnet ↔
      ih ∈ ihs ∧ ∃ r, releases d !! ih = Some r ∧ r_magnet r = Some magnet.
Proof. intros Hd%reachable_ok%db_ok_keyed. by apply ResolveMagnets_run. Qed.
