(* ===== verification/Rawpost.v ===== *)
(** * Package [pkg/rawpost]: the wire contract between crawlers and the store

    The [RawPost] a crawler emits, the ingest summary, and the registry of
    sources (src/pkg/rawpost/rawpost.go). *)

From S2P Require Import Prelude GoTime.

Module rawpost.

Definition SourceDMHY : string := "dmhy".
Definition SourceNyaa : string := "nyaa".
Definition knownSources : list string := [SourceDMHY; SourceNyaa].
Definition Sources : list string := knownSources.

Record RawPost := {
  rp_Title : string;
  rp_Magnet : string;
  rp_Source : string;
  rp_SourceID : string;
  rp_URL : string;
  rp_PublishedAt : Time;
  rp_SizeBytes : Z;
}.

Record QueueStats := { q_Available : Z; q_Leased : Z; q_Exhausted : Z }.

Record IngestBatch := {
  ib_New : Z;
  ib_Updated : Z;
  ib_Duplicate : Z;
  ib_Conflict : Z;
  ib_Skipped : Z;
}.
Record IngestSummary := { is_Batch : IngestBatch; is_Queue : QueueStats }.

End rawpost.
