(* ===== verification/Crawl.v ===== *)
(** * Package [pkg/crawl]: the stateless page walk

    [ParseCursor], [FormatCursor], [Crawl] and its helpers
    (src/pkg/crawl/crawl.go).  A fetch may answer differently each time it is
    called, so the fetcher is an oracle of the call's number and the page;
    the parser is a function of the body. *)

From S2P Require Import Prelude GoStrings GoTime Rawpost.
From Stdlib Require Import Ascii.
Import rawpost.

Module crawl.

(** ** Types and errors *)

Record CrawlRequest := { cq_PageSize : Z; cq_Cursor : string; cq_Lookback : string }.

Record CrawlResponse := {
  Posts : list RawPost;
  NextCursor : string;
  HasMore : bool;
  StopReason : string;
  PagesFetched : Z;
  LastPage : Z;
}.

Record Crawler := {
  source : string;
  fetch : nat → Z → result string;
  parse : string → result (list RawPost);
  threshold : Z;
  floorReason : string;
  parseErrorContext : option (Z → string);
  now : Time;
}.

Record Config := {
  cfg_Source : string;
  cfg_Fetch : nat → Z → result string;
  cfg_Parse : string → result (list RawPost);
  cfg_Threshold : Z;
  cfg_FloorReason : string;
  cfg_ParseErrorContext : option (Z → string);
  cfg_Now : option Time;
}.
(** [time_Now] is what the wall clock shows, which a crawler without a clock
    of its own reads. *)
Definition NewCrawler (time_Now : Time) (cfg : Config) : Crawler := {|
  source := cfg_Source cfg;
  fetch := cfg_Fetch cfg;
  parse := cfg_Parse cfg;
  threshold := cfg_Threshold cfg;
  floorReason := cfg_FloorReason cfg;
  parseErrorContext := cfg_ParseErrorContext cfg;
  now := default time_Now (cfg_Now cfg);
|}.

Definition ErrCrawlFetch : error := ErrNew "crawl fetch".
Definition ErrCrawlParse : error := ErrNew "crawl parse".

(** ** Cursors *)

Definition malformed_cursor (source cursor : string) : error :=
  Errorf "%s: malformed cursor %q" [source; cursor] [].

Definition ParseCursor (source cursor : string) : result (Z * Z) :=
  if bool_decide (cursor = "") then Ok (0, 0) else
  match cut cursor ":"%char with
  | None => Err (malformed_cursor source cursor)
  | Some (p, o) =>
      match Atoi p with
      | None => Err (malformed_cursor source cursor)
      | Some page =>
          if page <? 0 then Err (malformed_cursor source cursor) else
          match Atoi o with
          | None => Err (malformed_cursor source cursor)
          | Some offset =>
              if offset <? 0 then Err (malformed_cursor source cursor) else Ok (page, offset)
          end
      end
  end.

Definition FormatCursor (page offset : Z) : string := Itoa page +:+ ":" +:+ Itoa offset.

(** ** Helpers *)

Definition clampPageSize (n : Z) : Z :=
  if n <? 1 then 1 else if 200 <? n then 200 else n.

(** The cutoff is [None] when there is no lookback. *)
Definition outOfWindow (publishedAt : Time) (cutoff : option Time) : bool :=
  match cutoff with
  | None => false
  | Some cutoff => negb (IsZero publishedAt) && Before publishedAt cutoff
  end.

Definition response (posts : list RawPost) (nextCursor : string) (hasMore : bool)
    (stopReason : string) (pagesFetched lastPage : Z) : CrawlResponse := {|
  Posts := posts;
  NextCursor := nextCursor;
  HasMore := hasMore;
  StopReason := stopReason;
  PagesFetched := pagesFetched;
  LastPage := lastPage;
|}.

Definition parsePage (c : Crawler) (body : string) (page : Z) : result (list RawPost) :=
  match parse c body with
  | Ok pagePosts => Ok pagePosts
  | Err err =>
      let contextText := match parseErrorContext c with None => "" | Some f => f page end in
      if bool_decide (contextText ≠ "")
      then Err (Errorf "%s: %w: %s: %w" [source c; contextText] [ErrCrawlParse; err])
      else Err (Errorf "%s: %w: page %d: %w" [source c; Itoa page] [ErrCrawlParse; err])
  end.

(** ** The walk *)

Section walk.
Context (c : Crawler) (pageSize : Z) (cutoff : option Time).

(** [for i := pageStart; i < len(pagePosts); i++]: [rows] are the rows from
    index [i] on.  The loop returns a response, or runs off the page with the
    posts gathered. *)
Fixpoint rows_loop (page pagesFetched i : Z) (posts rows : list RawPost)
    : CrawlResponse + list RawPost :=
  match rows with
  | [] => inr posts
  | p :: rows =>
      if outOfWindow (rp_PublishedAt p) cutoff
      then inl (response posts "" false "lookback_boundary" pagesFetched page)
      else
        let posts := posts ++ [p] in
        if Z.of_nat (length posts) <? pageSize
        then rows_loop page pagesFetched (i + 1) posts rows
        else
          match rows with
          | next :: _ =>
              if outOfWindow (rp_PublishedAt next) cutoff
              then inl (response posts "" false "lookback_boundary" pagesFetched page)
              else inl (response posts (FormatCursor page (i + 1)) true "page_budget" pagesFetched page)
          | [] => inl (response posts (FormatCursor page 0) true "page_budget" pagesFetched page)
          end
  end.

(** The outer [for]: one iteration per fetched page, [k] pages fetched so
    far.  [None] is a walk that has not ended. *)
Fixpoint pages_loop (fuel k : nat) (page skip consecutiveEmpty : Z) (posts : list RawPost)
    : option (result CrawlResponse) :=
  match fuel with
  | O => None
  | S fuel =>
      match fetch c k page with
      | Err err => Some (Err (Errorf "%s: %w: %w" [source c] [ErrCrawlFetch; err]))
      | Ok body =>
          let pagesFetched := Z.of_nat (S k) in
          match parsePage c body page with
          | Err err => Some (Err err)
          | Ok [] =>
              let consecutiveEmpty := consecutiveEmpty + 1 in
              if threshold c <=? consecutiveEmpty
              then Some (Ok (response posts "" false (floorReason c) pagesFetched page))
              else pages_loop fuel (S k) (wrap64 (page + 1)) 0 consecutiveEmpty posts
          | Ok pagePosts =>
              let pageStart := Z.min skip (Z.of_nat (length pagePosts)) in
              match rows_loop page pagesFetched pageStart posts (drop (Z.to_nat pageStart) pagePosts) with
              | inl resp => Some (Ok resp)
              | inr posts => pages_loop fuel (S k) (wrap64 (page + 1)) 0 0 posts
              end
          end
      end
  end.
End walk.

Definition Crawl (c : Crawler) (req : CrawlRequest) (lookback : Duration) (fuel : nat)
    : option (result CrawlResponse) :=
  match ParseCursor (source c) (cq_Cursor req) with
  | Err err => Some (Err err)
  | Ok (curPage, curOffset) =>
      let pageSize := clampPageSize (cq_PageSize req) in
      let cutoff := if 0 <? lookback then Some (Add (now c) (wrap64 (- lookback))) else None in
      let skip := curOffset in
      let page := if skip =? 0 then wrap64 (curPage + 1) else curPage in
      pages_loop c pageSize cutoff fuel 0 page skip 0 []
  end.

(** Enough iterations for any walk: every page that is not empty, but the
    first, adds a post, and empty runs are shorter than the threshold. *)
Definition enough (c : Crawler) : nat := 202 * S (Z.to_nat (threshold c)).


End crawl.
