(* ===== verification/CrawlThms.v ===== *)
(** * The page walk: termination, soundness, completeness

    For any source, a crawl ends after a bounded number of fetches; what it
    returns is a contiguous run of the rows it fetched, and it reports the
    end only on a confirmed floor or at the lookback boundary.  For a source
    that does not change between calls, following the cursors returns every
    in-window row exactly once, in order. *)

From S2P Require Import Prelude GoStrings GoTime Rawpost Crawl.
Import rawpost crawl.

Definition in_window (cutoff : option Time) (p : RawPost) : Prop :=
  outOfWindow (rp_PublishedAt p) cutoff = false.
Definition outside (cutoff : option Time) (p : RawPost) : Prop :=
  outOfWindow (rp_PublishedAt p) cutoff = true.

Lemma clampPageSize_bounds n : 1 ≤ clampPageSize n ≤ 200.
Proof.
  unfold clampPageSize. destruct (n <? 1) eqn:?; [lia|]. destruct (200 <? n) eqn:?; bool_hyps; lia.
Qed.

(** ** One page *)

(** What stopped the loop over the rows of a page. *)
Inductive page_end (cutoff : option Time) (pageSize page i : Z) (taken rest : list RawPost)
    : CrawlResponse → Prop :=
  | end_boundary posts pf x rest' :
      rest = x :: rest' → outside cutoff x → Z.of_nat (length posts) ≤ pageSize →
      page_end cutoff pageSize page i taken rest (response posts "" false "lookback_boundary" pf page)
  | end_budget posts pf :
      Z.of_nat (length posts) = pageSize → taken ≠ [] →
      (∀ x, head rest = Some x → in_window cutoff x) →
      page_end cutoff pageSize page i taken rest
        (response posts
           (FormatCursor page (match rest with [] => 0 | _ => i + Z.of_nat (length taken) end))
           true "page_budget" pf page).

Lemma rows_loop_spec pageSize cutoff page pf i posts rows :
  Z.of_nat (length posts) < pageSize →
  match rows_loop pageSize cutoff page pf i posts rows with
  | inr posts' =>
      posts' = posts ++ rows ∧ Forall (in_window cutoff) rows ∧ Z.of_nat (length posts') < pageSize
  | inl resp =>
      ∃ taken rest, rows = taken ++ rest ∧ Posts resp = posts ++ taken
        ∧ Forall (in_window cutoff) taken ∧ PagesFetched resp = pf
        ∧ page_end cutoff pageSize page i taken rest resp
  end.
Proof.
  revert i posts. induction rows as [|p rows IH]; intros i posts Hlt; cbn [rows_loop].
  { rewrite app_nil_r. by repeat split. }
  destruct (outOfWindow (rp_PublishedAt p) cutoff) eqn:Ep.
  { exists [], (p :: rows). rewrite app_nil_r. repeat split; [constructor|].
    eapply end_boundary; [done|done|lia]. }
  destruct (Z.ltb_spec (Z.of_nat (length (posts ++ [p]))) pageSize) as [Hmore|Hfull].
  - specialize (IH (i + 1) (posts ++ [p]) Hmore).
    destruct (rows_loop _ _ _ _ _ _ _) as [resp|posts'].
    + destruct IH as (taken&rest&->&HP&Hin&Hpf&Hend). exists (p :: taken), rest.
      rewrite HP, <-app_assoc. repeat split; [by constructor|done|].
      destruct Hend as [posts' pf' x rest' ? ? ?|posts' pf' ? ? ?].
      * by eapply end_boundary.
      * replace (match rest with [] => 0 | _ => i + 1 + Z.of_nat (length taken) end)
          with (match rest with [] => 0 | _ => i + Z.of_nat (length (p :: taken)) end)
          by (destruct rest; cbn [length]; lia).
        by apply end_budget.
    + destruct IH as (->&?&?). rewrite <-app_assoc. repeat split; [by constructor|].
      by rewrite <-app_assoc in *.
  - rewrite length_app in Hfull. cbn [length] in Hfull.
    destruct rows as [|next rows].
    { exists [p], []. repeat split; [by repeat constructor|].
      by apply (end_budget _ _ _ i [p] []); [rewrite length_app; cbn [length]; lia|..]. }
    destruct (outOfWindow (rp_PublishedAt next) cutoff) eqn:En;
      exists [p], (next :: rows); repeat split; try (by repeat constructor).
    + eapply end_boundary; [done|done|]. rewrite length_app. cbn [length]. lia.
    + apply (end_budget _ _ _ i [p] (next :: rows)); [rewrite length_app; cbn [length]; lia|done|].
      by intros x [= <-].
Qed.

(** ** Termination *)

Definition period (c : Crawler) : nat := S (Z.to_nat (threshold c)).

(** The first page may be skipped whole; every later page that is not empty
    adds a post, and an empty run is shorter than the threshold. *)
Definition fetches_left (c : Crawler) (pageSize skip e : Z) (posts : list RawPost) : nat :=
  (Z.to_nat pageSize - length posts) * period c + (period c - Z.to_nat e)
  + (if bool_decide (skip = 0%Z) then 0 else period c).

Lemma pages_loop_terminates c pageSize cutoff fuel k page skip e posts :
  Z.of_nat (length posts) < pageSize → 0 ≤ e → (e = 0 ∨ e < threshold c) → 0 ≤ skip →
  (fetches_left c pageSize skip e posts ≤ fuel)%nat →
  ∃ r, pages_loop c pageSize cutoff fuel k page skip e posts = Some r
       ∧ ∀ fuel', (fuel ≤ fuel')%nat → pages_loop c pageSize cutoff fuel' k page skip e posts = Some r.
Proof.
  revert k page skip e posts. induction fuel as [|fuel IH]; intros k page skip e posts Hlt He HeT Hs Hf.
  { unfold fetches_left, period in Hf. lia. }
  cut (∃ r, ∀ fuel', (S fuel ≤ fuel')%nat → pages_loop c pageSize cutoff fuel' k page skip e posts = Some r).
  { intros [r Hr]. exists r. auto. }
  assert (∀ P : nat → Prop, (∀ f, (fuel ≤ f)%nat → P (S f)) → ∀ f, (S fuel ≤ f)%nat → P f) as HS.
  { intros P HP [|f] Hle; [lia|]. apply HP. lia. }
  assert (∀ k' page' e' posts', Z.of_nat (length posts') < pageSize → 0 ≤ e' →
    (e' = 0 ∨ e' < threshold c) → (fetches_left c pageSize 0 e' posts' ≤ fuel)%nat →
    ∃ r, ∀ f, (fuel ≤ f)%nat → pages_loop c pageSize cutoff f k' page' 0 e' posts' = Some r) as Hnext.
  { intros k' page' e' posts' H1 H2 H3 H4.
    destruct (IH k' page' 0 e' posts' H1 H2 H3 ltac:(lia) H4) as (r&_&?). by exists r. }
  clear IH. destruct (fetch c k page) as [err|body] eqn:Ef.
  { eexists. apply HS. intros f _. cbn [pages_loop]. by rewrite Ef. }
  destruct (parsePage c body page) as [err|[|p rows]] eqn:Ep.
  { eexists. apply HS. intros f _. cbn [pages_loop]. by rewrite Ef, Ep. }
  - destruct (threshold c <=? e + 1) eqn:Et.
    { eexists. apply HS. intros f _. cbn [pages_loop]. by rewrite Ef, Ep, Et. }
    bool_hyps. destruct (Hnext (S k) (wrap64 (page + 1)) (e + 1) posts) as [r Hr]; try lia.
    { unfold fetches_left, period in *. rewrite bool_decide_eq_true_2 by done.
      destruct (bool_decide (skip = 0)); lia. }
    exists r. apply HS. intros f Hle. cbn [pages_loop]. rewrite Ef, Ep.
    apply Z.leb_gt in Et. rewrite Et. auto.
  - set (pageStart := Z.min skip (Z.of_nat (length (p :: rows)))).
    set (rest := drop (Z.to_nat pageStart) (p :: rows)).
    pose proof (rows_loop_spec pageSize cutoff page (Z.of_nat (S k)) pageStart posts rest Hlt) as Hrows.
    destruct (rows_loop _ _ _ _ _ _ _) as [resp|posts'] eqn:Er.
    { eexists. apply HS. intros f _. cbn [pages_loop]. rewrite Ef, Ep. fold pageStart rest. by rewrite Er. }
    destruct Hrows as (->&_&Hlt'). destruct (Hnext (S k) (wrap64 (page + 1)) 0 (posts ++ rest)) as [r Hr];
      [done|lia|by left| |].
    { assert (rest = p :: rows ∨ skip ≠ 0) as Hrest.
      { destruct (decide (skip = 0)) as [E|]; [left|by right].
        subst rest pageStart. rewrite E, Z.min_l by lia. done. }
      clear Hnext. unfold fetches_left, period in *. rewrite (bool_decide_eq_true_2 (0 = 0)) by done.
      rewrite length_app in *. destruct (bool_decide (skip = 0)) eqn:?; bool_hyps; [|nia].
      destruct Hrest as [E|]; [|done]. rewrite E in *. cbn [length] in *. nia. }
    exists r. apply HS. intros f Hle. cbn [pages_loop]. rewrite Ef, Ep. fold pageStart rest. rewrite Er. auto.
Qed.

Lemma ParseCursor_nonneg src cur p o : ParseCursor src cur = Ok (p, o) → 0 ≤ p ∧ 0 ≤ o.
Proof.
  unfold ParseCursor. intros H. repeat split_match_in H; simplify_eq; bool_hyps; lia.
Qed.

(** ** Soundness *)

(** The pages a walk fetched and parsed, from fetch [k] and page [page] on. *)
Fixpoint walked (c : Crawler) (k : nat) (page : Z) (pages : list (list RawPost)) : Prop :=
  match pages with
  | [] => True
  | rows :: pages =>
      (∃ body, fetch c k page = Ok body ∧ parse c body = Ok rows)
      ∧ walked c (S k) (wrap64 (page + 1)) pages
  end.
(** The page of the last one. *)
Fixpoint last_page (page : Z) (pages : list (list RawPost)) : Z :=
  match pages with
  | [] => page
  | [_] => page
  | _ :: pages => last_page (wrap64 (page + 1)) pages
  end.
(** The rows of them the cursor has not returned before. *)
Definition visible (skip : Z) (pages : list (list RawPost)) : list RawPost :=
  match pages with
  | [] => []
  | rows :: pages => drop (Z.to_nat skip) rows ++ mjoin pages
  end.

(** Why a walk stopped, having taken [taken] of the visible rows and left
    [rest] of the last page. *)
Inductive walk_end (c : Crawler) (pageSize : Z) (cutoff : option Time) (e : Z)
    (pages : list (list RawPost)) (rest : list RawPost) : CrawlResponse → Prop :=
  | walk_floor resp n :
      HasMore resp = false → NextCursor resp = "" → StopReason resp = floorReason c → rest = [] →
      ((∃ pre, pages = pre ++ replicate n []) ∧ threshold c ≤ Z.of_nat n
       ∨ pages = replicate n [] ∧ threshold c ≤ Z.of_nat n + e) →
      (0 < n)%nat → walk_end c pageSize cutoff e pages rest resp
  | walk_boundary resp x rest' :
      HasMore resp = false → NextCursor resp = "" → StopReason resp = "lookback_boundary" →
      rest = x :: rest' → outside cutoff x → walk_end c pageSize cutoff e pages rest resp
  | walk_budget resp pre rows off :
      HasMore resp = true → Z.of_nat (length (Posts resp)) = pageSize →
      StopReason resp = "page_budget" →
      pages = pre ++ [rows] → 0 < off → rest = drop (Z.to_nat off) rows →
      (∀ x, head rest = Some x → in_window cutoff x) →
      NextCursor resp = FormatCursor (LastPage resp) (match rest with [] => 0 | _ => off end) →
      walk_end c pageSize cutoff e pages rest resp.

Lemma parsePage_Ok c body page rows : parsePage c body page = Ok rows → parse c body = Ok rows.
Proof. unfold parsePage. intros H. repeat split_match_in H; by simplify_eq. Qed.

Lemma last_page_cons page rows pages :
  pages ≠ [] → last_page page (rows :: pages) = last_page (wrap64 (page + 1)) pages.
Proof. by destruct pages. Qed.

Lemma walk_end_cons c pageSize cutoff e e' rows pages rest resp :
  walk_end c pageSize cutoff e' pages rest resp →
  (rows = [] ∧ e' = e + 1 ∨ rows ≠ [] ∧ e' = 0) →
  walk_end c pageSize cutoff e (rows :: pages) rest resp.
Proof.
  intros [? n ? ? ? ? Hn ?|? x rest' ? ? ? ? ?|? pre rows' off ? ? ? ? ? ? ? ?] Hrows.
  - destruct Hn as [[[pre ->] Hn]|[-> Hn]].
    + eapply (walk_floor _ _ _ _ _ _ _ n); try done. left. split; [|done]. by exists (rows :: pre).
    + destruct Hrows as [[-> ->]|[? ->]].
      * eapply (walk_floor _ _ _ _ _ _ _ (S n)); try done; [|lia]. right. split; [done|lia].
      * eapply (walk_floor _ _ _ _ _ _ _ n); try done. left. split; [by exists [rows]|lia].
  - by eapply walk_boundary.
  - subst pages. eapply (walk_budget _ _ _ _ _ _ _ (rows :: pre)); done.
Qed.

(** What a walk from fetch [k] of [page] on, with [posts] at hand, answers. *)
Definition sound (c : Crawler) (pageSize : Z) (cutoff : option Time) (k : nat) (page skip e : Z) (posts : list RawPost)
    (resp : CrawlResponse) : Prop :=
  ∃ pages taken rest,
    walked c k page pages ∧ pages ≠ []
    ∧ PagesFetched resp = Z.of_nat (k + length pages) ∧ LastPage resp = last_page page pages
    ∧ visible skip pages = taken ++ rest ∧ Posts resp = posts ++ taken
    ∧ Forall (in_window cutoff) taken ∧ Z.of_nat (length (Posts resp)) ≤ pageSize
    ∧ walk_end c pageSize cutoff e pages rest resp.

(** The rows after the ones the cursor has returned. *)
Lemma drop_min {A} skip (rows : list A) :
  0 ≤ skip → drop (Z.to_nat (Z.min skip (Z.of_nat (length rows)))) rows = drop (Z.to_nat skip) rows.
Proof.
  intros Hs. destruct (Z.min_spec skip (Z.of_nat (length rows))) as [[_ ->]|[Hle ->]]; [done|].
  by rewrite !drop_ge by lia.
Qed.

Section sound.
Context (c : Crawler) (pageSize : Z) (cutoff : option Time) (k : nat) (page skip e : Z) (posts rows : list RawPost).
Hypothesis Hfetched : ∃ body, fetch c k page = Ok body ∧ parse c body = Ok rows.

(** The last empty page the threshold asks for. *)
Lemma sound_floor :
  rows = [] → Z.of_nat (length posts) < pageSize → threshold c ≤ e + 1 →
  sound c pageSize cutoff k page skip e posts (response posts "" false (floorReason c) (Z.of_nat (S k)) page).
Proof.
  intros -> Hlt Ht. exists [[]], [], []. cbn [visible response Posts PagesFetched length].
  split_and!; try done; [lia|by rewrite drop_nil|by rewrite app_nil_r|lia|].
  eapply (walk_floor _ _ _ _ _ _ _ 1); try done; [|lia]. right. split; [done|lia].
Qed.
(** A page that ends the walk. *)
Lemma sound_last taken rest resp :
  let start := Z.min skip (Z.of_nat (length rows)) in
  0 ≤ skip → drop (Z.to_nat start) rows = taken ++ rest → Posts resp = posts ++ taken →
  Forall (in_window cutoff) taken → PagesFetched resp = Z.of_nat (S k) →
  page_end cutoff pageSize page start taken rest resp → sound c pageSize cutoff k page skip e posts resp.
Proof.
  intros start Hs Hsplit Hposts Hin Hpf Hend. exists [rows], taken, rest.
  assert (LastPage resp = page ∧ Z.of_nat (length (Posts resp)) ≤ pageSize) as [Hlp Hsz]
    by (destruct Hend; split; cbn [LastPage Posts response]; [done|lia|done|lia]).
  split_and!; try done; [by rewrite Hpf; cbn [length]; lia| |].
  - cbn [visible mjoin list_join]. rewrite app_nil_r, <-Hsplit. symmetry. by apply drop_min.
  - destruct Hend as [posts' pf x rest' ? ? ?|posts' pf ? Htaken ?]; [by eapply walk_boundary|].
    eapply (walk_budget _ _ _ _ _ _ _ [] rows (start + Z.of_nat (length taken))); try done.
    + destruct taken; [done|]. cbn [length]. lia.
    + replace (Z.to_nat (start + Z.of_nat (length taken))) with (Z.to_nat start + length taken)%nat by lia.
      by rewrite <-drop_drop, Hsplit, drop_app_length.
Qed.
(** A page whose rows are all taken. *)
Lemma sound_more e' resp :
  Forall (in_window cutoff) (drop (Z.to_nat skip) rows) → (rows = [] ∧ e' = e + 1 ∨ rows ≠ [] ∧ e' = 0) →
  sound c pageSize cutoff (S k) (wrap64 (page + 1)) 0 e' (posts ++ drop (Z.to_nat skip) rows) resp →
  sound c pageSize cutoff k page skip e posts resp.
Proof.
  intros Hrows He (pages&taken&rest&Hw&Hne&Hpf&Hlp&Hvis&Hposts&Hin&Hsize&Hend).
  exists (rows :: pages), (drop (Z.to_nat skip) rows ++ taken), rest. split_and!; try done.
  - rewrite Hpf. cbn. lia.
  - by rewrite last_page_cons.
  - cbn [visible]. rewrite <-app_assoc, <-Hvis. by destruct pages.
  - by rewrite Hposts, app_assoc.
  - by apply Forall_app.
  - by eapply walk_end_cons.
Qed.
End sound.

Lemma pages_loop_sound c pageSize cutoff fuel k page skip e posts resp :
  Z.of_nat (length posts) < pageSize → 0 ≤ skip → 0 ≤ e →
  pages_loop c pageSize cutoff fuel k page skip e posts = Some (Ok resp) →
  sound c pageSize cutoff k page skip e posts resp.
Proof.
  revert k page skip e posts. induction fuel as [|fuel IH]; intros k page skip e posts Hlt Hs He H; [done|].
  cbn [pages_loop] in H. destruct (fetch c k page) as [err|body] eqn:Ef; [done|].
  destruct (parsePage c body page) as [err|rows] eqn:Ep; [done|]. apply parsePage_Ok in Ep.
  assert (∃ body, fetch c k page = Ok body ∧ parse c body = Ok rows) as Hf by by exists body.
  destruct rows as [|p rows].
  - destruct (threshold c <=? e + 1) eqn:Et; bool_hyps; [injection H as <-; by eapply sound_floor|].
    eapply (sound_more _ _ _ _ _ _ _ _ [] Hf (e + 1)); rewrite ?drop_nil, ?app_nil_r; [done|by left|].
    apply IH; [done|lia|lia|done].
  - pose proof (rows_loop_spec pageSize cutoff page (Z.of_nat (S k)) (Z.min skip (Z.of_nat (length (p :: rows)))) posts
      (drop (Z.to_nat (Z.min skip (Z.of_nat (length (p :: rows))))) (p :: rows)) Hlt) as Hrows.
    destruct (rows_loop _ _ _ _ _ _ _) as [resp'|posts'].
    + injection H as <-. destruct Hrows as (taken&rest&Hsplit&Hposts&Hin&Hpf&Hend). by eapply sound_last.
    + destruct Hrows as (->&Hin&Hlt'). rewrite drop_min in * by done.
      eapply (sound_more _ _ _ _ _ _ _ _ (p :: rows) Hf 0); [done|by right|]. apply IH; [done|lia|lia|done].
Qed.

(** ** Completeness on a stable source *)

(** A source that answers page [n] with the rows [arch n], whenever asked. *)
Definition stable (c : Crawler) (arch : Z → list RawPost) : Prop :=
  ∀ k page, (∃ body, fetch c k page = Ok body ∧ parse c body = Ok (arch page))
            ∧ Z.of_nat (length (arch page)) ≤ int64_max.

(** The rows before the first one out of the window, and whether there is
    one. *)
Fixpoint within (cutoff : option Time) (rows : list RawPost) : list RawPost * bool :=
  match rows with
  | [] => ([], false)
  | p :: rows =>
      if outOfWindow (rp_PublishedAt p) cutoff then ([], true)
      else let '(kept, stop) := within cutoff rows in (p :: kept, stop)
  end.

(** All a crawl without a budget would return from a page on: up to the
    boundary, or to [T] empty pages in a row. *)
Fixpoint window (arch : Z → list RawPost) (T : Z) (cutoff : option Time)
    (fuel : nat) (page skip e : Z) : option (list RawPost) :=
  match fuel with
  | O => None
  | S fuel =>
      match arch page with
      | [] => if T <=? e + 1 then Some [] else window arch T cutoff fuel (page + 1) 0 (e + 1)
      | rows =>
          let '(kept, stop) := within cutoff (drop (Z.to_nat skip) rows) in
          if stop then Some kept else (kept ++.) <$> window arch T cutoff fuel (page + 1) 0 0
      end
  end.

(** The page and offset a cursor resumes at. *)
Definition resume_page (page offset : Z) : Z := if offset =? 0 then page + 1 else page.

Lemma ParseCursor_FormatCursor src page offset :
  0 ≤ page ≤ int64_max → 0 ≤ offset ≤ int64_max →
  ParseCursor src (FormatCursor page offset) = Ok (page, offset).
Proof.
  intros Hp Ho. unfold ParseCursor, FormatCursor.
  pose proof (Itoa_nonempty page ltac:(lia)) as Hne. rewrite bool_decide_eq_false_2.
  2:{ intros E. destruct (Itoa page); [done|]. by rewrite str_app_cons in E. }
  rewrite str_app_cons, str_app_nil_l, cut_app.
  - rewrite !Atoi_Itoa by done.
    destruct (page <? 0) eqn:?, (offset <? 0) eqn:?; bool_hyps; lia || done.
  - eapply str_forall_impl; [|by apply Itoa_digits; lia]. intros a. by destruct a as [[] [] [] [] [] [] [] []].
Qed.

(** One page with a budget of [pageSize - length posts] posts. *)
Lemma rows_loop_within pageSize cutoff page pf i posts rows :
  Z.of_nat (length posts) < pageSize →
  let '(kept, stop) := within cutoff rows in
  match rows_loop pageSize cutoff page pf i posts rows with
  | inr posts' => posts' = posts ++ kept ∧ stop = false ∧ kept = rows
  | inl resp =>
      HasMore resp = false ∧ Posts resp = posts ++ kept ∧ stop = true
      ∨ HasMore resp = true
        ∧ ∃ taken rest, rows = taken ++ rest ∧ Posts resp = posts ++ taken ∧ taken ≠ []
          ∧ within cutoff rest = (drop (length taken) kept, stop) ∧ taken = take (length taken) kept
          ∧ NextCursor resp
            = FormatCursor page (match rest with [] => 0 | _ => i + Z.of_nat (length taken) end)
  end.
Proof.
  revert i posts. induction rows as [|p rows IH]; intros i posts Hlt; cbn [rows_loop within].
  { by rewrite app_nil_r. }
  destruct (outOfWindow (rp_PublishedAt p) cutoff) eqn:Ep; [left; by rewrite app_nil_r|].
  destruct (within cutoff rows) as [kept stop] eqn:Ew.
  destruct (Z.ltb_spec (Z.of_nat (length (posts ++ [p]))) pageSize) as [Hmore|Hfull].
  - specialize (IH (i + 1) (posts ++ [p]) Hmore).
    destruct (rows_loop _ _ _ _ _ _ _) as [resp|posts'].
    + destruct IH as [(?&->&?)|(?&taken&rest&->&->&?&Hrest&Htk&->)]; [left; by rewrite <-app_assoc|right].
      split; [done|]. exists (p :: taken), rest. rewrite <-app_assoc. cbn. split_and!; try done.
      * by rewrite <-Htk.
      * f_equal. destruct rest; [done|]. lia.
    + destruct IH as (->&->&->). by rewrite <-app_assoc.
  - destruct rows as [|next rows].
    { cbn in Ew. injection Ew as <- <-. right. split; [done|]. by exists [p], []. }
    cbn [within] in Ew. destruct (outOfWindow (rp_PublishedAt next) cutoff) eqn:En.
    + injection Ew as <- <-. by left.
    + right. split; [done|]. exists [p], (next :: rows). cbn [within]. rewrite En.
      destruct (within cutoff rows) as [kept' stop']. injection Ew as <- <-. by split_and!.
Qed.

Lemma window_skip arch T cutoff fuel page skip e rows :
  arch page = rows → rows ≠ [] →
  window arch T cutoff (S fuel) page skip e
  = (let '(kept, stop) := within cutoff (drop (Z.to_nat skip) rows) in
     if stop then Some kept else (kept ++.) <$> window arch T cutoff fuel (page + 1) 0 0).
Proof. intros <- Hne. cbn [window]. by destruct (arch page). Qed.

(** A call that meets its budget leaves off where the rest of the window
    starts. *)
Inductive left_off (c : Crawler) (arch : Z → list RawPost) (cutoff : option Time) (bound : Z)
    (w2 : list RawPost) (cursor : string) : Prop :=
  | left_off_at page offset fuel :
      cursor = FormatCursor page offset → 0 ≤ page ≤ int64_max → 0 ≤ offset ≤ int64_max →
      window arch (threshold c) cutoff fuel (resume_page page offset) offset 0 = Some w2 →
      resume_page page offset + Z.of_nat fuel ≤ bound →
      left_off c arch cutoff bound w2 cursor.

(** The call that filled its budget after [taken] of a page. *)
Lemma page_left_off c arch cutoff fuel page start rows kept stop taken rest w :
  arch page = rows → Z.of_nat (length rows) ≤ int64_max → 0 ≤ page →
  page + Z.of_nat (S fuel) ≤ int64_max → 0 ≤ start →
  drop (Z.to_nat start) rows = taken ++ rest → taken ≠ [] →
  within cutoff rest = (drop (length taken) kept, stop) → taken = take (length taken) kept →
  (if stop then Some kept
   else (kept ++.) <$> window arch (threshold c) cutoff fuel (page + 1) 0 0) = Some w →
  ∃ w2, w = taken ++ w2
    ∧ left_off c arch cutoff (page + Z.of_nat (S fuel)) w2
        (FormatCursor page (match rest with [] => 0 | _ => start + Z.of_nat (length taken) end)).
Proof.
  intros Ea Hlen Hp Hmax Hstart Hsplit Hne Hrest Htk Hw.
  assert (kept = taken ++ drop (length taken) kept) as Hkept by (rewrite Htk at 1; by rewrite take_drop).
  assert (Z.to_nat start + length taken + length rest ≤ length rows)%nat as Hlens.
  { pose proof (f_equal length Hsplit) as H. rewrite length_drop, length_app in H.
    destruct taken; [done|]. cbn [length] in *. lia. }
  destruct rest as [|next rest].
  { cbn in Hrest. injection Hrest as Hkept0 <-.
    destruct (window _ _ _ fuel (page + 1) 0 0) as [w''|] eqn:Ew; [|done]. injection Hw as <-.
    exists w''. split; [by rewrite Hkept, <-Hkept0, app_nil_r|].
    apply (left_off_at _ _ _ _ _ _ page 0 fuel); unfold resume_page; cbn [Z.eqb]; try done; lia. }
  set (off := start + Z.of_nat (length taken)).
  assert (resume_page page off = page) as Hres.
  { unfold resume_page. destruct (Z.eqb_spec off 0) as [E|]; [|done]. subst off.
    destruct taken; [done|cbn [length] in E; lia]. }
  assert (window arch (threshold c) cutoff (S fuel) page off 0
    = if stop then Some (drop (length taken) kept)
      else (drop (length taken) kept ++.) <$> window arch (threshold c) cutoff fuel (page + 1) 0 0) as Hwin.
  { rewrite (window_skip _ _ _ _ _ _ _ rows); [|done|by intros ->; rewrite drop_nil in Hsplit; destruct taken].
    replace (Z.to_nat off) with (Z.to_nat start + length taken)%nat by lia.
    rewrite <-drop_drop, Hsplit, drop_app_length, Hrest. done. }
  assert (∀ w2, window arch (threshold c) cutoff (S fuel) page off 0 = Some w2 →
    left_off c arch cutoff (page + Z.of_nat (S fuel)) w2 (FormatCursor page off)) as Hleft.
  { intros w2 Hw2. apply (left_off_at _ _ _ _ _ _ page off (S fuel)); rewrite ?Hres; try done; lia. }
  destruct stop.
  - injection Hw as <-. exists (drop (length taken) kept). split; [done|]. by apply Hleft.
  - destruct (window _ _ _ fuel (page + 1) 0 0) as [w''|] eqn:Ew; [|done]. injection Hw as <-.
    exists (drop (length taken) kept ++ w''). split; [by rewrite Hkept at 1; rewrite <-app_assoc|].
    by apply Hleft.
Qed.

Lemma pages_loop_window c arch pageSize cutoff fuel k page skip e posts w :
  stable c arch → Z.of_nat (length posts) < pageSize → 0 ≤ skip → 0 ≤ page →
  page + Z.of_nat fuel ≤ int64_max →
  window arch (threshold c) cutoff fuel page skip e = Some w →
  ∃ resp, pages_loop c pageSize cutoff fuel k page skip e posts = Some (Ok resp)
    ∧ (HasMore resp = false ∧ Posts resp = posts ++ w
       ∨ HasMore resp = true ∧ ∃ w1 w2, w = w1 ++ w2 ∧ w1 ≠ [] ∧ Posts resp = posts ++ w1
         ∧ left_off c arch cutoff (page + Z.of_nat fuel) w2 (NextCursor resp)).
Proof.
  intros Hst. revert k page skip e posts w. induction fuel as [|fuel IH];
    intros k page skip e posts w Hlt Hs Hp Hmax Hw; [done|].
  destruct (Hst k page) as [(body&Ef&Ep) Hlen]. cbn [pages_loop]. rewrite Ef.
  unfold parsePage at 1. rewrite Ep.
  assert (wrap64 (page + 1) = page + 1) as Hwrap
    by (apply wrap64_small; unfold in_int64, int64_min, int64_max in *; lia).
  destruct (arch page) as [|p rows] eqn:Ea.
  - cbn [window] in Hw. rewrite Ea in Hw. destruct (threshold c <=? e + 1).
    + injection Hw as <-. eexists. split; [done|]. left. cbn. by rewrite app_nil_r.
    + rewrite Hwrap. destruct (IH (S k) (page + 1) 0 (e + 1) posts w Hlt ltac:(lia) ltac:(lia) ltac:(lia) Hw)
        as (resp&Hr&H). exists resp. split; [done|].
      replace (page + Z.of_nat (S fuel)) with (page + 1 + Z.of_nat fuel) by lia. done.
  - rewrite (window_skip _ _ _ _ _ _ _ (p :: rows)) in Hw by done.
    set (start := Z.min skip (Z.of_nat (length (p :: rows)))).
    rewrite <-(drop_min skip (p :: rows) Hs) in Hw. fold start in Hw.
    pose proof (rows_loop_within pageSize cutoff page (Z.of_nat (S k)) start posts
      (drop (Z.to_nat start) (p :: rows)) Hlt) as Hrows.
    destruct (within cutoff (drop (Z.to_nat start) (p :: rows))) as [kept stop].
    destruct (rows_loop _ _ _ _ _ _ _) as [resp|posts'] eqn:Eloop.
    + exists resp. split; [done|].
      destruct Hrows as [(?&HP&->)|(?&taken&rest&Hsplit&HP&Hne&Hrest&Htk&Hcur)]; [left; by injection Hw as <-|].
      right. split; [done|].
      destruct (page_left_off c arch cutoff fuel page start _ kept stop taken rest w Ea)
        as (w2&->&Hleft); try done; [lia|].
      exists taken, w2. by rewrite Hcur.
    + destruct Hrows as (->&->&Hk).
      destruct (window _ _ _ fuel (page + 1) 0 0) as [w''|] eqn:Ew; [|done]. injection Hw as <-.
      assert (Z.of_nat (length (posts ++ kept)) < pageSize) as Hlt'.
      { pose proof (rows_loop_spec pageSize cutoff page (Z.of_nat (S k)) start posts
          (drop (Z.to_nat start) (p :: rows)) Hlt) as H. rewrite Eloop in H. tauto. }
      rewrite Hwrap. destruct (IH (S k) (page + 1) 0 0 (posts ++ kept) w'' Hlt' ltac:(lia) ltac:(lia) ltac:(lia) Ew)
        as (resp&Hr&H). exists resp. split; [done|].
      replace (page + Z.of_nat (S fuel)) with (page + 1 + Z.of_nat fuel) by lia.
      destruct H as [[? ->]|(?&w1&w2&->&?&->&?)].
      * left. by rewrite app_assoc.
      * right. split; [done|]. exists (kept ++ w1), w2. rewrite !app_assoc. split_and!; try done.
        by destruct kept.
Qed.

(** ** The posts of a walk are posts of parsed pages *)

Lemma rows_loop_Forall (P : RawPost → Prop) pageSize cutoff page pf i posts rows :
  Forall P posts → Forall P rows →
  match rows_loop pageSize cutoff page pf i posts rows with
  | inl resp => Forall P (Posts resp)
  | inr posts' => Forall P posts'
  end.
Proof.
  revert i posts. induction rows as [|p rows IH]; intros i posts Hposts Hrows; [done|]. cbn [rows_loop].
  apply Forall_cons in Hrows as [Hp Hrows].
  assert (Forall P (posts ++ [p])) as Hposts' by (apply Forall_app; auto).
  destruct (outOfWindow (rp_PublishedAt p) cutoff); [done|].
  destruct (_ <? pageSize); [by apply IH|]. destruct rows as [|next rows]; [done|].
  by destruct (outOfWindow (rp_PublishedAt next) cutoff).
Qed.
Lemma pages_loop_Forall (P : RawPost → Prop) c pageSize cutoff fuel k page skip e posts resp :
  (∀ body rows, parse c body = Ok rows → Forall P rows) → Forall P posts →
  pages_loop c pageSize cutoff fuel k page skip e posts = Some (Ok resp) → Forall P (Posts resp).
Proof.
  intros Hparse. revert k page skip e posts. induction fuel as [|fuel IH]; intros k page skip e posts Hposts; [done|].
  cbn [pages_loop]. destruct (fetch c k page) as [?|body]; [done|].
  destruct (parsePage c body page) as [?|rows] eqn:Er; [done|]. apply parsePage_Ok, Hparse in Er.
  destruct rows as [|p rows].
  - destruct (threshold c <=? e + 1); [by intros [= <-]|by apply IH].
  - pose proof (rows_loop_Forall P pageSize cutoff page (Z.of_nat (S k))
      (Z.min skip (Z.of_nat (length (p :: rows)))) posts
      (drop (Z.to_nat (Z.min skip (Z.of_nat (length (p :: rows))))) (p :: rows)) Hposts
      (Forall_drop _ _ _ Er)) as H.
    cbv zeta. destruct (rows_loop _ _ _ _ _ _ _); [by intros [= <-]|by apply IH].
Qed.

(** ** More fuel changes nothing; every fetch costs one *)

Lemma pages_loop_mono c pageSize cutoff fuel fuel' k page skip e posts r :
  pages_loop c pageSize cutoff fuel k page skip e posts = Some r → (fuel ≤ fuel')%nat →
  pages_loop c pageSize cutoff fuel' k page skip e posts = Some r.
Proof.
  revert fuel' k page skip e posts. induction fuel as [|fuel IH]; intros fuel' k page skip e posts H Hle; [done|].
  destruct fuel' as [|fuel']; [lia|]. cbn [pages_loop] in *.
  destruct (fetch c k page); [done|]. destruct (parsePage c _ page) as [|[|p rows]]; [done| |].
  - destruct (threshold c <=? e + 1); [done|]. apply IH; [done|lia].
  - destruct (rows_loop _ _ _ _ _ _ _); [done|]. apply IH; [done|lia].
Qed.

Lemma rows_loop_fetches pageSize cutoff page pf i posts rows resp :
  rows_loop pageSize cutoff page pf i posts rows = inl resp → PagesFetched resp = pf.
Proof.
  revert i posts. induction rows as [|p rows IH]; intros i posts H; [done|]. cbn [rows_loop] in H.
  destruct (outOfWindow _ _); [by injection H as <-|].
  destruct (_ <? pageSize); [by eapply IH|].
  destruct rows; [by injection H as <-|]. by destruct (outOfWindow _ _); injection H as <-.
Qed.
Lemma pages_loop_fetches c pageSize cutoff fuel k page skip e posts resp :
  pages_loop c pageSize cutoff fuel k page skip e posts = Some (Ok resp) →
  PagesFetched resp ≤ Z.of_nat (k + fuel).
Proof.
  revert k page skip e posts. induction fuel as [|fuel IH]; intros k page skip e posts H; [done|].
  cbn [pages_loop] in H. destruct (fetch c k page); [done|].
  destruct (parsePage c _ page) as [|[|p rows]]; [done| |].
  - destruct (threshold c <=? e + 1); [injection H as <-; cbn [PagesFetched response]; lia|].
    apply IH in H. lia.
  - destruct (rows_loop _ _ _ _ _ _ _) eqn:E; [|apply IH in H; lia].
    apply rows_loop_fetches in E. injection H as <-. lia.
Qed.

(** ** Whole requests *)

(** Where a request starts, what its cutoff is. *)
Definition cutoff_of (c : Crawler) (lookback : Duration) : option Time :=
  if 0 <? lookback then Some (Add (now c) (wrap64 (- lookback))) else None.

Lemma Crawl_run c req lookback fuel page offset :
  ParseCursor (source c) (cq_Cursor req) = Ok (page, offset) →
  Crawl c req lookback fuel
  = pages_loop c (clampPageSize (cq_PageSize req)) (cutoff_of c lookback) fuel 0
      (if offset =? 0 then wrap64 (page + 1) else page) offset 0 [].
Proof. intros H. unfold Crawl. by rewrite H. Qed.

Lemma Crawl_total c req lookback :
  ∃ r, ∀ fuel, (enough c ≤ fuel)%nat → Crawl c req lookback fuel = Some r.
Proof.
  destruct (ParseCursor (source c) (cq_Cursor req)) as [err|[page offset]] eqn:Ecur.
  { exists (Err err). intros fuel _. unfold Crawl. by rewrite Ecur. }
  pose proof (ParseCursor_nonneg _ _ _ _ Ecur) as [Hp Ho].
  pose proof (clampPageSize_bounds (cq_PageSize req)) as Hsz.
  destruct (pages_loop_terminates c (clampPageSize (cq_PageSize req)) (cutoff_of c lookback) (enough c) 0
    (if offset =? 0 then wrap64 (page + 1) else page) offset 0 []) as (r&_&Hr).
  - cbn. lia.
  - done.
  - by left.
  - done.
  - unfold fetches_left, enough, period. cbn [length]. case_bool_decide; nia.
  - exists r. intros fuel Hf. by rewrite (Crawl_run _ _ _ _ _ _ Ecur), Hr.
Qed.

(** C19: every crawl ends: whatever the source answers and however it is
    configured, the walk returns a response or an error within a number of
    fetches bounded by the page size cap and the empty-page threshold, and
    more time would not change the answer. *)
Theorem crawl_terminates c req lookback :
  ∃ r, (∀ fuel, (enough c ≤ fuel)%nat → Crawl c req lookback fuel = Some r)
    ∧ match r with Ok resp => PagesFetched resp ≤ Z.of_nat (enough c) | Err _ => True end.
Proof.
  destruct (Crawl_total c req lookback) as [r Hr]. exists r. split; [done|].
  destruct r as [|resp]; [done|]. specialize (Hr (enough c) (le_n _)).
  unfold Crawl in Hr. destruct (ParseCursor _ _) as [|[page offset]]; [done|].
  by apply pages_loop_fetches in Hr.
Qed.

(** The pages of an answered crawl. *)
Lemma crawl_run_pages c req lookback fuel resp :
  Crawl c req lookback fuel = Some (Ok resp) →
  ∃ page offset pages rest,
    ParseCursor (source c) (cq_Cursor req) = Ok (page, offset)
    ∧ walked c 0 (if offset =? 0 then wrap64 (page + 1) else page) pages
    ∧ visible offset pages = Posts resp ++ rest.
Proof.
  intros H. destruct (ParseCursor (source c) (cq_Cursor req)) as [err|[page offset]] eqn:Ecur;
    [unfold Crawl in H; by rewrite Ecur in H|].
  pose proof (ParseCursor_nonneg _ _ _ _ Ecur) as [Hp Ho]. pose proof (clampPageSize_bounds (cq_PageSize req)) as Hsz.
  rewrite (Crawl_run _ _ _ _ _ _ Ecur) in H.
  apply pages_loop_sound in H as (pages&taken&rest&Hw&_&_&_&Hvis&HP&_); [|cbn; lia|lia|lia].
  exists page, offset, pages, rest. rewrite HP. by split_and!.
Qed.

(** C20: what a crawl returns is a contiguous run of the rows of consecutive
    pages it really fetched, starting at the cursor: all in the window and at
    most the page size; it says there is more only when the page size is met,
    with a cursor right after the last post; it says there is none only at a
    row outside the window or after as many empty pages in a row as the
    threshold asks, with every row fetched returned. *)
Theorem crawl_sound c req lookback fuel resp :
  Crawl c req lookback fuel = Some (Ok resp) →
  ∃ page offset pages rest,
    ParseCursor (source c) (cq_Cursor req) = Ok (page, offset)
    ∧ let first := if offset =? 0 then wrap64 (page + 1) else page in
      walked c 0 first pages
      ∧ PagesFetched resp = Z.of_nat (length pages) ∧ LastPage resp = last_page first pages
      ∧ visible offset pages = Posts resp ++ rest
      ∧ Forall (in_window (cutoff_of c lookback)) (Posts resp)
      ∧ Z.of_nat (length (Posts resp)) ≤ clampPageSize (cq_PageSize req)
      ∧ walk_end c (clampPageSize (cq_PageSize req)) (cutoff_of c lookback) 0 pages rest resp.
Proof.
  intros H. destruct (ParseCursor (source c) (cq_Cursor req)) as [err|[page offset]] eqn:Ecur;
    [unfold Crawl in H; by rewrite Ecur in H|].
  pose proof (ParseCursor_nonneg _ _ _ _ Ecur) as [Hp Ho].
  pose proof (clampPageSize_bounds (cq_PageSize req)) as Hsz.
  rewrite (Crawl_run _ _ _ _ _ _ Ecur) in H.
  apply pages_loop_sound in H as (pages&taken&rest&Hw&_&Hpf&Hlp&Hvis&HP&Hin&Hle&Hend); [|cbn; lia|lia|lia].
  exists page, offset, pages, rest. rewrite HP. rewrite HP in Hle. by split_and!.
Qed.

(** The page after the walked ones. *)
Fixpoint page_after (page : Z) (pages : list (list RawPost)) : Z :=
  match pages with
  | [] => page
  | _ :: pages => page_after (wrap64 (page + 1)) pages
  end.

(** A walk failed because the page after the walked ones could not be
    fetched or parsed. *)
Definition failed_on (c : Crawler) (k : nat) (page : Z) (e : error) : Prop :=
  (∃ err, fetch c k page = Err err ∧ e = Errorf "%s: %w: %w" [source c] [ErrCrawlFetch; err])
  ∨ ∃ body err, fetch c k page = Ok body ∧ parse c body = Err err ∧ Is e ErrCrawlParse = true.

Lemma parsePage_Err c body page e :
  parsePage c body page = Err e → (∃ err, parse c body = Err err) ∧ Is e ErrCrawlParse = true.
Proof.
  unfold parsePage. intros H. destruct (parse c body) as [err|]; [|done]. split; [by exists err|].
  by case_bool_decide; injection H as <-.
Qed.

Lemma pages_loop_fails c pageSize cutoff fuel k page skip e posts err :
  pages_loop c pageSize cutoff fuel k page skip e posts = Some (Err err) →
  ∃ pages, walked c k page pages ∧ failed_on c (k + length pages) (page_after page pages) err.
Proof.
  revert k page skip e posts. induction fuel as [|fuel IH]; intros k page skip e posts H; [done|].
  cbn [pages_loop] in H. destruct (fetch c k page) as [ferr|body] eqn:Ef.
  { injection H as <-. exists []. rewrite Nat.add_0_r. split; [done|]. left. by exists ferr. }
  destruct (parsePage c body page) as [perr|rows] eqn:Ep.
  { injection H as <-. apply parsePage_Err in Ep as [[perr' Ep] ?]. exists []. rewrite Nat.add_0_r.
    split; [done|]. right. by exists body, perr'. }
  apply parsePage_Ok in Ep.
  assert (∃ sk e' ps, pages_loop c pageSize cutoff fuel (S k) (wrap64 (page + 1)) sk e' ps = Some (Err err))
    as (sk&e'&ps&Hnext).
  { destruct rows as [|p rows]; [destruct (threshold c <=? e + 1); [done|by eauto]|].
    destruct (rows_loop _ _ _ _ _ _ _); [done|]. by eauto. }
  apply IH in Hnext as (pages&Hw&Hf). exists (rows :: pages). split; [split; [by exists body|done]|].
  cbn [length page_after]. by rewrite <-Nat.add_succ_comm.
Qed.

(** A crawl fails only on a malformed cursor, before any fetch, or on a
    page that could not be fetched or parsed - and then with that cause: no
    failure is ever reported as the end of the archive, and every page before
    the failing one was fetched and parsed. *)
Theorem crawl_errors c req lookback fuel e :
  Crawl c req lookback fuel = Some (Err e) →
  match ParseCursor (source c) (cq_Cursor req) with
  | Err e' => e = e'
  | Ok (page, offset) =>
      let first := if offset =? 0 then wrap64 (page + 1) else page in
      ∃ pages, walked c 0 first pages ∧ failed_on c (length pages) (page_after first pages) e
  end.
Proof.
  intros H. destruct (ParseCursor (source c) (cq_Cursor req)) as [err|[page offset]] eqn:Ecur.
  - unfold Crawl in H. rewrite Ecur in H. by injection H.
  - rewrite (Crawl_run _ _ _ _ _ _ Ecur) in H. by apply pages_loop_fails in H.
Qed.

(** A cursor the crawler hands out is one it accepts: the page and
    offset of [FormatCursor] come back from [ParseCursor], and a cursor that
    parses never has a negative page or offset. *)
Theorem cursor_roundtrip src page offset cur :
  0 ≤ page ≤ int64_max → 0 ≤ offset ≤ int64_max →
  ParseCursor src (FormatCursor page offset) = Ok (page, offset)
  ∧ match ParseCursor src cur with
    | Ok (p, o) => 0 ≤ p ∧ 0 ≤ o
    | Err e => e = malformed_cursor src cur ∧ cur ≠ ""
    end.
Proof.
  intros Hp Ho. split; [by apply ParseCursor_FormatCursor|].
  destruct (ParseCursor src cur) as [e|[p o]] eqn:E; [|by eapply ParseCursor_nonneg].
  unfold ParseCursor in E. case_bool_decide; [done|]. split; [|done].
  repeat split_match_in E; by simplify_eq.
Qed.

(** Thread [next_cursor] into the next call until there is no more. *)
Fixpoint drain (calls : nat) (c : Crawler) (pageSize : Z) (lookback : Duration) (cursor : string)
    : option (result (list RawPost)) :=
  match calls with
  | O => None
  | S calls =>
      let req := {| cq_PageSize := pageSize; cq_Cursor := cursor; cq_Lookback := "" |} in
      match Crawl c req lookback (enough c) with
      | None => None
      | Some (Err e) => Some (Err e)
      | Some (Ok resp) =>
          if HasMore resp
          then rest ← drain calls c pageSize lookback (NextCursor resp);
               Some (match rest with Ok posts => Ok (Posts resp ++ posts) | Err e => Err e end)
          else Some (Ok (Posts resp))
      end
  end.

Lemma drain_window c arch pageSize lookback calls page offset fuel w cursor :
  stable c arch → ParseCursor (source c) cursor = Ok (page, offset) → page < int64_max →
  resume_page page offset + Z.of_nat fuel ≤ int64_max →
  window arch (threshold c) (cutoff_of c lookback) fuel (resume_page page offset) offset 0 = Some w →
  (length w < calls)%nat →
  drain calls c pageSize lookback cursor = Some (Ok w).
Proof.
  intros Hst. revert page offset fuel w cursor.
  induction calls as [|calls IH]; intros page offset fuel w cursor Hcur Hpage Hmax Hw Hcalls; [lia|].
  pose proof (ParseCursor_nonneg _ _ _ _ Hcur) as [Hp Ho].
  set (req := {| cq_PageSize := pageSize; cq_Cursor := cursor; cq_Lookback := "" |}).
  destruct (Crawl_total c req lookback) as [r Hr]. cbn [drain]. fold req. rewrite Hr by done.
  pose proof (clampPageSize_bounds pageSize) as Hsz.
  assert (0 ≤ resume_page page offset) as Hres by (unfold resume_page; destruct (offset =? 0); lia).
  assert ((if offset =? 0 then wrap64 (page + 1) else page) = resume_page page offset) as Hstart.
  { unfold resume_page. destruct (offset =? 0); [|done]. apply wrap64_small.
    unfold in_int64, int64_min, int64_max in *. lia. }
  destruct (pages_loop_window c arch (clampPageSize pageSize) (cutoff_of c lookback) fuel 0
    (resume_page page offset) offset 0 [] w Hst ltac:(cbn [length]; lia) Ho Hres Hmax Hw) as (resp&Hrun&Hresp).
  assert (r = Ok resp) as ->.
  { specialize (Hr (Nat.max (enough c) fuel) (Nat.le_max_l _ _)).
    rewrite (Crawl_run c req lookback _ page offset Hcur), Hstart in Hr.
    rewrite (pages_loop_mono _ _ _ _ _ _ _ _ _ _ _ Hrun (Nat.le_max_r _ _)) in Hr. by injection Hr. }
  destruct Hresp as [[-> ->]|[-> (w1&w2&->&Hne&->&[pg off fl -> Hpg Hoff Hwin Hle])]]; [done|].
  destruct fl as [|fl]; [done|]. cbn -[window]. rewrite (IH pg off (S fl) w2); [done|by apply ParseCursor_FormatCursor| | |done|].
  - unfold resume_page in Hle at 1. destruct (off =? 0); lia.
  - lia.
  - rewrite length_app in Hcalls. destruct w1; [done|]. cbn [length] in *. lia.
Qed.

(** C21: following the cursors misses nothing and repeats nothing: on a source
    that does not change meanwhile, a caller that threads [next_cursor] from
    the empty cursor until [has_more] is false gets exactly the rows a single
    unbounded walk sees before the lookback boundary or the archive floor, in
    order, whatever page size it asks for. *)
Theorem drain_complete c arch pageSize lookback calls fuel w :
  stable c arch → Z.of_nat fuel < int64_max →
  window arch (threshold c) (cutoff_of c lookback) fuel 1 0 0 = Some w →
  (length w < calls)%nat →
  drain calls c pageSize lookback "" = Some (Ok w).
Proof.
  intros Hst Hfuel Hw Hcalls.
  apply (drain_window c arch pageSize lookback calls 0 0 fuel); try done.
  unfold resume_page. cbn [Z.eqb]. lia.
Qed.

(** ** A small archive, for the witnesses *)

Definition demo_post (id : string) (t : Time) : RawPost := {|
  rp_Title := id; rp_Magnet := ""; rp_Source := "demo"; rp_SourceID := id; rp_URL := "";
  rp_PublishedAt := t; rp_SizeBytes := 0;
|}.
(** Three pages, the second empty, and nothing after. *)
Definition demo_archive (page : Z) : list RawPost :=
  if page =? 1 then [demo_post "a" 90; demo_post "b" 80; demo_post "c" 70]
  else if page =? 3 then [demo_post "d" 60; demo_post "e" 10] else [].
Definition demo_crawler : Crawler := {|
  source := "demo";
  fetch _ page := Ok (if page =? 1 then "1" else if page =? 3 then "3" else "0");
  parse body := Ok (demo_archive (default 0 (Atoi body)));
  threshold := 2;
  floorReason := "floor";
  parseErrorContext := None;
  now := 100;
|}.

Lemma demo_stable : stable demo_crawler demo_archive.
Proof.
  intros k page. cbn. unfold demo_archive.
  destruct (Z.eqb_spec page 1) as [->|]; [split; [by eexists|by vm_compute]|].
  destruct (Z.eqb_spec page 3) as [->|]; split; (by eexists) || by vm_compute.
Qed.

Lemma crawl_sound_witness :
  ∃ resp, Crawl demo_crawler {| cq_PageSize := 2; cq_Cursor := ""; cq_Lookback := "" |} 30 9 = Some (Ok resp)
    ∧ rp_SourceID <$> Posts resp = ["a"; "b"] ∧ Forall (in_window (Some 70)) (Posts resp).
Proof.
  destruct (Crawl demo_crawler {| cq_PageSize := 2; cq_Cursor := ""; cq_Lookback := "" |} 30 9)
    as [[e|resp]|] eqn:E; [vm_compute in E; discriminate E| |vm_compute in E; discriminate E].
  exists resp. split; [reflexivity|].
  destruct (crawl_sound _ _ _ _ _ E) as (page&offset&pages&rest&_&_&_&_&_&Hin&_).
  split; [|exact Hin]. vm_compute in E. injection E as <-. reflexivity.
Defined.


Lemma drain_complete_witness :
  match drain 9 demo_crawler 2 0 "" with
  | Some (Ok posts) => rp_SourceID <$> posts = ["a"; "b"; "c"; "d"; "e"]
  | _ => False
  end.
Proof.
  assert (∃ w, window demo_archive 2 None 9 1 0 0 = Some w
    ∧ rp_SourceID <$> w = ["a"; "b"; "c"; "d"; "e"] ∧ length w = 5%nat) as (w&Hw&Hids&Hlen)
    by (eexists; split; [vm_compute; reflexivity|split; reflexivity]).
  rewrite (drain_complete demo_crawler demo_archive 2 0 9 9 w demo_stable); [exact Hids| |exact Hw|].
  - vm_compute. reflexivity.
  - rewrite Hlen. lia.
Defined.

(** The third fetch of this crawl fails. *)
Definition flaky_crawler : Crawler := {|
  source := "demo";
  fetch k page := if Nat.eqb k 2 then Err (ErrNew "timeout") else Ok (if page =? 1 then "1" else "0");
  parse body := Ok (demo_archive (default 0 (Atoi body)));
  threshold := 3;
  floorReason := "floor";
  parseErrorContext := None;
  now := 100;
|}.
