(* ===== verification/Duration.v ===== *)
(** * Durations: [time.ParseDuration] and [ParseLookback]

    The standard library's parser, with its binary64 arithmetic for
    fractions ([SpecFloat]), and the extended form with weeks and days
    (src/pkg/crawl/duration.go). *)

From S2P Require Import Prelude GoStrings GoTime.
From Stdlib Require Import Ascii SpecFloat.

Module duration.

(** ** binary64 *)

Definition prec : Z := 53.
Definition emax : Z := 1024.
Definition float_of (m : Z) : spec_float := binary_normalize prec emax m 0 false.
Definition fmul : spec_float → spec_float → spec_float := SFmul prec emax.
Definition fdiv : spec_float → spec_float → spec_float := SFdiv prec emax.
(** [uint64(x)] of a non-negative float. *)
Definition uint64_of (x : spec_float) : Z :=
  match x with
  | S754_finite false m e => Z.shiftl (Z.pos m) e
  | _ => 0
  end.

(** ** [time.ParseDuration] *)

(** [leadingInt]: digits into a value of at most [1<<63]. *)
Fixpoint leadingInt (x : Z) (s : string) : option (Z * string) :=
  match s with
  | String c r =>
      if is_digit c then
        if 2 ^ 63 / 10 <? x then None else
        let x := x * 10 + digit_val c in
        if 2 ^ 63 <? x then None else leadingInt x r
      else Some (x, s)
  | "" => Some (x, "")
  end.
(** [leadingFraction]: digits into a value and its power of ten; digits past
    the precision are dropped. *)
Fixpoint leadingFraction (x scale : Z) (overflow : bool) (s : string) : Z * Z * string :=
  match s with
  | String c r =>
      if is_digit c then
        if overflow then leadingFraction x scale true r
        else if (2 ^ 63 - 1) / 10 <? x then leadingFraction x scale true r
        else
          let y := x * 10 + digit_val c in
          if 2 ^ 63 <? y then leadingFraction x scale true r
          else leadingFraction y (scale * 10) false r
      else (x, scale, s)
  | "" => (x, scale, "")
  end.
(** The unit runs to the next digit or point. *)
Fixpoint span_unit (s : string) : string * string :=
  match s with
  | String c r =>
      if Ascii.eqb c "." || is_digit c then ("", s)
      else let '(u, rest) := span_unit r in (String c u, rest)
  | "" => ("", "")
  end.
Definition Millisecond : Z := 10 ^ 6.
Definition Microsecond : Z := 10 ^ 3.
(** [unitMap]; the two micro signs are U+00B5 and U+03BC in UTF-8. *)
Definition unit_of (u : string) : option Z :=
  if bool_decide (u = "ns") then Some 1
  else if bool_decide (u = "us") then Some Microsecond
  else if bool_decide (u = String (byte_of 194) (String (byte_of 181) "s")) then Some Microsecond
  else if bool_decide (u = String (byte_of 206) (String (byte_of 188) "s")) then Some Microsecond
  else if bool_decide (u = "ms") then Some Millisecond
  else if bool_decide (u = "s") then Some Second
  else if bool_decide (u = "m") then Some Minute
  else if bool_decide (u = "h") then Some Hour
  else None.

(** One number and its unit. *)
Definition duration_term (s : string) : option (Z * string) :=
  match s with
  | "" => None
  | String c _ =>
      if negb (Ascii.eqb c "." || is_digit c) then None else
      '(v, s1) ← leadingInt 0 s;
      let pre := negb (len s1 =? len s) in
      let '(f, scale, s2, post) :=
        match s1 with
        | String "." r =>
            let '(f, scale, r') := leadingFraction 0 1 false r in
            (f, scale, r', negb (len r' =? len r))
        | _ => (0, 1, s1, false)
        end in
      if negb pre && negb post then None else
      let '(u, s3) := span_unit s2 in
      if bool_decide (u = "") then None else
      unit ← unit_of u;
      if 2 ^ 63 / unit <? v then None else
      let v := v * unit in
      let v := if 0 <? f
               then v + uint64_of (fmul (float_of f) (fdiv (float_of unit) (float_of scale)))
               else v in
      if 2 ^ 63 <? v then None else Some (v, s3)
  end.
(** Each term consumes at least its unit, so the length is enough fuel. *)
Fixpoint duration_terms (fuel : nat) (d : Z) (s : string) : option Z :=
  match fuel with
  | O => None
  | S fuel =>
      if bool_decide (s = "") then Some d else
      '(v, rest) ← duration_term s;
      let d := d + v in
      if 2 ^ 63 <? d then None else duration_terms fuel d rest
  end.

Definition ParseDuration (orig : string) : option Z :=
  let '(neg, s) := match orig with
                   | String "-" r => (true, r)
                   | String "+" r => (false, r)
                   | _ => (false, orig)
                   end in
  if bool_decide (s = "0") then Some 0
  else if bool_decide (s = "") then None
  else
    d ← duration_terms (S (String.length s)) 0 s;
    if neg : bool then Some (wrap64 (- d))
    else if 2 ^ 63 - 1 <? d then None else Some d.
Definition ErrDuration (s : string) : error := Errorf "time: invalid duration %q" [s] [].

(** ** [ParseLookback] *)

Fixpoint span_digits (s : string) : string * string :=
  match s with
  | String c r =>
      if is_digit c then let '(ds, rest) := span_digits r in (String c ds, rest) else ("", s)
  | "" => ("", "")
  end.
(** The optional group [(\d+)u]: the digits, [""] when it does not match,
    and what follows. *)
Definition prefix_group (u : ascii) (s : string) : string * string :=
  let '(ds, rest) := span_digits s in
  match rest with
  | String c r => if Ascii.eqb c u && negb (bool_decide (ds = "")) then (ds, r) else ("", s)
  | "" => ("", s)
  end.

Definition ErrAtoi (s : string) : error := Errorf "strconv.Atoi: parsing %q" [s] [].
Definition malformed_lookback (source s : string) (err : error) : error :=
  Errorf "%s: malformed lookback %q: %w" [source; s] [err].

Definition ParseLookback (source s : string) : result Duration :=
  if bool_decide (s = "" ∨ s = "0") then Ok 0 else
  let '(m1, rest) := prefix_group "w" s in
  let '(m2, rest) := prefix_group "d" rest in
  ext ← (if bool_decide (m1 ≠ "") then
           match Atoi m1 with
           | None => Err (malformed_lookback source s (ErrAtoi m1))
           | Some w => Ok (wrap64 (w * 7 * 24 * Hour))
           end
         else Ok 0);
  ext ← (if bool_decide (m2 ≠ "") then
           match Atoi m2 with
           | None => Err (malformed_lookback source s (ErrAtoi m2))
           | Some d => Ok (wrap64 (ext + d * 24 * Hour))
           end
         else Ok ext);
  if bool_decide (rest ≠ "") then
    match ParseDuration rest with
    | None => Err (malformed_lookback source s (ErrDuration rest))
    | Some d =>
        if d <? 0 then Err (Errorf "%s: malformed lookback %q: negative duration" [source; s] [])
        else Ok (wrap64 (ext + d))
    end
  else Ok ext.

End duration.
