(* ===== verification/DurationThms.v ===== *)
(** * What a lookback string means *)

From S2P Require Import Prelude GoStrings GoTime Rawpost Crawl Duration CrawlThms.
From Stdlib Require Import Ascii.
Import crawl duration.

Lemma is_digit_not c d : is_digit c = true → is_digit d = false → Ascii.eqb c d = false.
Proof. intros Hc Hd. apply not_true_iff_false. intros ->%Ascii.eqb_eq. congruence. Qed.

Lemma span_digits_app ds c r :
  str_forall is_digit ds = true → is_digit c = false →
  span_digits (ds +:+ String c r) = (ds, String c r).
Proof.
  intros Hds Hc. induction ds as [|a ds IH].
  - rewrite str_app_nil_l. cbn. by rewrite Hc.
  - rewrite str_app_cons. cbn in *. bool_hyps. rewrite H. by rewrite IH.
Qed.

(** [<int>u], or nothing. *)
Definition part (u : ascii) (n : option Z) : string :=
  match n with Some n => Itoa n +:+ String u "" | None => "" end.

Lemma part_app u n r : part u (Some n) +:+ r = Itoa n +:+ String u r.
Proof. cbn. by rewrite str_app_assoc, str_app_cons, str_app_nil_l. Qed.

Lemma prefix_group_part u n r :
  is_digit u = false → 0 ≤ n → prefix_group u (part u (Some n) +:+ r) = (Itoa n, r).
Proof.
  intros Hu Hn. rewrite part_app. unfold prefix_group.
  rewrite span_digits_app by auto using Itoa_digits. rewrite Ascii.eqb_refl.
  rewrite bool_decide_eq_false_2 by by apply Itoa_nonempty. done.
Qed.
(** A part of another unit, or nothing, is no match. *)
Lemma prefix_group_other u v n :
  is_digit v = false → Ascii.eqb v u = false → 0 ≤ n → ∀ r,
  prefix_group u (part v (Some n) +:+ r) = ("", part v (Some n) +:+ r).
Proof.
  intros Hv Hvu Hn r. unfold prefix_group. rewrite part_app at 1.
  rewrite span_digits_app by auto using Itoa_digits. by rewrite Hvu, part_app.
Qed.

Lemma atoi_digits_ge x s n : 0 ≤ x → atoi_digits x s = Some n → x ≤ n.
Proof.
  revert x. induction s as [|c s IH]; intros x Hx H; cbn in H; [by injection H as <-|].
  destruct (is_digit c) eqn:Ec; [|done]. apply digit_val_range in Ec. apply IH in H; lia.
Qed.

Lemma leadingInt_digits x s c r n :
  is_digit c = false → 0 ≤ x → atoi_digits x s = Some n → n ≤ 2 ^ 63 →
  leadingInt x (s +:+ String c r) = Some (n, String c r).
Proof.
  intros Hc. revert x. induction s as [|a s IH]; intros x Hx Hn Hmax.
  - injection Hn as <-. rewrite str_app_nil_l. cbn. by rewrite Hc.
  - rewrite str_app_cons. cbn [atoi_digits leadingInt] in *. destruct (is_digit a) eqn:Ha; [|done].
    pose proof (digit_val_range a Ha). pose proof (atoi_digits_ge (x * 10 + digit_val a) s n ltac:(lia) Hn).
    replace (2 ^ 63 / 10 <? x) with false by (symmetry; apply Z.ltb_ge; apply Z.div_le_lower_bound; lia).
    replace (2 ^ 63 <? x * 10 + digit_val a) with false by (symmetry; apply Z.ltb_ge; lia).
    apply IH; [lia|done|done].
Qed.

Lemma len_app_lt s t : s ≠ "" → negb (len t =? len (s +:+ t)) = true.
Proof.
  intros Hs. rewrite len_app. apply negb_true_iff, Z.eqb_neq. destruct s; [done|].
  cbn [len]. pose proof (len_nonneg s). lia.
Qed.

Lemma Itoa_cons n : 0 ≤ n → ∃ c ds, Itoa n = String c ds ∧ is_digit c = true.
Proof.
  intros Hn. pose proof (Itoa_nonempty n Hn). pose proof (Itoa_digits n Hn) as Hd.
  destruct (Itoa n) as [|c ds]; [done|]. exists c, ds. split; [done|].
  cbn in Hd. by apply andb_true_iff in Hd as [? _].
Qed.
Lemma hours_max n : n * Hour ≤ int64_max → n ≤ 2 ^ 63 / Hour ∧ n * Hour < 2 ^ 63.
Proof.
  assert (0 < Hour) by by vm_compute. unfold int64_max. intros. split; [|lia].
  apply Z.div_le_lower_bound; lia.
Qed.

Lemma duration_term_hours n :
  0 ≤ n → n * Hour ≤ int64_max → duration_term (part "h" (Some n)) = Some (n * Hour, "").
Proof.
  intros Hn [Hdiv Hmul]%hours_max. assert (n ≤ 2 ^ 63).
  { assert (2 ^ 63 / Hour ≤ 2 ^ 63) by by vm_compute. lia. }
  destruct (Itoa_cons n Hn) as (c&ds&E&Hc). unfold duration_term, part.
  assert (Itoa n +:+ "h" = String c (ds +:+ "h")) as Hs by (rewrite E; apply str_app_cons).
  rewrite Hs at 1. rewrite Hc, orb_true_r. cbn [negb].
  rewrite (leadingInt_digits 0 (Itoa n) "h" "" n) by (done || apply atoi_digits_itoa; done).
  cbn [mbind option_bind]. cbv beta iota zeta. rewrite len_app_lt by by apply Itoa_nonempty.
  cbn [negb andb]. change (span_unit "h") with ("h", ""). cbv beta iota zeta. closed_decide. cbv iota.
  change (unit_of "h") with (Some Hour). cbn [mbind option_bind]. rewrite Z.ltb_irrefl. cbv iota.
  replace (2 ^ 63 / Hour <? n) with false by (symmetry; apply Z.ltb_ge; lia).
  replace (2 ^ 63 <? n * Hour) with false by (symmetry; apply Z.ltb_ge; lia).
  done.
Qed.

(** [<n>h] is [n] hours. *)
Lemma ParseDuration_hours n :
  0 ≤ n → n * Hour ≤ int64_max → ParseDuration (part "h" (Some n)) = Some (n * Hour).
Proof.
  intros Hn Hmax. pose proof (duration_term_hours n Hn Hmax) as Hterm.
  apply hours_max in Hmax as [_ Hmax]. destruct (Itoa_cons n Hn) as (c&ds&E&Hc).
  assert (part "h" (Some n) = String c (ds +:+ "h")) as Hs by (unfold part; rewrite E; apply str_app_cons).
  rewrite Hs in *. clear Hs E. unfold ParseDuration.
  assert (match String c (ds +:+ "h") with
          | String "-" r => (true, r)
          | String "+" r => (false, r)
          | _ => (false, String c (ds +:+ "h"))
          end = (false, String c (ds +:+ "h"))) as ->
    by (by destruct c as [[] [] [] [] [] [] [] []]).
  rewrite !bool_decide_eq_false_2 by (by intros [= -> ?]; destruct ds).
  replace (String.length (String c (ds +:+ "h"))) with (S (S (String.length ds)))
    by (cbn [String.length]; rewrite length_app_str; cbn; lia).
  assert (duration_terms (S (S (S (String.length ds)))) 0 (String c (ds +:+ "h")) = Some (n * Hour)) as ->.
  { cbn [duration_terms]. rewrite bool_decide_eq_false_2, Hterm by done. cbn -[Z.pow Hour Z.mul]. rewrite Z.add_0_l.
    replace (2 ^ 63 <? n * Hour) with false by (symmetry; apply Z.ltb_ge; lia). done. }
  cbn [mbind option_bind].
  replace (2 ^ 63 - 1 <? n * Hour) with false by (symmetry; apply Z.ltb_ge; lia). done.
Qed.

Definition part_ns (unit : Z) (n : option Z) : Z := default 0 n * unit.

(** A group that is there, or whose place another part or nothing takes. *)
Lemma prefix_group_opt u n r :
  is_digit u = false → from_option (λ n, 0 ≤ n) True n →
  prefix_group u r = ("", r) →
  prefix_group u (part u n +:+ r) = (from_option Itoa "" n, r).
Proof.
  intros Hu Hn Hr. destruct n as [n|]; cbn [from_option].
  - by apply prefix_group_part.
  - cbn [part]. by rewrite str_app_nil_l.
Qed.
Lemma prefix_group_d_h u n :
  Ascii.eqb "h" u = false → from_option (λ n, 0 ≤ n) True n → prefix_group u (part "h" n) = ("", part "h" n).
Proof.
  intros Hu Hn. destruct n as [n|]; [|done]. rewrite <-(str_app_nil_r (part "h" (Some n))).
  by apply prefix_group_other.
Qed.

Definition Day : Z := 24 * Hour.
Definition Week : Z := 7 * Day.
Definition nonneg (n : option Z) : Prop := from_option (λ n, 0 ≤ n) True n.
(** What a lookback of [w] weeks, [d] days and [h] hours means. *)
Definition lookback_ns (w d h : option Z) : Z := part_ns Week w + part_ns Day d + part_ns Hour h.
Definition lookback_text (w d h : option Z) : string := part "w" w +:+ part "d" d +:+ part "h" h.

Lemma part_length u n : match n with Some n => 0 ≤ n → (2 ≤ String.length (part u (Some n)))%nat | None => True end.
Proof.
  destruct n as [n|]; [|done]. intros Hn. unfold part. destruct (Itoa_cons n Hn) as (c&ds&->&_).
  rewrite str_app_cons. cbn [String.length]. rewrite length_app_str. cbn. lia.
Qed.
Lemma lookback_text_short w d h :
  nonneg w → nonneg d → nonneg h → (String.length (lookback_text w d h) < 2)%nat →
  w = None ∧ d = None ∧ h = None.
Proof.
  unfold lookback_text. rewrite !length_app_str. intros Hw Hd Hh Hlen.
  pose proof (part_length "w" w) as H1. pose proof (part_length "d" d) as H2.
  pose proof (part_length "h" h) as H3.
  destruct w as [w|]; [specialize (H1 Hw); lia|]. destruct d as [d|]; [specialize (H2 Hd); lia|].
  destruct h as [h|]; [specialize (H3 Hh); lia|done].
Qed.
Lemma part_ns_nonneg unit n : 0 ≤ unit → nonneg n → 0 ≤ part_ns unit n.
Proof. unfold part_ns. destruct n; cbn; lia || nia. Qed.

(** The digits of a group, when it is there. *)
Lemma group_value n :
  nonneg n → default 0 n ≤ int64_max →
  (from_option Itoa "" n = "" ∧ default 0 n = 0)
  ∨ (from_option Itoa "" n ≠ "" ∧ Atoi (from_option Itoa "" n) = Some (default 0 n)).
Proof.
  intros Hn Hmax. destruct n as [n|]; cbn [from_option default] in *; [right|by left].
  split; [by apply Itoa_nonempty|by apply Atoi_Itoa].
Qed.
Lemma hours_part h :
  nonneg h → part_ns Hour h ≤ int64_max →
  part "h" h = "" ∧ part_ns Hour h = 0
  ∨ part "h" h ≠ "" ∧ ParseDuration (part "h" h) = Some (part_ns Hour h).
Proof.
  intros Hh Hmax. destruct h as [h|]; [right|by left]. split; [|by apply ParseDuration_hours].
  intros E. pose proof (part_length "h" (Some h) Hh) as H. rewrite E in H. cbn in H. lia.
Qed.

(** A lookback written as whole weeks, days and hours, any of them left
    out, is their sum in nanoseconds, as long as it fits. *)
Theorem lookback_value src w d h :
  nonneg w → nonneg d → nonneg h → lookback_ns w d h ≤ int64_max →
  ParseLookback src (lookback_text w d h) = Ok (lookback_ns w d h).
Proof.
  intros Hw Hd Hh Hmax. unfold lookback_ns in *.
  assert (0 < Hour ∧ 0 < Day ∧ 0 < Week) as (Hhour&Hday&Hweek) by by vm_compute.
  pose proof (part_ns_nonneg Week w ltac:(lia) Hw). pose proof (part_ns_nonneg Day d ltac:(lia) Hd).
  pose proof (part_ns_nonneg Hour h ltac:(lia) Hh).
  assert (prefix_group "w" (part "d" d +:+ part "h" h) = ("", part "d" d +:+ part "h" h)) as Hnow.
  { destruct d as [d|]; [by apply prefix_group_other|]. cbn [part]. rewrite str_app_nil_l.
    by apply prefix_group_d_h. }
  assert (prefix_group "d" (part "h" h) = ("", part "h" h)) as Hnod by by apply prefix_group_d_h.
  assert (default 0 w ≤ int64_max ∧ default 0 d ≤ int64_max) as [Hwmax Hdmax] by (unfold part_ns in *; nia).
  assert (default 0 w * 7 * 24 * Hour = part_ns Week w) as Ew by (unfold part_ns, Week, Day; lia).
  assert (default 0 d * 24 * Hour = part_ns Day d) as Ed by (unfold part_ns, Day; lia).
  assert (∀ z, 0 ≤ z ≤ int64_max → wrap64 z = z) as Hwrap
    by (intros; apply wrap64_small; unfold in_int64, int64_min; lia).
  unfold ParseLookback. case_bool_decide as Hempty.
  { destruct (lookback_text_short w d h Hw Hd Hh) as (->&->&->); [by destruct Hempty as [-> | ->]; cbn; lia|done]. }
  assert (prefix_group "w" (lookback_text w d h) = (from_option Itoa "" w, part "d" d +:+ part "h" h)) as ->
    by by apply prefix_group_opt.
  rewrite prefix_group_opt by done.
  assert ((if bool_decide (from_option Itoa "" w ≠ "")
           then match Atoi (from_option Itoa "" w) with
                | None => Err (malformed_lookback src (lookback_text w d h) (ErrAtoi (from_option Itoa "" w)))
                | Some w => Ok (wrap64 (w * 7 * 24 * Hour)) end
           else Ok 0) = Ok (part_ns Week w)) as ->.
  { destruct (group_value w Hw Hwmax) as [[-> E0]|[Hne ->]].
    - cbn. by rewrite <-Ew, E0.
    - rewrite bool_decide_eq_true_2 by done. by rewrite Ew, Hwrap by lia. }
  cbn [mbind result_bind].
  assert ((if bool_decide (from_option Itoa "" d ≠ "")
           then match Atoi (from_option Itoa "" d) with
                | None => Err (malformed_lookback src (lookback_text w d h) (ErrAtoi (from_option Itoa "" d)))
                | Some d => Ok (wrap64 (part_ns Week w + d * 24 * Hour)) end
           else Ok (part_ns Week w)) = Ok (part_ns Week w + part_ns Day d)) as ->.
  { destruct (group_value d Hd Hdmax) as [[-> E0]|[Hne ->]].
    - cbn. by rewrite <-Ed, E0, Z.add_0_r.
    - rewrite bool_decide_eq_true_2 by done. by rewrite Ed, Hwrap by lia. }
  destruct (hours_part h Hh ltac:(lia)) as [[-> E0]|[Hne ->]].
  - by rewrite E0, Z.add_0_r.
  - rewrite bool_decide_eq_true_2 by done.
    cbv beta iota zeta. destruct (part_ns Hour h <? 0) eqn:?; bool_hyps; [lia|]. cbn [mbind result_bind]. by rewrite Hwrap by lia.
Qed.

(** The sum is not checked: a lookback of 15251 weeks, just over the
    range of a duration, is accepted and wraps to a negative one, which every
    crawler takes for no limit at all. *)
Theorem lookback_overflow_unbounded src c :
  ∃ d, ParseLookback src "15251w" = Ok d ∧ d < 0 ∧ cutoff_of c d = None.
Proof. eexists. split; [vm_compute; reflexivity|]. by split. Qed.
