(* ===== verification/Metrics.v ===== *)
(** * Package [internal/metrics]: what the metric surfaces record

    The metrics the service and a crawler register, the samples their methods
    send to them, the route label and the scrape-time queue collector
    (src/internal/metrics/metrics.go).  Prometheus itself is only called: a
    surface is the log of the calls made on it, and a nil receiver makes
    none. *)

From S2P Require Import Prelude GoStrings GoTime GoJson Store Rawpost.
From Stdlib Require Import Ascii.

Module metrics.

(** ** Calls to Prometheus *)

Inductive kind := Counter | Histogram | Gauge.
#[global] Instance kind_eq_dec : EqDecision kind.
Proof. solve_decision. Defined.
(** A registered metric: its full name, its kind and its label names. *)
Record metric := Metric { m_name : string; m_kind : kind; m_labels : list string }.
Definition opts (namespace subsystem name : string) : string :=
  namespace +:+ "_" +:+ subsystem +:+ "_" +:+ name.

Inductive observation := OfInt (z : Z) | OfFloat (x : float64) | OfSeconds (d : Duration).
(** [WithLabelValues(labels...)] and [Inc], [Add] or [Observe]. *)
Inductive sample :=
  | Inc (name : string) (labels : list string)
  | AddN (name : string) (labels : list string) (n : Z)
  | Observe (name : string) (labels : list string) (x : observation).

(** A surface: [None] is a nil receiver. *)
Definition surface : Type := option (list sample).
Definition send (calls : list sample) (m : surface) : surface := (λ log, log ++ calls) <$> m.

(** What a counter shows after a log. *)
Definition sample_count (name : string) (labels : list string) (s : sample) : Z :=
  match s with
  | Inc n l => if bool_decide (n = name ∧ l = labels) then 1 else 0
  | AddN n l k => if bool_decide (n = name ∧ l = labels) then k else 0
  | Observe _ _ _ => 0
  end.
Definition counter (name : string) (labels : list string) (log : list sample) : Z :=
  foldr Z.add 0 (sample_count name labels <$> log).

(** Only registered metrics of the right kind have the method, and
    [WithLabelValues] panics on a wrong number of labels and on a label that
    is no UTF-8. *)
Definition registered (defs : list metric) (name : string) (k : kind) (labels : nat) : bool :=
  existsb (λ d, bool_decide (m_name d = name) && bool_decide (m_kind d = k)
                && (length (m_labels d) =? labels)%nat) defs.
Definition WithLabelValues (defs : list metric) (name : string) (k : kind) (labels : list string) : bool :=
  registered defs name k (length labels) && forallb (json.valid_utf8 0) labels.
Definition well_labelled (defs : list metric) (s : sample) : bool :=
  match s with
  | Inc name labels => WithLabelValues defs name Counter labels
  | AddN name labels n => WithLabelValues defs name Counter labels && (0 <=? n)
  | Observe name labels _ => WithLabelValues defs name Histogram labels
  end.

(** ** HTTP requests *)

Definition newHTTP (namespace : string) : list metric :=
  [Metric (opts namespace "http" "requests_total") Counter ["method"; "path"; "status"];
   Metric (opts namespace "http" "request_duration_seconds") Histogram ["method"; "path"]].

Definition has_suffix (s : string) (c : ascii) : bool :=
  match s with
  | "" => false
  | _ => bool_decide (drop_str (String.length s - 1) s = String c "")
  end.
(** [m.route]: an exact entry, else an entry ending in [/] that is a prefix;
    the map is walked in some order. *)
Definition route (routes : list (string * string)) (path : string) : string :=
  match find (λ r, bool_decide (r.1 = path)) routes with
  | Some (_, route) => route
  | None =>
      match find (λ r, has_suffix r.1 "/" && has_prefix r.1 path) routes with
      | Some (_, route) => route
      | None => "other"
      end
  end.

Definition Route : list (string * string) → string → string := route.

(** [Wrap], once the wrapped handler has answered with [status]. *)
Definition Wrap (namespace : string) (routes : list (string * string))
    (method path : string) (status : Z) (dur : Duration) (m : surface) : surface :=
  let path := route routes path in
  let m := send [Inc (opts namespace "http" "requests_total") [method; path; Itoa status]] m in
  if bool_decide (method ≠ "GET") || bool_decide (path ≠ "/mcp")
  then send [Observe (opts namespace "http" "request_duration_seconds") [method; path] (OfSeconds dur)] m
  else m.

Definition takuhai_routes : list (string * string) :=
  [("/healthz", "/healthz"); ("/ingest", "/ingest"); ("/magnets/", "/magnets/{infohash}");
   ("/releases/", "/releases/{infohash}"); ("/mcp", "/mcp"); ("/metrics", "/metrics");
   ("/queue/claim", "/queue/claim"); ("/queue/stats", "/queue/stats"); ("/submit", "/submit")].
Definition crawler_routes : list (string * string) := [("/crawl", "/crawl"); ("/metrics", "/metrics")].

(** ** The service *)

Definition registerBuildInfo (namespace : string) : metric :=
  Metric (namespace +:+ "_build_info") Gauge ["version"; "commit"].

Definition ingestBatches : string := opts "takuhai" "ingest" "batches_total".
Definition ingestPosts : string := opts "takuhai" "ingest" "posts_total".
Definition ingestBatchSize : string := opts "takuhai" "ingest" "batch_size".
Definition queueClaims : string := opts "takuhai" "queue" "claims_total".
Definition queueClaimedItems : string := opts "takuhai" "queue" "claimed_items_total".
Definition queueClaimBatchSize : string := opts "takuhai" "queue" "claim_batch_size".
Definition submits : string := opts "takuhai" "submit" "total".
Definition submitConfidence : string := opts "takuhai" "submit" "confidence".
Definition mcpToolCalls : string := opts "takuhai" "mcp" "tool_calls_total".
Definition mcpToolDuration : string := opts "takuhai" "mcp" "tool_duration_seconds".
Definition mcpResolveInfohashes : string := opts "takuhai" "mcp" "resolve_magnets_infohashes_total".
Definition Takuhai : list metric :=
  registerBuildInfo "takuhai" :: newHTTP "takuhai" ++
  [Metric ingestBatches Counter ["result"];
   Metric ingestPosts Counter ["source"; "result"];
   Metric ingestBatchSize Histogram [];
   Metric queueClaims Counter ["result"];
   Metric queueClaimedItems Counter [];
   Metric queueClaimBatchSize Histogram [];
   Metric submits Counter ["status"; "result"];
   Metric submitConfidence Histogram ["status"];
   Metric mcpToolCalls Counter ["tool"; "result"];
   Metric mcpToolDuration Histogram ["tool"];
   Metric mcpResolveInfohashes Counter ["result"]].

(** The series of every source exist from the start. *)
Definition post_results : list string := ["new"; "updated"; "duplicate"; "conflict"; "skipped"; "error"].
Definition NewTakuhai : surface :=
  Some (source ← rawpost.Sources; result ← post_results; [AddN ingestPosts [source; result] 0]).

Definition IngestBatch (size : Z) (result : string) : surface → surface :=
  send [Inc ingestBatches [result]; Observe ingestBatchSize [] (OfInt size)].
Definition IngestPost (source result : string) : surface → surface :=
  let source := if bool_decide (source = "") then "unknown" else source in
  send [Inc ingestPosts [source; result]].
Definition QueueClaim (count : Z) (result : string) : surface → surface :=
  send (Inc queueClaims [result] ::
        if 0 <? count then [AddN queueClaimedItems [] count; Observe queueClaimBatchSize [] (OfInt count)]
        else []).
Definition submitStatus (status : string) : string :=
  if bool_decide (status = "matched" ∨ status = "unmatched" ∨ status = "suppressed")
  then status else "invalid".
Definition Submit (status result : string) (confidence : option float64) : surface → surface :=
  let status := submitStatus status in
  send (Inc submits [status; result] ::
        match confidence with
        | Some x =>
            if bool_decide (result = "ok") && (bool_decide (status = "matched") || bool_decide (status = "suppressed"))
            then [Observe submitConfidence [status] (OfFloat x)] else []
        | None => []
        end).
Definition MCPTool (tool result : string) (dur : Duration) : surface → surface :=
  send [Inc mcpToolCalls [tool; result]; Observe mcpToolDuration [tool] (OfSeconds dur)].
Definition MCPResolveMagnets (hits misses : Z) : surface → surface :=
  send ((if 0 <? hits then [AddN mcpResolveInfohashes ["hit"] hits] else [])
        ++ if 0 <? misses then [AddN mcpResolveInfohashes ["miss"] misses] else []).

(** ** The queue collector *)

(** A description: the name of a metric and its labels. *)
Record desc := NewDesc { d_name : string; d_labels : list string }.
Definition queueItemsDesc : desc := NewDesc "takuhai_queue_items" ["state"].
Definition queueStatsScrapeOKDesc : desc := NewDesc "takuhai_queue_stats_scrape_ok" [].
Definition catalogRawPostsDesc : desc := NewDesc "takuhai_catalog_raw_posts" [].
Definition catalogInfohashesDesc : desc := NewDesc "takuhai_catalog_infohashes" [].
Definition catalogRefsDesc : desc := NewDesc "takuhai_catalog_refs" [].
Definition catalogStatsScrapeOKDesc : desc := NewDesc "takuhai_catalog_stats_scrape_ok" [].
Definition Describe : list desc :=
  [queueItemsDesc; queueStatsScrapeOKDesc; catalogRawPostsDesc; catalogInfohashesDesc; catalogRefsDesc;
   catalogStatsScrapeOKDesc].

(** A constant gauge: its name, label values and value. *)
Definition gauge : Type := string * list string * Z.
Definition MustNewConstMetric (d : desc) (value : Z) (labels : list string) : gauge := (d_name d, labels, value).
(** [MustNewConstMetric] panics on another number of label values than its
    description has labels, and a scrape is refused that holds a metric the
    collector has not described. *)
Definition described (g : gauge) : bool :=
  existsb (λ d, bool_decide (d_name d = g.1.1) && (length (d_labels d) =? length g.1.2)%nat) Describe.

(** The states are a map in the source and come in some order. *)
Definition queue_gauges (qs : store.QueueStats) : list gauge :=
  [MustNewConstMetric queueItemsDesc (store.qs_Available qs) ["claimable"];
   MustNewConstMetric queueItemsDesc (store.qs_Leased qs) ["leased"];
   MustNewConstMetric queueItemsDesc (store.qs_Unmatched qs) ["unmatched"];
   MustNewConstMetric queueItemsDesc (store.qs_Matched qs) ["matched"];
   MustNewConstMetric queueItemsDesc (store.qs_Suppressed qs) ["suppressed"];
   MustNewConstMetric queueItemsDesc (store.qs_Exhausted qs) ["exhausted"]].
Definition Collect {S} (source : store.Store S) (s : S) : list gauge * S :=
  let '(cs, s) := store.store_CatalogStats source s in
  let catalog :=
    match cs with
    | Err _ => [MustNewConstMetric catalogStatsScrapeOKDesc 0 []]
    | Ok cs => [MustNewConstMetric catalogStatsScrapeOKDesc 1 [];
                MustNewConstMetric catalogRawPostsDesc (store.cs_RawPosts cs) [];
                MustNewConstMetric catalogInfohashesDesc (store.cs_Infohashes cs) [];
                MustNewConstMetric catalogRefsDesc (store.cs_Refs cs) []]
    end in
  let '(qs, s) := store.store_QueueStats source s in
  let queue :=
    match qs with
    | Err _ => [MustNewConstMetric queueStatsScrapeOKDesc 0 []]
    | Ok qs => MustNewConstMetric queueStatsScrapeOKDesc 1 [] :: queue_gauges qs
    end in
  (catalog ++ queue, s).

(** ** A crawler *)

Section crawler.
Context (namespace : string).
Definition crawlRequests : string := opts namespace "crawl" "requests_total".
Definition crawlDuration : string := opts namespace "crawl" "duration_seconds".
Definition crawlPages : string := opts namespace "crawl" "pages_fetched_total".
Definition crawlPosts : string := opts namespace "crawl" "posts_returned_total".
Definition crawlPostsPerReq : string := opts namespace "crawl" "posts_per_request".
Definition fetchRequests : string := opts namespace "fetch" "requests_total".
Definition fetchDuration : string := opts namespace "fetch" "duration_seconds".
Definition parsePosts : string := opts namespace "parse" "posts_total".
Definition NewCrawler : list metric :=
  registerBuildInfo namespace :: newHTTP namespace ++
  [Metric crawlRequests Counter ["result"];
   Metric crawlDuration Histogram [];
   Metric crawlPages Counter [];
   Metric crawlPosts Counter [];
   Metric crawlPostsPerReq Histogram [];
   Metric fetchRequests Counter ["result"];
   Metric fetchDuration Histogram [];
   Metric parsePosts Counter ["result"]].

Definition Crawl (result : string) (posts : Z) (dur : Duration) : surface → surface :=
  send ([Inc crawlRequests [result]; Observe crawlDuration [] (OfSeconds dur);
         Observe crawlPostsPerReq [] (OfInt posts)]
        ++ if 0 <? posts then [AddN crawlPosts [] posts] else []).
Definition Fetch (result : string) (dur : Duration) : surface → surface :=
  send ([Inc fetchRequests [result]; Observe fetchDuration [] (OfSeconds dur)]
        ++ if bool_decide (result = "ok") then [Inc crawlPages []] else []).
Definition ParsePosts (result : string) (posts : Z) : surface → surface :=
  send (if 0 <? posts then [AddN parsePosts [result] posts] else []).
End crawler.

End metrics.
