(* ===== verification/MetricsThms.v ===== *)
(** * The metric surfaces: labels and routes *)

From S2P Require Import Prelude GoStrings GoTime GoTimeFmt GoJson GoJsonText Rawpost Store Metrics.
From Stdlib Require Import Ascii.
Import json metrics.

(** ** Every sample has its metric *)

(** A method that only makes calls [defs] registers. *)
Definition safe (defs : list metric) (f : surface → surface) : Prop :=
  f None = None ∧ ∀ log, ∃ calls, f (Some log) = Some (log ++ calls) ∧ forallb (well_labelled defs) calls = true.

Lemma safe_send defs calls : forallb (well_labelled defs) calls = true → safe defs (send calls).
Proof. intros H. split; [done|]. intros log. by exists calls. Qed.

Lemma forallb_app_true {A} (p : A → bool) l k :
  forallb p l = true → forallb p k = true → forallb p (l ++ k) = true.
Proof. intros H1 H2. by rewrite forallb_app, H1, H2. Qed.

(** ** Labels that are text *)

Lemma itoa_pos_ascii fuel n acc : 0 ≤ n → str_forall is_ascii acc = true → str_forall is_ascii (itoa_pos fuel n acc) = true.
Proof.
  revert n acc. induction fuel as [|fuel IH]; intros n acc Hn Ha; [done|]. cbn [itoa_pos].
  assert (str_forall is_ascii (String (digit (n mod 10)) acc) = true) as Hd.
  { cbn [str_forall]. rewrite Ha, andb_true_r. apply is_digit_ascii, is_digit_digit. apply Z.mod_pos_bound. lia. }
  destruct (n <? 10); [done|]. apply IH; [apply Z.div_pos; lia|done].
Qed.
Lemma Itoa_text n : utf8_text (Itoa n).
Proof.
  apply ascii_utf8. unfold Itoa. destruct (Z.ltb_spec n 0); [cbn [str_forall]; apply andb_true_intro; split; [done|]|];
    (apply itoa_pos_ascii; [lia|done]).
Qed.
Lemma route_text routes path : Forall utf8_text routes.*2 → utf8_text (route routes path).
Proof.
  intros H. rewrite Forall_fmap, Forall_forall in H. unfold route.
  destruct (find _ routes) as [[p r]|] eqn:E1; [apply find_some in E1 as [E1 _]; by apply (H (p, r)), list_elem_of_In|].
  destruct (find _ routes) as [[p r]|] eqn:E2 in |- *; [|done].
  apply find_some in E2 as [E2 _]; by apply (H (p, r)), list_elem_of_In.
Qed.
Lemma takuhai_route_text path : utf8_text (route takuhai_routes path).
Proof. apply route_text. by repeat constructor. Qed.
Lemma crawler_route_text path : utf8_text (route crawler_routes path).
Proof. apply route_text. by repeat constructor. Qed.
Lemma submitStatus_text status : utf8_text (submitStatus status).
Proof. unfold submitStatus. case_bool_decide as H; [|done]. by destruct H as [->|[->| ->]]. Qed.
Lemma source_text source : utf8_text source → utf8_text (if bool_decide (source = "") then "unknown" else source).
Proof. by case_bool_decide. Qed.

(** Whether [WithLabelValues] accepts labels, one check after the other. *)
Ltac labelled :=
  unfold well_labelled, WithLabelValues; cbn [forallb];
  repeat first [assumption | reflexivity | apply Itoa_text | apply submitStatus_text | apply andb_true_intro; split
               | apply Z.leb_le; lia].

Lemma safe_Wrap defs ns routes method path status dur :
  registered defs (opts ns "http" "requests_total") Counter 3 = true →
  registered defs (opts ns "http" "request_duration_seconds") Histogram 2 = true →
  utf8_text method → utf8_text (route routes path) → safe defs (Wrap ns routes method path status dur).
Proof.
  intros H1 H2 Hm Hp. unfold Wrap. split; [by destruct (_ || _)|]. intros log. destruct (_ || _).
  - eexists [_; _]. split; [cbn; by rewrite <-app_assoc|]. labelled.
  - eexists [_]. split; [done|]. labelled.
Qed.

(** What the registry asks of everything a scrape collects: described, with
    as many values as labels, and no series twice. *)
Definition scrapable (gs : list gauge) : Prop := forallb described gs = true ∧ NoDup gs.*1.
Lemma Collect_scrapable {S} (source : store.Store S) s : scrapable (Collect source s).1.
Proof.
  unfold Collect. destruct (store.store_CatalogStats source s) as [cs s1].
  destruct (store.store_QueueStats source s1) as [qs s2]. cbn [fst].
  destruct cs as [?|?], qs as [?|?]; (split; [reflexivity|apply (bool_decide_unpack _); vm_compute; reflexivity]).
Qed.

(** The methods of a crawler's surface, for labels that are text. *)
Definition crawler_safe (ns : string) : Prop :=
  (∀ method path status dur, utf8_text method → safe (NewCrawler ns) (Wrap ns crawler_routes method path status dur))
  ∧ (∀ result posts dur, utf8_text result → safe (NewCrawler ns) (Crawl ns result posts dur))
  ∧ (∀ result dur, utf8_text result → safe (NewCrawler ns) (Fetch ns result dur))
  ∧ (∀ result posts, utf8_text result → safe (NewCrawler ns) (ParsePosts ns result posts))
  ∧ NoDup (m_name <$> NewCrawler ns).
Ltac crawler_safety :=
  unfold crawler_safe; split_and!; intros;
  [by apply safe_Wrap, crawler_route_text|apply safe_send, forallb_app_true; [labelled|]
  |apply safe_send, forallb_app_true; [labelled|]|apply safe_send|apply (bool_decide_unpack _); vm_compute; reflexivity];
  match goal with
  | |- context [0 <? ?n] => destruct (Z.ltb_spec 0 n) as [Hn|]; [labelled|reflexivity]
  | |- context [if ?b then _ else _] => by destruct b
  end.
Lemma crawlers_safe : Forall crawler_safe ["takuhai_dmhy"; "takuhai_nyaa"].
Proof. constructor; [crawler_safety|]. constructor; [crawler_safety|constructor]. Qed.

(** C31: no metric can panic and no scrape is refused: with text for its
    labels, and whatever the other arguments, every method of the service's
    surface and of both crawlers' makes calls only on metrics it has
    registered, of the right kind and with as many labels as they have, all
    of them UTF-8 - those it makes up itself and the route of any path
    always are -, never lowers a counter, and does nothing on a nil surface;
    no name is registered twice, the collector's among them; and whatever the
    store answers, a scrape sends only what the collector has described and
    no series twice. *)
Theorem metrics_well_labelled :
  (∀ method path status dur, utf8_text method → safe Takuhai (Wrap "takuhai" takuhai_routes method path status dur))
  ∧ (∀ size result, utf8_text result → safe Takuhai (IngestBatch size result))
  ∧ (∀ source result, utf8_text source → utf8_text result → safe Takuhai (IngestPost source result))
  ∧ (∀ count result, utf8_text result → safe Takuhai (QueueClaim count result))
  ∧ (∀ status result confidence, utf8_text result → safe Takuhai (Submit status result confidence))
  ∧ (∀ tool result dur, utf8_text tool → utf8_text result → safe Takuhai (MCPTool tool result dur))
  ∧ (∀ hits misses, safe Takuhai (MCPResolveMagnets hits misses))
  ∧ Forall crawler_safe ["takuhai_dmhy"; "takuhai_nyaa"]
  ∧ NoDup ((m_name <$> Takuhai) ++ (d_name <$> Describe))
  ∧ (∀ S (source : store.Store S) s, scrapable (Collect source s).1).
Proof.
  split_and!; [intros..|apply crawlers_safe| |by intros; apply Collect_scrapable].
  - by apply safe_Wrap, takuhai_route_text.
  - apply safe_send. labelled.
  - apply safe_send. pose proof (source_text source ltac:(assumption)). labelled.
  - apply safe_send. destruct (Z.ltb_spec 0 count); labelled.
  - apply safe_send. destruct confidence; [destruct (bool_decide (result = "ok") && _)|]; labelled.
  - apply safe_send. labelled.
  - apply safe_send, forallb_app_true; [destruct (Z.ltb_spec 0 hits)|destruct (Z.ltb_spec 0 misses)]; labelled.
  - apply (bool_decide_unpack _). vm_compute. reflexivity.
Qed.
Lemma metrics_well_labelled_witness :
  safe Takuhai (Wrap "takuhai" takuhai_routes "GET" "/releases/x" 200 0) ∧ safe Takuhai (IngestPost "" "skipped").
Proof.
  destruct metrics_well_labelled as (H1&_&H3&_). split; [apply H1; reflexivity|apply H3; reflexivity].
Defined.

(** ** The route label *)

Lemma find_perm {A} (p : A → bool) l k :
  (∀ x y, x ∈ l → y ∈ l → p x = true → p y = true → x = y) → l ≡ₚ k → find p l = find p k.
Proof.
  intros Huniq Hp. destruct (find p l) as [x|] eqn:E1, (find p k) as [y|] eqn:E2.
  - apply find_some in E1 as [H1 H1'], E2 as [H2 H2']. rewrite <-list_elem_of_In in H1, H2.
    f_equal. apply Huniq; [done|by rewrite Hp|done|done].
  - apply find_some in E1 as [H1 H1']. rewrite <-list_elem_of_In, Hp, list_elem_of_In in H1.
    pose proof (find_none _ _ E2 _ H1). congruence.
  - apply find_some in E2 as [H2 H2']. rewrite <-list_elem_of_In, <-Hp, list_elem_of_In in H2.
    pose proof (find_none _ _ E1 _ H2). congruence.
  - done.
Qed.

Lemma subtree_unique path x y :
  x ∈ takuhai_routes → y ∈ takuhai_routes →
  has_suffix x.1 "/" && has_prefix x.1 path = true → has_suffix y.1 "/" && has_prefix y.1 path = true → x = y.
Proof.
  assert (∀ z, z ∈ takuhai_routes → has_suffix z.1 "/" = true →
    z = ("/magnets/", "/magnets/{infohash}") ∨ z = ("/releases/", "/releases/{infohash}")) as Hsub.
  { intros z Hz. apply list_elem_of_In in Hz. cbn in Hz.
    repeat (destruct Hz as [<-|Hz]; [cbn; auto; intros H; vm_compute in H; done|]). done. }
  assert (has_prefix "/magnets/" path && has_prefix "/releases/" path = false) as Hboth.
  { destruct path as [|c1 [|c2 path]]; cbn; [done|by rewrite !andb_false_r|].
    destruct c2 as [[] [] [] [] [] [] [] []]; cbn; by rewrite ?andb_false_r. }
  intros Hx Hy [Hx1 Hx2]%andb_true_iff [Hy1 Hy2]%andb_true_iff.
  destruct (Hsub x Hx Hx1) as [->| ->], (Hsub y Hy Hy1) as [->| ->]; cbn [fst] in *; try done;
    by rewrite Hx2, Hy2 in Hboth.
Qed.
Lemma exact_unique path x y :
  x ∈ takuhai_routes → y ∈ takuhai_routes →
  bool_decide (x.1 = path) = true → bool_decide (y.1 = path) = true → x = y.
Proof.
  intros Hx Hy <-%bool_decide_eq_true H%bool_decide_eq_true. symmetry.
  apply list_elem_of_In in Hx, Hy. cbn in Hx, Hy.
  repeat (destruct Hx as [<-|Hx]; [repeat (destruct Hy as [<-|Hy]; [done|]); done|]). done.
Qed.

(** The route label of a request is exact for the known endpoints, the
    pattern for the two subtrees and one of ten fixed values for any path at
    all; the order in which the map of routes is walked does not matter. *)
Theorem route_label_bounded routes path :
  routes ≡ₚ takuhai_routes →
  route routes path = route takuhai_routes path
  ∧ (path ∈ takuhai_routes.*1 → (path, route routes path) ∈ takuhai_routes)
  ∧ route routes path ∈ "other" :: takuhai_routes.*2.
Proof.
  intros Hp. assert (route routes path = route takuhai_routes path) as ->.
  { unfold route. rewrite !(find_perm _ routes takuhai_routes); try done; intros x y; rewrite Hp.
    - apply subtree_unique.
    - apply exact_unique. }
  split; [done|]. unfold route. split.
  - intros ([p r]&->&Hin)%list_elem_of_fmap. cbn [fst].
    destruct (find (λ r, bool_decide (r.1 = p)) takuhai_routes) as [[p' r']|] eqn:E.
    + apply find_some in E as [E1 <-%bool_decide_eq_true]. by apply list_elem_of_In.
    + apply list_elem_of_In in Hin. pose proof (find_none _ _ E _ Hin) as H. cbn in H.
      by apply bool_decide_eq_false in H.
  - destruct (find _ _) as [[p' r']|] eqn:E.
    { apply find_some in E as [E _]. apply list_elem_of_In, (list_elem_of_fmap_2 snd) in E. by right. }
    destruct (find (λ r, _ && _) _) as [[p' r']|] eqn:E2; [|left].
    apply find_some in E2 as [E2 _]. apply list_elem_of_In, (list_elem_of_fmap_2 snd) in E2. by right.
Qed.
