(* ===== verification/GoHttp.v ===== *)
(** * [net/http] as the handlers use it

    A request with its body - the bytes and the error reading may end in -
    and a response whose body is the value handed to the encoder or the text
    handed to [http.Error]. *)

From S2P Require Import Prelude GoStrings.

(** A message: a literal, or the text of an error after a prefix. *)
Inductive message := Text (s : string) | ErrorText (prefix : string) (e : error).

Record Request := {
  req_Method : string;
  req_Path : string;
  req_Body : string;
  req_BodyErr : option error;
}.

Record errorResponse := {
  er_Code : string;
  er_Infohash : string;
  er_Message : message;
}.

(** [J] is the type of the values a handler encodes as JSON. *)
Inductive content (J : Type) :=
  | Plain (m : message)
  | Failure (e : errorResponse)
  | Raw (s : string)
  | Encoded (v : J).
Arguments Plain {J}. Arguments Failure {J}. Arguments Raw {J}. Arguments Encoded {J}.

Record Response (J : Type) := { status : Z; body : content J }.
Arguments status {J}. Arguments body {J}.

Definition StatusOK : Z := 200.
Definition StatusBadRequest : Z := 400.
Definition StatusNotFound : Z := 404.
Definition StatusMethodNotAllowed : Z := 405.
Definition StatusConflict : Z := 409.
Definition StatusInternalServerError : Z := 500.
Definition StatusBadGateway : Z := 502.
Definition StatusServiceUnavailable : Z := 503.

(** [http.Error]: the message as plain text. *)
Definition http_Error {J} (m : message) (code : Z) : Response J := {| status := code; body := Plain m |}.

(** [io.ReadAll]. *)
Definition ReadAll (r : Request) : result string :=
  match req_BodyErr r with
  | Some e => Err e
  | None => Ok (req_Body r)
  end.
