(* ===== verification/Dispatch.v ===== *)
(** * Package [internal/dispatch]: the transport-neutral operations

    The typed operations of the dispatcher, the wire forms of their requests
    and results, and the error taxonomy (src/internal/dispatch/dispatch.go),
    over any store.  Times are rendered in UTC, the zone of the service's
    container. *)

From S2P Require Import Prelude GoStrings GoTime GoTimeFmt Infohash Store GoJson GoJsonFields Cursor.

Module dispatch.

Definition ErrInvalidInput : error := ErrNew "takuhai/dispatch: invalid input".

(** ** Requests and results *)

Record ClaimRequest := { clq_Limit : Z; clq_LeaseSeconds : Z }.
Record RawItemResult := {
  rir_ID : Z;
  rir_Source : string;
  rir_SourceID : string;
  rir_Title : string;
  rir_URL : string;
  rir_PublishedAt : string;
}.
Record ClaimItemResult := {
  cir_Infohash : string;
  cir_ClaimToken : Z;
  cir_AttemptCount : Z;
  cir_LeaseExpiresAt : string;
  cir_RawItems : list RawItemResult;
}.
Record ClaimResult := { cres_Items : list ClaimItemResult }.

Record SubmitRequest := {
  sr_Infohash : string;
  sr_ClaimToken : Z;
  sr_Status : string;
  sr_Ref : string;
  sr_Confidence : option float64;
  sr_Reason : string;
}.

Record QueueStatsResult := {
  qsr_Available : Z;
  qsr_Leased : Z;
  qsr_Unmatched : Z;
  qsr_Matched : Z;
  qsr_Suppressed : Z;
  qsr_Exhausted : Z;
}.

Record ListReleasesRequest := {
  lr_Ref : string;
  lr_Since : option Time;
  lr_Limit : Z;
  lr_Cursor : string;
}.
Record ReleaseItemResult := {
  rel_Infohash : string;
  rel_Ref : string;
  rel_Title : string;
  rel_SizeBytes : Z;
  rel_PublishedAt : string;
  rel_Confidence : float64;
  rel_Sources : list string;
}.
Record ListReleasesResult := { lrr_Releases : list ReleaseItemResult; lrr_NextCursor : option string }.

Record GetReleaseRequest := { grq_Infohash : string }.
Record RawItemDetailResult := {
  rdr_ID : Z;
  rdr_Source : string;
  rdr_SourceID : string;
  rdr_Title : string;
  rdr_URL : option string;
  rdr_PublishedAt : string;
  rdr_IngestedAt : string;
}.
Record MatchEventItemResult := {
  mer_ID : Z;
  mer_Status : string;
  mer_Ref : option string;
  mer_Confidence : option float64;
  mer_Reason : option string;
  mer_CreatedAt : string;
}.
Record GetReleaseResult := {
  grr_Infohash : string;
  grr_Title : string;
  grr_Magnet : option string;
  grr_SizeBytes : option Z;
  grr_PublishedAt : string;
  grr_Sources : list string;
  grr_MatchStatus : string;
  grr_Ref : option string;
  grr_Confidence : option float64;
  grr_FirstMatchedAt : option string;
  grr_AttemptCount : Z;
  grr_CreatedAt : string;
  grr_UpdatedAt : string;
  grr_RawItems : list RawItemDetailResult;
  grr_MatchEvents : list MatchEventItemResult;
}.

Record ResolveMagnetsRequest := { rmr_Infohashes : list string }.
Record ResolveMagnetsResult := { rms_Magnets : gmap string string }.

(** The JSON fields of the requests the REST surface decodes. *)
Definition claim_fields : list (json.field ClaimRequest) :=
  [json.int_field "limit" (λ n r, {| clq_Limit := n; clq_LeaseSeconds := clq_LeaseSeconds r |});
   json.int_field "lease_seconds" (λ n r, {| clq_Limit := clq_Limit r; clq_LeaseSeconds := n |})].
Definition submit_fields : list (json.field SubmitRequest) :=
  [json.string_field "infohash" (λ s r, {| sr_Infohash := s; sr_ClaimToken := sr_ClaimToken r;
     sr_Status := sr_Status r; sr_Ref := sr_Ref r; sr_Confidence := sr_Confidence r; sr_Reason := sr_Reason r |});
   json.int_field "claim_token" (λ n r, {| sr_Infohash := sr_Infohash r; sr_ClaimToken := n;
     sr_Status := sr_Status r; sr_Ref := sr_Ref r; sr_Confidence := sr_Confidence r; sr_Reason := sr_Reason r |});
   json.string_field "status" (λ s r, {| sr_Infohash := sr_Infohash r; sr_ClaimToken := sr_ClaimToken r;
     sr_Status := s; sr_Ref := sr_Ref r; sr_Confidence := sr_Confidence r; sr_Reason := sr_Reason r |});
   json.string_field "ref" (λ s r, {| sr_Infohash := sr_Infohash r; sr_ClaimToken := sr_ClaimToken r;
     sr_Status := sr_Status r; sr_Ref := s; sr_Confidence := sr_Confidence r; sr_Reason := sr_Reason r |});
   float_ptr_field "confidence" (λ x r, {| sr_Infohash := sr_Infohash r; sr_ClaimToken := sr_ClaimToken r;
     sr_Status := sr_Status r; sr_Ref := sr_Ref r; sr_Confidence := x; sr_Reason := sr_Reason r |});
   json.string_field "reason" (λ s r, {| sr_Infohash := sr_Infohash r; sr_ClaimToken := sr_ClaimToken r;
     sr_Status := sr_Status r; sr_Ref := sr_Ref r; sr_Confidence := sr_Confidence r; sr_Reason := s |})].
Definition no_claim : ClaimRequest := {| clq_Limit := 0; clq_LeaseSeconds := 0 |}.
Definition no_submit : SubmitRequest := {| sr_Infohash := ""; sr_ClaimToken := 0; sr_Status := "";
  sr_Ref := ""; sr_Confidence := None; sr_Reason := "" |}.

(** ** The operations *)

Definition timeStringPtr (t : option Time) : option string := Format_RFC3339Nano <$> t.

Definition claim_raw_item (ri : store.RawItemDetail) : RawItemResult := {|
  rir_ID := store.rid_ID ri;
  rir_Source := store.rid_Source ri;
  rir_SourceID := store.rid_SourceID ri;
  rir_Title := store.rid_Title ri;
  rir_URL := default "" (store.rid_URL ri);
  rir_PublishedAt := Format_RFC3339Nano (store.rid_PublishedAt ri);
|}.
Definition claim_item (it : store.ClaimedRelease) : ClaimItemResult := {|
  cir_Infohash := store.cr_Infohash it;
  cir_ClaimToken := store.cr_ClaimToken it;
  cir_AttemptCount := store.cr_AttemptCount it;
  cir_LeaseExpiresAt := Format_RFC3339Nano (store.cr_LeaseExpires it);
  cir_RawItems := claim_raw_item <$> store.cr_RawItems it;
|}.
Definition release_item_result (r : store.ReleaseItem) : ReleaseItemResult := {|
  rel_Infohash := store.ri_Infohash r;
  rel_Ref := store.ri_Ref r;
  rel_Title := store.ri_Title r;
  rel_SizeBytes := store.ri_SizeBytes r;
  rel_PublishedAt := Format_RFC3339Nano (store.ri_PublishedAt r);
  rel_Confidence := store.ri_Confidence r;
  rel_Sources := store.ri_Sources r;
|}.
Definition raw_item_result (item : store.RawItemDetail) : RawItemDetailResult := {|
  rdr_ID := store.rid_ID item;
  rdr_Source := store.rid_Source item;
  rdr_SourceID := store.rid_SourceID item;
  rdr_Title := store.rid_Title item;
  rdr_URL := store.rid_URL item;
  rdr_PublishedAt := Format_RFC3339Nano (store.rid_PublishedAt item);
  rdr_IngestedAt := Format_RFC3339Nano (store.rid_IngestedAt item);
|}.
Definition match_event_result (ev : store.MatchEventDetail) : MatchEventItemResult := {|
  mer_ID := store.med_ID ev;
  mer_Status := store.med_Status ev;
  mer_Ref := store.med_Ref ev;
  mer_Confidence := store.med_Confidence ev;
  mer_Reason := store.med_Reason ev;
  mer_CreatedAt := Format_RFC3339Nano (store.med_CreatedAt ev);
|}.
Definition get_release_result (detail : store.ReleaseDetail) : GetReleaseResult := {|
  grr_Infohash := store.rd_Infohash detail;
  grr_Title := store.rd_Title detail;
  grr_Magnet := store.rd_Magnet detail;
  grr_SizeBytes := store.rd_SizeBytes detail;
  grr_PublishedAt := Format_RFC3339Nano (store.rd_PublishedAt detail);
  grr_Sources := store.rd_Sources detail;
  grr_MatchStatus := store.rd_MatchStatus detail;
  grr_Ref := store.rd_Ref detail;
  grr_Confidence := store.rd_Confidence detail;
  grr_FirstMatchedAt := timeStringPtr (store.rd_FirstMatchedAt detail);
  grr_AttemptCount := store.rd_AttemptCount detail;
  grr_CreatedAt := Format_RFC3339Nano (store.rd_CreatedAt detail);
  grr_UpdatedAt := Format_RFC3339Nano (store.rd_UpdatedAt detail);
  grr_RawItems := raw_item_result <$> store.rd_RawItems detail;
  grr_MatchEvents := match_event_result <$> store.rd_MatchEvents detail;
|}.

Section dispatcher.
Context {S : Type} (st : store.Store S).

(** The result of a store call, converted. *)
Definition on_ok {A B} (f : A → B) (r : result A * S) : result B * S :=
  match r with
  | (Err err, s) => (Err err, s)
  | (Ok a, s) => (Ok (f a), s)
  end.

Definition ClaimTyped (req : ClaimRequest) (s : S) : result ClaimResult * S :=
  on_ok (λ res, {| cres_Items := claim_item <$> store.clr_Items res |})
    (store.Claim st {| store.cp_Limit := clq_Limit req; store.cp_LeaseSeconds := clq_LeaseSeconds req |} s).

Definition SubmitTyped (req : SubmitRequest) (s : S) : result unit * S :=
  if bool_decide (sr_Status req ∈ ["matched"; "unmatched"; "suppressed"]) then
    store.Submit st {|
      store.sp_Infohash := sr_Infohash req;
      store.sp_ClaimToken := sr_ClaimToken req;
      store.sp_Status := sr_Status req;
      store.sp_Ref := sr_Ref req;
      store.sp_Confidence := sr_Confidence req;
      store.sp_Reason := sr_Reason req;
    |} s
  else (Err (Errorf "%w: invalid status %q" [sr_Status req] [ErrInvalidInput]), s).

Definition QueueStatsTyped (s : S) : result QueueStatsResult * S :=
  on_ok (λ qs, {|
    qsr_Available := store.qs_Available qs;
    qsr_Leased := store.qs_Leased qs;
    qsr_Unmatched := store.qs_Unmatched qs;
    qsr_Matched := store.qs_Matched qs;
    qsr_Suppressed := store.qs_Suppressed qs;
    qsr_Exhausted := store.qs_Exhausted qs;
  |}) (store.store_QueueStats st s).

Definition ListReleasesTyped (req : ListReleasesRequest) (s : S) : result ListReleasesResult * S :=
  on_ok (λ page, {|
    lrr_Releases := release_item_result <$> store.rp_Releases page;
    lrr_NextCursor := if bool_decide (store.rp_NextCursor page ≠ "")
                      then Some (store.rp_NextCursor page) else None;
  |}) (store.ListReleases st {|
    store.rq_Ref := lr_Ref req;
    store.rq_Since := lr_Since req;
    store.rq_Limit := lr_Limit req;
    store.rq_Cursor := lr_Cursor req;
  |} s).

Definition GetReleaseTyped (req : GetReleaseRequest) (s : S) : result GetReleaseResult * S :=
  match infohash.NormalizeInfohash (grq_Infohash req) with
  | Err err =>
      (Err (Errorf "%w: invalid infohash %q: %v" [grq_Infohash req; err_text err] [ErrInvalidInput]), s)
  | Ok ih => on_ok get_release_result (store.GetRelease st ih s)
  end.

Definition ResolveMagnetsTyped (req : ResolveMagnetsRequest) (s : S) : result ResolveMagnetsResult * S :=
  on_ok (λ magnets, {| rms_Magnets := magnets |}) (store.ResolveMagnets st (rmr_Infohashes req) s).
End dispatcher.

(** ** The error taxonomy *)

Definition WireCode (err : error) : string :=
  if Is err store.ErrNoSuchRelease then "no_such_release"
  else if Is err store.ErrNoActiveLease then "no_active_lease"
  else if Is err store.ErrStaleLease then "stale_lease"
  else if Is err cursor.ErrInvalidRef then "invalid_ref"
  else if Is err cursor.ErrInvalidCursor then "invalid_cursor"
  else if Is err ErrInvalidInput then "invalid_input"
  else "".

End dispatch.
