(* ===== verification/Rest.v ===== *)
(** * Package [internal/rest]: the HTTP handlers

    Pushed ingest, queue claim and stats, submit, and the two lookups
    (src/internal/rest), over any store and with the metrics they record.
    Their log lines are in Logs. *)

From S2P Require Import Prelude GoStrings GoTime Infohash Store Cursor GoJson GoJsonFields GoHttp.
From S2P Require Import Rawpost Metrics Dispatch.
From Stdlib Require Import Ascii.
Import dispatch.

Module rest.

(** What a handler encodes. *)
Record magnetResponse := { mr_Infohash : string; mr_Magnet : string }.
Inductive payload :=
  | PClaim (v : ClaimResult)
  | PStats (v : QueueStatsResult)
  | PRelease (v : GetReleaseResult)
  | PMagnet (v : magnetResponse)
  | PIngest (v : rawpost.IngestSummary).

Record World (S : Type) := { w_store : S; w_metrics : metrics.surface }.
Arguments w_store {S}. Arguments w_metrics {S}.

(** ** Errors *)

Definition writeError (code : Z) (wire infohash : string) (msg : message) : Response payload :=
  {| status := code; body := Failure {| er_Code := wire; er_Infohash := infohash; er_Message := msg |} |}.
Definition writeBadInput (msg : string) : Response payload :=
  writeError StatusBadRequest "invalid_input" "" (Text msg).
Definition writeJSONValue (code : Z) (v : payload) : Response payload := {| status := code; body := Encoded v |}.

Definition writeDispatchError (infohash : string) (err : error) : Response payload :=
  let code := WireCode err in
  if bool_decide (code = "no_such_release")
  then writeError StatusNotFound code infohash (ErrorText "" err)
  else if bool_decide (code = "no_active_lease" ∨ code = "stale_lease")
  then writeError StatusConflict code infohash (ErrorText "" err)
  else if bool_decide (code = "invalid_ref")
  then writeError StatusBadRequest code infohash (ErrorText "" err)
  else if bool_decide (code = "invalid_input")
  then writeError StatusBadRequest code infohash (ErrorText "" err)
  else writeError StatusInternalServerError "" infohash (Text "internal error").

(** The body, or the response that refuses the request. *)
Definition requirePost (r : Request) : Response payload + string :=
  if bool_decide (req_Method r ≠ "POST")
  then inl (writeError StatusMethodNotAllowed "" "" (Text "method not allowed"))
  else match ReadAll r with
       | Err _ => inl (writeBadInput "unreadable request body")
       | Ok body => inr body
       end.

(** ** The ingest request *)

Definition maxBatchPosts : Z := 1000.
Record ingestRequest := { ir_Posts : list rawpost.RawPost }.

Definition no_post : rawpost.RawPost := {|
  rawpost.rp_Title := ""; rawpost.rp_Magnet := ""; rawpost.rp_Source := ""; rawpost.rp_SourceID := "";
  rawpost.rp_URL := ""; rawpost.rp_PublishedAt := zero_time; rawpost.rp_SizeBytes := 0;
|}.
Definition post_fields : list (json.field rawpost.RawPost) :=
  [json.string_field "title" (λ s p, rawpost.Build_RawPost s (rawpost.rp_Magnet p) (rawpost.rp_Source p)
     (rawpost.rp_SourceID p) (rawpost.rp_URL p) (rawpost.rp_PublishedAt p) (rawpost.rp_SizeBytes p));
   json.string_field "magnet" (λ s p, rawpost.Build_RawPost (rawpost.rp_Title p) s (rawpost.rp_Source p)
     (rawpost.rp_SourceID p) (rawpost.rp_URL p) (rawpost.rp_PublishedAt p) (rawpost.rp_SizeBytes p));
   json.string_field "source" (λ s p, rawpost.Build_RawPost (rawpost.rp_Title p) (rawpost.rp_Magnet p) s
     (rawpost.rp_SourceID p) (rawpost.rp_URL p) (rawpost.rp_PublishedAt p) (rawpost.rp_SizeBytes p));
   json.string_field "source_id" (λ s p, rawpost.Build_RawPost (rawpost.rp_Title p) (rawpost.rp_Magnet p)
     (rawpost.rp_Source p) s (rawpost.rp_URL p) (rawpost.rp_PublishedAt p) (rawpost.rp_SizeBytes p));
   json.string_field "url" (λ s p, rawpost.Build_RawPost (rawpost.rp_Title p) (rawpost.rp_Magnet p)
     (rawpost.rp_Source p) (rawpost.rp_SourceID p) s (rawpost.rp_PublishedAt p) (rawpost.rp_SizeBytes p));
   time_field "published_at" (λ t p, rawpost.Build_RawPost (rawpost.rp_Title p) (rawpost.rp_Magnet p)
     (rawpost.rp_Source p) (rawpost.rp_SourceID p) (rawpost.rp_URL p) t (rawpost.rp_SizeBytes p));
   json.int_field "size_bytes" (λ n p, rawpost.Build_RawPost (rawpost.rp_Title p) (rawpost.rp_Magnet p)
     (rawpost.rp_Source p) (rawpost.rp_SourceID p) (rawpost.rp_URL p) (rawpost.rp_PublishedAt p) n)].
Definition ingest_fields : list (json.field ingestRequest) :=
  [json.slice_field true "posts" post_fields no_post (λ ps _, {| ir_Posts := ps |})].

Definition ingestParams (p : rawpost.RawPost) (ih : string) : store.IngestParams := {|
  store.ip_Infohash := ih;
  store.ip_Source := rawpost.rp_Source p;
  store.ip_SourceID := rawpost.rp_SourceID p;
  store.ip_Title := rawpost.rp_Title p;
  store.ip_URL := rawpost.rp_URL p;
  store.ip_Magnet := rawpost.rp_Magnet p;
  store.ip_SizeBytes := rawpost.rp_SizeBytes p;
  store.ip_PublishedAt := rawpost.rp_PublishedAt p;
|}.

Definition no_batch : rawpost.IngestBatch := rawpost.Build_IngestBatch 0 0 0 0 0.
Definition bump_skipped (b : rawpost.IngestBatch) : rawpost.IngestBatch :=
  rawpost.Build_IngestBatch (rawpost.ib_New b) (rawpost.ib_Updated b) (rawpost.ib_Duplicate b)
    (rawpost.ib_Conflict b) (rawpost.ib_Skipped b + 1).
(** The [switch] on the outcome: the bucket and the label it counts under. *)
Definition bump (out : store.IngestOutcome) (b : rawpost.IngestBatch) : rawpost.IngestBatch * option string :=
  let '(rawpost.Build_IngestBatch n u d c s) := b in
  if store.io_New out then (rawpost.Build_IngestBatch (n + 1) u d c s, Some "new")
  else if store.io_Updated out then (rawpost.Build_IngestBatch n (u + 1) d c s, Some "updated")
  else if store.io_Duplicate out then (rawpost.Build_IngestBatch n u (d + 1) c s, Some "duplicate")
  else if store.io_Conflict out then (rawpost.Build_IngestBatch n u d (c + 1) s, Some "conflict")
  else (b, None).

Record ingestFailure := { if_index : Z; if_source : string; if_sourceID : string; if_err : error }.

Section handlers.
Context {S : Type} (st : store.Store S).
Abbreviation W := (World S).
Definition on_metrics (f : metrics.surface → metrics.surface) (w : W) : W :=
  {| w_store := w_store w; w_metrics := f (w_metrics w) |}.
(** Run a store or dispatcher call in the world. *)
Definition in_world {A} (f : S → A * S) (w : W) : A * W :=
  let '(a, s) := f (w_store w) in (a, {| w_store := s; w_metrics := w_metrics w |}).

(** ** [POST /ingest] *)

(** The loop of [ingestBatch] from index [i]: the batch so far, and the
    failure that stopped it with its message. *)
Fixpoint ingestBatch (posts : list rawpost.RawPost) (i : Z) (batch : rawpost.IngestBatch) (w : W)
    : rawpost.IngestBatch * option (ingestFailure * string) * W :=
  match posts with
  | [] => (batch, None, w)
  | post :: posts =>
      let failed err msg w :=
        (batch, Some ({| if_index := i; if_source := rawpost.rp_Source post;
                         if_sourceID := rawpost.rp_SourceID post; if_err := err |}, msg),
         on_metrics (metrics.IngestPost (rawpost.rp_Source post) "error") w) in
      match infohash.NormalizeInfohash (rawpost.rp_Magnet post) with
      | Err err =>
          if Is err infohash.ErrSkipInfohash then
            ingestBatch posts (i + 1) (bump_skipped batch)
              (on_metrics (metrics.IngestPost (rawpost.rp_Source post) "skipped") w)
          else failed err "infohash normalization failed" w
      | Ok ih =>
          match in_world (store.IngestN st (ingestParams post ih)) w with
          | (Err err, w) => failed err "ingest failed" w
          | (Ok out, w) =>
              let '(batch, label) := bump out batch in
              ingestBatch posts (i + 1) batch
                match label with
                | Some label => on_metrics (metrics.IngestPost (rawpost.rp_Source post) label) w
                | None => w
                end
          end
      end
  end.

Definition missing_source (p : rawpost.RawPost) : bool :=
  bool_decide (TrimSpace (rawpost.rp_Source p) = "") || bool_decide (TrimSpace (rawpost.rp_SourceID p) = "").

Definition handleIngest (r : Request) (w : W) : Response payload * W :=
  if bool_decide (req_Method r ≠ "POST")
  then (http_Error (Text "method not allowed") StatusMethodNotAllowed, w) else
  match json.Decoder_Decode true ingest_fields {| ir_Posts := [] |} (req_Body r) with
  | Err _ =>
      (http_Error (Text "invalid request body") StatusBadRequest, on_metrics (metrics.IngestBatch 0 "error") w)
  | Ok req =>
      let posts := ir_Posts req in
      let n := Z.of_nat (length posts) in
      let errored w := on_metrics (metrics.IngestBatch n "error") w in
      if maxBatchPosts <? n
      then (http_Error (Text "batch too large") StatusBadRequest, errored w)
      else if existsb missing_source posts
      then (http_Error (Text "post missing source or source_id") StatusBadRequest, errored w)
      else
        match ingestBatch posts 0 no_batch w with
        | (_, Some (_, msg), w) => (http_Error (Text msg) StatusInternalServerError, errored w)
        | (batch, None, w) =>
            match in_world (store.store_QueueStats st) w with
            | (Err _, w) => (http_Error (Text "queue stats failed") StatusInternalServerError, errored w)
            | (Ok qs, w) =>
                (writeJSONValue StatusOK (PIngest (rawpost.Build_IngestSummary batch
                   (rawpost.Build_QueueStats (store.qs_Available qs) (store.qs_Leased qs)
                      (store.qs_Exhausted qs)))),
                 on_metrics (metrics.IngestBatch n "ok") w)
            end
        end
  end.

(** ** The queue *)

Definition handleClaim (r : Request) (w : W) : Response payload * W :=
  let errored w := on_metrics (metrics.QueueClaim 0 "error") w in
  match requirePost r with
  | inl resp => (resp, errored w)
  | inr body =>
      match json.Unmarshal claim_fields no_claim body with
      | Err _ => (writeBadInput "invalid request body", errored w)
      | Ok req =>
          match in_world (ClaimTyped st req) w with
          | (Err err, w) => (writeDispatchError "" err, errored w)
          | (Ok out, w) =>
              let n := Z.of_nat (length (cres_Items out)) in
              (writeJSONValue StatusOK (PClaim out),
               on_metrics (if n =? 0 then metrics.QueueClaim 0 "empty" else metrics.QueueClaim n "claimed") w)
          end
      end
  end.

Definition handleQueueStats (r : Request) (w : W) : Response payload * W :=
  if bool_decide (req_Method r ≠ "GET")
  then (writeError StatusMethodNotAllowed "" "" (Text "method not allowed"), w)
  else
    match in_world (QueueStatsTyped st) w with
    | (Err err, w) => (writeDispatchError "" err, w)
    | (Ok out, w) => (writeJSONValue StatusOK (PStats out), w)
    end.

Definition handleSubmit (r : Request) (w : W) : Response payload * W :=
  let invalid w := on_metrics (metrics.Submit "invalid" "error" None) w in
  match requirePost r with
  | inl resp => (resp, invalid w)
  | inr body =>
      match json.Unmarshal submit_fields no_submit body with
      | Err _ => (writeBadInput "invalid request body", invalid w)
      | Ok req =>
          match in_world (SubmitTyped st req) w with
          | (Err err, w) =>
              let code := WireCode err in
              let result := if bool_decide (code = "no_active_lease" ∨ code = "stale_lease")
                            then "conflict" else "error" in
              (writeDispatchError (sr_Infohash req) err,
               on_metrics (metrics.Submit (sr_Status req) result None) w)
          | (Ok _, w) =>
              ({| status := StatusOK; body := Raw ("{" +:+ json.quote "ok" +:+ ":true}") |},
               on_metrics (metrics.Submit (sr_Status req) "ok" (sr_Confidence req)) w)
          end
      end
  end.

(** ** The lookups *)

Definition handleGetMagnet (r : Request) (w : W) : Response payload * W :=
  if bool_decide (req_Method r ≠ "GET")
  then (writeError StatusMethodNotAllowed "" "" (Text "method not allowed"), w) else
  let raw := trim_prefix (req_Path r) "/magnets/" in
  if bool_decide (raw = "") || contains raw "/" then (writeBadInput "invalid infohash", w) else
  match infohash.NormalizeInfohash raw with
  | Err _ => (writeBadInput "invalid infohash", w)
  | Ok ih =>
      match in_world (ResolveMagnetsTyped st {| rmr_Infohashes := [ih] |}) w with
      | (Err err, w) => (writeDispatchError ih err, w)
      | (Ok out, w) =>
          match rms_Magnets out !! ih with
          | None =>
              (writeError StatusNotFound "no_such_release" ih (ErrorText "" store.ErrNoSuchRelease), w)
          | Some magnet =>
              (writeJSONValue StatusOK (PMagnet {| mr_Infohash := ih; mr_Magnet := magnet |}), w)
          end
      end
  end.

Definition handleGetRelease (r : Request) (w : W) : Response payload * W :=
  if bool_decide (req_Method r ≠ "GET")
  then (writeError StatusMethodNotAllowed "" "" (Text "method not allowed"), w) else
  let raw := trim_prefix (req_Path r) "/releases/" in
  if bool_decide (raw = "") || contains raw "/" then (writeBadInput "invalid infohash", w) else
  match infohash.NormalizeInfohash raw with
  | Err _ => (writeBadInput "invalid infohash", w)
  | Ok ih =>
      match in_world (GetReleaseTyped st {| grq_Infohash := ih |}) w with
      | (Err err, w) => (writeDispatchError ih err, w)
      | (Ok out, w) => (writeJSONValue StatusOK (PRelease out), w)
      end
  end.
End handlers.

End rest.
