(* ===== verification/RestThms.v ===== *)
(** * What the HTTP surface guarantees

    The handlers of [Rest.v] over the PostgreSQL store of [Listing.v]: a
    batch accounts for every post and may be replayed, a submission and a
    lookup have exactly the answers of the store, and a failure stops a batch
    where it happened. *)

From S2P Require Import Prelude GoStrings GoTime GoTimeFmt Infohash Store GoJson Cursor CursorCodec Db Postgres.
From S2P Require Import StoreSpec StoreInv Queue QueueThms Listing ListingThms DetailThms.
From S2P Require Import Rawpost Metrics GoHttp Dispatch Rest.
From Stdlib Require Import Ascii.
Import rest.

(** ** One post *)

Definition known (p : store.IngestParams) (d : db) : Prop := existsb (postgres.same_source p) (raw_items d) = true.
Definition raw_count (d : db) : Z := Z.of_nat (length (raw_items d)).
Definition release_count (d : db) : Z := Z.of_nat (size (releases d)).

(** What an outcome says of the tables before and after. *)
Definition accounts (out : store.IngestOutcome) (d d' : db) : Prop :=
  (out = store.outcome_New ∧ raw_count d' = raw_count d + 1 ∧ release_count d' = release_count d + 1)
  ∨ (out = store.outcome_Updated ∧ raw_count d' = raw_count d + 1 ∧ release_count d' = release_count d)
  ∨ ((out = store.outcome_Duplicate ∨ out = store.outcome_Conflict) ∧ same_tables d d').

Lemma ingest_spec_accounts now p d :
  postgres.isCanonicalInfohash (store.ip_Infohash p) = true →
  ∃ out d', ingest_spec now p d = Ok (out, d') ∧ accounts out d d' ∧ known p d'
            ∧ (known p d → same_tables d d').
Proof.
  intros Hc. unfold ingest_spec. rewrite Hc. cbn [negb].
  assert (∀ d0, existsb (postgres.same_source p) (raw_items d0 ++ [new_raw_item p now (raw_items_id_seq d)]) = true)
    as Hnew.
  { intros d0. rewrite existsb_app. apply orb_true_iff. right. cbn. unfold postgres.same_source. cbn.
    by rewrite !bool_decide_eq_true_2. }
  destruct (releases d !! store.ip_Infohash p) as [r|] eqn:Er, (existsb (postgres.same_source p) (raw_items d)) eqn:Es;
    (eexists _, _; split; [reflexivity|]); unfold accounts, known, raw_count, release_count.
  - split_and!; [right; right; split; [by left|done]|done|done].
  - split_and!; [right; left; split_and!; [done|..]|apply Hnew|congruence].
    + cbn. rewrite length_app. cbn. lia.
    + cbn. by rewrite map_size_insert, Er.
  - split_and!; [right; right; split; [by right|done]|done|done].
  - split_and!; [left; split_and!; [done|..]|apply Hnew|congruence].
    + cbn. rewrite length_app. cbn. lia.
    + cbn. rewrite map_size_insert, Er. lia.
Qed.

Lemma canonical_is s : infohash.canonical s → postgres.isCanonicalInfohash s = true.
Proof.
  intros [Hl Hh]. unfold postgres.isCanonicalInfohash. rewrite len_length, Hl. cbn [negb Z.eqb].
  change (negb (Z.of_nat 40 =? 40)) with false. cbv iota. clear Hl.
  induction s as [|c s IH]; [done|]. cbn in Hh. apply andb_true_iff in Hh as [Hc Hh].
  cbn. rewrite IH by done. destruct c as [[] [] [] [] [] [] [] []]; by vm_compute in Hc.
Qed.

Lemma ingest_one cfg E p s :
  healthy E → postgres.isCanonicalInfohash (store.ip_Infohash p) = true →
  ∃ out s', store.IngestN (listing.pg_store cfg E) p s = (Ok out, s')
    ∧ step (sdb s) (sdb s') ∧ accounts out (sdb s) (sdb s') ∧ known p (sdb s')
    ∧ (known p (sdb s) → same_tables (sdb s) (sdb s')).
Proof.
  intros HE Hc. cbn. destruct (ingest_spec_accounts (clock E (tick s)) p (sdb s) Hc) as (out&d'&Hs&Ha&Hk&Hr).
  pose proof (IngestN_refines p E s) as H. cbv beta zeta in H. rewrite Hs in H.
  pose proof (run_op_step (OpIngest p) E (tick s) (sdb s)) as Hstep.
  destruct s as [n d]. cbn [sdb tick] in *. unfold run_op, mbind, M_bind, mret, M_ret in Hstep.
  destruct (postgres.IngestN p E (State n d)) as [[e|o] s']; [by destruct H as [_ H%(λ f, f HE)]|].
  injection H as -> ->. exists o, s'. done.
Qed.

(** ** A batch *)

Definition total (b : rawpost.IngestBatch) : Z :=
  rawpost.ib_New b + rawpost.ib_Updated b + rawpost.ib_Duplicate b + rawpost.ib_Conflict b + rawpost.ib_Skipped b.
(** Its magnet names no canonical infohash. *)
Definition unnamed (p : rawpost.RawPost) : bool :=
  match infohash.NormalizeInfohash (rawpost.rp_Magnet p) with Ok _ => false | Err _ => true end.
(** The post's raw item is in the store. *)
Definition taken (d : db) (p : rawpost.RawPost) : Prop := unnamed p = true ∨ known (ingestParams p "") d.

Record batch_of (ps : list rawpost.RawPost) (b b' : rawpost.IngestBatch) (d d' : db) : Prop := {
  bo_total : total b' = total b + Z.of_nat (length ps);
  bo_skipped : rawpost.ib_Skipped b' = rawpost.ib_Skipped b + count_if unnamed ps;
  bo_raw : rawpost.ib_New b' + rawpost.ib_Updated b'
           = rawpost.ib_New b + rawpost.ib_Updated b + (raw_count d' - raw_count d);
  bo_new : rawpost.ib_New b' = rawpost.ib_New b + (release_count d' - release_count d);
  bo_steps : rtc step d d';
  bo_taken : Forall (taken d') ps;
  bo_replay : Forall (taken d) ps → same_tables d d';
}.

Lemma same_tables_counts d d' :
  same_tables d d' → raw_count d' = raw_count d ∧ release_count d' = release_count d.
Proof. intros (Hr&Hi&_). unfold raw_count, release_count. by rewrite Hr, Hi. Qed.

Lemma known_source p q d :
  store.ip_Source p = store.ip_Source q → store.ip_SourceID p = store.ip_SourceID q → known p d → known q d.
Proof. unfold known, postgres.same_source. by intros -> ->. Qed.

Lemma taken_steps d d' p : rtc step d d' → taken d p → taken d' p.
Proof. intros Hs [?|?]; [by left|right]. by eapply steps_keep_source. Qed.
Lemma taken_tables d d' p : same_tables d d' → taken d p → taken d' p.
Proof. intros (_&Hi&_) [?|Hk]; [by left|right]. unfold known in *. by rewrite <-Hi. Qed.

(** What one outcome does to the batch. *)
Lemma bump_accounts out b d d' :
  accounts out d d' →
  let b' := (bump out b).1 in
  total b' = total b + 1 ∧ rawpost.ib_Skipped b' = rawpost.ib_Skipped b
  ∧ rawpost.ib_New b' + rawpost.ib_Updated b'
    = rawpost.ib_New b + rawpost.ib_Updated b + (raw_count d' - raw_count d)
  ∧ rawpost.ib_New b' = rawpost.ib_New b + (release_count d' - release_count d).
Proof.
  destruct b as [n u dd c s]. unfold total.
  intros [(->&H1&H2)|[(->&H1&H2)|([->| ->]&Hs)]]; cbn; try (apply same_tables_counts in Hs as [H1 H2]); lia.
Qed.

Lemma ingestBatch_run cfg E ps i b w :
  healthy E →
  ∃ b' w', ingestBatch (listing.pg_store cfg E) ps i b w = (b', None, w')
    ∧ batch_of ps b b' (sdb (w_store w)) (sdb (w_store w')).
Proof.
  intros HE. revert i b w. induction ps as [|p ps IH]; intros i b w; cbn [ingestBatch].
  { exists b, w. split; [done|]. split; unfold count_if; cbn; try lia; try done; constructor. }
  destruct (infohash.NormalizeInfohash (rawpost.rp_Magnet p)) as [e|ih] eqn:En.
  - pose proof (infohash.normalize_error _ _ En) as ->. cbn.
    assert (unnamed p = true) as Hu by (unfold unnamed; by rewrite En).
    edestruct IH as (b'&w'&->&[]). exists b', w'. split; [done|]. cbn in *.
    split; try done.
    + rewrite bo_total0. destruct b. unfold total. cbn. lia.
    + rewrite bo_skipped0. unfold count_if. cbn [List.filter]. rewrite Hu. cbn [length]. destruct b. cbn. lia.
    + constructor; [by left|done].
    + intros [_ H]%Forall_cons. by apply bo_replay0.
  - assert (postgres.isCanonicalInfohash ih = true) as Hc by by eapply canonical_is, infohash.normalize_canonical.
    destruct (ingest_one cfg E (ingestParams p ih) (w_store w) HE Hc) as (out&s1&Hrun&Hstep&Hacc&Hk&Hrep).
    assert (unnamed p = false) as Hu by (unfold unnamed; by rewrite En).
    unfold in_world. rewrite Hrun. destruct (bump out b) as [b1 label] eqn:Eb.
    pose proof (bump_accounts out b _ _ Hacc) as Hb. rewrite Eb in Hb. cbn [fst] in Hb. destruct Hb as (Ht&Hs&Hr&Hn).
    edestruct IH as (b'&w'&->&[]). exists b', w'. split; [done|].
    assert (∀ (l : option string) (w0 : World state) f,
      w_store (match l with Some x => on_metrics (f x) w0 | None => w0 end) = w_store w0) as Hw
      by by intros [].
    rewrite Hw in *. cbn [w_store] in *.
    split.
    + rewrite bo_total0, Ht. cbn [length]. lia.
    + rewrite bo_skipped0, Hs. unfold count_if. cbn [List.filter]. by rewrite Hu.
    + lia.
    + lia.
    + by eapply rtc_l.
    + constructor; [|done]. eapply taken_steps; [done|]. right. by eapply known_source; [..|exact Hk].
    + intros [[Hp|Hp] Hps]%Forall_cons; [congruence|].
      assert (same_tables (sdb (w_store w)) (sdb s1)) as H1 by (apply Hrep; by eapply known_source; [..|exact Hp]).
      etransitivity; [exact H1|]. apply bo_replay0. eapply Forall_impl; [exact Hps|].
      intros q. by apply taken_tables.
Qed.

(** ** [POST /ingest] *)

(** A request the ingest handler accepts, with its posts. *)
Record accepted (r : Request) (ps : list rawpost.RawPost) : Prop := {
  acc_method : req_Method r = "POST";
  acc_decoded : json.Decoder_Decode true ingest_fields {| ir_Posts := [] |} (req_Body r) = Ok {| ir_Posts := ps |};
  acc_size : Z.of_nat (length ps) ≤ maxBatchPosts;
  acc_sources : existsb missing_source ps = false;
}.
Definition summary_response (batch : rawpost.IngestBatch) (q : store.QueueStats) : Response payload :=
  writeJSONValue StatusOK (PIngest (rawpost.Build_IngestSummary batch
    (rawpost.Build_QueueStats (store.qs_Available q) (store.qs_Leased q) (store.qs_Exhausted q)))).

Lemma handleIngest_run cfg E r ps w :
  healthy E → accepted r ps →
  ∃ batch t w', handleIngest (listing.pg_store cfg E) r w
    = (summary_response batch (postgres.queue_stats_sql t (postgres.QueueMaxAttempts cfg) (sdb (w_store w'))), w')
    ∧ batch_of ps no_batch batch (sdb (w_store w)) (sdb (w_store w')).
Proof.
  intros HE []. unfold handleIngest. rewrite bool_decide_eq_false_2 by auto. rewrite acc_decoded0. cbn [ir_Posts].
  destruct (Z.ltb_spec maxBatchPosts (Z.of_nat (length ps))); [lia|]. rewrite acc_sources0.
  destruct (ingestBatch_run cfg E ps 0 no_batch w HE) as (b'&w1&->&Hb).
  unfold in_world. cbn. unfold postgres.QueueStats, query, statement, mbind, M_bind. cbn. rewrite HE.
  eexists b', _, _. split; [refine (f_equal2 pair _ eq_refl); reflexivity|]. done.
Qed.

(** C25: without driver errors, an accepted [POST /ingest] answers 200 with a
    summary that accounts for every post: the five buckets add up to the
    posts, the skipped ones are those whose magnet names no infohash, the new
    and updated ones are the raw items added, the new ones the releases
    added, every other post was in the store already, and the queue counts
    are those of the resulting database. *)
Theorem ingest_request_accounts cfg E r ps w n d :
  reachable d → healthy E → w_store w = State n d → accepted r ps →
  ∃ batch t w', let d' := sdb (w_store w') in
    handleIngest (listing.pg_store cfg E) r w
    = (summary_response batch (postgres.queue_stats_sql t (postgres.QueueMaxAttempts cfg) d'), w')
    ∧ total batch = Z.of_nat (length ps)
    ∧ rawpost.ib_Skipped batch = count_if unnamed ps
    ∧ rawpost.ib_New batch + rawpost.ib_Updated batch = raw_count d' - raw_count d
    ∧ rawpost.ib_New batch = release_count d' - release_count d
    ∧ Forall (taken d') ps
    ∧ reachable d'.
Proof.
  intros Hd HE Hw Hacc. destruct (handleIngest_run cfg E r ps w HE Hacc) as (batch&t&w'&Hrun&[]).
  rewrite Hw in *. cbn [sdb] in *. exists batch, t, w'. split_and!; try done; try lia.
  unfold reachable in *. by etransitivity.
Qed.

(** A batch may be posted again: after an accepted request, and after any
    calls in between, the same request answers 200 with nothing new and
    nothing updated and leaves every table as it is. *)
Theorem ingest_request_replay cfg E r ps w n d d2 cfg2 E2 w2 n2 :
  reachable d → healthy E → w_store w = State n d → accepted r ps →
  rtc step (sdb (w_store (handleIngest (listing.pg_store cfg E) r w).2)) d2 →
  healthy E2 → w_store w2 = State n2 d2 →
  ∃ batch t w', handleIngest (listing.pg_store cfg2 E2) r w2
    = (summary_response batch (postgres.queue_stats_sql t (postgres.QueueMaxAttempts cfg2) d2), w')
    ∧ rawpost.ib_New batch = 0 ∧ rawpost.ib_Updated batch = 0 ∧ total batch = Z.of_nat (length ps)
    ∧ same_tables d2 (sdb (w_store w')).
Proof.
  intros Hd HE Hw Hacc Hs HE2 Hw2.
  destruct (handleIngest_run cfg E r ps w HE Hacc) as (b1&t1&w1&Hrun&[]). rewrite Hrun in Hs. cbn [snd] in Hs.
  destruct (handleIngest_run cfg2 E2 r ps w2 HE2 Hacc) as (b2&t2&w'&Hrun2&Hb).
  rewrite Hw2 in Hb. cbn [sdb] in Hb.
  assert (same_tables d2 (sdb (w_store w'))) as Hst.
  { apply Hb. eapply Forall_impl; [exact bo_taken0|]. intros p. by apply taken_steps. }
  pose proof (same_tables_counts _ _ Hst) as [Hr Hn]. destruct Hb.
  exists b2, t2, w'. rewrite Hrun2.
  split_and!; [unfold postgres.queue_stats_sql; by rewrite Hst|..|done]; change (rawpost.ib_New no_batch) with 0 in *;
    change (rawpost.ib_Updated no_batch) with 0 in *; change (total no_batch) with 0 in *; try lia.
Qed.

(** Two posts: one names an infohash, the other does not. *)
Definition demo_posts : list rawpost.RawPost :=
  [rawpost.Build_RawPost "new" ("magnet:?xt=urn:btih:" +:+ demo.ih2) "nyaa" "2" "" 1767225600000000000 0;
   rawpost.Build_RawPost "v2" "magnet:?xt=urn:btmh:1220" "dmhy" "9" "" 1767225600000000000 0].
Definition post_json (p : rawpost.RawPost) : json.json := json.JObject
  [("title", json.jstring (rawpost.rp_Title p)); ("magnet", json.jstring (rawpost.rp_Magnet p));
   ("source", json.jstring (rawpost.rp_Source p)); ("source_id", json.jstring (rawpost.rp_SourceID p));
   ("url", json.jstring (rawpost.rp_URL p));
   ("published_at", json.jstring (Format_RFC3339Nano (rawpost.rp_PublishedAt p)));
   ("size_bytes", json.JNumber (Itoa (rawpost.rp_SizeBytes p)))].
Definition demo_request : Request := {|
  req_Method := "POST"; req_Path := "/ingest"; req_BodyErr := None;
  req_Body := json.encode (json.JObject [("posts", json.JArray (post_json <$> demo_posts))]);
|}.
Lemma demo_accepted : accepted demo_request demo_posts.
Proof. split; [reflexivity|vm_compute; reflexivity|vm_compute; discriminate|vm_compute; reflexivity]. Qed.
Definition demo_world (d : db) : World state := {| w_store := State 0 d; w_metrics := metrics.NewTakuhai |}.

Lemma ingest_request_accounts_witness :
  ∃ batch t w', handleIngest (listing.pg_store demo.cfg (demo.quiet demo.base)) demo_request (demo_world demo.d1)
    = (summary_response batch (postgres.queue_stats_sql t 3 (sdb (w_store w'))), w')
    ∧ total batch = 2 ∧ rawpost.ib_Skipped batch = 1.
Proof.
  destruct (ingest_request_accounts demo.cfg (demo.quiet demo.base) demo_request demo_posts
    (demo_world demo.d1) 0 demo.d1 (demo.after_reachable _ _ _ (rtc_refl _ _)) (λ _, eq_refl) eq_refl
    demo_accepted) as (batch&t&w'&Hrun&Ht&Hs&_).
  exists batch, t, w'. split; [exact Hrun|]. rewrite Ht, Hs. split; vm_compute; reflexivity.
Defined.

(** ** Failures of a batch *)

Section any_store.
Context {S : Type} (st : store.Store S).

Lemma ingestBatch_failed ps i b w b' f msg w' :
  ingestBatch st ps i b w = (b', Some (f, msg), w') →
  ∃ pre p suf ih w0, ps = pre ++ p :: suf ∧ if_index f = i + Z.of_nat (length pre)
    ∧ ingestBatch st pre i b w = (b', None, w0)
    ∧ infohash.NormalizeInfohash (rawpost.rp_Magnet p) = Ok ih
    ∧ store.IngestN st (ingestParams p ih) (w_store w0) = (Err (if_err f), w_store w')
    ∧ msg = "ingest failed".
Proof.
  revert i b w. induction ps as [|p ps IH]; intros i b w; cbn [ingestBatch]; [done|].
  destruct (infohash.NormalizeInfohash (rawpost.rp_Magnet p)) as [e|ih] eqn:En.
  - pose proof (infohash.normalize_error _ _ En) as ->. change (Is ?e ?e) with true. cbv iota.
    intros (pre&q&suf&ih&w0&->&Hi&Hpre&Hrest)%IH. exists (p :: pre), q, suf, ih, w0.
    split_and!; [done|cbn [length]; lia| |apply Hrest..]. cbn [ingestBatch]. rewrite En. exact Hpre.
  - unfold in_world. destruct (store.IngestN st (ingestParams p ih) (w_store w)) as [[err|out] s] eqn:Ei.
    + intros [= <- <- <- <-]. exists [], p, ps, ih, w. cbn. split_and!; try done; lia.
    + destruct (bump out b) as [b1 label] eqn:Eb. intros (pre&q&suf&ih'&w0&->&Hi&Hpre&Hrest)%IH.
      exists (p :: pre), q, suf, ih', w0. split_and!; [done|cbn [length]; lia| |apply Hrest..].
      cbn [ingestBatch]. unfold in_world. by rewrite En, Ei, Eb.
Qed.

(** C27: over any store, the ingest handler answers 500 only when the store
    failed: either some post could not be stored, and then exactly the posts
    before it were ingested and none after it was tried, or the queue could
    not be counted after all were. *)
Theorem ingest_failure_stops r w resp w' :
  handleIngest st r w = (resp, w') → status resp = 500 →
  ∃ ps, json.Decoder_Decode true ingest_fields {| ir_Posts := [] |} (req_Body r) = Ok {| ir_Posts := ps |} ∧
    ((∃ pre p suf ih batch w0 err,
        ps = pre ++ p :: suf ∧ ingestBatch st pre 0 no_batch w = (batch, None, w0)
        ∧ infohash.NormalizeInfohash (rawpost.rp_Magnet p) = Ok ih
        ∧ store.IngestN st (ingestParams p ih) (w_store w0) = (Err err, w_store w')
        ∧ body resp = Plain (Text "ingest failed"))
     ∨ (∃ batch w0 err,
        ingestBatch st ps 0 no_batch w = (batch, None, w0)
        ∧ store.store_QueueStats st (w_store w0) = (Err err, w_store w')
        ∧ body resp = Plain (Text "queue stats failed"))).
Proof.
  unfold handleIngest. destruct (bool_decide _); [by intros [= <- <-]|].
  destruct (json.Decoder_Decode _ _ _ _) as [e|[ps]]; [by intros [= <- <-]|]. cbn [ir_Posts].
  destruct (maxBatchPosts <? _); [by intros [= <- <-]|]. destruct (existsb _ _); [by intros [= <- <-]|].
  destruct (ingestBatch st ps 0 no_batch w) as [[batch [[f msg]|]] w0] eqn:Eb.
  - intros [= <- <-] _. exists ps. split; [done|]. left.
    apply ingestBatch_failed in Eb as (pre&p&suf&ih&w1&->&_&Hpre&Hn&Hi&->).
    exists pre, p, suf, ih, batch, w1, (if_err f). done.
  - unfold in_world. destruct (store.store_QueueStats st (w_store w0)) as [[err|qs] s] eqn:Eq; [|by intros [= <- <-]].
    intros [= <- <-] _. exists ps. split; [done|]. right. exists batch, w0, err. done.
Qed.

(** ** The metrics of a batch *)

(** A post counted under [result], whatever its source. *)
Definition counted (result : string) (s : metrics.sample) : bool :=
  match s with
  | metrics.Inc name [_; res] => bool_decide (name = metrics.ingestPosts) && bool_decide (res = result)
  | _ => false
  end.
Definition buckets (b : rawpost.IngestBatch) : list (string * Z) :=
  [("new", rawpost.ib_New b); ("updated", rawpost.ib_Updated b); ("duplicate", rawpost.ib_Duplicate b);
   ("conflict", rawpost.ib_Conflict b); ("skipped", rawpost.ib_Skipped b)].
(** The calls count every bucket's growth. *)
Definition counts (calls : list metrics.sample) (b b' : rawpost.IngestBatch) : Prop :=
  Forall2 (λ x y, y.2 = x.2 + count_if (counted x.1) calls) (buckets b) (buckets b').

Ltac per_bucket :=
  unfold counts, buckets;
  repeat (apply Forall2_cons_2;
    [unfold count_if; cbn [List.filter counted fst snd]; closed_decide; cbn; lia|]);
  apply Forall2_nil_2.
Lemma counts_nil b : counts [] b b.
Proof. per_bucket. Qed.
Lemma counts_trans c1 c2 b1 b2 b3 : counts c1 b1 b2 → counts c2 b2 b3 → counts (c1 ++ c2) b1 b3.
Proof.
  unfold counts, buckets. intros H1 H2.
  repeat (apply Forall2_cons in H1 as [? H1]; apply Forall2_cons in H2 as [? H2]).
  repeat (apply Forall2_cons_2; [cbn in *; rewrite count_if_app; lia|]). apply Forall2_nil_2.
Qed.
Lemma counts_bump out b b' label source :
  bump out b = (b', label) →
  counts match label with
         | Some l => [metrics.Inc metrics.ingestPosts [source; l]]
         | None => [] end b b'.
Proof.
  destruct b as [n u d c s], out as [[] [] [] []]; cbn; intros [= <- <-]; per_bucket.
Qed.

Definition per_post : list metrics.sample → Prop :=
  Forall (λ s, metrics.sample_count metrics.ingestBatches ["ok"] s = 0).
Lemma per_post_counter calls : per_post calls → metrics.counter metrics.ingestBatches ["ok"] calls = 0.
Proof. unfold metrics.counter. induction 1 as [|s l H _ IH]; cbn; [done|]. cbn in *. lia. Qed.
Lemma counter_app name labels l k :
  metrics.counter name labels (l ++ k) = metrics.counter name labels l + metrics.counter name labels k.
Proof. unfold metrics.counter. induction l as [|s l IH]; cbn in *; [done|]. lia. Qed.

Lemma ingestBatch_counts ps i b w b' w' log :
  w_metrics w = Some log → ingestBatch st ps i b w = (b', None, w') →
  ∃ calls, w_metrics w' = Some (log ++ calls) ∧ counts calls b b' ∧ per_post calls.
Proof.
  revert i b w log. induction ps as [|p ps IH]; intros i b w log Hw; cbn [ingestBatch].
  { intros [= <- <-]. exists []. rewrite app_nil_r. split_and!; [done|apply counts_nil|constructor]. }
  destruct (infohash.NormalizeInfohash (rawpost.rp_Magnet p)) as [e|ih] eqn:En.
  - pose proof (infohash.normalize_error _ _ En) as ->. change (Is ?e ?e) with true. cbv iota.
    intros H. eapply IH in H as (calls&H1&H2&H3).
    2:{ cbn. rewrite Hw. reflexivity. }
    eexists. split; [rewrite H1, <-app_assoc; reflexivity|]. split; [|by constructor].
    eapply counts_trans; [|exact H2].
    destruct b. per_bucket.
  - unfold in_world. destruct (store.IngestN st (ingestParams p ih) (w_store w)) as [[err|out] s]; [done|].
    destruct (bump out b) as [b1 label] eqn:Eb. intros H.
    pose proof (counts_bump out b b1 label
      (if bool_decide (rawpost.rp_Source p = "") then "unknown" else rawpost.rp_Source p) Eb) as Hc.
    destruct label as [l|].
    + eapply IH in H as (calls&H1&H2&H3).
      2:{ cbn. rewrite Hw. reflexivity. }
      eexists. split; [rewrite H1, <-app_assoc; reflexivity|]. split; [|by constructor]. by eapply counts_trans.
    + eapply IH in H as (calls&H1&H2&H3); [|exact Hw].
      exists calls. split_and!; [done| |done]. by eapply (counts_trans []).
Qed.

(** The metrics tell what the response tells: when the ingest handler
    answers 200, the posts counted under each result since the request began
    are the buckets of the summary, and one batch was counted as ok. *)
Theorem ingest_metrics_agree r w resp w' log :
  w_metrics w = Some log → handleIngest st r w = (resp, w') → status resp = 200 →
  ∃ sum calls, body resp = Encoded (PIngest sum) ∧ w_metrics w' = Some (log ++ calls)
    ∧ Forall (λ x, count_if (counted x.1) calls = x.2) (buckets (rawpost.is_Batch sum))
    ∧ metrics.counter metrics.ingestBatches ["ok"] calls = 1.
Proof.
  intros Hw. unfold handleIngest. destruct (bool_decide _); [by intros [= <- <-]|].
  destruct (json.Decoder_Decode _ _ _ _) as [e|[ps]]; [by intros [= <- <-]|]. cbn [ir_Posts].
  destruct (maxBatchPosts <? _); [by intros [= <- <-]|]. destruct (existsb _ _); [by intros [= <- <-]|].
  destruct (ingestBatch st ps 0 no_batch w) as [[batch [[f msg]|]] w0] eqn:Eb; [by intros [= <- <-]|].
  unfold in_world. destruct (store.store_QueueStats st (w_store w0)) as [[err|qs] s]; [by intros [= <- <-]|].
  apply (ingestBatch_counts _ _ _ _ _ _ _ Hw) in Eb as (calls&Hw0&Hc&Hp). intros [= <- <-] _.
  eexists _, _. split; [reflexivity|]. cbn [on_metrics w_metrics]. rewrite Hw0. split_and!.
  - cbn. by rewrite <-app_assoc.
  - cbn [rawpost.is_Batch]. unfold counts, buckets in Hc |- *.
    repeat (apply Forall2_cons in Hc as [? Hc]).
    repeat (apply Forall_cons; split; [cbn in *; rewrite count_if_app;
      unfold count_if at 2; cbn; lia|]). by apply Forall_nil.
  - rewrite counter_app, per_post_counter by done. reflexivity.
Qed.
End any_store.

(** The driver fails the second statement. *)
Definition flaky : env := {|
  clock _ := demo.base; fault n := if (n =? 2)%nat then Some (ErrNew "connection reset") else None;
  locked _ _ := false;
|}.
Definition demo_run (E : env) : Response payload * World state :=
  handleIngest (listing.pg_store demo.cfg E) demo_request (demo_world demo.d1).
Lemma ingest_failure_stops_witness :
  status (demo_run flaky).1 = 500
  ∧ ∃ ps, json.Decoder_Decode true ingest_fields {| ir_Posts := [] |} (req_Body demo_request)
          = Ok {| ir_Posts := ps |}.
Proof.
  assert (status (demo_run flaky).1 = 500) as Hs by (vm_compute; reflexivity).
  destruct (ingest_failure_stops (listing.pg_store demo.cfg flaky) demo_request (demo_world demo.d1)
    (demo_run flaky).1 (demo_run flaky).2 (surjective_pairing _) Hs) as (ps&Hps&_).
  split; [exact Hs|]. exists ps. exact Hps.
Defined.

(** ** [POST /submit] *)

Definition submit_params (req : dispatch.SubmitRequest) : store.SubmitParams := {|
  store.sp_Infohash := dispatch.sr_Infohash req;
  store.sp_ClaimToken := dispatch.sr_ClaimToken req;
  store.sp_Status := dispatch.sr_Status req;
  store.sp_Ref := dispatch.sr_Ref req;
  store.sp_Confidence := dispatch.sr_Confidence req;
  store.sp_Reason := dispatch.sr_Reason req;
|}.
Definition error_code (resp : Response payload) : string :=
  match body resp with Failure e => er_Code e | _ => "" end.

(** The answer to a well-formed submission, from the row it names. *)
Definition row_answer (req : dispatch.SubmitRequest) (now : Time) (row : option release_row) : Z * string :=
  match row with
  | None => (404, "no_such_release")
  | Some r => if live now (dispatch.sr_ClaimToken req) r then (200, "") else (409, "stale_lease")
  end.
Definition submit_answer (req : dispatch.SubmitRequest) (now : Time) (row : option release_row) : Z * string :=
  if negb (bool_decide (dispatch.sr_Status req ∈ ["matched"; "unmatched"; "suppressed"]))
  then (400, "invalid_input")
  else if bool_decide (dispatch.sr_Status req = "matched") && negb (cursor.refRe_MatchString (dispatch.sr_Ref req))
  then (400, "invalid_ref")
  else row_answer req now row.

(** A result of the specification and the response it leads to. *)
Definition answered (req : dispatch.SubmitRequest) (d : db) (a : Z * string) (res : result (unit * db)) : Prop :=
  match res with
  | Err e => a.1 ≠ 200 ∧ writeDispatchError (dispatch.sr_Infohash req) e
             = writeError a.1 a.2 (dispatch.sr_Infohash req) (ErrorText "" e)
  | Ok (_, d') => a = (200, "") ∧ length (match_events d') = S (length (match_events d))
  end.

Lemma row_answered cfg req now d v :
  db_ok d → parse_verdict (submit_params req) = Ok v →
  answered req d (row_answer req now (releases d !! dispatch.sr_Infohash req))
    (submit_spec cfg now (submit_params req) d).
Proof.
  intros Hok Hv. unfold submit_spec. rewrite Hv. unfold row_answer, submit_params.
  cbn [store.sp_Infohash store.sp_ClaimToken].
  destruct (releases d !! dispatch.sr_Infohash req) as [r|] eqn:Er; [|by split].
  destruct (live now (dispatch.sr_ClaimToken req) r) eqn:El; [|by split].
  pose proof (ok_lease _ _ (ok_rows _ Hok _ _ Er)) as Hl. unfold live in El.
  destruct (r_lease_expires_at r); [|by rewrite andb_false_r in El]. destruct Hl as (Hu&_).
  rewrite decide_True by done. destruct (settle _ _ _ _ _) as [r' label]. cbn.
  rewrite length_app. cbn. split; [done|lia].
Qed.

Lemma submit_answered cfg req now d :
  db_ok d → dispatch.sr_Status req ∈ ["matched"; "unmatched"; "suppressed"] →
  answered req d (submit_answer req now (releases d !! dispatch.sr_Infohash req))
    (submit_spec cfg now (submit_params req) d).
Proof.
  intros Hok Hst. unfold submit_answer. rewrite bool_decide_eq_true_2 by done. cbn [negb].
  destruct (bool_decide (dispatch.sr_Status req = "matched")
            && negb (cursor.refRe_MatchString (dispatch.sr_Ref req))) eqn:Eref.
  - apply andb_true_iff in Eref as [Em Er]. apply negb_true_iff in Er.
    unfold submit_spec, parse_verdict, cursor.ValidateRef, submit_params. cbn. by rewrite Em, Er.
  - assert (∃ v, parse_verdict (submit_params req) = Ok v) as [v Hv]; [|by eapply row_answered].
    unfold parse_verdict, cursor.ValidateRef, submit_params. cbn.
    destruct (bool_decide (dispatch.sr_Status req = "matched")) eqn:Em.
    { cbn in Eref. apply negb_false_iff in Eref. rewrite Eref. by eexists. }
    destruct (bool_decide (dispatch.sr_Status req = "unmatched")) eqn:Eu; [by eexists|].
    destruct (bool_decide (dispatch.sr_Status req = "suppressed")) eqn:Es; [by eexists|].
    bool_hyps. set_solver.
Qed.

Lemma handleSubmit_answered `{cursor.CursorCodec} cfg E r w n d req :
  db_ok d → healthy E → w_store w = State n d →
  req_Method r = "POST" → req_BodyErr r = None →
  json.Unmarshal dispatch.submit_fields dispatch.no_submit (req_Body r) = Ok req →
  let '(resp, w') := handleSubmit (listing.pg_store cfg E) r w in
  let d' := sdb (w_store w') in
  (status resp, error_code resp) = submit_answer req (clock E n) (releases d !! dispatch.sr_Infohash req)
  ∧ if status resp =? 200 then length (match_events d') = S (length (match_events d)) else same_tables d d'.
Proof.
  intros Hd HE Hw Hm Hb Hreq. unfold handleSubmit, requirePost.
  rewrite bool_decide_eq_false_2 by auto. unfold ReadAll. rewrite Hb, Hreq.
  unfold in_world, dispatch.SubmitTyped. case_bool_decide as Hst.
  2:{ unfold submit_answer. rewrite bool_decide_eq_false_2 by done. cbn. rewrite Hw. by split. }
  rewrite Hw. cbn [store.Submit listing.pg_store].
  pose proof (submit_answered cfg req (clock E n) d Hd Hst) as Hans.
  pose proof (Submit_refines cfg (submit_params req) E (State n d)) as Hsub. cbv beta zeta in Hsub. cbn [sdb tick] in Hsub.
  fold (submit_params req). destruct (submit_answer _ _ _) as [code wire].
  destruct (postgres.Submit cfg (submit_params req) E (State n d)) as [[e|u] s'].
  - destruct Hsub as [[Ht _] Hsub]. rewrite (Hsub HE) in Hans. destruct Hans as [Hc Hresp]. cbn in Hc, Hresp.
    rewrite Hresp. cbn. split; [done|]. by destruct (Z.eqb_spec code 200).
  - rewrite Hsub in Hans. destruct Hans as ([= -> ->]&Hlen). cbn. done.
Qed.

(** Without driver errors, a well-formed [POST /submit] has exactly these
    answers: 400 [invalid_input] for another status, 400 [invalid_ref] for a
    match with a malformed ref, 404 for an unknown release, 409
    [stale_lease] for a token that is not the current one or a lease that is
    over, and otherwise 200, and only then is anything written: one event. *)
Theorem submit_responses cfg E r w n d req :
  reachable d → healthy E → w_store w = State n d →
  req_Method r = "POST" → req_BodyErr r = None →
  json.Unmarshal dispatch.submit_fields dispatch.no_submit (req_Body r) = Ok req →
  let '(resp, w') := handleSubmit (listing.pg_store cfg E) r w in
  let d' := sdb (w_store w') in
  (status resp, error_code resp) = submit_answer req (clock E n) (releases d !! dispatch.sr_Infohash req)
  ∧ if status resp =? 200 then length (match_events d') = S (length (match_events d)) else same_tables d d'.
Proof. intros Hd%reachable_ok. by apply handleSubmit_answered. Qed.

Definition demo_submission : Request := {|
  req_Method := "POST"; req_Path := "/submit"; req_BodyErr := None;
  req_Body := json.encode (json.JObject
    [("infohash", json.jstring demo.ih2); ("claim_token", json.JNumber "1"); ("status", json.jstring "matched");
     ("ref", json.jstring "anidb:1"); ("confidence", json.JNumber "0.95")]);
|}.
Definition demo_verdict : dispatch.SubmitRequest := {|
  dispatch.sr_Infohash := demo.ih2; dispatch.sr_ClaimToken := 1; dispatch.sr_Status := "matched";
  dispatch.sr_Ref := "anidb:1"; dispatch.sr_Confidence := Some 0x3fee666666666666; dispatch.sr_Reason := "";
|}.

(** ** The lookups *)

Definition get (prefix raw : string) : Request := {|
  req_Method := "GET"; req_Path := prefix +:+ raw; req_Body := ""; req_BodyErr := None;
|}.
(** The infohash a path element names. *)
Definition named (raw : string) : option string :=
  if bool_decide (raw = "") || contains raw "/" then None
  else match infohash.NormalizeInfohash raw with Ok ih => Some ih | Err _ => None end.
Definition bad_infohash : Response payload := writeBadInput "invalid infohash".
Definition not_found (ih : string) (e : error) : Response payload :=
  writeError StatusNotFound "no_such_release" ih (ErrorText "" e).

Lemma named_Ok raw ih :
  named raw = Some ih →
  (bool_decide (raw = "") || contains raw "/") = false ∧ infohash.NormalizeInfohash raw = Ok ih
  ∧ infohash.NormalizeInfohash ih = Ok ih.
Proof.
  unfold named. destruct (_ || _); [done|]. destruct (infohash.NormalizeInfohash raw) as [|h] eqn:E; [done|].
  intros [= ->]. split_and!; [done..|]. by eapply infohash.normalize_canonical_id, infohash.normalize_canonical.
Qed.

Lemma ResolveMagnets_one ih E n d :
  keyed d → healthy E →
  ∃ found s', listing.ResolveMagnets [ih] E (State n d) = (Ok found, s') ∧ sdb s' = d
    ∧ found !! ih = (r ← releases d !! ih; r_magnet r).
Proof.
  intros Hk HE. unfold listing.ResolveMagnets. change (Z.of_nat (length [ih])) with 1.
  change (postgres.maxMagnetsBatch <? 1) with false. change (1 =? 0) with false. cbv iota.
  unfold collect, query, statement, mbind, M_bind. 
  repeat (rewrite HE; cbn [sdb tick]). eexists _, _. split; [reflexivity|]. split; [done|].
  apply option_eq. intros m. rewrite foldl_insert_lookup by by apply magnets_sql_keys.
  rewrite elem_of_magnets by done. rewrite lookup_empty. cbn [mbind option_bind].
  destruct (releases d !! ih) as [r|]; cbn; set_solver.
Qed.

(** C28: without driver errors, the lookups of an infohash in any spelling
    answer 400 when the path element names none, 404 when the store has no
    such release (or, for the magnet, no magnet for it), and otherwise 200
    with the magnet, or with the release and its whole history; nothing is
    written. *)
Theorem lookup_responses cfg E w n d raw :
  reachable d → healthy E → w_store w = State n d →
  let '(mresp, w1) := handleGetMagnet (listing.pg_store cfg E) (get "/magnets/" raw) w in
  let '(rresp, w2) := handleGetRelease (listing.pg_store cfg E) (get "/releases/" raw) w in
  same_tables d (sdb (w_store w1)) ∧ same_tables d (sdb (w_store w2)) ∧
  match named raw with
  | None => mresp = bad_infohash ∧ rresp = bad_infohash
  | Some ih =>
      match releases d !! ih with
      | None => mresp = not_found ih store.ErrNoSuchRelease
                ∧ rresp = not_found ih (wrapf "get_release %s: %w" [ih] store.ErrNoSuchRelease)
      | Some r =>
          mresp = match r_magnet r with
                  | Some m => writeJSONValue StatusOK (PMagnet {| mr_Infohash := ih; mr_Magnet := m |})
                  | None => not_found ih store.ErrNoSuchRelease
                  end
          ∧ rresp = writeJSONValue StatusOK (PRelease (dispatch.get_release_result (detail_of ih r d)))
      end
  end.
Proof.
  intros Hd%reachable_ok HE Hw. pose proof (db_ok_keyed _ Hd) as Hk.
  unfold handleGetMagnet, handleGetRelease, get, trim_prefix. cbn [req_Method req_Path].
  rewrite bool_decide_eq_false_2 by auto. rewrite !cut_prefix_app.
  repeat change (default _ (Some raw)) with raw. cbv zeta.
  destruct (named raw) as [ih|] eqn:En.
  - apply named_Ok in En as (->&->&Hid). unfold in_world, dispatch.ResolveMagnetsTyped, dispatch.GetReleaseTyped.
    cbn [dispatch.rmr_Infohashes dispatch.grq_Infohash store.ResolveMagnets store.GetRelease listing.pg_store].
    rewrite Hid, Hw. destruct (ResolveMagnets_one ih E n d Hk HE) as (found&s1&->&Hs1&Hf).
    destruct (GetRelease_run ih E (State n d) HE) as (s2&Hs2&->). cbn [sdb] in *.
    cbn [dispatch.on_ok dispatch.rms_Magnets]. rewrite Hf.
    destruct (releases d !! ih) as [r|]; cbn [mbind option_bind].
    + destruct (r_magnet r); cbn; by rewrite Hs1.
    + cbn. by rewrite Hs1.
  - unfold named in En. destruct (_ || _); cbn; [rewrite Hw; by cbn|].
    destruct (infohash.NormalizeInfohash raw); [|done]. cbn. by rewrite Hw.
Qed.
Lemma lookup_responses_witness :
  (handleGetRelease (listing.pg_store demo.cfg (demo.quiet demo.base))
     (get "/releases/" (str_map upper_byte demo.ih2)) (demo_world demo.d3)).1
  ≠ bad_infohash.
Proof.
  pose proof (lookup_responses demo.cfg (demo.quiet demo.base) (demo_world demo.d3) 0 demo.d3
    (str_map upper_byte demo.ih2) (demo.after_reachable _ _ _ demo.d2_reachable) (λ _, eq_refl) eq_refl) as H.
  assert (named (str_map upper_byte demo.ih2) = Some demo.ih2) as Hn by (vm_compute; reflexivity).
  assert (is_Some (r_infohash <$> releases demo.d3 !! demo.ih2)) as [i Hi] by (vm_compute; eexists; reflexivity).
  rewrite Hn in H. destruct (handleGetMagnet _ _ _) as [m w1], (handleGetRelease _ _ _) as [resp w2].
  destruct H as (_&_&H). destruct (releases demo.d3 !! demo.ih2) as [r|]; [|discriminate Hi].
  destruct H as [_ ->]. discriminate.
Defined.
