(* ===== verification/CrawlServer.v ===== *)
(** * Package [pkg/crawl]: [POST /crawl] and the page fetcher

    [Server.ServeHTTP], [HTTPFetcher.FetchPage] and [ReadFileURL]
    (src/pkg/crawl/server.go), with the metrics they record.  The network and
    the file system are oracles. *)

From S2P Require Import Prelude GoStrings GoTime GoTimeFmt GoJson GoHttp Rawpost Metrics Crawl Duration.
From Stdlib Require Import Ascii.
Import crawl.

Module crawlserver.

(** ** [POST /crawl] *)

Definition no_request : CrawlRequest := {| cq_PageSize := 0; cq_Cursor := ""; cq_Lookback := "" |}.
Definition crawl_fields : list (json.field CrawlRequest) :=
  [json.int_field "page_size" (λ n r,
     {| cq_PageSize := n; cq_Cursor := cq_Cursor r; cq_Lookback := cq_Lookback r |});
   json.string_field "cursor" (λ s r,
     {| cq_PageSize := cq_PageSize r; cq_Cursor := s; cq_Lookback := cq_Lookback r |});
   json.string_field "lookback" (λ s r,
     {| cq_PageSize := cq_PageSize r; cq_Cursor := cq_Cursor r; cq_Lookback := s |})].

(** [json.Encoder.Encode] of a response: [time.Time.MarshalJSON] refuses a
    time whose year, in the zone the source's times are in, has not four
    digits. *)
Definition ErrYear : error := ErrNew "json: error calling MarshalJSON for type time.Time".
Definition four_digit_year (t : Time) : bool :=
  let '(y, _, _) := civil_from_days (t / Day_ns) in (0 <=? y) && (y <=? 9999).
Definition Encode (zone : Duration) (resp : CrawlResponse) : result CrawlResponse :=
  if forallb (λ p, four_digit_year (rawpost.rp_PublishedAt p + zone)) (Posts resp) then Ok resp else Err ErrYear.

Section server.
Context (namespace : string) (zone : Duration) (c : Crawler).

(** [None] is a walk that has not ended. *)
Definition ServeHTTP (r : Request) (dur : Duration) (fuel : nat) (m : metrics.surface)
    : option (Response CrawlResponse * metrics.surface) :=
  let recordCrawl result posts := metrics.Crawl namespace result posts dur m in
  if bool_decide (req_Method r ≠ "POST")
  then Some (http_Error (Text "method not allowed") StatusMethodNotAllowed, recordCrawl "bad_request" 0) else
  match json.Decoder_Decode false crawl_fields no_request (req_Body r) with
  | Err err =>
      Some (http_Error (ErrorText (source c +:+ ": decode /crawl request: ") err) StatusBadRequest,
            recordCrawl "bad_request" 0)
  | Ok req =>
      match duration.ParseLookback (source c) (cq_Lookback req) with
      | Err err => Some (http_Error (ErrorText "" err) StatusBadRequest, recordCrawl "bad_request" 0)
      | Ok lookback =>
          match ParseCursor (source c) (cq_Cursor req) with
          | Err err => Some (http_Error (ErrorText "" err) StatusBadRequest, recordCrawl "bad_request" 0)
          | Ok _ =>
              walk ← Crawl c req lookback fuel;
              Some match walk with
                   | Err err =>
                       let result := if Is err ErrCrawlParse then "parse_error" else "fetch_error" in
                       (http_Error (ErrorText "" err) StatusBadGateway, recordCrawl result 0)
                   | Ok resp =>
                       let n := Z.of_nat (length (Posts resp)) in
                       match Encode zone resp with
                       | Err err =>
                           (http_Error (ErrorText "" err) StatusInternalServerError, recordCrawl "error" n)
                       | Ok resp => ({| status := StatusOK; body := Encoded resp |}, recordCrawl "ok" n)
                       end
                   end
          end
      end
  end.
End server.

(** ** The page fetcher *)

Record HTTPFetcher := {
  hf_source : string;
  hf_buildURL : Z → result string;
  hf_limited : bool;
}.
(** [NewHTTPFetcher]: a limiter only for a positive rate. *)
Definition NewHTTPFetcher (source : string) (buildURL : Z → result string) (positive_rate : bool)
    : HTTPFetcher :=
  {| hf_source := source; hf_buildURL := buildURL; hf_limited := positive_rate |}.

(** The world of one fetch: the limiter's error, the files, the requests that
    cannot be built, and the responses with the outcome of reading them. *)
Record Net := {
  limiter_Wait : option error;
  ReadFile : string → result string;
  NewRequest : string → option error;
  Do : string → result (Z * result string);
}.

Definition ReadFileURL (net : Net) (source path : string) : result string :=
  let path := match index_byte "?" path with Some i => take_str i path | None => path end in
  match ReadFile net path with
  | Err err => Err (Errorf "%s: read file %s: %w" [source; path] [err])
  | Ok b => Ok b
  end.

(** The body of [FetchPage] after the limiter: the page or the error. *)
Definition fetch_page (f : HTTPFetcher) (net : Net) (page : Z) : result string :=
  target ← hf_buildURL f page;
  match cut_prefix target "file://" with
  | Some rest => ReadFileURL net (hf_source f) rest
  | None =>
      match NewRequest net target with
      | Some err => Err (Errorf "%s: build request %s: %w" [hf_source f; target] [err])
      | None =>
          match Do net target with
          | Err err => Err (Errorf "%s: fetch %s: %w" [hf_source f; target] [err])
          | Ok (code, read) =>
              if negb (code =? StatusOK)
              then Err (Errorf "%s: fetch %s: status %d" [hf_source f; target; Itoa code] [])
              else match read with
                   | Err err => Err (Errorf "%s: read body %s: %w" [hf_source f; target] [err])
                   | Ok b => Ok b
                   end
          end
      end
  end.
Definition FetchPage (namespace : string) (f : HTTPFetcher) (net : Net) (page : Z) (dur : Duration)
    (m : metrics.surface) : result string * metrics.surface :=
  match (if hf_limited f then limiter_Wait net else None) with
  | Some err => (Err (Errorf "%s: rate limiter: %w" [hf_source f] [err]), m)
  | None =>
      let res := fetch_page f net page in
      (res, metrics.Fetch namespace (match res with Ok _ => "ok" | Err _ => "error" end) dur m)
  end.

End crawlserver.
