(* ===== verification/CrawlServerThms.v ===== *)
(** * What the crawl endpoint answers *)

From S2P Require Import Prelude GoStrings GoTime GoTimeFmt GoJson GoHttp Rawpost Metrics Crawl CrawlThms.
From S2P Require Import Duration DurationThms CrawlServer.
From Stdlib Require Import Ascii.
Import crawl crawlserver.

(** A request the endpoint walks for, and its parameters. *)
Definition walks (c : Crawler) (r : Request) : option (CrawlRequest * Duration) :=
  if bool_decide (req_Method r = "POST") then
    match json.Decoder_Decode false crawl_fields no_request (req_Body r) with
    | Err _ => None
    | Ok req =>
        match duration.ParseLookback (source c) (cq_Lookback req), ParseCursor (source c) (cq_Cursor req) with
        | Ok lookback, Ok _ => Some (req, lookback)
        | _, _ => None
        end
    end
  else None.

Lemma failed_cause c k page e : failed_on c k page e → Is e ErrCrawlFetch || Is e ErrCrawlParse = true.
Proof.
  intros [(err&_&->)|(body&err&_&_&->)]; [reflexivity|]. apply orb_true_r.
Qed.
Lemma Crawl_cause c req lookback fuel e po :
  ParseCursor (source c) (cq_Cursor req) = Ok po → Crawl c req lookback fuel = Some (Err e) →
  Is e ErrCrawlFetch || Is e ErrCrawlParse = true.
Proof.
  destruct po as [page offset]. intros Hc H. rewrite (Crawl_run _ _ _ _ _ _ Hc) in H.
  apply pages_loop_fails in H as (pages&_&H). by eapply failed_cause.
Qed.

(** C22: the crawl endpoint always answers, and says what happened: a request
    it cannot read is the client's error (405 or 400) and no page is
    fetched; a walk that failed is 502, with the fetch or parse failure as
    its cause, and never a page of posts; otherwise the response is the
    walk's, or 500 when a post's time cannot be encoded.  Each request counts
    once, under the label of its outcome and with the posts it returned. *)
Theorem crawl_endpoint ns zone c r dur m :
  ∃ resp label posts,
    (∀ fuel, (enough c ≤ fuel)%nat →
       ServeHTTP ns zone c r dur fuel m = Some (resp, metrics.Crawl ns label posts dur m))
    ∧ match walks c r with
      | None => label = "bad_request" ∧ posts = 0
                ∧ status resp = if bool_decide (req_Method r = "POST") then 400 else 405
      | Some (req, lookback) =>
          ∃ walk, (∀ fuel, (enough c ≤ fuel)%nat → Crawl c req lookback fuel = Some walk)
            ∧ match walk with
              | Err e =>
                  status resp = 502 ∧ posts = 0 ∧ Is e ErrCrawlFetch || Is e ErrCrawlParse = true
                  ∧ label = if Is e ErrCrawlParse then "parse_error" else "fetch_error"
              | Ok cr =>
                  posts = Z.of_nat (length (Posts cr))
                  ∧ match Encode zone cr with
                    | Ok _ => resp = {| status := 200; body := Encoded cr |} ∧ label = "ok"
                    | Err _ => status resp = 500 ∧ label = "error"
                    end
              end
      end.
Proof.
  unfold ServeHTTP, walks. rewrite bool_decide_not. destruct (bool_decide (req_Method r = "POST")); cbn [negb].
  2:{ by eexists _, "bad_request", 0. }
  destruct (json.Decoder_Decode _ _ _ _) as [e|req]; [by eexists _, "bad_request", 0|].
  destruct (duration.ParseLookback _ _) as [e|lookback]; [by eexists _, "bad_request", 0|].
  destruct (ParseCursor (source c) (cq_Cursor req)) as [e|po] eqn:Ec; [by eexists _, "bad_request", 0|].
  destruct (Crawl_total c req lookback) as [walk Hw].
  assert (∀ e, walk = Err e → Is e ErrCrawlFetch || Is e ErrCrawlParse = true) as Hcause.
  { intros e ->. by eapply Crawl_cause, Hw. }
  destruct walk as [e|cr].
  - eexists _, _, 0. split; [intros fuel Hf; by rewrite (Hw _ Hf)|]. exists (Err e). split; [done|]. auto.
  - destruct (Encode zone cr) as [e|cr'] eqn:En.
    + eexists _, "error", _. split; [intros fuel Hf; rewrite (Hw _ Hf); cbn; by rewrite En|].
      exists (Ok cr). rewrite En. done.
    + eexists _, "ok", _. split; [intros fuel Hf; rewrite (Hw _ Hf); cbn; by rewrite En|].
      assert (cr' = cr) as -> by (unfold Encode in En; destruct (forallb _ _); congruence).
      exists (Ok cr). rewrite En. done.
Qed.

(** A page is only what a fetch really returned: a fetch succeeds exactly
    when the file was read or the server answered 200 and the whole body was
    read, it returns those bytes, and it is counted as ok exactly then; a
    fetch the limiter stopped is not counted at all. *)
Theorem fetched_page_is_real ns f net page dur m :
  let '(res, m') := FetchPage ns f net page dur m in
  match (if hf_limited f then limiter_Wait net else None) with
  | Some _ => (∃ e, res = Err e) ∧ m' = m
  | None =>
      m' = metrics.Fetch ns (match res with Ok _ => "ok" | Err _ => "error" end) dur m
      ∧ ∀ b, res = Ok b ↔ ∃ target, hf_buildURL f page = Ok target ∧
          if has_prefix "file://" target
          then ∃ path, target = "file://" +:+ path ∧
               ReadFile net (match index_byte "?" path with Some i => take_str i path | None => path end) = Ok b
          else NewRequest net target = None ∧ Do net target = Ok (200, Ok b)
  end.
Proof.
  unfold FetchPage. destruct (if hf_limited f then limiter_Wait net else None) as [err|]; [by split; [eexists|]|].
  split; [done|]. intros b. unfold fetch_page, mbind, result_bind.
  destruct (hf_buildURL f page) as [e|target]; [split; [done|by intros (?&?&_)]|].
  assert (∀ (P : string → Prop), (∃ t, (Ok target : result string) = Ok t ∧ P t) ↔ P target) as Htgt.
  { intros P. split; [by intros (t&[= ->]&H)|by exists target]. }
  rewrite Htgt. unfold cut_prefix. destruct (has_prefix "file://" target) eqn:Ep.
  - pose proof (has_prefix_drop _ _ Ep) as Etgt.
    set (path := drop_str (String.length "file://") target) in *. unfold ReadFileURL.
    destruct (ReadFile net _) as [e|b'] eqn:Er.
    + split; [done|]. intros (path'&E&Hr). assert (path' = path) as -> by (subst path; by rewrite E). congruence.
    + split; [intros [= ->]; by exists path|]. intros (path'&E&Hr).
      assert (path' = path) as -> by (subst path; by rewrite E). congruence.
  - destruct (NewRequest net target); [by split; [|intros [? _]]|].
    destruct (Do net target) as [e|[code read]]; [by split; [|intros [_ ?]]|].
    destruct (Z.eqb_spec code StatusOK) as [->|Hc]; cbn [negb].
    + destruct read as [e|b']; [by split; [|intros [_ ?]]|]. split; [by intros [= ->]|by intros [_ [= ->]]].
    + split; [done|]. intros [_ [= -> ->]]. by destruct Hc.
Qed.
