(* ===== verification/CrawlRun.v ===== *)
(** * Package [pkg/crawl]: the walk over a fetcher with a state of its own

    The same loop as [Crawl.v], as it runs in a process: the fetcher keeps a
    state (a cache, a limiter, metrics) that every fetch moves, each parsed
    page is counted, and the endpoint counts the request at the end
    (src/pkg/crawl/crawl.go, server.go).  Such a walk answers as the walk
    over the oracle of what its fetches return, so the theorems of
    [CrawlThms.v] are about it. *)

From S2P Require Import Prelude GoStrings GoTime GoJson GoHttp Rawpost Metrics Crawl CrawlThms Duration CrawlServer.
From Stdlib Require Import Ascii.
Import rawpost crawl crawlserver.

Module crawlrun.

Section run.
Context {St : Type} (c : Crawler).
(** [c.fetch] and [c.metrics.ParsePosts] on the process's state, in place of
    the oracle [fetch c]. *)
Context (fetch_in : Z → St → result string * St) (recordParsePosts : Z → St → St).

Section walk.
Context (pageSize : Z) (cutoff : option Time).
Fixpoint pages_loop_in (fuel k : nat) (page skip consecutiveEmpty : Z) (posts : list RawPost) (s : St)
    : option (result CrawlResponse * St) :=
  match fuel with
  | O => None
  | S fuel =>
      match fetch_in page s with
      | (Err err, s) => Some (Err (Errorf "%s: %w: %w" [source c] [ErrCrawlFetch; err]), s)
      | (Ok body, s) =>
          let pagesFetched := Z.of_nat (S k) in
          match parsePage c body page with
          | Err err => Some (Err err, s)
          | Ok pagePosts =>
              let s := recordParsePosts (Z.of_nat (length pagePosts)) s in
              match pagePosts with
              | [] =>
                  let consecutiveEmpty := consecutiveEmpty + 1 in
                  if threshold c <=? consecutiveEmpty
                  then Some (Ok (response posts "" false (floorReason c) pagesFetched page), s)
                  else pages_loop_in fuel (S k) (wrap64 (page + 1)) 0 consecutiveEmpty posts s
              | _ =>
                  let pageStart := Z.min skip (Z.of_nat (length pagePosts)) in
                  match rows_loop pageSize cutoff page pagesFetched pageStart posts
                          (drop (Z.to_nat pageStart) pagePosts) with
                  | inl resp => Some (Ok resp, s)
                  | inr posts => pages_loop_in fuel (S k) (wrap64 (page + 1)) 0 0 posts s
                  end
              end
          end
      end
  end.
End walk.

Definition Crawl_in (req : CrawlRequest) (lookback : Duration) (fuel : nat) (s : St)
    : option (result CrawlResponse * St) :=
  match ParseCursor (source c) (cq_Cursor req) with
  | Err err => Some (Err err, s)
  | Ok (curPage, curOffset) =>
      let pageSize := clampPageSize (cq_PageSize req) in
      let cutoff := if 0 <? lookback then Some (Add (now c) (wrap64 (- lookback))) else None in
      let skip := curOffset in
      let page := if skip =? 0 then wrap64 (curPage + 1) else curPage in
      pages_loop_in pageSize cutoff fuel 0 page skip 0 [] s
  end.

(** [POST /crawl]; [recordCrawl] is the request's count, at its end. *)
Definition ServeHTTP_in (zone : Duration) (recordCrawl : string → Z → St → St) (r : Request) (fuel : nat) (s : St)
    : option (Response CrawlResponse * St) :=
  if bool_decide (req_Method r ≠ "POST")
  then Some (http_Error (Text "method not allowed") StatusMethodNotAllowed, recordCrawl "bad_request" 0 s) else
  match json.Decoder_Decode false crawl_fields no_request (req_Body r) with
  | Err err =>
      Some (http_Error (ErrorText (source c +:+ ": decode /crawl request: ") err) StatusBadRequest,
            recordCrawl "bad_request" 0 s)
  | Ok req =>
      match duration.ParseLookback (source c) (cq_Lookback req) with
      | Err err => Some (http_Error (ErrorText "" err) StatusBadRequest, recordCrawl "bad_request" 0 s)
      | Ok lookback =>
          match ParseCursor (source c) (cq_Cursor req) with
          | Err err => Some (http_Error (ErrorText "" err) StatusBadRequest, recordCrawl "bad_request" 0 s)
          | Ok _ =>
              '(walk, s) ← Crawl_in req lookback fuel s;
              Some match walk with
                   | Err err =>
                       let result := if Is err ErrCrawlParse then "parse_error" else "fetch_error" in
                       (http_Error (ErrorText "" err) StatusBadGateway, recordCrawl result 0 s)
                   | Ok resp =>
                       let n := Z.of_nat (length (Posts resp)) in
                       match Encode zone resp with
                       | Err err =>
                           (http_Error (ErrorText "" err) StatusInternalServerError, recordCrawl "error" n s)
                       | Ok resp => ({| status := StatusOK; body := Encoded resp |}, recordCrawl "ok" n s)
                       end
                   end
          end
      end
  end.

(** ** The oracle of a run *)

(** What an iteration that goes on leaves behind, and the page and the state
    before the [j]th fetch from [page] on. *)
Definition after_page (page : Z) (s : St) : St :=
  match fetch_in page s with
  | (Err _, s) => s
  | (Ok body, s) =>
      match parsePage c body page with
      | Err _ => s
      | Ok pagePosts => recordParsePosts (Z.of_nat (length pagePosts)) s
      end
  end.
Fixpoint before_fetch (j : nat) (page : Z) (s : St) : Z * St :=
  match j with
  | O => (page, s)
  | S j => before_fetch j (wrap64 (page + 1)) (after_page page s)
  end.
Definition fetched_at (j : nat) (page : Z) (s : St) : result string :=
  let '(page, s) := before_fetch j page s in (fetch_in page s).1.
Definition with_fetch (o : nat → Z → result string) : Crawler := {|
  source := source c; fetch := o; parse := parse c; threshold := threshold c; floorReason := floorReason c;
  parseErrorContext := parseErrorContext c; now := now c;
|}.
(** Where a request's walk begins. *)
Definition first_page (req : CrawlRequest) : Z :=
  match ParseCursor (source c) (cq_Cursor req) with
  | Err _ => 0
  | Ok (curPage, curOffset) => if curOffset =? 0 then wrap64 (curPage + 1) else curPage
  end.

Lemma pages_loop_in_oracle pageSize cutoff o fuel k page skip e posts s :
  (∀ j p, o (k + j)%nat p = fetched_at j page s) →
  fst <$> pages_loop_in pageSize cutoff fuel k page skip e posts s
  = pages_loop (with_fetch o) pageSize cutoff fuel k page skip e posts.
Proof.
  revert k page skip e posts s. induction fuel as [|fuel IH]; intros k page skip e posts s Ho; [done|].
  cbn [pages_loop_in pages_loop]. assert (fetch (with_fetch o) k page = (fetch_in page s).1) as ->.
  { cbn. rewrite <-(Nat.add_0_r k). apply Ho. }
  assert (∀ j p, o (S k + j)%nat p = fetched_at j (wrap64 (page + 1)) (after_page page s)) as Ho'.
  { intros j p. replace (S k + j)%nat with (k + S j)%nat by lia. apply Ho. }
  unfold after_page in Ho'. change (parsePage (with_fetch o)) with (parsePage c).
  destruct (fetch_in page s) as [[err|body] s1]; [done|]. cbn [fst].
  destruct (parsePage c body page) as [err|[|p ps]]; [done| |].
  - cbn [threshold floorReason with_fetch]. destruct (_ <=? _); [done|]. by apply IH.
  - destruct (rows_loop _ _ _ _ _ _ _) as [resp|posts']; [done|]. by apply IH.
Qed.

Lemma Crawl_in_oracle req lookback fuel s :
  fst <$> Crawl_in req lookback fuel s
  = Crawl (with_fetch (λ j _, fetched_at j (first_page req) s)) req lookback fuel.
Proof.
  unfold Crawl_in, Crawl, first_page. cbn [source with_fetch now].
  destruct (ParseCursor (source c) (cq_Cursor req)) as [err|[page offset]]; [done|].
  by apply pages_loop_in_oracle.
Qed.

(** More fuel changes nothing. *)
Lemma pages_loop_in_fuel pageSize cutoff fuel fuel' k page skip e posts s x :
  (fuel ≤ fuel')%nat → pages_loop_in pageSize cutoff fuel k page skip e posts s = Some x →
  pages_loop_in pageSize cutoff fuel' k page skip e posts s = Some x.
Proof.
  revert fuel' k page skip e posts s. induction fuel as [|fuel IH]; intros fuel' k page skip e posts s Hf; [done|].
  destruct fuel' as [|fuel']; [lia|]. cbn [pages_loop_in].
  destruct (fetch_in page s) as [[err|body] s1]; [done|]. destruct (parsePage c body page) as [err|[|p ps]]; [done| |].
  - destruct (_ <=? _); [done|]. apply IH. lia.
  - destruct (rows_loop _ _ _ _ _ _ _); [done|]. apply IH. lia.
Qed.
Lemma ServeHTTP_in_fuel zone recordCrawl r fuel fuel' s x :
  (fuel ≤ fuel')%nat → ServeHTTP_in zone recordCrawl r fuel s = Some x → ServeHTTP_in zone recordCrawl r fuel' s = Some x.
Proof.
  intros Hf. unfold ServeHTTP_in, Crawl_in.
  destruct (bool_decide _); [done|]. destruct (json.Decoder_Decode _ _ _ _) as [|req]; [done|].
  destruct (duration.ParseLookback _ _) as [|lookback]; [done|].
  destruct (ParseCursor _ _) as [|[page offset]]; [done|].
  match goal with |- context [pages_loop_in ?a ?b fuel ?k ?p ?sk ?e ?po ?st] =>
    destruct (pages_loop_in a b fuel k p sk e po st) as [y|] eqn:E; [|done];
    by rewrite (pages_loop_in_fuel a b fuel fuel' k p sk e po st y Hf E) end.
Qed.

(** A request is answered as over the oracle of its fetches. *)
Lemma ServeHTTP_in_oracle zone recordCrawl r s ns dur m :
  ∃ o, ∀ fuel, fst <$> ServeHTTP_in zone recordCrawl r fuel s
               = fst <$> ServeHTTP ns zone (with_fetch o) r dur fuel m.
Proof.
  unfold ServeHTTP_in, ServeHTTP. cbn [source with_fetch].
  destruct (bool_decide (req_Method r ≠ "POST")); [by exists (λ _ _, Ok "")|].
  destruct (json.Decoder_Decode _ _ _ _) as [e|req]; [by exists (λ _ _, Ok "")|].
  destruct (duration.ParseLookback _ _) as [e|lookback]; [by exists (λ _ _, Ok "")|].
  destruct (ParseCursor _ _) as [e|po]; [by exists (λ _ _, Ok "")|].
  exists (λ j _, fetched_at j (first_page req) s). intros fuel.
  rewrite <-Crawl_in_oracle. destruct (Crawl_in req lookback fuel s) as [[[e|resp] s']|]; [done| |done].
  cbn. by destruct (Encode zone resp).
Qed.

End run.

(** ** Where the pages of a walk come from *)

(** Consecutive pages from [page] on, each parsed from a body that is [good]
    for it. *)
Fixpoint pages_from (good : Z → string → Prop) (parse : string → result (list RawPost)) (page : Z)
    (pages : list (list RawPost)) : Prop :=
  match pages with
  | [] => True
  | rows :: pages =>
      (∃ body, good page body ∧ parse body = Ok rows) ∧ pages_from good parse (wrap64 (page + 1)) pages
  end.

Section along.
Context {St : Type} (c : Crawler) (fetch_in : Z → St → result string * St) (record : Z → St → St).
Context (inv : St → Prop) (good : Z → string → Prop).
Hypothesis fetch_inv : ∀ page s, inv s → inv (fetch_in page s).2.
Hypothesis fetch_good : ∀ page s body s', inv s → fetch_in page s = (Ok body, s') → good page body.
Hypothesis record_inv : ∀ n s, inv s → inv (record n s).

Lemma after_page_inv page s : inv s → inv (after_page c fetch_in record page s).
Proof.
  intros Hs. apply (fetch_inv page) in Hs. unfold after_page. destruct (fetch_in page s) as [[e|body] s1]; [done|].
  destruct (parsePage c body page); [done|]. by apply record_inv.
Qed.
Lemma walked_good o k page s pages :
  inv s → (∀ j p, o (k + j)%nat p = fetched_at c fetch_in record j page s) →
  walked (with_fetch c o) k page pages → pages_from good (parse c) page pages.
Proof.
  revert k page s. induction pages as [|rows pages IH]; intros k page s Hs Ho; [done|].
  cbn [walked pages_from]. intros [(body&Hf&Hp) Hw]. split.
  - exists body. split; [|done]. specialize (Ho 0%nat page). rewrite Nat.add_0_r in Ho.
    cbn [fetch with_fetch] in Hf. rewrite Hf in Ho. unfold fetched_at in Ho. cbn [before_fetch] in Ho.
    destruct (fetch_in page s) as [res s1] eqn:E. cbn [fst] in Ho. subst res. by eapply fetch_good.
  - eapply (IH (S k) _ (after_page c fetch_in record page s)); [by apply after_page_inv| |done].
    intros j p. replace (S k + j)%nat with (k + S j)%nat by lia. apply Ho.
Qed.
Lemma pages_loop_in_inv pageSize cutoff fuel k page skip e posts s res s' :
  inv s → pages_loop_in c fetch_in record pageSize cutoff fuel k page skip e posts s = Some (res, s') → inv s'.
Proof.
  revert k page skip e posts s. induction fuel as [|fuel IH]; intros k page skip e posts s Hs; [done|].
  cbn [pages_loop_in]. apply (fetch_inv page) in Hs. destruct (fetch_in page s) as [[err|body] s1]; [by intros [= _ <-]|].
  cbn [snd] in Hs. destruct (parsePage c body page) as [err|ps]; [by intros [= _ <-]|].
  apply (record_inv (Z.of_nat (length ps))) in Hs. destruct ps as [|p ps].
  - destruct (_ <=? _); [by intros [= _ <-]|]. by apply IH.
  - destruct (rows_loop _ _ _ _ _ _ _) as [resp|posts']; [by intros [= _ <-]|]. by apply IH.
Qed.

Lemma Crawl_in_inv req lookback fuel s res s' :
  inv s → Crawl_in c fetch_in record req lookback fuel s = Some (res, s') → inv s'.
Proof.
  intros Hs. unfold Crawl_in. destruct (ParseCursor _ _) as [e|[page offset]]; [by intros [= _ <-]|]. by apply pages_loop_in_inv.
Qed.

(** An answered crawl shows the rows of good pages. *)
Lemma Crawl_in_good req lookback fuel s resp s' :
  inv s → Crawl_in c fetch_in record req lookback fuel s = Some (Ok resp, s') →
  ∃ page offset pages rest, ParseCursor (source c) (cq_Cursor req) = Ok (page, offset)
    ∧ pages_from good (parse c) (if offset =? 0 then wrap64 (page + 1) else page) pages
    ∧ visible offset pages = Posts resp ++ rest.
Proof.
  intros Hs Hrun. pose proof (Crawl_in_oracle c fetch_in record req lookback fuel s) as Ho. rewrite Hrun in Ho.
  symmetry in Ho. apply crawl_run_pages in Ho as (page&offset&pages&rest&Hc&Hw&Hvis).
  exists page, offset, pages, rest. split; [done|]. split; [|done].
  eapply (walked_good _ 0); [exact Hs| |exact Hw]. intros j p. unfold first_page.
  cbn [source with_fetch] in Hc. by rewrite Hc.
Qed.
End along.

(** ** Walks that a cache makes repeatable *)

Section repeat.
Context {St : Type} (c : Crawler).
Context (fetch1 fetch2 : Z → St → result string * St) (record1 record2 : Z → St → St).
(** Which pages a state has at hand, and what the fetches of a first walk
    keep true. *)
Context (holds : Z → string → St → Prop) (inv : St → Prop).
Definition keeps (s t : St) : Prop := ∀ page body, holds page body s → holds page body t.
#[local] Instance keeps_preorder : PreOrder keeps.
Proof. split; [intros s page body; done|intros s t u H1 H2 page body H; auto]. Qed.
Hypothesis fetch1_holds : ∀ page s body s',
  inv s → fetch1 page s = (Ok body, s') → inv s' ∧ keeps s s' ∧ holds page body s'.
Hypothesis record1_keeps : ∀ n s, inv s → inv (record1 n s) ∧ keeps s (record1 n s).
Hypothesis fetch2_holds : ∀ page body t, holds page body t → ∃ t', fetch2 page t = (Ok body, t') ∧ keeps t t'.
Hypothesis record2_keeps : ∀ n t, keeps t (record2 n t).

Lemma pages_loop_in_keeps pageSize cutoff fuel k page skip e posts s resp s' :
  inv s → pages_loop_in c fetch1 record1 pageSize cutoff fuel k page skip e posts s = Some (Ok resp, s') → keeps s s'.
Proof.
  revert k page skip e posts s. induction fuel as [|fuel IH]; intros k page skip e posts s Hs; [done|].
  cbn [pages_loop_in]. destruct (fetch1 page s) as [[err|body] s1] eqn:E1; [done|].
  destruct (fetch1_holds _ _ _ _ Hs E1) as (Hs1&Hk1&_).
  destruct (parsePage c body page) as [err|ps]; [done|].
  destruct (record1_keeps (Z.of_nat (length ps)) s1 Hs1) as [Hs2 Hk2].
  assert (keeps s (record1 (Z.of_nat (length ps)) s1)) as Hk by by etransitivity.
  destruct ps as [|p ps].
  - destruct (_ <=? _); [by intros [= _ <-]|]. intros H%IH; [by etransitivity|done].
  - destruct (rows_loop _ _ _ _ _ _ _) as [resp'|posts']; [by intros [= _ <-]|].
    intros H%IH; [by etransitivity|done].
Qed.

(** A walk that succeeded is walked again in the same way from any state that
    still has its pages. *)
Lemma pages_loop_in_repeat pageSize cutoff fuel k page skip e posts s resp s' t :
  inv s → pages_loop_in c fetch1 record1 pageSize cutoff fuel k page skip e posts s = Some (Ok resp, s') →
  keeps s' t →
  ∃ t', pages_loop_in c fetch2 record2 pageSize cutoff fuel k page skip e posts t = Some (Ok resp, t').
Proof.
  revert k page skip e posts s t. induction fuel as [|fuel IH]; intros k page skip e posts s t Hs; [done|].
  intros Hrun Ht.
  cbn [pages_loop_in] in *. destruct (fetch1 page s) as [[err|body] s1] eqn:E1; [done|].
  destruct (fetch1_holds _ _ _ _ Hs E1) as (Hs1&_&Hb).
  destruct (parsePage c body page) as [err|ps] eqn:Ep; [done|].
  destruct (record1_keeps (Z.of_nat (length ps)) s1 Hs1) as [Hs2 Hk2]. apply Hk2 in Hb.
  assert (∀ u, keeps s' u → holds page body u) as Hu.
  { intros u Hu. apply Hu. revert Hb. destruct ps as [|p ps].
    - destruct (_ <=? _); [injection Hrun as _ <-; done|].
      by apply (pages_loop_in_keeps _ _ _ _ _ _ _ _ _ _ _ Hs2 Hrun).
    - destruct (rows_loop _ _ _ _ _ _ _) as [resp'|posts']; [injection Hrun as _ <-; done|].
      by apply (pages_loop_in_keeps _ _ _ _ _ _ _ _ _ _ _ Hs2 Hrun). }
  destruct (fetch2_holds _ _ _ (Hu t Ht)) as (t1&->&Ht1). rewrite Ep.
  assert (keeps s' (record2 (Z.of_nat (length ps)) t1)) as Ht2.
  { etransitivity; [exact Ht|]. etransitivity; [exact Ht1|apply record2_keeps]. }
  destruct ps as [|p ps].
  - destruct (_ <=? _); [injection Hrun as <- _; by eexists|]. by eapply IH.
  - destruct (rows_loop _ _ _ _ _ _ _) as [resp'|posts']; [injection Hrun as <- _; by eexists|]. by eapply IH.
Qed.
End repeat.

End crawlrun.
