(* ===== verification/Dmhy.v ===== *)
(** * Package [sources/dmhy]: the DMHY archive crawler

    The HTML of an archive page into raw posts (src/sources/dmhy/html.go),
    the size column (parse.go), the page URL and the crawler it configures
    (server.go, crawl.go).  Converting a float outside the range of [int64]
    depends on the machine: it is a parameter. *)

From S2P Require Import Prelude GoStrings GoTime GoTimeFmt GoRegexp GoJson GoFloat GoHtml Rawpost Crawl.
From Stdlib Require Import Ascii SpecFloat.
Import regexp.

Module dmhy.

(** ** [ParseSize] *)

Definition no_number (s : string) : error := Errorf "dmhy: parse size %q: no leading number" [s] [].
Definition bad_number (s : string) : error :=
  Errorf "dmhy: parse size %q: %w" [s] [ErrNew "strconv.ParseFloat: parsing"].
Definition unknown_unit (s unit : string) : error := Errorf "dmhy: parse size %q: unknown unit %q" [s; unit] [].

Definition is_number_byte (c : ascii) : bool := Ascii.eqb c "." || is_digit c.
Fixpoint number_prefix (s : string) : string * string :=
  match s with
  | String c r => if is_number_byte c then let '(n, rest) := number_prefix r in (String c n, rest) else ("", s)
  | "" => ("", "")
  end.
Definition unit_mult (unit : string) : option Z :=
  if bool_decide (unit = "" ∨ unit = "B") then Some 1
  else if bool_decide (unit = "KB") then Some (10 ^ 3)
  else if bool_decide (unit = "MB") then Some (10 ^ 6)
  else if bool_decide (unit = "GB") then Some (10 ^ 9)
  else if bool_decide (unit = "TB") then Some (10 ^ 12)
  else None.

Section conversion.
Context (int64_overflow : spec_float → Z).

Definition ParseSize (s : string) : result Z :=
  let s := TrimSpace s in
  let '(numStr, rest) := number_prefix s in
  let unit := ToUpper (TrimSpace rest) in
  if bool_decide (numStr = "") then Err (no_number s) else
  match strconv.ParseFloat numStr with
  | strconv.Value n =>
      match unit_mult unit with
      | None => Err (unknown_unit s unit)
      | Some mult => Ok (to_int64 int64_overflow (float_mul n (strconv.float_int mult)))
      end
  | _ => Err (bad_number s)
  end.

(** ** The expressions *)

Definition row_marker : string := html "<tr class=''>".
Definition archiveRowRe : regexp := lit row_marker.
Definition list_anchor : string := html "id='topic_list'".
Definition listTableRe : regexp := lit list_anchor.
Definition errNonArchivePage : error :=
  ErrNew "dmhy: archive page has no topic_list table (non-archive 200: interstitial, truncation, or markup drift) — not a legitimately-empty floor".
Definition quoted : regexp := none_of json.quote_byte.
Definition titleCellRe : regexp :=
  seq [lit (html "<td class='title'>"); Group 1 (lazy_star any); lit "</td>"].
Definition anchorRe : regexp :=
  seq [lit "<a"; star (none_of ">"); lit (html "href='"); Group 1 (star quoted); lit (html "'");
       star (none_of ">"); lit ">"; Group 2 (lazy_star any); lit "</a>"].
Definition dataMagnetRe : regexp :=
  seq [lit (html "data-magnet='"); Group 1 (seq [lit "magnet:"; star quoted]); lit (html "'")].
Definition arrowMagnetRe : regexp :=
  seq [lit (html "class='"); star quoted; lit (html "arrow-magnet'"); star (none_of ">");
       lit (html "href='"); Group 1 (seq [lit "magnet:"; star quoted]); lit (html "'")].
Definition one_of_KMGT (c : ascii) : bool :=
  Ascii.eqb c "K" || Ascii.eqb c "M" || Ascii.eqb c "G" || Ascii.eqb c "T".
Definition bfSizeCellRe : regexp :=
  seq [lit (html "align='center'>");
       Group 1 (seq [plus (Class is_number_byte); star space; opt (Class one_of_KMGT); lit "B"]); lit "<"].
Definition dgt : regexp := Class is_digit.
Definition hiddenDateRe : regexp :=
  seq [lit "display:"; star space; lit "none"; opt (chr ";"); lit (html "'>"); star space;
       Group 1 (seq [dgt; dgt; dgt; dgt; chr "/"; dgt; dgt; chr "/"; dgt; dgt; chr " "; dgt; dgt; chr ":"; dgt; dgt])].

(** ** Rows *)

Definition rowMagnet (row : string) : string :=
  match Submatch arrowMagnetRe row with
  | Some m => group m 1
  | None => match Submatch dataMagnetRe row with Some m => group m 1 | None => "" end
  end.

(** The loop over the anchors of the title cell, with the team seen so far. *)
Fixpoint title_anchors (anchors : list captures) (team : string) : string * string :=
  match anchors with
  | [] => ("", "")
  | a :: anchors =>
      if contains (group a 1) "/topics/list/team_id/" then title_anchors anchors (TrimSpace (group a 2))
      else if contains (group a 1) "/topics/view/" then
        let title := TrimSpace (group a 2) in
        (group a 1, if bool_decide (team ≠ "") then "[" +:+ team +:+ "] " +:+ title else title)
      else title_anchors anchors team
  end.
Definition rowTitle (row : string) : string * string :=
  match Submatch titleCellRe row with
  | None => ("", "")
  | Some cell => title_anchors ((λ m, m.2) <$> FindAll anchorRe (group cell 1)) ""
  end.

Definition marker : string := "/topics/view/".
Definition rowSourceID (href : string) : string :=
  match index_of marker href with
  | None => TrimSpace href
  | Some i =>
      let rest := drop_str (i + String.length marker) href in
      match index_byte "_" rest with
      | Some j => take_str j rest
      | None => match index_byte "." rest with Some j => take_str j rest | None => rest end
      end
  end.

Definition dmhyZone : Duration := 8 * Hour.
(** [time.ParseInLocation("2006/01/02 15:04", s, dmhyZone)]. *)
Definition ParseInLocation (s : string) : option Time :=
  '(y, s) ← num4 s; s ← GoTimeFmt.lit "/" s;
  '(m, s) ← num2 s; s ← GoTimeFmt.lit "/" s;
  '(d, s) ← num2 s; s ← GoTimeFmt.lit " " s;
  '(hh, s) ← num12 s; s ← GoTimeFmt.lit ":" s;
  '(mm, s) ← num2 s;
  if bool_decide (s ≠ "") || (m <? 1) || (12 <? m) || (24 <=? hh) || (60 <=? mm)
     || (d <? 1) || (daysIn m y <? d) then None
  else Some (days_from_civil y m d * Day_ns + hh * Hour + mm * Minute - dmhyZone).
Definition rowPublishedAt (row : string) : Time :=
  match Submatch hiddenDateRe row with
  | None => zero_time
  | Some m => default zero_time (ParseInLocation (TrimSpace (group m 1)))
  end.
Definition rowSize (row : string) : Z :=
  match Submatch bfSizeCellRe row with
  | None => 0
  | Some m => match ParseSize (group m 1) with Ok n => n | Err _ => 0 end
  end.

(** ** [ParseArchivePage] *)

Definition row_post (row : string) : rawpost.RawPost :=
  let '(href, title) := rowTitle row in {|
    rawpost.rp_Source := rawpost.SourceDMHY;
    rawpost.rp_SourceID := rowSourceID href;
    rawpost.rp_URL := href;
    rawpost.rp_Title := title;
    rawpost.rp_Magnet := rowMagnet row;
    rawpost.rp_PublishedAt := rowPublishedAt row;
    rawpost.rp_SizeBytes := rowSize row;
  |}.
Definition ParseArchivePage (body : string) : result (list rawpost.RawPost) :=
  match FindAll archiveRowRe body with
  | [] => if negb (MatchString listTableRe body) then Err errNonArchivePage else Ok []
  | starts => Ok (row_post <$> segments starts)
  end.

(** ** The crawler *)

Definition Threshold : Z := 2.
Definition archivePageURL (base : string) (sortID page : Z) : string :=
  let b := TrimRight base "/" in
  if 0 <? sortID
  then b +:+ "/topics/list/sort_id/" +:+ Itoa sortID +:+ "/page/" +:+ Itoa page
  else b +:+ "/topics/list/page/" +:+ Itoa page.

(** The [k]th call of the fetcher, for a sort id and a page. *)
Record Crawler := {
  cr_fetch : nat → Z → Z → result string;
  cr_threshold : Z;
  cr_sortID : Z;
  cr_now : Time;
}.
Definition NewCrawler (fetch : nat → Z → Z → result string) (threshold : Z) (now : Time) : Crawler :=
  {| cr_fetch := fetch; cr_threshold := threshold; cr_sortID := 0; cr_now := now |}.
(** The crawler has a clock, so the wall clock is not asked. *)
Definition shared (c : Crawler) : crawl.Crawler := crawl.NewCrawler zero_time {|
  crawl.cfg_Source := "dmhy";
  crawl.cfg_Fetch k page := cr_fetch c k (cr_sortID c) page;
  crawl.cfg_Parse := ParseArchivePage;
  crawl.cfg_Threshold := cr_threshold c;
  crawl.cfg_FloorReason := "archive_floor";
  crawl.cfg_ParseErrorContext :=
    Some (λ page, "sort_id " +:+ Itoa (cr_sortID c) +:+ " page " +:+ Itoa page);
  crawl.cfg_Now := Some (cr_now c);
|}.

(** What the engine returns to its own package. *)
Record CrawlResponse := {
  dr_Posts : list rawpost.RawPost;
  dr_NextCursor : string;
  dr_HasMore : bool;
  dr_stopReason : string;
  dr_pagesFetched : Z;
  dr_lastPage : Z;
}.
Definition crawlResponse (resp : crawl.CrawlResponse) : CrawlResponse := {|
  dr_Posts := crawl.Posts resp;
  dr_NextCursor := crawl.NextCursor resp;
  dr_HasMore := crawl.HasMore resp;
  dr_stopReason := crawl.StopReason resp;
  dr_pagesFetched := crawl.PagesFetched resp;
  dr_lastPage := crawl.LastPage resp;
|}.
Definition dmhy_Crawl (c : Crawler) (req : crawl.CrawlRequest) (lookback : Duration) (fuel : nat)
    : option (result CrawlResponse) :=
  walk ← crawl.Crawl (shared c) req lookback fuel;
  Some match walk with
       | Err err => Err err
       | Ok resp => Ok (crawlResponse resp)
       end.
Definition parseCursor (cursor : string) : result (Z * Z) := crawl.ParseCursor "dmhy" cursor.
Definition formatCursor (page offset : Z) : string := crawl.FormatCursor page offset.
End conversion.

End dmhy.
