(* ===== verification/DmhyThms.v ===== *)
(** * What the DMHY parser returns *)

From S2P Require Import Prelude GoStrings GoTime GoTimeFmt GoRegexp GoRegexpThms GoJson GoFloat GoHtml GoHttp Rawpost.
From S2P Require Import Crawl CrawlThms Duration CrawlServer Dmhy.
From Stdlib Require Import Ascii SpecFloat.
Import regexp dmhy.

(** ** The times of the posts can be encoded *)

Lemma num2_range s n r : num2 s = Some (n, r) → 0 ≤ n < 100.
Proof.
  unfold num2. destruct s as [|a [|b s]]; [done..|].
  destruct (is_digit a) eqn:Ha; [|done]. destruct (is_digit b) eqn:Hb; [|done]. intros [= <- _].
  pose proof (digit_val_range a Ha). pose proof (digit_val_range b Hb). lia.
Qed.
Lemma num4_range s n r : num4 s = Some (n, r) → 0 ≤ n ≤ 9999.
Proof.
  unfold num4. intros ([a s1]&Ha&([b s2]&Hb&[= <- _])%bind_Some)%bind_Some.
  apply num2_range in Ha, Hb. lia.
Qed.

Lemma local_day days hh mm :
  0 ≤ hh < 24 → 0 ≤ mm < 60 → (days * Day_ns + hh * Hour + mm * Minute) / Day_ns = days.
Proof.
  intros Hh Hm. symmetry. apply (Z.div_unique _ _ _ (hh * Hour + mm * Minute)); [|lia].
  unfold Day_ns, Hour, Minute, Second. lia.
Qed.
Lemma num12_range s n r : num12 s = Some (n, r) → 0 ≤ n < 100.
Proof.
  unfold num12. destruct (num2 s) as [[n' r']|] eqn:E; [intros [= <- _]; by eapply num2_range|].
  destruct s as [|a s]; [done|]. destruct (is_digit a) eqn:Ha; [|done]. intros [= <- _].
  pose proof (digit_val_range a Ha). lia.
Qed.
Lemma daysIn_le m y : daysIn m y ≤ 31.
Proof. unfold daysIn. repeat split_match; lia. Qed.

Lemma ParseInLocation_year s t : ParseInLocation s = Some t → crawlserver.four_digit_year (t + dmhyZone) = true.
Proof.
  unfold ParseInLocation. intros H.
  apply bind_Some in H as ([y s1]&Hy&H). apply bind_Some in H as (s2&_&H).
  apply bind_Some in H as ([m s3]&Hm&H). apply bind_Some in H as (s4&_&H).
  apply bind_Some in H as ([d s5]&Hd&H). apply bind_Some in H as (s6&_&H).
  apply bind_Some in H as ([hh s7]&Hh&H). apply bind_Some in H as (s8&_&H).
  apply bind_Some in H as ([mm s9]&Hmm&H).
  destruct (_ || _) eqn:E; [done|]. bool_hyps.
  injection H as <-. apply num4_range in Hy. apply num2_range in Hm, Hd, Hmm. apply num12_range in Hh.
  pose proof (daysIn_le m y). unfold crawlserver.four_digit_year.
  assert (days_from_civil y m d * Day_ns + hh * Hour + mm * Minute - dmhyZone + dmhyZone
          = days_from_civil y m d * Day_ns + hh * Hour + mm * Minute) as -> by lia.
  rewrite local_day by lia.
  pose proof (civil_year_range (days_from_civil y m d) ltac:(apply days_from_civil_range; lia)) as Hr.
  destruct (civil_from_days _) as [[y' ?] ?]. apply andb_true_iff. rewrite !Z.leb_le. lia.
Qed.
Lemma rowPublishedAt_year row : crawlserver.four_digit_year (rowPublishedAt row + dmhyZone) = true.
Proof.
  unfold rowPublishedAt. destruct (Submatch hiddenDateRe row) as [m|]; [|done].
  destruct (ParseInLocation (TrimSpace (group m 1))) as [t|] eqn:E; [by apply ParseInLocation_year in E|done].
Qed.

Section page.
Context (int64_overflow : spec_float → Z).

(** C32: an archive page becomes one post per content row, in page order and
    each from its own row alone: the page is a head without the row marker
    followed by rows that each begin with the only marker they contain.  A
    page without rows is an empty page only when it carries the listing
    table; otherwise it is an error, and only then. *)
Theorem archive_page_rows body :
  match ParseArchivePage int64_overflow body with
  | Err e => e = errNonArchivePage ∧ contains body row_marker = false ∧ contains body list_anchor = false
  | Ok posts =>
      (posts = [] → contains body row_marker = false ∧ contains body list_anchor = true)
      ∧ ∃ head rows, body = head +:+ String.concat "" rows
          ∧ contains head row_marker = false
          ∧ Forall (λ row, ∃ tail, row = row_marker +:+ tail ∧ contains tail row_marker = false) rows
          ∧ posts = row_post int64_overflow <$> rows
  end.
Proof.
  unfold ParseArchivePage, archiveRowRe, listTableRe. rewrite MatchString_lit.
  destruct (FindAll_lit row_marker body) as (head&Hcut&Hnil); [done|].
  pose proof (cut_at_concat _ _ _ _ Hcut) as (E&Hh&Hrows).
  destruct (FindAll (lit row_marker) body) as [|m ms] eqn:Ef.
  - assert (contains body row_marker = false) as Hno by by apply Hnil.
    destruct (contains body list_anchor) eqn:Ea; cbn [negb]; [|done]. split; [done|].
    exists head, []. done.
  - split.
    + intros Hp. exfalso. apply fmap_nil_inv in Hp. destruct m as [[start ?] ?]. cbn [segments] in Hp.
      destruct ms as [|[[? ?] ?] ms]; discriminate.
    + exists head, (segments (m :: ms)). done.
Qed.

Lemma ParseArchivePage_years body posts :
  ParseArchivePage int64_overflow body = Ok posts →
  Forall (λ p, crawlserver.four_digit_year (rawpost.rp_PublishedAt p + dmhyZone) = true) posts.
Proof.
  unfold ParseArchivePage. destruct (FindAll archiveRowRe body) as [|m ms].
  - destruct (negb _); [done|]. by intros [= <-].
  - intros [= <-]. apply Forall_fmap, Forall_true. intros row. cbn. unfold row_post.
    destruct (rowTitle row). apply rowPublishedAt_year.
Qed.
End page.

(** A small page: two rows and a head. *)
Definition demo_page : string :=
  "<table>" +:+ html "<tr class=''><span style='display: none;'>2026/06/20 22:25</span><td class='title'><a href='/topics/list/team_id/1'>ANi</a><a href='/topics/view/720662_x.html' target='_blank'> Show - 10 </a></td><a class='download-arrow arrow-magnet' href='magnet:?xt=urn:btih:ABC'>m</a><td align='center'>3.6GB</td>"
  +:+ html "<tr class=''><td class='title'>none</td>".
Example demo_page_parsed :
  ParseArchivePage (λ _, 0) demo_page = Ok
    [{| rawpost.rp_Title := "[ANi] Show - 10"; rawpost.rp_Magnet := "magnet:?xt=urn:btih:ABC";
        rawpost.rp_Source := "dmhy"; rawpost.rp_SourceID := "720662";
        rawpost.rp_URL := "/topics/view/720662_x.html"; rawpost.rp_PublishedAt := 1781965500 * Second;
        rawpost.rp_SizeBytes := 3600000000 |};
     {| rawpost.rp_Title := ""; rawpost.rp_Magnet := ""; rawpost.rp_Source := "dmhy"; rawpost.rp_SourceID := "";
        rawpost.rp_URL := ""; rawpost.rp_PublishedAt := zero_time; rawpost.rp_SizeBytes := 0 |}].
Proof. vm_compute. reflexivity. Qed.

(** ** The engine *)

(** The engine always returns: with enough fetches for the walk, the walk's
    error or its response field by field; and where it says to go on from can
    be read back. *)
Lemma dmhy_engine_returns (int64_overflow : spec_float → Z) c req lookback :
  ∃ r, (∀ fuel, (crawl.enough (shared int64_overflow c) ≤ fuel)%nat →
          dmhy_Crawl int64_overflow c req lookback fuel = Some r)
    ∧ match r with
      | Err err => crawl.Crawl (shared int64_overflow c) req lookback (crawl.enough (shared int64_overflow c)) = Some (Err err)
      | Ok resp => ∃ walked,
          crawl.Crawl (shared int64_overflow c) req lookback (crawl.enough (shared int64_overflow c)) = Some (Ok walked)
          ∧ resp = crawlResponse walked
      end.
Proof.
  destruct (Crawl_total (shared int64_overflow c) req lookback) as [[err|walked] Hw].
  - exists (Err err). split; [|by apply Hw]. intros fuel Hf. unfold dmhy_Crawl. by rewrite (Hw fuel Hf).
  - exists (Ok (crawlResponse walked)). split; [intros fuel Hf; unfold dmhy_Crawl; by rewrite (Hw fuel Hf)|].
    exists walked. split; [by apply Hw|done].
Qed.
Lemma dmhy_cursor_reads_back page offset :
  0 ≤ page ≤ int64_max → 0 ≤ offset ≤ int64_max → parseCursor (formatCursor page offset) = Ok (page, offset).
Proof. apply ParseCursor_FormatCursor. Qed.
