(* ===== verification/DmhyCache.v ===== *)
(** * Package [sources/dmhy]: the page cache (src/sources/dmhy/cache.go)

    [get] and [put] are the sections under the mutex, with the clock as each
    of them reads it; a call of the wrapped fetcher is one [get] and, on a
    miss, a fetch with no lock held and a [put] after it.  Calls of several
    goroutines interleave at these steps: a history is the sequence of [get]s
    and [put]s in lock order. *)

From S2P Require Import Prelude GoStrings GoTime Dmhy.
From Stdlib Require Import Ascii.

Module cache.

Record pageEntry := { pe_body : string; pe_expires : Time }.
Record pageCache := { pc_ttl : Duration; pc_items : gmap string pageEntry }.
Definition newPageCache (ttl : Duration) : pageCache := {| pc_ttl := ttl; pc_items := ∅ |}.
Definition pageCacheKey (sortID page : Z) : string := Itoa sortID +:+ "|" +:+ Itoa page.

Definition get (c : pageCache) (key : string) (now : Time) : option string :=
  match pc_items c !! key with
  | None => None
  | Some e => if negb (Before now (pe_expires e)) then None else Some (pe_body e)
  end.
Definition put (c : pageCache) (key body : string) (now : Time) : pageCache := {|
  pc_ttl := pc_ttl c;
  pc_items := <[key := {| pe_body := body; pe_expires := Add now (pc_ttl c) |}]>
                (filter (λ ke, ¬ negb (Before now (pe_expires ke.2))) (pc_items c));
|}.
(** A call on its own: [fetched] is what [fetch] gives if it is asked,
    [now] and [now'] what the clock shows before and after. *)
Definition wrap (c : pageCache) (sortID page : Z) (fetched : result string) (now now' : Time)
    : result string * pageCache :=
  let key := pageCacheKey sortID page in
  match get c key now with
  | Some body => (Ok body, c)
  | None =>
      match fetched with
      | Err err => (Err err, c)
      | Ok body => (Ok body, put c key body now')
      end
  end.
(** The fetcher the server is built with: a cache only if it has a lifetime. *)
Definition cached_fetch (cacheTTL : Duration) (c : pageCache) (sortID page : Z) (fetched : result string)
    (now now' : Time) : result string * pageCache :=
  if 0 <? cacheTTL then wrap c sortID page fetched now now' else (fetched, c).

(** ** Histories *)

Record stored := { st_sortID : Z; st_page : Z; st_body : string; st_at : Time }.
(** The cache after the [put]s of a history, the latest first. *)
Fixpoint replay (ttl : Duration) (history : list stored) : pageCache :=
  match history with
  | [] => newPageCache ttl
  | s :: older => put (replay ttl older) (pageCacheKey (st_sortID s) (st_page s)) (st_body s) (st_at s)
  end.
(** What the cache promises: the body stored last for the page, while it is
    younger than the lifetime. *)
Fixpoint last_stored (history : list stored) (sortID page : Z) : option stored :=
  match history with
  | [] => None
  | s :: older =>
      if bool_decide (st_sortID s = sortID ∧ st_page s = page) then Some s else last_stored older sortID page
  end.
Definition fresh (ttl : Duration) (history : list stored) (sortID page : Z) (now : Time) : option string :=
  match last_stored history sortID page with
  | Some s => if now - st_at s <? ttl then Some (st_body s) else None
  | None => None
  end.

(** ** The keys *)

Lemma Itoa_inj_all m n : Itoa m = Itoa n → m = n.
Proof.
  assert (∀ k, k < 0 → Itoa k = String "-" (Itoa (- k))) as Hneg.
  { intros k Hk. unfold Itoa. destruct (Z.ltb_spec k 0); [|lia]. by destruct (Z.ltb_spec (- k) 0); [lia|]. }
  assert (∀ a b, a < 0 → 0 ≤ b → Itoa a ≠ Itoa b) as Hno.
  { intros a b Ha Hb E. pose proof (Itoa_digits b Hb) as Hd. rewrite <- E, Hneg in Hd by done. done. }
  destruct (Z.ltb_spec m 0), (Z.ltb_spec n 0); intros E.
  - rewrite (Hneg m), (Hneg n) in E by done. apply (f_equal (λ s, drop_str 1 s)) in E.
    cbn [drop_str] in E. apply Itoa_inj in E; lia.
  - by apply Hno in E.
  - symmetry in E. by apply Hno in E.
  - apply Itoa_inj in E; lia.
Qed.

Lemma Itoa_no_bar n : str_forall (λ a, negb (Ascii.eqb a "|")) (Itoa n) = true.
Proof.
  assert (∀ k, 0 ≤ k → str_forall (λ a, negb (Ascii.eqb a "|")) (Itoa k) = true) as Hpos.
  { intros k Hk. eapply str_forall_impl; [|by apply Itoa_digits].
    intros a. by destruct a as [[] [] [] [] [] [] [] []]. }
  destruct (Z.ltb_spec n 0); [|by apply Hpos].
  specialize (Hpos (- n) ltac:(lia)). unfold Itoa in *. destruct (Z.ltb_spec n 0); [|lia].
  by destruct (Z.ltb_spec (- n) 0); [lia|].
Qed.

Lemma pageCacheKey_inj s p s' p' : pageCacheKey s p = pageCacheKey s' p' → s = s' ∧ p = p'.
Proof.
  unfold pageCacheKey. intros E. apply (f_equal (λ x, cut x "|")) in E.
  change (Itoa s +:+ "|" +:+ Itoa p) with (Itoa s +:+ String "|" (Itoa p)) in E.
  change (Itoa s' +:+ "|" +:+ Itoa p') with (Itoa s' +:+ String "|" (Itoa p')) in E.
  rewrite !cut_app in E by apply Itoa_no_bar. injection E as Es Ep. auto using Itoa_inj_all.
Qed.

(** ** What is cached *)

Lemma pc_ttl_replay ttl h : pc_ttl (replay ttl h) = ttl.
Proof. induction h; done. Qed.

(** Sweeping is invisible to a clock that does not run backwards. *)
Lemma get_put c k b t k' now :
  t ≤ now →
  get (put c k b t) k' now =
    if bool_decide (k = k') then (if now - t <? pc_ttl c then Some b else None) else get c k' now.
Proof.
  intros Ht. unfold get, put, Add, Before. cbn [pc_items]. case_bool_decide as E.
  - subst k'. rewrite lookup_insert_eq. cbn.
    destruct (Z.ltb_spec now (t + pc_ttl c)), (Z.ltb_spec (now - t) (pc_ttl c)); done || lia.
  - rewrite lookup_insert_ne by done.
    destruct (pc_items c !! k') as [e|] eqn:El.
    + destruct (Z.ltb_spec now (pe_expires e)).
      * rewrite (proj2 (map_lookup_filter_Some _ _ k' e)).
        2:{ split; [done|]. cbn. destruct (Z.ltb_spec t (pe_expires e)); [by intros []|lia]. }
        destruct (Z.ltb_spec now (pe_expires e)); [done|lia].
      * destruct (filter _ (pc_items c) !! k') as [e'|] eqn:Ef; [|done].
        apply map_lookup_filter_Some in Ef as [Ef _]. simplify_eq.
        destruct (Z.ltb_spec now (pe_expires e)); [lia|done].
    + rewrite map_lookup_filter, El. done.
Qed.

Lemma get_replay ttl h sortID page now :
  Forall (λ s, st_at s ≤ now) h →
  get (replay ttl h) (pageCacheKey sortID page) now = fresh ttl h sortID page now.
Proof.
  induction 1 as [|s h Hs Hh IH]; [done|]. cbn [replay]. rewrite get_put, pc_ttl_replay, IH by done.
  unfold fresh. cbn [last_stored]. destruct (decide (st_sortID s = sortID ∧ st_page s = page)) as [[<- <-]|Hne].
  - by rewrite !bool_decide_eq_true_2.
  - rewrite !bool_decide_eq_false_2; [done|done|]. intros E%pageCacheKey_inj. tauto.
Qed.

(** An entry of the cache is a store of the history that the last sweep left. *)
Lemma replay_entries ttl h k e :
  pc_items (replay ttl h) !! k = Some e →
  ∃ s, s ∈ h ∧ k = pageCacheKey (st_sortID s) (st_page s) ∧ e = {| pe_body := st_body s; pe_expires := st_at s + ttl |}
       ∧ (0 < ttl → ∃ last, head h = Some last ∧ st_at last - st_at s < ttl).
Proof.
  revert k e. induction h as [|s h IH]; intros k e; [done|]. cbn [replay put pc_items]. rewrite pc_ttl_replay.
  rewrite lookup_insert_Some. intros [[<- <-]|[Hne Hl]].
  - exists s. split_and!; [left|done|done|]. intros. exists s. split; [done|lia].
  - apply map_lookup_filter_Some in Hl as [Hl Hb]. destruct (IH _ _ Hl) as (s'&?&->&->&_).
    exists s'. split_and!; [by right|done|done|]. intros. exists s. split; [done|].
    cbn in Hb. destruct (Before (st_at s) (st_at s' + ttl)) eqn:Eb; [|by exfalso; apply Hb].
    unfold Before in Eb. bool_hyps. lia.
Qed.

(** The page cache answers as its specification says, after any
    interleaving of the goroutines' reads and writes, as long as the clock
    does not run backwards: a page that was fetched less than the lifetime
    ago is the body its last successful fetch returned, without a fetch;
    any other page is fetched, an error is passed on and never kept, a body
    is kept.  What the cache holds was all fetched within a lifetime of the
    last write. *)
Theorem page_cache_exact ttl history sortID page fetched now now' :
  0 < ttl → Forall (λ s, st_at s ≤ now) history →
  wrap (replay ttl history) sortID page fetched now now' =
    match fresh ttl history sortID page now with
    | Some body => (Ok body, replay ttl history)
    | None =>
        match fetched with
        | Err err => (Err err, replay ttl history)
        | Ok body =>
            (Ok body, replay ttl ({| st_sortID := sortID; st_page := page; st_body := body; st_at := now' |} :: history))
        end
    end
  ∧ (∀ body, fresh ttl history sortID page now = Some body →
       ∃ s, s ∈ history ∧ st_sortID s = sortID ∧ st_page s = page ∧ st_body s = body ∧ now - st_at s < ttl)
  ∧ (∀ k e, pc_items (replay ttl history) !! k = Some e →
       ∃ s last, s ∈ history ∧ head history = Some last ∧ k = pageCacheKey (st_sortID s) (st_page s)
                 ∧ pe_body e = st_body s ∧ st_at last - st_at s < ttl).
Proof.
  intros Httl Hnow. split_and!.
  - unfold wrap. rewrite get_replay by done. by destruct (fresh ttl history sortID page now), fetched.
  - intros body. unfold fresh. destruct (last_stored history sortID page) as [s|] eqn:El; [|done].
    destruct (Z.ltb_spec (now - st_at s) ttl); intros [= <-]. exists s.
    induction history as [|s' h IH]; [done|]. cbn in El. apply Forall_cons in Hnow as [_ Hh].
    case_bool_decide as E; [injection El as ->; split; [left|tauto]|].
    destruct (IH Hh El) as (?&?). split; [by right|done].
  - intros k e Hk. destruct (replay_entries _ _ _ _ Hk) as (s&Hs&->&->&Hl).
    destruct (Hl Httl) as (last&?&?). exists s, last. done.
Qed.


End cache.
