(* ===== verification/Nyaa.v ===== *)
(** * Package [sources/nyaa]: the Nyaa listing crawler

    The HTML of a listing page into raw posts (src/sources/nyaa/parse.go) and
    the crawler it configures (crawl.go, server.go).  The tables of named
    character references and the conversion of a float outside the range of
    [int64] are parameters. *)

From S2P Require Import Prelude GoStrings GoTime GoRegexp GoJson GoFloat GoHtml Rawpost Crawl.
From Stdlib Require Import Ascii SpecFloat.
Import regexp.

Module nyaa.

(** ** The expressions *)

Definition quoted : regexp := none_of json.quote_byte.
Definition in_tag : regexp := none_of ">".
(** A letter in either case; [s] also folds to U+017F. *)
Definition long_s : regexp := lit (String (byte_of 0xC5) (String (byte_of 0xBF) "")).
Definition either_case (c : ascii) : regexp :=
  let plain := Class (λ a, Ascii.eqb (lower_byte a) c) in
  if Ascii.eqb c "s" then Alt plain long_s else plain.
Fixpoint any_case (s : string) : regexp :=
  match s with
  | "" => Empty
  | String c s => Cat (if is_lower c then either_case c else chr c) (any_case s)
  end.

Definition listTableRe : regexp :=
  seq [lit (html "class='"); star quoted; WordBoundary; lit "torrent-list"; WordBoundary; star quoted;
       lit (html "'")].
Definition listRowRe : regexp :=
  seq [lit (html "<tr class='"); Alt (lit "default") (Alt (lit "success") (lit "danger")); lit (html "'>")].
Definition noResultsRe : regexp :=
  seq [any_case "<h3"; WordBoundary; star in_tag; lit ">"; star space; any_case "no results found"; star space;
       any_case "</h3>"].
Definition viewAnchorRe : regexp :=
  seq [lit "<a"; Group 1 (star in_tag); lit (html "href='/view/"); Group 2 (plus (Class is_digit)); lit (html "'");
       Group 3 (star in_tag); lit ">"; Group 4 (lazy_star any); lit "</a>"].
Definition is_attr_byte (c : ascii) : bool := is_word c || Ascii.eqb c "-".
Definition attrRe : regexp :=
  seq [Group 1 (plus (Class is_attr_byte)); lit (html "='"); Group 2 (star quoted); lit (html "'")].
Definition magnetRe : regexp :=
  seq [lit (html "href='"); Group 1 (seq [lit "magnet:"; star quoted]); lit (html "'")].
Definition sizeCellRe : regexp :=
  seq [lit (html "<td class='text-center'>"); star space; Group 1 (lazy_star (none_of "<")); star space; lit "</td>"].
Definition timestampRe : regexp :=
  seq [lit (html "data-timestamp='"); Group 1 (plus (Class is_digit)); lit (html "'")].
Definition tagRe : regexp := seq [lit "<"; star in_tag; lit ">"].

(** ** Sizes and times *)

Definition no_number (s : string) : error := Errorf "nyaa: parse size %q: no leading number" [s] [].
Definition bad_number (s : string) : error :=
  Errorf "nyaa: parse size %q: %w" [s] [ErrNew "strconv.ParseFloat: parsing"].
Definition negative_size (s : string) : error := Errorf "nyaa: parse size %q: negative size" [s] [].
Definition unknown_unit (s unit : string) : error := Errorf "nyaa: parse size %q: unknown unit %q" [s; unit] [].

Definition unit_mult (unit : string) : option Z :=
  if bool_decide (unit = "b" ∨ unit = "byte" ∨ unit = "bytes") then Some 1
  else if bool_decide (unit = "kb") then Some 1000
  else if bool_decide (unit = "mb") then Some (1000 * 1000)
  else if bool_decide (unit = "gb") then Some (1000 * 1000 * 1000)
  else if bool_decide (unit = "tb") then Some (1000 * 1000 * 1000 * 1000)
  else if bool_decide (unit = "kib") then Some 1024
  else if bool_decide (unit = "mib") then Some (1024 * 1024)
  else if bool_decide (unit = "gib") then Some (1024 * 1024 * 1024)
  else if bool_decide (unit = "tib") then Some (1024 * 1024 * 1024 * 1024)
  else None.

(** [time.Unix(sec, 0)]: the seconds since year 1 are an [int64]. *)
Definition Unix (sec : Z) : Time := (wrap64 (sec + 62135596800) - 62135596800) * Second.
Definition rowPublishedAt (row : string) : Time :=
  match Submatch timestampRe row with
  | None => zero_time
  | Some m => match Atoi (group m 1) with Some sec => Unix sec | None => zero_time end
  end.

Section parser.
Context (entity : string → option Z) (entity2 : string → option (Z * Z)) (int64_overflow : spec_float → Z).
Let Unescape : string → string := htmlpkg.UnescapeString entity entity2.

Definition parseSize (s : string) : result Z :=
  let s := TrimSpace s in
  match Fields s with
  | [] => Err (no_number s)
  | first :: fields =>
      match strconv.ParseFloat first with
      | strconv.Value n =>
          if SFltb n (S754_zero false) then Err (negative_size s) else
          let unit := match fields with [] => "b" | u :: _ => ToLower u end in
          match unit_mult unit with
          | None => Err (unknown_unit s unit)
          | Some mult => Ok (to_int64 int64_overflow (float_mul n (strconv.float_int mult)))
          end
      | _ => Err (bad_number s)
      end
  end.
Definition rowSize (row : string) : Z :=
  match Submatch sizeCellRe row with
  | None => 0
  | Some m => match parseSize (group m 1) with Ok size => size | Err _ => 0 end
  end.

(** ** Rows *)

Definition attrValue (attrs name : string) : string :=
  match find (λ m, bool_decide (group m 1 = name)) ((λ m, m.2) <$> FindAll attrRe attrs) with
  | Some m => Unescape (group m 2)
  | None => ""
  end.
Definition rowTitle (row : string) : string * string :=
  match Submatch viewAnchorRe row with
  | None => ("", "")
  | Some m =>
      let attrs := group m 1 +:+ group m 3 in
      let t := attrValue attrs "title" in
      let title := if bool_decide (t ≠ "") then t else TrimSpace (RemoveAll tagRe (group m 4)) in
      (group m 2, Unescape (TrimSpace title))
  end.
Definition rowMagnet (row : string) : string :=
  match Submatch magnetRe row with Some m => Unescape (group m 1) | None => "" end.

(** The post of a row, if the row has a view link. *)
Definition row_post (row : string) : option rawpost.RawPost :=
  let '(id, title) := rowTitle row in
  if bool_decide (id = "") then None else Some {|
    rawpost.rp_Source := rawpost.SourceNyaa;
    rawpost.rp_SourceID := id;
    rawpost.rp_URL := "https://nyaa.si/view/" +:+ id;
    rawpost.rp_Title := title;
    rawpost.rp_Magnet := rowMagnet row;
    rawpost.rp_PublishedAt := rowPublishedAt row;
    rawpost.rp_SizeBytes := rowSize row;
  |}.
Definition errNoTable : error := ErrNew "nyaa: listing page has no torrent-list table".
Definition ParseListingPage (page : string) : result (list rawpost.RawPost) :=
  match FindAll listRowRe page with
  | [] => if negb (MatchString listTableRe page) && negb (MatchString noResultsRe page)
          then Err errNoTable else Ok []
  | starts => Ok (omap row_post (segments starts))
  end.

(** ** The crawler *)

Definition Threshold : Z := 2.
Record Crawler := {
  cr_fetch : nat → Z → result string;
  cr_threshold : Z;
  cr_now : Time;
}.
Definition NewCrawler (fetch : nat → Z → result string) (threshold : Z) (now : Time) : Crawler :=
  {| cr_fetch := fetch; cr_threshold := threshold; cr_now := now |}.
(** The crawler has a clock, so the wall clock is not asked. *)
Definition shared (c : Crawler) : crawl.Crawler := crawl.NewCrawler zero_time {|
  crawl.cfg_Source := "nyaa";
  crawl.cfg_Fetch := cr_fetch c;
  crawl.cfg_Parse := ParseListingPage;
  crawl.cfg_Threshold := cr_threshold c;
  crawl.cfg_FloorReason := "feed_floor";
  crawl.cfg_ParseErrorContext := None;
  crawl.cfg_Now := Some (cr_now c);
|}.

(** What the engine returns to its own package. *)
Record CrawlResponse := {
  nr_Posts : list rawpost.RawPost;
  nr_NextCursor : string;
  nr_HasMore : bool;
  nr_stopReason : string;
  nr_pagesFetched : Z;
  nr_lastPage : Z;
}.
Definition crawlResponse (resp : crawl.CrawlResponse) : CrawlResponse := {|
  nr_Posts := crawl.Posts resp;
  nr_NextCursor := crawl.NextCursor resp;
  nr_HasMore := crawl.HasMore resp;
  nr_stopReason := crawl.StopReason resp;
  nr_pagesFetched := crawl.PagesFetched resp;
  nr_lastPage := crawl.LastPage resp;
|}.
Definition nyaa_Crawl (c : Crawler) (req : crawl.CrawlRequest) (lookback : Duration) (fuel : nat)
    : option (result CrawlResponse) :=
  walk ← crawl.Crawl (shared c) req lookback fuel;
  Some match walk with
       | Err err => Err err
       | Ok resp => Ok (crawlResponse resp)
       end.
Definition parseCursor (cursor : string) : result (Z * Z) := crawl.ParseCursor "nyaa" cursor.
Definition formatCursor (page offset : Z) : string := crawl.FormatCursor page offset.
End parser.

End nyaa.

Definition demo_listing : string :=
  html "<table class='table torrent-list'><tr class='default'><td><a href='/view/123#comments' title='x'>2</a><a href='/view/123' title='[Sub] A &amp; B - 01'>A</a></td><td class='text-center'><a href='magnet:?xt=urn:btih:abc&amp;dn=x'>m</a></td><td class='text-center'>1.4 GiB</td><td data-timestamp='1700000000'></td>"
  +:+ html "<tr class='danger'><td>gone</td><tr class='success'><a href='/view/7'><b>Raw</b> title </a><td class='text-center'>12 parsecs</td>".
Example demo_listing_parsed :
  nyaa.ParseListingPage htmlpkg.basic_entities (λ _, None) (λ _, 0) demo_listing = Ok
    [{| rawpost.rp_Title := "[Sub] A & B - 01"; rawpost.rp_Magnet := "magnet:?xt=urn:btih:abc&dn=x";
        rawpost.rp_Source := "nyaa"; rawpost.rp_SourceID := "123"; rawpost.rp_URL := "https://nyaa.si/view/123";
        rawpost.rp_PublishedAt := 1700000000 * Second; rawpost.rp_SizeBytes := 1503238554 |};
     {| rawpost.rp_Title := "Raw title"; rawpost.rp_Magnet := ""; rawpost.rp_Source := "nyaa";
        rawpost.rp_SourceID := "7"; rawpost.rp_URL := "https://nyaa.si/view/7";
        rawpost.rp_PublishedAt := zero_time; rawpost.rp_SizeBytes := 0 |}].
Proof. vm_compute. reflexivity. Qed.
Example no_results_matched :
  MatchString nyaa.noResultsRe ("<H3 class=x> No reSults FOUND </h3>") = true
  ∧ MatchString nyaa.noResultsRe ("<h33>No results found</h3>") = false
  ∧ MatchString nyaa.listTableRe (html "<table class='x torrent-list'>") = true
  ∧ MatchString nyaa.listTableRe (html "<table class='torrent-lists'>") = false.
Proof. vm_compute. done. Qed.
