(* ===== verification/NyaaThms.v ===== *)
(** * What the Nyaa parser returns *)

From S2P Require Import Prelude GoStrings GoTime GoTimeFmt GoRegexp GoRegexpThms GoRegexpSpec GoJson GoFloat GoHtml.
From S2P Require Import GoHttp Rawpost Metrics Crawl CrawlThms Duration CrawlServer Nyaa.
From Stdlib Require Import Ascii SpecFloat.
Import regexp nyaa.

(** ** The row markers *)

Definition row_markers : list string :=
  [html "<tr class='default'>"; html "<tr class='success'>"; html "<tr class='danger'>"].
Definition has_marker (s : string) : bool := existsb (contains s) row_markers.

Lemma contains_iff s sub : contains s sub = true ↔ ∃ pre post, s = pre +:+ (sub +:+ post).
Proof.
  unfold contains. split.
  - destruct (index_of sub s) as [i|] eqn:E; [|done]. intros _. apply index_of_Some in E as (a&b&->&_). eauto.
  - intros (pre&post&->). by destruct (index_of_occurs sub pre post) as (i&->&_).
Qed.

Lemma listRowRe_matches b cs : matches listRowRe b cs → b ∈ row_markers.
Proof.
  intros (s&t&cs1&cs2&->&[-> ->]%matches_lit_iff&Hr&_)%matches_cat.
  apply matches_cat in Hr as (u&v&cs3&cs4&->&Hu&[-> ->]%matches_lit_iff&_).
  apply matches_alt in Hu as [[-> ->]%matches_lit_iff|[[-> ->]%matches_lit_iff|[-> ->]%matches_lit_iff]%matches_alt];
    vm_compute; set_solver.
Qed.
Lemma listRowRe_markers b : b ∈ row_markers → matches listRowRe b [].
Proof.
  assert (∀ w, matches (Alt (lit "default") (Alt (lit "success") (lit "danger"))) w [] →
    matches listRowRe (html "<tr class='" +:+ (w +:+ html "'>")) []) as H.
  { intros w Hw. apply (m_cat _ _ _ _ [] []); [by apply matches_lit_iff|].
    apply (m_cat _ _ _ _ [] []); [done|by apply matches_lit_iff]. }
  unfold row_markers. rewrite !elem_of_cons. intros [->|[->|[->|[]%not_elem_of_nil]]].
  - apply (H "default"). apply m_left. by apply matches_lit_iff.
  - apply (H "success"). apply m_right, m_left. by apply matches_lit_iff.
  - apply (H "danger"). apply m_right, m_right. by apply matches_lit_iff.
Qed.

Lemma has_marker_occurs s : has_marker s = true ↔ occurs listRowRe s.
Proof.
  unfold has_marker. rewrite List.existsb_exists. split.
  - intros (b&Hb%list_elem_of_In&(pre&post&->)%contains_iff). exists pre, b, post, [].
    split; [done|by apply listRowRe_markers].
  - intros (pre&b&post&cs&->&Hb%listRowRe_matches). exists b. split; [by apply list_elem_of_In|].
    apply contains_iff. eauto.
Qed.
Lemma has_marker_not s : has_marker s = false ↔ ¬ occurs listRowRe s.
Proof. rewrite <-has_marker_occurs. by destruct (has_marker s). Qed.

Lemma listRowRe_cut s :
  ∃ head, s = head +:+ String.concat "" (segments (FindAll listRowRe s)) ∧ has_marker head = false
    ∧ Forall (λ row, ∃ m tail, m ∈ row_markers ∧ row = m +:+ tail ∧ has_marker tail = false)
        (segments (FindAll listRowRe s))
    ∧ (FindAll listRowRe s = [] ↔ has_marker s = false).
Proof.
  destruct (FindAll_rows listRowRe eq_refl) with (s := s) as (head&Hs&Hh&Hrows&Hnil).
  { intros b cs Hb%listRowRe_matches ->. unfold row_markers in Hb.
    rewrite !elem_of_cons in Hb. by destruct Hb as [?|[?|[?|?%not_elem_of_nil]]]. }
  exists head. split_and!; [done|by apply has_marker_not| |by rewrite has_marker_not].
  eapply Forall_impl; [exact Hrows|]. intros row (b&cs&tail&->&Hb%listRowRe_matches&Ht).
  exists b, tail. split_and!; [done..|by apply has_marker_not].
Qed.

(** ** The view link of a row *)

Lemma matches_star_any p b cs g : matches (Star g (Class p)) b cs → cs = [].
Proof. by intros [_ ->]%matches_star_class. Qed.

Lemma viewAnchorRe_groups b caps :
  matches viewAnchorRe b caps →
  ∃ before id after text, caps = [(4%nat, text); (3%nat, after); (2%nat, id); (1%nat, before)]
    ∧ str_forall is_digit id = true ∧ id ≠ ""
    ∧ b = "<a" +:+ (before +:+ (html "href='/view/" +:+ (id +:+ (html "'" +:+ (after +:+ (">" +:+ (text +:+ "</a>"))))))).
Proof.
  intros (?&?&?&?&->&[-> ->]%matches_lit_iff&H&->)%matches_cat.
  apply matches_cat in H as (before&?&?&?&->&(?&->&->%matches_star_any)%matches_group&H&->).
  apply matches_cat in H as (?&?&?&?&->&[-> ->]%matches_lit_iff&H&->).
  apply matches_cat in H as (id&?&?&?&->&(?&->&Hid)%matches_group&H&->).
  apply matches_cat in H as (?&?&?&?&->&[-> ->]%matches_lit_iff&H&->).
  apply matches_cat in H as (after&?&?&?&->&(?&->&->%matches_star_any)%matches_group&H&->).
  apply matches_cat in H as (?&?&?&?&->&[-> ->]%matches_lit_iff&H&->).
  apply matches_cat in H as (text&?&?&?&->&(?&->&->%matches_star_any)%matches_group&[-> ->]%matches_lit_iff&->).
  apply matches_cat in Hid as (?&ds&?&?&->&(c&->&Hc&->)%matches_class&[Hds ->]%matches_star_class&->).
  exists before, (String c "" +:+ ds), after, text. rewrite !app_nil_r. split_and!; [done| |done|done].
  rewrite str_app_cons, str_app_nil_l. cbn. by rewrite Hc.
Qed.

Section page.
Context (entity : string → option Z) (entity2 : string → option (Z * Z)) (int64_overflow : spec_float → Z).
Abbreviation row_post := (row_post entity entity2 int64_overflow).

Lemma rowTitle_id row id title :
  rowTitle entity entity2 row = (id, title) → id ≠ "" →
  str_forall is_digit id = true ∧ contains row (html "href='/view/" +:+ (id +:+ html "'")) = true.
Proof.
  unfold rowTitle. destruct (Submatch viewAnchorRe row) as [m|] eqn:Em; [|by intros [= <- _]].
  apply Submatch_sound in Em as (pre&b&post&->&Hb).
  apply viewAnchorRe_groups in Hb as (before&i&after&text&->&Hd&Hne&->).
  intros [= <- _] _. split; [done|]. apply contains_iff.
  exists (pre +:+ ("<a" +:+ before)), (after +:+ (">" +:+ (text +:+ "</a>")) +:+ post).
  by rewrite !str_app_assoc.
Qed.

(** C35: a listing page becomes one post per row that shows a view link, in
    page order and each from its own row alone; rows without one are left
    out.  The page is a head without a row marker followed by rows that each
    begin with the only marker they contain.  A post's id is the number in
    its row's own view link, and its URL the page of that id.  A page
    without rows is an empty page only when it carries the listing table or
    says that nothing was found; otherwise it is an error, and only then. *)
Theorem listing_page_rows page :
  match ParseListingPage entity entity2 int64_overflow page with
  | Err e =>
      e = errNoTable ∧ has_marker page = false ∧ MatchString listTableRe page = false
      ∧ MatchString noResultsRe page = false
  | Ok posts =>
      ∃ head rows, page = head +:+ String.concat "" rows ∧ has_marker head = false
        ∧ Forall (λ row, ∃ m tail, m ∈ row_markers ∧ row = m +:+ tail ∧ has_marker tail = false) rows
        ∧ posts = omap row_post rows
        ∧ (rows = [] → MatchString listTableRe page || MatchString noResultsRe page = true)
        ∧ Forall (λ p, ∃ row, row ∈ rows ∧ row_post row = Some p
            ∧ rawpost.rp_Source p = "nyaa" ∧ rawpost.rp_URL p = "https://nyaa.si/view/" +:+ rawpost.rp_SourceID p
            ∧ rawpost.rp_SourceID p ≠ "" ∧ str_forall is_digit (rawpost.rp_SourceID p) = true
            ∧ contains row (html "href='/view/" +:+ (rawpost.rp_SourceID p +:+ html "'")) = true) posts
  end.
Proof.
  unfold ParseListingPage. destruct (listRowRe_cut page) as (head&Hpage&Hhead&Hrows&Hnil).
  assert (∀ rows, Forall (λ p, ∃ row, row ∈ rows ∧ row_post row = Some p
    ∧ rawpost.rp_Source p = "nyaa" ∧ rawpost.rp_URL p = "https://nyaa.si/view/" +:+ rawpost.rp_SourceID p
    ∧ rawpost.rp_SourceID p ≠ "" ∧ str_forall is_digit (rawpost.rp_SourceID p) = true
    ∧ contains row (html "href='/view/" +:+ (rawpost.rp_SourceID p +:+ html "'")) = true) (omap row_post rows)) as Hposts.
  { intros rows. apply Forall_forall. intros p (row&Hin&Hp)%list_elem_of_omap. exists row.
    split_and!; try done; revert Hp; unfold nyaa.row_post; destruct (rowTitle entity entity2 row) as [id title] eqn:Et;
      case_bool_decide as Hid; [done| |done| |done| |done| |done|]; intros [= <-]; cbn [rawpost.rp_SourceID]; try done.
    all: by apply (rowTitle_id _ _ _ Et) in Hid as [??]. }
  destruct (FindAll listRowRe page) as [|m ms] eqn:Ef.
  - destruct (MatchString listTableRe page) eqn:Et, (MatchString noResultsRe page) eqn:En; cbn [negb andb].
    4: by split_and!; [|apply Hnil|..].
    all: exists head, []; cbn [segments] in *; split_and!; [done..|by rewrite ?orb_true_r|constructor].
  - exists head, (segments (m :: ms)). split_and!; [done..| |apply Hposts].
    intros E%(f_equal length). rewrite segments_length in E. done.
Qed.
End page.

(** ** A row's time is not checked *)

(** A page whose only row gives the first second of the year 10000. *)
Definition far_page : string :=
  html "<table class='torrent-list'><tr class='default'><a href='/view/1'>A</a><td data-timestamp='253402300800'></td>".
Definition one_post : Request := {|
  req_Method := "POST"; req_Path := "/crawl"; req_Body := html "{'page_size':1}"; req_BodyErr := None;
|}.

Section endpoint.
Context (entity : string → option Z) (entity2 : string → option (Z * Z)) (int64_overflow : spec_float → Z).

Lemma far_page_parsed :
  ∃ title, ParseListingPage entity entity2 int64_overflow far_page = Ok [{|
    rawpost.rp_Title := title; rawpost.rp_Magnet := ""; rawpost.rp_Source := "nyaa"; rawpost.rp_SourceID := "1";
    rawpost.rp_URL := "https://nyaa.si/view/1"; rawpost.rp_PublishedAt := 253402300800 * Second;
    rawpost.rp_SizeBytes := 0 |}].
Proof. eexists. vm_compute. reflexivity. Qed.

(** Nyaa's times are taken as they come, and one row with a time after
    the year 9999 makes the crawl endpoint answer 500 with no posts at all,
    however the crawl is repeated: the walk succeeds and its response cannot
    be encoded. *)
Theorem far_date_fails_crawl ns cr dur m :
  cr_fetch cr 0%nat 1 = Ok far_page →
  ∃ resp, (∀ fuel, (1 ≤ fuel)%nat →
      crawlserver.ServeHTTP ns 0 (shared entity entity2 int64_overflow cr) one_post dur fuel m
      = Some (resp, metrics.Crawl ns "error" 1 dur m))
    ∧ status resp = 500 ∧ body resp = Plain (ErrorText "" crawlserver.ErrYear).
Proof.
  intros Hf. destruct far_page_parsed as [title Hp].
  exists (http_Error (ErrorText "" crawlserver.ErrYear) StatusInternalServerError). split.
  - intros [|fuel] Hfuel; [lia|]. unfold crawlserver.ServeHTTP, crawl.Crawl.
    assert (json.Decoder_Decode false crawlserver.crawl_fields crawlserver.no_request (req_Body one_post)
            = Ok {| crawl.cq_PageSize := 1; crawl.cq_Cursor := ""; crawl.cq_Lookback := "" |}) as ->
      by (vm_compute; reflexivity).
    change (crawl.source (shared entity entity2 int64_overflow cr)) with "nyaa".
    change (duration.ParseLookback "nyaa" "") with (Ok 0 : result Duration).
    assert (crawl.ParseCursor "nyaa" "" = Ok (0, 0)) as Hc by reflexivity.
    cbn [crawl.cq_Lookback crawl.cq_Cursor crawl.cq_PageSize]. rewrite Hc. cbn [crawl.pages_loop].
    change (if 0 =? 0 then wrap64 (0 + 1) else 0) with 1.
    change (crawl.fetch (shared entity entity2 int64_overflow cr) 0 1) with (cr_fetch cr 0%nat 1). rewrite Hf.
    cbv beta iota zeta. unfold crawl.parsePage.
    change (crawl.parse (shared entity entity2 int64_overflow cr) far_page)
      with (ParseListingPage entity entity2 int64_overflow far_page).
    rewrite Hp. vm_compute. reflexivity.
  - done.
Qed.
End endpoint.


(** ** A title is unescaped twice *)

(** [attrValue] unescapes the attribute and [rowTitle] what it returns: a
    title the site shows as [R&amp;D] is taken for [R&D]. *)
Definition escaped_row : string := html "<a href='/view/5' title='R&amp;amp;D'>x</a>".
Lemma title_unescaped_twice :
  let unescape := htmlpkg.UnescapeString htmlpkg.basic_entities (λ _, None) in
  unescape "R&amp;amp;D" = "R&amp;D"
  ∧ rowTitle htmlpkg.basic_entities (λ _, None) escaped_row = ("5", "R&D").
Proof. split; vm_compute; reflexivity. Qed.

(** ** The engine *)

(** The engine always returns: with enough fetches for the walk, the walk's
    error or its response field by field; and where it says to go on from can
    be read back. *)
Lemma nyaa_engine_returns (entity : string → option Z) (entity2 : string → option (Z * Z)) (int64_overflow : spec_float → Z) c req lookback :
  ∃ r, (∀ fuel, (crawl.enough (shared entity entity2 int64_overflow c) ≤ fuel)%nat →
          nyaa_Crawl entity entity2 int64_overflow c req lookback fuel = Some r)
    ∧ match r with
      | Err err => crawl.Crawl (shared entity entity2 int64_overflow c) req lookback (crawl.enough (shared entity entity2 int64_overflow c)) = Some (Err err)
      | Ok resp => ∃ walked,
          crawl.Crawl (shared entity entity2 int64_overflow c) req lookback (crawl.enough (shared entity entity2 int64_overflow c)) = Some (Ok walked)
          ∧ resp = crawlResponse walked
      end.
Proof.
  destruct (Crawl_total (shared entity entity2 int64_overflow c) req lookback) as [[err|walked] Hw].
  - exists (Err err). split; [|by apply Hw]. intros fuel Hf. unfold nyaa_Crawl. by rewrite (Hw fuel Hf).
  - exists (Ok (crawlResponse walked)). split; [intros fuel Hf; unfold nyaa_Crawl; by rewrite (Hw fuel Hf)|].
    exists walked. split; [by apply Hw|done].
Qed.
Lemma nyaa_cursor_reads_back page offset :
  0 ≤ page ≤ int64_max → 0 ≤ offset ≤ int64_max → parseCursor (formatCursor page offset) = Ok (page, offset).
Proof. apply ParseCursor_FormatCursor. Qed.
