(* ===== verification/NyaaUrl.v ===== *)
(** * The page addresses of the Nyaa crawler

    [listingPageURL] (src/sources/nyaa/server.go).  [url.Parse] and
    [URL.String] are operations of the model: what the code reads and writes of
    a parsed address is its path and its query, and the remaining fields of
    [url.URL] (scheme, user, host, fragment) go through it untouched. *)

From S2P Require Import Prelude GoStrings GoUrl GoJson.
From Stdlib Require Import Ascii.
Import url.

Module nyaaurl.

(** [url.URL], as far as the code looks into it. *)
Record URL {O : Type} := { Path : string; RawQuery : string; others : O }.
#[global] Arguments URL : clear implicits.

(** What the code uses of package [net/url] besides the query's encoding. *)
Class net_url (O : Type) := { Parse : string → result (URL O); URL_String : URL O → string }.

Definition Query {O} (u : URL O) : Values := ParseQuery (RawQuery u).
Definition set_if (key value : string) (q : Values) : Values :=
  if bool_decide (value = "") then q else Set_ q key value.

Section page.
Context {O : Type} {lib : net_url O}.

Definition listingPageURL (base search category filter : string) (page : Z) : result string :=
  if has_prefix "file://" base then
    Ok (TrimRight base "/" +:+ "/page-" +:+ Itoa page +:+ ".html")
  else
    match Parse (TrimRight base "/") with
    | Err err => Err (Errorf "nyaa: parse base url %q: %w" [base] [err])
    | Ok u =>
        let u := {| Path := if bool_decide (Path u = "") then "/" else Path u;
                    RawQuery := RawQuery u; others := others u |} in
        let q := Set_ (Query u) "p" (Itoa page) in
        let q := set_if "q" search q in
        let q := set_if "c" category q in
        let q := set_if "f" filter q in
        Ok (URL_String {| Path := Path u; RawQuery := Values_Encode q; others := others u |})
    end.

(** ** The query of a page *)

(** The parameters the crawler sets, the later of a name winning. *)
Definition page_params (search category filter : string) (page : Z) : Values :=
  set_if "f" filter (set_if "c" category (set_if "q" search {["p" := [Itoa page]]})).

Lemma parse_param_full v p : map_Forall (λ _ vs, vs ≠ []) v → map_Forall (λ _ vs, vs ≠ []) (parse_param v p).
Proof.
  intros Hv. unfold parse_param. destruct (contains p ";"); [done|]. case_bool_decide; [done|].
  destruct (default _ _) as [k w]. destruct (QueryUnescape k) as [k'|], (QueryUnescape w) as [w'|]; try done.
  apply map_Forall_insert_2; [|done]. by destruct (default _ _).
Qed.
Lemma ParseQuery_full s : map_Forall (λ _ vs, vs ≠ []) (ParseQuery s).
Proof.
  unfold ParseQuery. assert (map_Forall (λ _ vs, vs ≠ []) (∅ : Values)) as H0 by apply map_Forall_empty.
  case_bool_decide as Hn; [clear Hn|done].
  revert H0. generalize (∅ : Values). induction (Split "&" s) as [|p l IH]; intros v Hv; [done|].
  by apply IH, parse_param_full.
Qed.
Lemma set_if_full k w v : map_Forall (λ _ vs, vs ≠ []) v → map_Forall (λ _ vs, vs ≠ []) (set_if k w v).
Proof. intros Hv. unfold set_if. case_bool_decide; [done|]. by apply map_Forall_insert_2. Qed.
Lemma set_if_union k w v m : set_if k w (v ∪ m) = set_if k w v ∪ m.
Proof. unfold set_if, Set_. case_bool_decide; [done|]. apply insert_union_l. Qed.

Lemma page_values v search category filter page :
  set_if "f" filter (set_if "c" category (set_if "q" search (Set_ v "p" (Itoa page))))
  = page_params search category filter page ∪ v.
Proof. unfold page_params. by rewrite <-!set_if_union, <-insert_union_singleton_l. Qed.

(** C36: the address of a page differs from the configured one in its query
    and nothing else (an empty path becomes the root), and whatever characters
    the search, the category and the filter hold, the server that parses that
    query finds exactly the page number and the non-empty ones of the three, as
    they were configured, over the parameters the configured address already
    had (at most ten thousand in all): none is lost, merged with another or
    read as a separator. *)
Theorem listing_query_reads_back base search category filter page u :
  has_prefix "file://" base = false → Parse (TrimRight base "/") = Ok u →
  (num_params (page_params search category filter page ∪ Query u) ≤ maxParams)%nat →
  ∃ u', listingPageURL base search category filter page = Ok (URL_String u')
    ∧ others u' = others u ∧ Path u' = (if bool_decide (Path u = "") then "/" else Path u)
    ∧ Query u' = page_params search category filter page ∪ Query u.
Proof.
  intros Hf Hp Hn. unfold listingPageURL. rewrite Hf, Hp. eexists. split; [reflexivity|]. split; [done|]. split; [done|].
  unfold Query at 1. cbn [RawQuery]. rewrite page_values. apply ParseQuery_Encode; [|done].
  rewrite <-page_values. do 3 apply set_if_full. apply map_Forall_insert_2; [done|]. apply ParseQuery_full.
Qed.
End page.

End nyaaurl.

(** A library that knows the addresses [<root>/?<query>] and [<root>]. *)
Definition demo_net_url : nyaaurl.net_url string := {|
  nyaaurl.Parse s :=
    let '(rest, query) := default (s, "") (cut s "?") in
    Ok {| nyaaurl.Path := ""; nyaaurl.RawQuery := query; nyaaurl.others := rest |};
  nyaaurl.URL_String u :=
    nyaaurl.others u +:+ nyaaurl.Path u +:+ "?" +:+ nyaaurl.RawQuery u;
|}.
Definition demo_base : string := "https://nyaa.si?s=id&p=9&".
Definition demo_search : string := "a&b=c d+100%;#".
Lemma listing_query_reads_back_witness :
  ∃ u', nyaaurl.listingPageURL (lib := demo_net_url) demo_base demo_search "1_2" "" 3
          = Ok (nyaaurl.URL_String (net_url := demo_net_url) u')
    ∧ nyaaurl.URL_String (net_url := demo_net_url) u'
        = "https://nyaa.si/?c=1_2&p=3&q=a%26b%3Dc+d%2B100%25%3B%23&s=id"
    ∧ nyaaurl.Query u' !! "q" = Some [demo_search].
Proof.
  destruct (nyaaurl.listing_query_reads_back (lib := demo_net_url) demo_base demo_search "1_2" "" 3
    {| nyaaurl.Path := ""; nyaaurl.RawQuery := "s=id&p=9&"; nyaaurl.others := "https://nyaa.si" |}
    eq_refl eq_refl ltac:(apply (bool_decide_unpack _); vm_compute; exact I)) as (u'&Hu&_&_&Hq).
  exists u'. split; [exact Hu|]. rewrite Hq. split; [|reflexivity].
  assert (Ok (nyaaurl.URL_String (net_url := demo_net_url) u')
    = Ok "https://nyaa.si/?c=1_2&p=3&q=a%26b%3Dc+d%2B100%25%3B%23&s=id") as E
    by (rewrite <-Hu; vm_compute; reflexivity).
  by injection E.
Defined.
