(* ===== verification/Interleave.v ===== *)
(** * Requests that overlap

    While a request is between two calls of the store, other requests and
    other processes make theirs.  The interface a handler works against is a
    store whose every call may find the database moved on; [MovingStore] says
    by what: [steps] for the calls that write, [same] for those that read. *)

From S2P Require Import Prelude GoTime Store Cursor Db Postgres StoreSpec StoreInv Queue Listing DetailThms.
Import store.

(** ** The calls of others *)

Inductive call_params :=
  | ByIngest (p : IngestParams)
  | ByClaim (p : ClaimParams)
  | BySubmit (p : SubmitParams).
(** A call, with the driver and the clock it meets. *)
Record call := { call_by : call_params; call_env : env; call_tick : nat }.
Definition call_op (cfg : postgres.StoreConfig) (c : call) : op :=
  match call_by c with
  | ByIngest p => OpIngest p
  | ByClaim p => OpClaim cfg p
  | BySubmit p => OpSubmit cfg p
  end.
Definition run_call (cfg : postgres.StoreConfig) (d : db) (c : call) : db :=
  sdb (run_op (call_op cfg c) (call_env c) (State (call_tick c) d)).2.
(** What the others call before this request's call at a tick. *)
Definition others : Type := nat → list call.
Definition nobody : others := λ _, [].
Definition meanwhile (cfg : postgres.StoreConfig) (o : others) (s : state) : state :=
  State (tick s) (foldl (run_call cfg) (sdb s) (o (tick s))).

(** The store of a request that is not alone. *)
Definition interleaved (cfg : postgres.StoreConfig) (o : others) (st : Store state) : Store state := {|
  Ping s := Ping st (meanwhile cfg o s);
  IngestN p s := IngestN st p (meanwhile cfg o s);
  Claim p s := Claim st p (meanwhile cfg o s);
  Submit p s := Submit st p (meanwhile cfg o s);
  store_QueueStats s := store_QueueStats st (meanwhile cfg o s);
  store_CatalogStats s := store_CatalogStats st (meanwhile cfg o s);
  ListReleases q s := ListReleases st q (meanwhile cfg o s);
  GetRelease ih s := GetRelease st ih (meanwhile cfg o s);
  ResolveMagnets ihs s := ResolveMagnets st ihs (meanwhile cfg o s);
|}.

Lemma meanwhile_nobody cfg s : meanwhile cfg nobody s = s.
Proof. by destruct s. Qed.

(** ** What moves the database *)

(** One operation of the service's configuration, at times in [P]. *)
Definition step_during (cfg : postgres.StoreConfig) (P : Time → Prop) (d d' : db) : Prop :=
  ∃ o E n, op_uses cfg o ∧ (∀ k, P (clock E k)) ∧ sdb (run_op o E (State n d)).2 = d'.
Definition others_during (P : Time → Prop) (o : others) : Prop :=
  ∀ n c k, c ∈ o n → P (clock (call_env c) k).

Lemma nobody_during P : others_during P nobody.
Proof. intros n c k Hc. by apply not_elem_of_nil in Hc. Qed.
Lemma during_cfg cfg P d d' : rtc (step_during cfg P) d d' → rtc (step_cfg cfg) d d'.
Proof. apply rtc_subrel. intros x y (o&E&n&?&_&?). by exists o, E, n. Qed.
Lemma during_in cfg P d d' : rtc (step_during cfg P) d d' → rtc (step_in P) d d'.
Proof. apply rtc_subrel. intros x y (o&E&n&_&?&?). by exists o, E, n. Qed.
Lemma cfg_steps cfg d d' : rtc (step_cfg cfg) d d' → rtc step d d'.
Proof. apply rtc_subrel. intros x y (o&E&n&_&?). exists o, E, n. by split. Qed.

(** The calls of others, and nothing else. *)
Definition called_by (cfg : postgres.StoreConfig) (o : others) (d d' : db) : Prop :=
  ∃ n c, c ∈ o n ∧ d' = run_call cfg d c.
Lemma meanwhile_called cfg o s : rtc (called_by cfg o) (sdb s) (sdb (meanwhile cfg o s)).
Proof.
  unfold meanwhile. cbn [sdb]. assert (∀ c, c ∈ o (tick s) → c ∈ o (tick s)) as Hin by done. revert Hin.
  generalize (o (tick s)) at 1 3. intros cs. generalize (sdb s). induction cs as [|c cs IH]; intros d Hin; [done|].
  cbn [foldl]. eapply rtc_l; [|apply IH; intros c' Hc; apply Hin; by right]. exists (tick s), c. split; [|done].
  apply Hin. by left.
Qed.
Lemma called_by_nobody cfg d d' : rtc (called_by cfg nobody) d d' → d = d'.
Proof. induction 1 as [|d d1 d' (n&c&Hc&_) _ _]; [done|]. by apply not_elem_of_nil in Hc. Qed.
Lemma called_during cfg P o d d' :
  others_during P o → rtc (called_by cfg o) d d' → rtc (step_during cfg P) d d'.
Proof.
  intros HP. apply rtc_subrel. intros x y (n&c&Hc&->). exists (call_op cfg c), (call_env c), (call_tick c).
  split_and!; [by destruct c as [[] ? ?]| |done]. intros k. by eapply HP.
Qed.
Lemma meanwhile_during cfg P o s :
  others_during P o → rtc (step_during cfg P) (sdb s) (sdb (meanwhile cfg o s)).
Proof. intros HP. by eapply called_during, meanwhile_called. Qed.

(** ** The interface *)

(** How the calls of a store move the database: those with the parameters
    a client of this kind passes. *)
Class MovingStore (ingests : IngestParams → Prop) (submits : SubmitParams → Prop) (steps same : relation db)
    (st : Store state) : Prop := {
  mv_same d d' : same d d' → steps d d';
  mv_IngestN p s : ingests p → steps (sdb s) (sdb (IngestN st p s).2);
  mv_Claim p s : steps (sdb s) (sdb (Claim st p s).2);
  mv_Submit p s : submits p → steps (sdb s) (sdb (Submit st p s).2);
  mv_Ping s : same (sdb s) (sdb (Ping st s).2);
  mv_QueueStats s : same (sdb s) (sdb (store_QueueStats st s).2);
  mv_CatalogStats s : same (sdb s) (sdb (store_CatalogStats st s).2);
  mv_ListReleases q s : same (sdb s) (sdb (ListReleases st q s).2);
  mv_GetRelease ih s : same (sdb s) (sdb (GetRelease st ih s).2);
  mv_ResolveMagnets ihs s : same (sdb s) (sdb (ResolveMagnets st ihs s).2);
}.

Section alone.
Context `{cursor.CursorCodec} (cfg : postgres.StoreConfig) (E : env) (P : Time → Prop).
Hypothesis HP : ∀ k, P (clock E k).

Lemma run_moves o s : op_uses cfg o → rtc (step_during cfg P) (sdb s) (sdb (run_op o E s).2).
Proof. intros Ho. destruct s as [n d]. apply rtc_once. by exists o, E, n. Qed.
Lemma reads_same {A} (m : M A) s : reads m → sdb s = sdb (m E s).2.
Proof. intros Hm. symmetry. apply Hm. Qed.
Definition anything {A} : A → Prop := λ _, True.
(** A request that is alone reads without moving anything. *)
Lemma pg_moving : MovingStore anything anything (rtc (step_during cfg P)) eq (listing.pg_store cfg E).
Proof.
  split.
  - by intros d d' <-.
  - intros p s _. pose proof (run_moves (OpIngest p) s I) as Hm. cbn [run_op] in Hm. unfold mbind, M_bind in Hm.
    cbn. by destruct (postgres.IngestN p E s) as [[]].
  - intros p s. pose proof (run_moves (OpClaim cfg p) s eq_refl) as Hm. cbn [run_op] in Hm. unfold mbind, M_bind in Hm.
    cbn. by destruct (postgres.Claim cfg p E s) as [[]].
  - intros p s _. apply (run_moves (OpSubmit cfg p) s eq_refl).
  - intros s. apply (reads_same (listing.Ping false)), reads_query.
  - intros s. apply (reads_same (postgres.QueueStats cfg)). intros F t.
    unfold postgres.QueueStats, mbind, M_bind. cbn. by rewrite reads_query.
  - intros s. apply (reads_same postgres.CatalogStats), reads_query.
  - intros q s. apply (reads_same (listing.ListReleases _)), ListReleases_reads.
  - intros ih s. apply (reads_same (listing.GetRelease _)), GetRelease_reads.
  - intros ihs s. apply (reads_same (listing.ResolveMagnets _)), ResolveMagnets_reads.
Qed.

(** With others around, every call moves on by theirs, and a read by theirs
    alone. *)
Lemma interleaved_moving o :
  others_during P o →
  MovingStore anything anything (rtc (step_during cfg P)) (rtc (called_by cfg o)) (interleaved cfg o (listing.pg_store cfg E)).
Proof.
  intros Ho. pose proof pg_moving as [_ Hi Hc Hs H1 H2 H3 H4 H5 H6].
  assert (∀ s d, rtc (step_during cfg P) (sdb (meanwhile cfg o s)) d → rtc (step_during cfg P) (sdb s) d) as Hw
    by (intros s d Hd; etransitivity; [by apply meanwhile_during|done]).
  assert (∀ s d, sdb (meanwhile cfg o s) = d → rtc (called_by cfg o) (sdb s) d) as Hr
    by (intros s d <-; apply meanwhile_called).
  split; [intros d d'; by apply called_during|..]; intros.
  - by apply Hw, Hi.
  - apply Hw, Hc.
  - by apply Hw, Hs.
  - apply Hr, H1.
  - apply Hr, H2.
  - apply Hr, H3.
  - apply Hr, H4.
  - apply Hr, H5.
  - apply Hr, H6.
Qed.
End alone.

(** What a call of others does to the raw items. *)
Lemma run_call_items cfg d c :
  raw_items (run_call cfg d c) = raw_items d
  ∨ ∃ q now id, call_by c = ByIngest q ∧ raw_items (run_call cfg d c) = raw_items d ++ [new_raw_item q now id].
Proof.
  unfold run_call. pose proof (run_op_refines (call_op cfg c) (call_env c) (State (call_tick c) d)) as Hop. cbn zeta in Hop.
  destruct (run_op _ _ _) as [[e|u] s']; cbn [sdb snd] in *.
  { left. by destruct Hop as [[(_&H1&_) _] _]. }
  unfold call_op in Hop. destruct (call_by c) as [p|p|p]; cbn [op_spec] in Hop.
  - unfold ingest_spec in Hop. destruct (negb _); [injection Hop as _ <-; by left|].
    destruct (releases d !! ip_Infohash p), (existsb (postgres.same_source p) (raw_items d)); injection Hop as _ <-;
      first [by left|right; by eexists p, _, _].
  - unfold claim_spec, postgres.claim_stmt in Hop. cbn in Hop. injection Hop as _ <-. by left.
  - unfold submit_spec in Hop. repeat split_match_in Hop; try done. injection Hop as _ <-. by left.
Qed.
