(* ===== verification/StoreText.v ===== *)
(** * The tables hold UTF-8 text

    Whatever bytes the clients send, the texts in the tables are valid UTF-8
    and the confidences finite, because the parameters of the store's writes
    are decoded from JSON; so is everything the reads return. *)

From S2P Require Import Prelude GoStrings GoTime GoTimeFmt Encoding GoJson GoJsonText GoFloatText Store Cursor Db Postgres.
From S2P Require Import StoreSpec StoreInv Queue QueueThms Listing ListingThms DetailThms Interleave.
Import store postgres floattext.

(** ** Parameters and rows *)

Definition text_or_none (o : option string) : Prop := from_option utf8_text True o.
Definition finite_or_none (o : option float64) : Prop := from_option (λ x, finite x = true) True o.

Record ingest_text (p : IngestParams) : Prop := {
  it_infohash : utf8_text (ip_Infohash p);
  it_source : utf8_text (ip_Source p);
  it_source_id : utf8_text (ip_SourceID p);
  it_title : utf8_text (ip_Title p);
  it_url : utf8_text (ip_URL p);
  it_magnet : utf8_text (ip_Magnet p);
}.
Record submit_text (p : SubmitParams) : Prop := {
  st_infohash : utf8_text (sp_Infohash p);
  st_ref : utf8_text (sp_Ref p);
  st_reason : utf8_text (sp_Reason p);
  st_confidence : finite_or_none (sp_Confidence p);
}.

Record row_text (r : release_row) : Prop := {
  rt_infohash : utf8_text (r_infohash r);
  rt_title : utf8_text (r_title r);
  rt_magnet : text_or_none (r_magnet r);
  rt_sources : Forall utf8_text (r_sources r);
  rt_ref : text_or_none (r_ref r);
  rt_confidence : finite_or_none (r_confidence r);
}.
Record raw_text (ri : raw_item_row) : Prop := {
  wt_source : utf8_text (raw_source ri);
  wt_source_id : utf8_text (raw_source_id ri);
  wt_title : utf8_text (raw_title ri);
  wt_url : utf8_text (raw_url ri);
}.
Record event_text (e : match_event_row) : Prop := {
  et_ref : text_or_none (ev_ref e);
  et_confidence : finite_or_none (ev_confidence e);
  et_reason : utf8_text (ev_reason e);
}.
Record db_text (d : db) : Prop := {
  dt_releases : map_Forall (λ _, row_text) (releases d);
  dt_raw_items : Forall raw_text (raw_items d);
  dt_events : Forall event_text (match_events d);
}.
Lemma empty_db_text : db_text empty_db.
Proof. split; [apply map_Forall_empty|constructor..]. Qed.
Lemma same_tables_text d d' : same_tables d d' → db_text d → db_text d'.
Proof. intros (E1&E2&E3) []. by split; rewrite <-?E1, <-?E2, <-?E3. Qed.

(** ** The writes *)

Lemma raw_items_of_text ih d : db_text d → Forall raw_text (raw_items_of ih d).
Proof.
  intros [_ H _]. apply Forall_forall. intros x Hx. rewrite Forall_forall in H. apply H.
  unfold raw_items_of in Hx. apply list_elem_of_In, filter_In in Hx as [? _]. by apply list_elem_of_In.
Qed.
Lemma newest_title_text l : Forall raw_text l → utf8_text (default "" (newest_title l)).
Proof.
  intros H. unfold newest_title. pose proof (merge_sort_Permutation newest_first l) as Hp.
  destruct (merge_sort newest_first l) as [|ri k]; [done|]. rewrite <-Hp in H. by apply Forall_cons in H as [[] _].
Qed.
Lemma distinct_sources_text l : Forall raw_text l → Forall utf8_text (distinct_sources l).
Proof.
  intros H. unfold distinct_sources. rewrite merge_sort_Permutation. apply Forall_forall.
  intros s (ri&->&Hri)%elem_of_remove_dups%list_elem_of_fmap. rewrite Forall_forall in H. by apply H.
Qed.
Lemma coalesce_text a b : text_or_none a → text_or_none b → text_or_none (coalesce a b).
Proof. by destruct a. Qed.
Lemma seeds_text p : ingest_text p → text_or_none (ingestSeeds p).1.
Proof. intros []. unfold ingestSeeds. cbn. by case_bool_decide. Qed.

Lemma set_row_text d ih r : db_text d → row_text r → db_text (set_releases <[ih := r]> d).
Proof. intros [] Hr. split; cbn; [by apply map_Forall_insert_2|done..]. Qed.
Lemma set_rows_text d f :
  db_text d → (∀ r, row_text r → row_text (f r)) → db_text (set_releases (fmap f) d).
Proof.
  intros [] Hf. split; cbn; [|done..]. intros ih r Hr. rewrite lookup_fmap in Hr.
  apply fmap_Some in Hr as (r0&Hr0&->). eauto.
Qed.
Lemma add_raw_text p now d : ingest_text p → db_text d → db_text (add_raw p now d).
Proof. intros [] []. split; cbn; [done| |done]. apply Forall_app. by split; [|repeat constructor]. Qed.
Lemma represent_text l mg sz now r :
  Forall raw_text l → text_or_none mg → row_text r → row_text (represent l mg sz now r).
Proof.
  intros Hl Hm []. split; cbn; [done| | | |done..].
  - by apply newest_title_text.
  - by apply coalesce_text.
  - by apply distinct_sources_text.
Qed.

Lemma ingest_spec_text now p d out d' :
  ingest_text p → db_text d → ingest_spec now p d = Ok (out, d') → db_text d'.
Proof.
  intros Hp Hd. unfold ingest_spec. destruct (negb _); [by intros [= _ <-]|].
  destruct (releases d !! ip_Infohash p) as [r|] eqn:Hr, (existsb _ _); intros [= _ <-].
  - by destruct Hd.
  - apply set_row_text; [by apply add_raw_text|]. apply represent_text; [|by apply seeds_text|by eapply dt_releases].
    by apply raw_items_of_text, add_raw_text.
  - by destruct Hd.
  - apply set_row_text; [by apply add_raw_text|]. pose proof (seeds_text p Hp). destruct Hp. by split; try done; repeat constructor.
Qed.

Lemma exhaust_text now max d : db_text d → db_text (exhaust_stmt now max d).
Proof. intros Hd. apply set_rows_text; [done|]. intros r Hr. destruct (exhaustible _ _ _); [|done]. by destruct Hr. Qed.
Lemma claim_stmt_text now max limit until lock d :
  db_text d → db_text (claim_stmt now max limit until lock d).2
  ∧ Forall row_text (claim_stmt now max limit until lock d).1.
Proof.
  intros Hd. unfold claim_stmt. cbn [fst snd]. match goal with |- db_text ?d' ∧ _ => assert (db_text d') as Hd' end.
  { apply set_rows_text; [done|]. intros r Hr. case_bool_decide; [|done]. by destruct Hr. }
  split; [done|]. apply Forall_forall. intros r Hr. rewrite merge_sort_Permutation in Hr.
  apply list_elem_of_In, filter_In in Hr as [Hr _]. apply list_elem_of_In, elem_of_rows in Hr as [ih Hr].
  by eapply dt_releases.
Qed.
Lemma claim_spec_text cfg now lock p d res d' :
  db_text d → claim_spec cfg now lock p d = Ok (res, d') →
  db_text d' ∧ ∃ rs, Forall row_text rs ∧ clr_Items res = claimed_of d' <$> rs.
Proof.
  intros Hd. unfold claim_spec.
  pose proof (claim_stmt_text now (QueueMaxAttempts cfg) (claim_limit (cp_Limit p)) (lease_until now p) lock _
    (exhaust_text now (QueueMaxAttempts cfg) d Hd)) as [H1 H2].
  destruct (claim_stmt _ _ _ _ _ _) as [rs d1]. intros [= <- <-]. split; [done|]. by exists rs.
Qed.

Lemma settle_text cfg p v now r : submit_text p → row_text r → row_text (settle cfg p v now r).1.
Proof.
  intros [] []. unfold settle. destruct v; [by split| |]; cbn [fst]; [by split|].
  destruct (_ <=? _); by split.
Qed.
Lemma submit_spec_text cfg now p d u d' :
  submit_text p → db_text d → submit_spec cfg now p d = Ok (u, d') → db_text d'.
Proof.
  intros Hp Hd. unfold submit_spec. destruct (parse_verdict p) as [|v]; [done|].
  destruct (releases d !! sp_Infohash p) as [r|] eqn:Hr; [|done]. destruct (live _ _ _); [|done].
  destruct (decide _); [|done]. pose proof (settle_text cfg p v now r Hp (dt_releases _ Hd _ _ Hr)) as Hs.
  destruct (settle cfg p v now r) as [r' label]. intros [= _ <-].
  destruct (set_row_text d (sp_Infohash p) r' Hd Hs), Hp. split; [done..|]. cbn [append_event match_events].
  apply Forall_app. split; [done|]. repeat constructor; cbn; destruct v; done.
Qed.

(** ** Any call *)

(** A call with parameters of text. *)
Definition call_text (c : call_params) : Prop :=
  match c with ByIngest p => ingest_text p | BySubmit p => submit_text p | ByClaim _ => True end.
Definition others_text (o : others) : Prop := ∀ n c, c ∈ o n → call_text (call_by c).
Lemma op_text cfg c E s : call_text c → db_text (sdb s) →
  db_text (sdb (run_op (match c with ByIngest p => OpIngest p | ByClaim p => OpClaim cfg p | BySubmit p => OpSubmit cfg p end) E s).2).
Proof.
  intros Hc Hd. set (o := match c with ByIngest _ => _ | _ => _ end).
  pose proof (run_op_refines o E s) as H. cbn zeta in H. destruct (run_op o E s) as [[e|u] s']; cbn [snd].
  { destruct H as [[H _] _]. by eapply same_tables_text. }
  destruct c as [p|p|p]; cbn [call_text op_spec o] in *; subst o.
  - destruct (ingest_spec _ p (sdb s)) as [|[out d']] eqn:E1; [done|]. injection H as _ <-. by eapply ingest_spec_text.
  - destruct (claim_spec _ _ _ p (sdb s)) as [|[out d']] eqn:E1; [done|]. injection H as _ <-.
    by apply claim_spec_text in E1 as [? _].
  - by eapply submit_spec_text.
Qed.

(** A relation of databases that keeps them text. *)
Definition keeps_text (d d' : db) : Prop := db_text d → db_text d'.
#[global] Instance keeps_text_preorder : PreOrder keeps_text.
Proof. split; unfold keeps_text; [by intros d|by intros d1 d2 d3; auto]. Qed.
Lemma meanwhile_text cfg o s : others_text o → keeps_text (sdb s) (sdb (meanwhile cfg o s)).
Proof.
  intros Ho Hd. pose proof (meanwhile_called cfg o s) as Hs. revert Hd. induction Hs as [|d1 d2 d3 (n&c&Hc&->) _ IH]; [done|].
  intros Hd. apply IH. unfold run_call. apply (op_text cfg (call_by c) (call_env c) (State (call_tick c) d1)); [by eapply Ho|done].
Qed.

Section moving.
Context `{cursor.CursorCodec} (cfg : postgres.StoreConfig) (E : env) (o : others) (Ho : others_text o).
Lemma text_moving : MovingStore ingest_text submit_text keeps_text keeps_text (interleaved cfg o (listing.pg_store cfg E)).
Proof.
  pose proof (λ s, meanwhile_text cfg o s Ho) as Hm. unfold keeps_text in *.
  assert (∀ {A} (m : M A) s, reads m → db_text (sdb s) → db_text (sdb (m E (meanwhile cfg o s)).2)) as Hr.
  { intros A m s Hr Hd. rewrite Hr. auto. }
  split; [done|..]; unfold interleaved, listing.pg_store; cbn [store.IngestN store.Claim store.Submit
    store.Ping store_QueueStats store_CatalogStats store.ListReleases store.GetRelease store.ResolveMagnets].
  - intros p s Hp Hd. pose proof (op_text cfg (ByIngest p) E _ Hp (Hm s Hd)) as Hop. cbn [run_op] in Hop.
    unfold mbind, M_bind in Hop. by destruct (postgres.IngestN p E _) as [[]].
  - intros p s Hd. pose proof (op_text cfg (ByClaim p) E _ I (Hm s Hd)) as Hop. cbn [run_op] in Hop.
    unfold mbind, M_bind in Hop. by destruct (postgres.Claim cfg p E _) as [[]].
  - intros p s Hp Hd. apply (op_text cfg (BySubmit p) E _ Hp (Hm s Hd)).
  - intros s. apply Hr, reads_query.
  - intros s. apply (Hr _ (postgres.QueueStats cfg)). intros F t. unfold postgres.QueueStats, mbind, M_bind. cbn.
    by rewrite reads_query.
  - intros s. apply Hr, reads_query.
  - intros q s. apply Hr, ListReleases_reads.
  - intros ih s. apply Hr, GetRelease_reads.
  - intros ihs s. apply Hr, ResolveMagnets_reads.
Qed.
End moving.

(** ** What the calls return *)

Definition item_text (ri : RawItemDetail) : Prop :=
  utf8_text (rid_Source ri) ∧ utf8_text (rid_SourceID ri) ∧ utf8_text (rid_Title ri) ∧ text_or_none (rid_URL ri).
Definition claimed_text (c : ClaimedRelease) : Prop := utf8_text (cr_Infohash c) ∧ Forall item_text (cr_RawItems c).
Lemma nullif_text s : utf8_text s → text_or_none (nullif_empty s).
Proof. intros H. unfold nullif_empty. by case_bool_decide. Qed.
Lemma items_text ih d : db_text d → Forall item_text (rawItemsByInfohash ih d).
Proof.
  intros Hd%(raw_items_of_text ih). unfold rawItemsByInfohash. rewrite merge_sort_Permutation. apply Forall_fmap.
  eapply Forall_impl; [exact Hd|]. intros ri []. split_and!; [done..|]. by apply nullif_text.
Qed.
Lemma Claim_text cfg p E s res s' :
  db_text (sdb s) → postgres.Claim cfg p E s = (Ok res, s') → Forall claimed_text (clr_Items res).
Proof.
  intros Hd Hrun. pose proof (Claim_refines cfg p E s) as H. cbn zeta in H. rewrite Hrun in H.
  apply claim_spec_text in H as [Hd' (rs&Hrs&->)]; [|done]. apply Forall_fmap. eapply Forall_impl; [exact Hrs|].
  intros r []. split; [done|]. by apply items_text.
Qed.

Lemma GetRelease_found ih E s det s' :
  listing.GetRelease ih E s = (Ok det, s') → ∃ r, releases (sdb s) !! ih = Some r ∧ det = detail_of ih r (sdb s).
Proof.
  unfold listing.GetRelease, in_tx, mbind, M_bind. destruct (fault E (tick s)); [done|].
  unfold query at 1, statement. cbn [sdb tick]. destruct (fault E (S (tick s))); [done|].
  destruct (releases (sdb s) !! ih) as [r|]; [|done]. intros Hrun. exists r. split; [done|].
  unfold rawItemsFor, listing.releaseMatchEvents, collect, query, statement, mbind, M_bind, mret, M_ret in Hrun.
  repeat (cbn [sdb tick] in Hrun; match type of Hrun with context [fault E ?k] => destruct (fault E k); [done|] end).
  cbn [sdb tick] in Hrun. by injection Hrun as <- _.
Qed.
Definition event_detail_text (e : MatchEventDetail) : Prop :=
  utf8_text (med_Status e) ∧ text_or_none (med_Ref e) ∧ finite_or_none (med_Confidence e) ∧ text_or_none (med_Reason e).
Lemma events_text ih d : db_text d → Forall event_detail_text (listing.match_events_sql ih d).
Proof.
  intros [_ _ He]. unfold listing.match_events_sql. rewrite merge_sort_Permutation. apply Forall_fmap, Forall_forall.
  intros e Hin. apply list_elem_of_In, filter_In in Hin as [Hin _]. apply list_elem_of_In in Hin.
  rewrite Forall_forall in He. destruct (He _ Hin). split_and!; [cbn; by destruct (ev_status e)|done..|]. by apply nullif_text.
Qed.

Lemma magnets_found (l : list (string * string)) (m : gmap string string) k v :
  foldl (λ out '(ih, magnet), <[ih := magnet]> out) m l !! k = Some v → (k, v) ∈ l ∨ m !! k = Some v.
Proof.
  revert m. induction l as [|[k' v'] l IH]; intros m; cbn; [by right|]. intros [H|H]%IH; [by left; right|].
  destruct (decide (k' = k)) as [->|Hne]; [rewrite lookup_insert_eq in H; injection H as ->; left; left|].
  rewrite lookup_insert_ne in H by done. by right.
Qed.
Lemma ResolveMagnets_text ihs E s found s' :
  db_text (sdb s) → listing.ResolveMagnets ihs E s = (Ok found, s') → map_Forall (λ k m, utf8_text k ∧ utf8_text m) found.
Proof.
  intros Hd. unfold listing.ResolveMagnets. destruct (_ <? _); [done|]. destruct (_ =? 0).
  { intros [= <- _]. apply map_Forall_empty. }
  unfold collect, query, statement, mbind, M_bind, mret, M_ret. intros Hrun.
  repeat (cbn [sdb tick] in Hrun; match type of Hrun with context [fault E ?k] => destruct (fault E k); [done|] end).
  cbn [sdb tick] in Hrun. injection Hrun as <- _. intros k v [Hin|Hin]%magnets_found; [|done].
  unfold listing.magnets_sql in Hin. apply list_elem_of_omap in Hin as (r&[ih Hr]%elem_of_rows&Hr').
  case_bool_decide; [|done]. destruct (dt_releases _ Hd _ _ Hr). destruct (r_magnet r); [|done]. by injection Hr' as <- <-.
Qed.

(** A listing returns rows of the table and a cursor in base64. *)
Definition page_item_text (it : ReleaseItem) : Prop :=
  utf8_text (ri_Infohash it) ∧ utf8_text (ri_Ref it) ∧ utf8_text (ri_Title it)
  ∧ finite (ri_Confidence it) = true ∧ Forall utf8_text (ri_Sources it).
Lemma release_item_text r : row_text r → page_item_text (listing.release_item r).
Proof.
  intros []. unfold page_item_text. cbn. split_and!; [done| |done| |done].
  - by destruct (r_ref r).
  - by destruct (r_confidence r).
Qed.
Lemma listed_rows_text q path key hash seek n d :
  db_text d → Forall (λ k, page_item_text k.1) (listing.listReleaseRows q path key hash seek n d).
Proof.
  intros Hd. assert (∀ cond by_key, Forall (λ k, page_item_text k.1) (listing.seek_query cond by_key key hash seek n d)) as Hs.
  { intros cond by_key. unfold listing.seek_query. apply Forall_fmap, Forall_take, Forall_forall. intros r Hr.
    rewrite merge_sort_Permutation in Hr. apply list_elem_of_In, filter_In in Hr as [Hr _].
    apply list_elem_of_In, elem_of_rows in Hr as [ih Hr]. by eapply release_item_text, dt_releases. }
  unfold listing.listReleaseRows. destruct (_ =? _); [case_bool_decide; apply Hs|].
  destruct (rq_Since q); [case_bool_decide; apply Hs|constructor].
Qed.
Lemma base64_text s : utf8_text (base64.EncodeToString s).
Proof.
  apply ascii_utf8. pose proof (EncodeToString_base64 s) as H. revert H. apply str_forall_impl.
  intros c. by destruct c as [[] [] [] [] [] [] [] []].
Qed.
Lemma ListReleases_text `{cursor.CursorCodec} q E s page s' :
  db_text (sdb s) → listing.ListReleases q E s = (Ok page, s') →
  Forall page_item_text (rp_Releases page) ∧ utf8_text (rp_NextCursor page).
Proof.
  intros Hd. unfold listing.ListReleases, collect, query, statement, lift, mbind, M_bind, mret, M_ret.
  destruct (if bool_decide (rq_Ref q ≠ "") then _ else _) as [|[]]; [done|].
  destruct (listing.seek_of q _) as [|seek]; [done|].
  destruct (match seek with None => _ | Some c => _ end) as [[key hash] hasSeek].
  intros Hrun. do 2 (cbn [sdb tick] in Hrun;
    match type of Hrun with context [fault E ?k] => destruct (fault E k); [done|] end).
  cbn [sdb tick] in Hrun. match type of Hrun with context [listing.listReleaseRows ?q ?p ?k ?h ?b ?n ?d] =>
    pose proof (listed_rows_text q p k h b n d Hd) as Ht; set (keyed := listing.listReleaseRows q p k h b n d) in * end.
  destruct (_ <? Z.of_nat _).
  - destruct (listing.next_cursor _ _ _) as [|next] eqn:En; [done|]. injection Hrun as <- _. cbn. split.
    + by apply Forall_fmap, Forall_take.
    + unfold listing.next_cursor in En. destruct (last _) as [[it k]|]; [|by injection En as <-].
      destruct (cursor.Encode _) as [|enc] eqn:Ee; [done|]. injection En as <-. unfold cursor.Encode in Ee.
      destruct (cursor.json_Marshal _) as [|raw]; [done|]. injection Ee as <-. apply base64_text.
  - injection Hrun as <- _. cbn. split; [by apply Forall_fmap|done].
Qed.
