(* ===== verification/RequestText.v ===== *)
(** * What the requests carry is text

    The fields of the decoded requests keep their strings UTF-8 and their
    numbers finite, whatever bytes the client sent. *)

From S2P Require Import Prelude GoStrings GoTime GoTimeFmt GoJson GoJsonThms GoJsonText GoJsonFields GoFloatText.
From S2P Require Import Store Db StoreText Rawpost Dispatch Rest.
Import json floattext dispatch rest.

Definition post_text (p : rawpost.RawPost) : Prop :=
  Forall utf8_text [rawpost.rp_Title p; rawpost.rp_Magnet p; rawpost.rp_Source p; rawpost.rp_SourceID p; rawpost.rp_URL p].
Definition submission_text (r : SubmitRequest) : Prop :=
  Forall utf8_text [sr_Infohash r; sr_Ref r; sr_Reason r] ∧ finite_or_none (sr_Confidence r).

Lemma time_field_keeps {A} (P : A → Prop) name set : (∀ t a, P a → P (set t a)) → keeps P (time_field name set).
Proof.
  intros H v a a' _ Ha E. destruct v; cbn in E; simplify_eq; [done|].
  apply fmap_Some in E as (t&_&->). auto.
Qed.
Lemma float_ptr_field_keeps {A} (P : A → Prop) name set :
  (∀ x a, finite_or_none x → P a → P (set x a)) → keeps P (float_ptr_field name set).
Proof.
  intros H v a a' _ Ha E. destruct v; cbn in E; simplify_eq; [by apply H|].
  apply fmap_Some in E as (x&Hx%ParseFloat_finite&->). by apply H.
Qed.

Ltac field := first [apply string_field_keeps|apply int_field_keeps|apply time_field_keeps|apply float_ptr_field_keeps].
Ltac fields := repeat (apply Forall_cons; split; [field|]); [..|by apply Forall_nil].
Lemma post_fields_keep : Forall (keeps post_text) post_fields.
Proof.
  fields; unfold post_text; cbn; intros; rewrite !Forall_cons in *; naive_solver.
Qed.
Lemma ingest_fields_keep : Forall (keeps (λ r, Forall post_text (ir_Posts r))) ingest_fields.
Proof.
  apply Forall_cons; split; [|by apply Forall_nil]. eapply slice_field_keeps; [apply post_fields_keep|by repeat constructor|done].
Qed.
Lemma submit_fields_keep : Forall (keeps submission_text) submit_fields.
Proof.
  fields; unfold submission_text; cbn; intros; rewrite !Forall_cons in *; naive_solver.
Qed.

(** The posts of a decoded ingest. *)
Lemma ingest_posts_text body req :
  Decoder_Decode true ingest_fields {| ir_Posts := [] |} body = Ok req → Forall post_text (ir_Posts req).
Proof. intros Hd. eapply (Decoder_keeps _ _ ingest_fields_keep) in Hd; [done|constructor]. Qed.
Lemma post_text_source p : post_text p → utf8_text (rawpost.rp_Source p).
Proof. unfold post_text. rewrite !Forall_cons. tauto. Qed.
