(* ===== verification/ResponseText.v ===== *)
(** * The JSON text of requests and responses

    What [encoding/json] writes for every result of the dispatcher and every
    answer of the REST surface (the struct tags of
    src/internal/dispatch/dispatch.go, src/internal/rest and
    src/pkg/rawpost/rawpost.go), and the operations of the dispatcher on
    bytes.  A float that is no number is an error of the encoder. *)

From S2P Require Import Prelude GoStrings GoTime GoTimeFmt Store GoJson GoJsonThms GoJsonFields GoFloatText GoHttp.
From S2P Require Import Rawpost Dispatch Rest.
Import json floattext dispatch.

Module responses.

(** ** Values *)

Definition jint (n : Z) : json := JNumber (Itoa n).
Definition ptr {A} (f : A → json) (o : option A) : json := match o with None => JNull | Some a => f a end.
Definition jfloat (x : float64) : option json := JNumber <$> encode_float x.
Definition jfloat_ptr (o : option float64) : option json :=
  match o with None => Some JNull | Some x => jfloat x end.
(** A string member with [omitempty]. *)
Definition omitempty (name s : string) : list (string * json) :=
  if bool_decide (s = "") then [] else [(name, jstring s)].
(** A map's keys are sorted. *)
Definition jmap (m : gmap string string) : json :=
  JObject ((λ k, (k, jstring (default "" (m !! k)))) <$> merge_sort String.le (base.elements (dom m))).

(** ** The dispatcher's results *)

Definition raw_item_json (r : RawItemResult) : json := JObject
  ([("id", jint (rir_ID r)); ("source", jstring (rir_Source r)); ("source_id", jstring (rir_SourceID r));
    ("title", jstring (rir_Title r))] ++ omitempty "url" (rir_URL r)
   ++ [("published_at", jstring (rir_PublishedAt r))]).
Definition claim_item_json (it : ClaimItemResult) : json := JObject
  [("infohash", jstring (cir_Infohash it)); ("claim_token", jint (cir_ClaimToken it));
   ("attempt_count", jint (cir_AttemptCount it)); ("lease_expires_at", jstring (cir_LeaseExpiresAt it));
   ("raw_items", JArray (raw_item_json <$> cir_RawItems it))].
Definition claim_json (v : ClaimResult) : json := JObject [("items", JArray (claim_item_json <$> cres_Items v))].

Definition queue_stats_json (v : QueueStatsResult) : json := JObject
  [("available", jint (qsr_Available v)); ("leased", jint (qsr_Leased v)); ("unmatched", jint (qsr_Unmatched v));
   ("matched", jint (qsr_Matched v)); ("suppressed", jint (qsr_Suppressed v)); ("exhausted", jint (qsr_Exhausted v))].

Definition release_item_json (r : ReleaseItemResult) : option json :=
  confidence ← jfloat (rel_Confidence r);
  Some (JObject
    [("infohash", jstring (rel_Infohash r)); ("ref", jstring (rel_Ref r)); ("title", jstring (rel_Title r));
     ("size_bytes", jint (rel_SizeBytes r)); ("published_at", jstring (rel_PublishedAt r));
     ("confidence", confidence); ("sources", JArray (jstring <$> rel_Sources r))]).
Definition list_releases_json (v : ListReleasesResult) : option json :=
  releases ← mapM release_item_json (lrr_Releases v);
  Some (JObject (("releases", JArray releases)
    :: match lrr_NextCursor v with None => [] | Some c => [("next_cursor", jstring c)] end)).

Definition raw_item_detail_json (r : RawItemDetailResult) : json := JObject
  [("id", jint (rdr_ID r)); ("source", jstring (rdr_Source r)); ("source_id", jstring (rdr_SourceID r));
   ("title", jstring (rdr_Title r)); ("url", ptr jstring (rdr_URL r));
   ("published_at", jstring (rdr_PublishedAt r)); ("ingested_at", jstring (rdr_IngestedAt r))].
Definition match_event_json (e : MatchEventItemResult) : option json :=
  confidence ← jfloat_ptr (mer_Confidence e);
  Some (JObject
    [("id", jint (mer_ID e)); ("status", jstring (mer_Status e)); ("ref", ptr jstring (mer_Ref e));
     ("confidence", confidence); ("reason", ptr jstring (mer_Reason e)); ("created_at", jstring (mer_CreatedAt e))]).
Definition get_release_json (v : GetReleaseResult) : option json :=
  confidence ← jfloat_ptr (grr_Confidence v);
  events ← mapM match_event_json (grr_MatchEvents v);
  Some (JObject
    [("infohash", jstring (grr_Infohash v)); ("title", jstring (grr_Title v)); ("magnet", ptr jstring (grr_Magnet v));
     ("size_bytes", ptr jint (grr_SizeBytes v)); ("published_at", jstring (grr_PublishedAt v));
     ("sources", JArray (jstring <$> grr_Sources v)); ("match_status", jstring (grr_MatchStatus v));
     ("ref", ptr jstring (grr_Ref v)); ("confidence", confidence);
     ("first_matched_at", ptr jstring (grr_FirstMatchedAt v)); ("attempt_count", jint (grr_AttemptCount v));
     ("created_at", jstring (grr_CreatedAt v)); ("updated_at", jstring (grr_UpdatedAt v));
     ("raw_items", JArray (raw_item_detail_json <$> grr_RawItems v)); ("match_events", JArray events)]).

Definition resolve_magnets_json (v : ResolveMagnetsResult) : json := JObject [("magnets", jmap (rms_Magnets v))].

(** ** The answers of the REST surface *)

Definition magnet_json (v : rest.magnetResponse) : json := JObject
  [("infohash", jstring (rest.mr_Infohash v)); ("magnet", jstring (rest.mr_Magnet v))].
Definition ingest_json (v : rawpost.IngestSummary) : json :=
  let b := rawpost.is_Batch v in
  let q := rawpost.is_Queue v in
  JObject
    [("batch", JObject
        [("new", jint (rawpost.ib_New b)); ("updated", jint (rawpost.ib_Updated b));
         ("duplicate", jint (rawpost.ib_Duplicate b)); ("conflict", jint (rawpost.ib_Conflict b));
         ("skipped", jint (rawpost.ib_Skipped b))]);
     ("queue", JObject
        [("available", jint (rawpost.q_Available q)); ("leased", jint (rawpost.q_Leased q));
         ("exhausted", jint (rawpost.q_Exhausted q))])].
Definition payload_json (p : rest.payload) : option json :=
  match p with
  | rest.PClaim v => Some (claim_json v)
  | rest.PStats v => Some (queue_stats_json v)
  | rest.PRelease v => get_release_json v
  | rest.PMagnet v => Some (magnet_json v)
  | rest.PIngest v => Some (ingest_json v)
  end.

Section text.
(** The text of an error. *)
Context (Error : error → string).

Definition message_text (m : message) : string :=
  match m with Text s => s | ErrorText prefix e => prefix +:+ Error e end.
Definition error_json (e : errorResponse) : json := JObject
  (omitempty "code" (er_Code e) ++ omitempty "infohash" (er_Infohash e)
   ++ [("message", jstring (message_text (er_Message e)))]).
(** The bytes of a body: [Encoder.Encode] ends its text with a newline, and
    writes nothing when it fails; so does [http.Error]. *)
Definition body_text (b : content rest.payload) : string :=
  match b with
  | Plain m => message_text m +:+ newline
  | Failure e => encode (error_json e) +:+ newline
  | Raw s => s
  | Encoded v => match payload_json v with Some j => encode j +:+ newline | None => "" end
  end.
End text.

(** ** The dispatcher on bytes *)

Definition ErrUnsupportedValue : error := ErrNew "json: unsupported value".
Definition Marshal (v : option json) : result string :=
  match v with Some j => Ok (encode j) | None => Err ErrUnsupportedValue end.

(** A [*time.Time] and a slice of strings. *)
Definition time_ptr_field {A} (name : string) (set : option Time → A → A) : field A :=
  (name, λ v a, match v with
                | JString _ raw => (λ t, set (Some t) a) <$> Parse_RFC3339 raw
                | JNull => Some (set None a)
                | _ => None
                end).
Definition string_element (v : json) : option string :=
  match v with JString s _ => Some s | JNull => Some "" | _ => None end.
Definition strings_field {A} (name : string) (set : list string → A → A) : field A :=
  (name, λ v a, match v with
                | JArray l => (λ ss, set ss a) <$> mapM string_element l
                | JNull => Some (set [] a)
                | _ => None
                end).

Definition list_fields : list (field ListReleasesRequest) :=
  [string_field "ref" (λ s r, {| lr_Ref := s; lr_Since := lr_Since r; lr_Limit := lr_Limit r; lr_Cursor := lr_Cursor r |});
   time_ptr_field "since"
     (λ t r, {| lr_Ref := lr_Ref r; lr_Since := t; lr_Limit := lr_Limit r; lr_Cursor := lr_Cursor r |});
   int_field "limit" (λ n r, {| lr_Ref := lr_Ref r; lr_Since := lr_Since r; lr_Limit := n; lr_Cursor := lr_Cursor r |});
   string_field "cursor"
     (λ s r, {| lr_Ref := lr_Ref r; lr_Since := lr_Since r; lr_Limit := lr_Limit r; lr_Cursor := s |})].
Definition get_fields : list (field GetReleaseRequest) := [string_field "infohash" (λ s _, {| grq_Infohash := s |})].
Definition resolve_fields : list (field ResolveMagnetsRequest) :=
  [strings_field "infohashes" (λ ss _, {| rmr_Infohashes := ss |})].

Section bytes.
Context {S : Type} (st : store.Store S).

(** Decode the request, run the operation, encode its result. *)
Definition on_bytes {Req Out} (fields : list (field Req)) (zero : Req) (op : Req → S → result Out * S)
    (text : Out → result string) (input : string) (s : S) : result string * S :=
  match Unmarshal fields zero input with
  | Err err => (Err err, s)
  | Ok req =>
      match op req s with
      | (Err err, s) => (Err err, s)
      | (Ok out, s) => (text out, s)
      end
  end.
Definition Claim : string → S → result string * S :=
  on_bytes claim_fields no_claim (ClaimTyped st) (λ out, Marshal (Some (claim_json out))).
Definition Submit : string → S → result string * S :=
  on_bytes submit_fields no_submit (SubmitTyped st) (λ _, Ok ("{" +:+ quote "ok" +:+ ":true}")).
(** The input is not looked at. *)
Definition QueueStats (input : string) (s : S) : result string * S :=
  match QueueStatsTyped st s with
  | (Err err, s) => (Err err, s)
  | (Ok out, s) => (Marshal (Some (queue_stats_json out)), s)
  end.
Definition ListReleases : string → S → result string * S :=
  on_bytes list_fields {| lr_Ref := ""; lr_Since := None; lr_Limit := 0; lr_Cursor := "" |} (ListReleasesTyped st)
    (λ out, Marshal (list_releases_json out)).
Definition GetRelease : string → S → result string * S :=
  on_bytes get_fields {| grq_Infohash := "" |} (GetReleaseTyped st) (λ out, Marshal (get_release_json out)).
Definition ResolveMagnets : string → S → result string * S :=
  on_bytes resolve_fields {| rmr_Infohashes := [] |} (ResolveMagnetsTyped st)
    (λ out, Marshal (Some (resolve_magnets_json out))).
End bytes.

End responses.
