(* ===== verification/ResponseTextThms.v ===== *)
(** * Every response text is a JSON value that parses

    Whatever a result holds, its text parses to one value of a small depth;
    when what it holds is UTF-8 text, the value is exactly the result's. *)

From S2P Require Import Prelude GoStrings GoTimeFmt Store GoJson GoJsonThms GoJsonText GoJsonFields GoFloatText GoHttp.
From S2P Require Import Rawpost Dispatch Rest ResponseText.
Import json floattext dispatch responses.

(** ** What a result holds *)

Section strings.
Context (P : string → Prop).

Definition raw_item_ok (r : RawItemResult) : Prop :=
  Forall P [rir_Source r; rir_SourceID r; rir_Title r; rir_URL r; rir_PublishedAt r].
Definition claim_item_ok (it : ClaimItemResult) : Prop :=
  Forall P [cir_Infohash it; cir_LeaseExpiresAt it] ∧ Forall raw_item_ok (cir_RawItems it).
Definition claim_ok (v : ClaimResult) : Prop := Forall claim_item_ok (cres_Items v).
Definition release_item_ok (r : ReleaseItemResult) : Prop :=
  Forall P ([rel_Infohash r; rel_Ref r; rel_Title r; rel_PublishedAt r] ++ rel_Sources r).
Definition list_releases_ok (v : ListReleasesResult) : Prop :=
  Forall release_item_ok (lrr_Releases v) ∧ from_option P True (lrr_NextCursor v).
Definition raw_item_detail_ok (r : RawItemDetailResult) : Prop :=
  Forall P ([rdr_Source r; rdr_SourceID r; rdr_Title r; rdr_PublishedAt r; rdr_IngestedAt r] ++ option_list (rdr_URL r)).
Definition match_event_ok (e : MatchEventItemResult) : Prop :=
  Forall P ([mer_Status e; mer_CreatedAt e] ++ option_list (mer_Ref e) ++ option_list (mer_Reason e)).
Definition get_release_ok (v : GetReleaseResult) : Prop :=
  Forall P ([grr_Infohash v; grr_Title v; grr_PublishedAt v; grr_MatchStatus v; grr_CreatedAt v; grr_UpdatedAt v]
    ++ option_list (grr_Magnet v) ++ grr_Sources v ++ option_list (grr_Ref v) ++ option_list (grr_FirstMatchedAt v))
  ∧ Forall raw_item_detail_ok (grr_RawItems v) ∧ Forall match_event_ok (grr_MatchEvents v).
Definition resolve_magnets_ok (v : ResolveMagnetsResult) : Prop := map_Forall (λ k m, P k ∧ P m) (rms_Magnets v).
Definition payload_ok (p : rest.payload) : Prop :=
  match p with
  | rest.PClaim v => claim_ok v
  | rest.PStats _ | rest.PIngest _ => True
  | rest.PRelease v => get_release_ok v
  | rest.PMagnet v => P (rest.mr_Infohash v) ∧ P (rest.mr_Magnet v)
  end.

(** ** Its value *)

Hypothesis Hascii : ∀ s, str_forall is_ascii s = true → P s.

Lemma name_ok s : str_forall is_ascii s = true → P s.
Proof. apply Hascii. Qed.
Lemma jint_fits n z : fits P n (jint z).
Proof. constructor. apply number_ok_Itoa. Qed.
Lemma jfloat_fits n x j : jfloat x = Some j → fits P n j.
Proof. unfold jfloat. rewrite fmap_Some. intros (s&Hs&->). constructor. by eapply encode_float_ok. Qed.
Lemma jfloat_ptr_fits n o j : jfloat_ptr o = Some j → fits P n j.
Proof. destruct o; [apply jfloat_fits|]. intros [= <-]. constructor. Qed.
Lemma ptr_string_fits n o : Forall P (option_list o) → fits P n (ptr jstring o).
Proof. destruct o; cbn; [intros [? _]%Forall_cons|]; by constructor. Qed.
Lemma ptr_int_fits n o : fits P n (ptr jint o).
Proof. destruct o; [apply jint_fits|constructor]. Qed.
Lemma strings_fit n l : Forall P l → fits P (S n) (JArray (jstring <$> l)).
Proof. intros H. constructor. apply Forall_fmap. eapply Forall_impl; [exact H|]. by constructor. Qed.
Lemma list_fits {A} (f : A → json) (ok : A → Prop) n l :
  (∀ a, ok a → fits P n (f a)) → Forall ok l → fits P (S n) (JArray (f <$> l)).
Proof. intros Hf H. constructor. apply Forall_fmap. eapply Forall_impl; [exact H|]. apply Hf. Qed.
Lemma mapM_fits {A} (f : A → option json) (ok : A → Prop) n l js :
  (∀ a j, ok a → f a = Some j → fits P n j) → Forall ok l → mapM f l = Some js → fits P (S n) (JArray js).
Proof.
  intros Hf H Hm. constructor. apply mapM_Some in Hm. revert H. induction Hm as [|a j l js Haj _ IH]; [by constructor|].
  intros [Ha Hl]%Forall_cons. constructor; [by eapply Hf|by apply IH].
Qed.
Lemma members_fit n (ms : list (string * json)) :
  Forall (λ m, P m.1 ∧ fits P n m.2) ms → fits P (S n) (JObject ms).
Proof. apply fits_object. Qed.
Lemma omitempty_fits n name s :
  str_forall is_ascii name = true → P s → Forall (λ m, P m.1 ∧ fits P n m.2) (omitempty name s).
Proof. intros Hn Hs. unfold omitempty. case_bool_decide; repeat constructor; [by apply Hascii|done]. Qed.

(** Take the members of an object one by one. *)
Ltac conjuncts := repeat match goal with
  | H : Forall _ (_ :: _) |- _ => apply Forall_cons in H as [? H]
  | H : Forall _ (_ ++ _) |- _ => apply Forall_app in H as [? H]
  | H : _ ∧ _ |- _ => destruct H
  end.
Ltac members :=
  constructor; repeat (apply Forall_cons; split; [split; [apply name_ok; reflexivity|cbn [snd]]|]); [..|by constructor].
Ltac value := first [apply jint_fits|by constructor|by apply ptr_string_fits|apply ptr_int_fits|by apply strings_fit
  |by eapply jfloat_fits|by eapply jfloat_ptr_fits].

Lemma raw_item_fits n r : raw_item_ok r → fits P (S n) (raw_item_json r).
Proof.
  unfold raw_item_ok. intros H. conjuncts. apply members_fit. rewrite !Forall_app. split_and!.
  - repeat (apply Forall_cons; split; [split; [apply name_ok; reflexivity|value]|]); by constructor.
  - by apply omitempty_fits.
  - repeat (apply Forall_cons; split; [split; [apply name_ok; reflexivity|value]|]); by constructor.
Qed.
Lemma claim_item_fits n it : claim_item_ok it → fits P (S (S (S n))) (claim_item_json it).
Proof.
  intros [H Hr]. conjuncts. members; try value. by eapply list_fits; [apply raw_item_fits|].
Qed.
Lemma claim_fits n v : claim_ok v → fits P (5 + n) (claim_json v).
Proof. intros H. members. by eapply list_fits; [apply claim_item_fits|]. Qed.
Lemma queue_stats_fits n v : fits P (S n) (queue_stats_json v).
Proof. members; value. Qed.
Lemma release_item_fits n r j : release_item_ok r → release_item_json r = Some j → fits P (S (S n)) j.
Proof.
  unfold release_item_ok, release_item_json. rewrite bind_Some. intros H (c&Hc&[= <-]). conjuncts. members; value.
Qed.
Lemma list_releases_fits n v j : list_releases_ok v → list_releases_json v = Some j → fits P (4 + n) j.
Proof.
  intros [H Hc]. unfold list_releases_json. rewrite bind_Some. intros (rs&Hrs&[= <-]).
  pose proof (mapM_fits _ _ _ _ _ (release_item_fits n) H Hrs). destruct (lrr_NextCursor v); members; value || done.
Qed.
Lemma raw_item_detail_fits n r : raw_item_detail_ok r → fits P (S n) (raw_item_detail_json r).
Proof. unfold raw_item_detail_ok. intros H. conjuncts. members; value. Qed.
Lemma match_event_fits n e j : match_event_ok e → match_event_json e = Some j → fits P (S n) j.
Proof.
  unfold match_event_ok, match_event_json. rewrite bind_Some. intros H (c&Hc&[= <-]). conjuncts. members; value.
Qed.
Lemma get_release_fits n v j : get_release_ok v → get_release_json v = Some j → fits P (3 + n) j.
Proof.
  intros (H&Hr&He). unfold get_release_json. rewrite bind_Some. intros (c&Hc&Hj).
  apply bind_Some in Hj as (es&Hes&[= <-]). pose proof (mapM_fits _ _ _ _ _ (match_event_fits n) He Hes).
  pose proof (list_fits _ _ _ _ (raw_item_detail_fits n) Hr). conjuncts. members; value || done.
Qed.
Lemma resolve_magnets_fits n v : resolve_magnets_ok v → fits P (2 + n) (resolve_magnets_json v).
Proof.
  intros H. members. constructor. apply Forall_fmap, Forall_forall. intros k Hk.
  rewrite merge_sort_Permutation in Hk. apply elem_of_elements, elem_of_dom in Hk as [m Hm].
  cbn. rewrite Hm. destruct (H _ _ Hm). split; [done|by constructor].
Qed.
Lemma payload_fits v j : payload_ok v → payload_json v = Some j → fits P 5 j.
Proof.
  destruct v as [v|v|v|v|v]; cbn [payload_ok payload_json]; intros H.
  1,2,4,5: intros [= <-].
  - by apply (claim_fits 0).
  - apply queue_stats_fits.
  - destruct H. members; value.
  - members; members; value.
  - by apply (get_release_fits 2).
Qed.
End strings.

(** ** Reading it *)

Section anything.
Abbreviation any := (λ _ : string, True).
Lemma any_forall (l : list string) : Forall any l.
Proof. by apply Forall_true. Qed.
Lemma list_releases_any v : list_releases_ok any v.
Proof. split; [apply Forall_true; intros r; apply any_forall|by destruct (lrr_NextCursor v)]. Qed.
Lemma get_release_any v : get_release_ok any v.
Proof. split_and!; [apply any_forall|apply Forall_true; intros r; apply any_forall..]. Qed.
Lemma claim_any v : claim_ok any v.
Proof. apply Forall_true. intros it. split; [apply any_forall|]. apply Forall_true. intros r. apply any_forall. Qed.
Lemma payload_any v : payload_ok any v.
Proof. destruct v; cbn; try done; [apply claim_any|apply get_release_any]. Qed.
Lemma any_ascii (s : string) : str_forall is_ascii s = true → any s.
Proof. done. Qed.

Lemma list_releases_parses v j : list_releases_json v = Some j → parse (encode j) = Some (repaired j).
Proof.
  intros Hj. rewrite <-(str_app_nil_r (encode j)). apply (fits_parse any 4); [|done|by left].
  by eapply (list_releases_fits any any_ascii 0); [apply list_releases_any|].
Qed.
Lemma get_release_parses v j : get_release_json v = Some j → parse (encode j) = Some (repaired j).
Proof.
  intros Hj. rewrite <-(str_app_nil_r (encode j)). apply (fits_parse any 3); [|done|by left].
  by eapply (get_release_fits any any_ascii 0); [apply get_release_any|].
Qed.
Lemma resolve_magnets_parses v : parse (encode (resolve_magnets_json v)) = Some (repaired (resolve_magnets_json v)).
Proof.
  rewrite <-(str_app_nil_r (encode _)). apply (fits_parse any 2); [|done|by left].
  by apply (resolve_magnets_fits any any_ascii 0).
Qed.
End anything.
