(* ===== verification/Mcp.v ===== *)
(** * Package [internal/mcp]: the consumer's tools

    The server with its tools and their annotations, the three read-only tools
    over the dispatcher, with the metrics they record, the wrapper that
    attaches the structured content (src/internal/mcp/mcp.go,
    tool_list_releases.go, tool_get_release.go, tool_resolve_magnets.go) and
    the stripping of the embedded documents (doc_embed.go).  Validating a value against its JSON schema is a library's
    work and a parameter. *)

From S2P Require Import Prelude GoStrings GoTime GoRegexp Infohash Store GoJson Metrics Dispatch Rest ResponseText.
From Stdlib Require Import Ascii.

Module mcp.
Import regexp dispatch rest responses.

(** ** The embedded documents *)

Definition reSchema : regexp :=
  seq [lit "<!--"; star space; lit "schema"; star space; lit "-->"; lazy_star any;
       lit "<!--"; star space; lit "/schema"; star space; lit "-->"].
Definition reSchemaNote : regexp :=
  seq [lit "<!--"; star space; lit "schema-note"; WordBoundary; lazy_star any; lit "-->"].
Definition forLLM (raw : string) : string :=
  let out := RemoveAll reSchema raw in
  let out := RemoveAll reSchemaNote out in
  TrimSpace out.

(** ** What a tool returns *)

Inductive tool_content :=
  | TextContent (text : string)
  | ErrorBody (code : string) (err : error).
Record CallToolResult := {
  IsError : bool;
  Content : tool_content;
  StructuredContent : option string;
}.

Definition errorResult (err : error) : CallToolResult :=
  {| IsError := true; Content := ErrorBody (WireCode err) err; StructuredContent := None |}.
(** The text of a result, given the text of an error. *)
Definition content_text (Error : error → string) (c : tool_content) : string :=
  match c with
  | TextContent text => text
  | ErrorBody code err => json.encode (json.JObject (omitempty "code" code ++ [("error", json.jstring (Error err))]))
  end.

(** What the tools return, as JSON. *)
Class ToolOutput (Out : Type) := tool_json : Out → option json.json.
#[export] Instance list_releases_output : ToolOutput ListReleasesResult := list_releases_json.
#[export] Instance get_release_output : ToolOutput GetReleaseResult := get_release_json.
#[export] Instance resolve_magnets_output : ToolOutput ResolveMagnetsResult := λ out, Some (resolve_magnets_json out).

(** The inner handler's result: an error result, or a value. *)
Definition handled (Out : Type) : Type := (CallToolResult + Out)%type.

Section server.
Context {S : Type} (st : store.Store S).
(** The schema of a tool's output, by its name. *)
Context (validate : string → json.json → option error).
Abbreviation W := (World S).

Definition addStructuredTool {Out} `{ToolOutput Out} (tool : string) (h : W → handled Out * W) (w : W)
    : result CallToolResult * W :=
  match h w with
  | (inl res, w) => (Ok res, w)
  | (inr out, w) =>
      (match Marshal (tool_json out) with
       | Err err => Err (wrapf "marshaling output: %w" [] err)
       | Ok outJSON =>
           match json.parse outJSON with
           | None => Err (wrapf "decoding output: %w" [] json.ErrSyntax)
           | Some outValue =>
               match validate tool outValue with
               | Some err => Err (wrapf "validating tool output: %w" [] err)
               | None => Ok {| IsError := false; Content := TextContent outJSON; StructuredContent := Some outJSON |}
               end
           end
       end, w)
  end.

(** ** The tools *)

Definition failed {Out} (tool : string) (dur : Duration) (err : error) (w : W) : handled Out * W :=
  (inl (errorResult err), on_metrics (metrics.MCPTool tool "error" dur) w).

Definition list_releases (dur : Duration) (input : ListReleasesRequest) (w : W) : handled ListReleasesResult * W :=
  match in_world (ListReleasesTyped st input) w with
  | (Err err, w) => failed "list_releases" dur err w
  | (Ok out, w) => (inr out, on_metrics (metrics.MCPTool "list_releases" "ok" dur) w)
  end.
Definition get_release (dur : Duration) (input : GetReleaseRequest) (w : W) : handled GetReleaseResult * W :=
  match in_world (GetReleaseTyped st input) w with
  | (Err err, w) => failed "get_release" dur err w
  | (Ok out, w) => (inr out, on_metrics (metrics.MCPTool "get_release" "ok" dur) w)
  end.
Definition resolve_magnets (dur : Duration) (input : ResolveMagnetsRequest) (w : W)
    : handled ResolveMagnetsResult * W :=
  match in_world (ResolveMagnetsTyped st input) w with
  | (Err err, w) => failed "resolve_magnets" dur err w
  | (Ok out, w) =>
      let hits := Z.of_nat (size (rms_Magnets out)) in
      let misses := Z.of_nat (length (rmr_Infohashes input)) - hits in
      let misses := if misses <? 0 then 0 else misses in
      (inr out, on_metrics (metrics.MCPResolveMagnets hits misses)
                  (on_metrics (metrics.MCPTool "resolve_magnets" "ok" dur) w))
  end.

Definition addListReleasesTool (dur : Duration) (input : ListReleasesRequest)
    : W → result CallToolResult * W := addStructuredTool "list_releases" (list_releases dur input).
Definition addGetReleaseTool (dur : Duration) (input : GetReleaseRequest)
    : W → result CallToolResult * W := addStructuredTool "get_release" (get_release dur input).
Definition addResolveMagnetsTool (dur : Duration) (input : ResolveMagnetsRequest)
    : W → result CallToolResult * W := addStructuredTool "resolve_magnets" (resolve_magnets dur input).
End server.

(** ** The server *)

Record ToolAnnotations := {
  ReadOnlyHint : bool;
  DestructiveHint : option bool;
  IdempotentHint : bool;
  OpenWorldHint : option bool;
}.
Definition readOnlyToolAnnotations : ToolAnnotations := {|
  ReadOnlyHint := true;
  DestructiveHint := Some false;
  IdempotentHint := true;
  OpenWorldHint := Some true;
|}.
Record Tool := { t_Name : string; t_Description : string; t_Annotations : ToolAnnotations }.
Definition serverName : string := "takuhai".
Definition serverVersion : string := "0.1.0".
(** The embedded documents. *)
Record documents := {
  serverInstructions : string;
  toolListReleasesDoc : string;
  toolGetReleaseDoc : string;
  toolResolveMagnetsDoc : string;
}.
(** What the SDK's server is made of; its tools in the order they are added. *)
Record sdk_server := {
  s_Name : string;
  s_Version : string;
  s_Instructions : string;
  s_Tools : list Tool;
}.
Definition newSDKServer (docs : documents) : sdk_server := {|
  s_Name := serverName;
  s_Version := serverVersion;
  s_Instructions := forLLM (serverInstructions docs);
  s_Tools :=
    [{| t_Name := "list_releases"; t_Description := forLLM (toolListReleasesDoc docs);
        t_Annotations := readOnlyToolAnnotations |};
     {| t_Name := "get_release"; t_Description := forLLM (toolGetReleaseDoc docs);
        t_Annotations := readOnlyToolAnnotations |};
     {| t_Name := "resolve_magnets"; t_Description := forLLM (toolResolveMagnetsDoc docs);
        t_Annotations := readOnlyToolAnnotations |}];
|}.

(** The namespace of a ref, for the log. *)
Definition refNamespace (ref : string) : string :=
  match cut ref ":" with Some (ns, _) => ns | None => "" end.

Example forLLM_strips :
  let nl := String (byte_of 10) "" in
  forLLM ("Intro." +:+ nl +:+ "<!-- schema-note" +:+ nl +:+ "Human-only." +:+ nl +:+ "-->" +:+ nl +:+ "Middle."
          +:+ "<!-- schema -->fields<!-- /schema -->" +:+ nl)
  = "Intro." +:+ nl +:+ nl +:+ "Middle.".
Proof. vm_compute. reflexivity. Qed.

End mcp.
