(* ===== verification/McpThms.v ===== *)
(** * What the consumer's tools answer *)

From S2P Require Import Prelude GoStrings GoTime Infohash Store Cursor CursorCodec Db Postgres StoreSpec StoreInv.
From S2P Require Import Queue QueueThms Listing ListingThms DetailThms GoJson GoJsonThms Metrics Dispatch Rest ResponseText ResponseTextThms Mcp.
From Stdlib Require Import Ascii.
Import dispatch rest responses mcp.

(** A call of a tool, by its name and its input. *)
Inductive tool_call :=
  | CallList (input : ListReleasesRequest)
  | CallGet (input : GetReleaseRequest)
  | CallResolve (input : ResolveMagnetsRequest).
Definition tool_name (c : tool_call) : string :=
  match c with CallList _ => "list_releases" | CallGet _ => "get_release" | CallResolve _ => "resolve_magnets" end.

(** What every answer of a tool has in common: counted under [label], it is
    an error result, which carries a code and no structured content, or the
    JSON text of a value that the tool's schema accepts, once as text and once
    as structured content. *)
Definition well_answered (validate : string → json.json → option error) (tool label : string)
    (ans : result CallToolResult) : Prop :=
  match ans with
  | Ok res =>
      (label = "error" ∧ IsError res = true ∧ StructuredContent res = None
       ∧ ∃ err, Content res = ErrorBody (WireCode err) err)
      ∨ (label = "ok" ∧ IsError res = false ∧ ∃ text v, Content res = TextContent text ∧ StructuredContent res = Some text
           ∧ json.parse text = Some v ∧ validate tool v = None)
  | Err _ => label = "ok"
  end.

Section tools.
Context (validate : string → json.json → option error).

(** A call of any tool, with what its answer has in common with the others. *)
Definition answered (st : store.Store state) (c : tool_call) (dur : Duration) (label : string) (w w' : World state)
    : Prop :=
  match c with
  | CallList i => ∃ ans, addListReleasesTool st validate dur i w = (ans, w') ∧ well_answered validate (tool_name c) label ans
  | CallGet i => ∃ ans, addGetReleaseTool st validate dur i w = (ans, w') ∧ well_answered validate (tool_name c) label ans
  | CallResolve i => ∃ ans, addResolveMagnetsTool st validate dur i w = (ans, w') ∧ well_answered validate (tool_name c) label ans
  end.

Definition text_result (text : string) : CallToolResult :=
  {| IsError := false; Content := TextContent text; StructuredContent := Some text |}.
Lemma structured_answer {Out} `{ToolOutput Out} tool (h : World state → handled Out * World state) w :
  ∃ ans, addStructuredTool validate tool h w = (ans, (h w).2)
    ∧ match (h w).1 with
      | inl res => ans = Ok res
      | inr out => (∃ err, ans = Err err)
                   ∨ ∃ text v, ans = Ok (text_result text) ∧ json.parse text = Some v ∧ validate tool v = None
      end.
Proof.
  unfold addStructuredTool. destruct (h w) as [[res|out] w']; [by eexists|]. eexists. split; [done|]. cbn [fst snd].
  destruct (Marshal (tool_json out)) as [e|text]; [by left; eexists|].
  destruct (json.parse text) as [v|] eqn:Hp; [|left; by eexists].
  destruct (validate tool v) eqn:Hv; [by left; eexists|]. right. by exists text, v.
Qed.

Lemma answered_error {Out} `{ToolOutput Out} (h : World state → handled Out * World state) tool dur err w w1 :
  h w = failed tool dur err w1 →
  ∃ ans, addStructuredTool validate tool h w = (ans, on_metrics (metrics.MCPTool tool "error" dur) w1)
    ∧ well_answered validate tool "error" ans.
Proof.
  intros E. destruct (structured_answer tool h w) as (ans&->&Ha). rewrite E in *. cbn in *. subst ans.
  eexists. split; [done|]. left. split_and!; [done..|]. by eexists.
Qed.
Lemma answered_ok {Out} `{ToolOutput Out} tool (h : World state → handled Out * World state) out w w1 :
  h w = (inr out, w1) →
  ∃ ans, addStructuredTool validate tool h w = (ans, w1) ∧ well_answered validate tool "ok" ans.
Proof.
  intros E. destruct (structured_answer tool h w) as (ans&->&Ha). rewrite E in *. cbn in *.
  exists ans. split; [done|]. destruct Ha as [[err ->]|(text&v&->&?&?)]; [done|]. right. split_and!; [done..|].
  by exists text, v.
Qed.

(** The answer a value gets: its text, once as text and once as structured
    content, when the tool's schema accepts the value that the text reads
    back as, and otherwise the schema's complaint. *)
Definition value_answer (tool : string) (v : json.json) : result CallToolResult :=
  match validate tool (repaired v) with
  | Some err => Err (wrapf "validating tool output: %w" [] err)
  | None => Ok (text_result (json.encode v))
  end.
Lemma structured_value {Out} `{ToolOutput Out} tool (h : World state → handled Out * World state) w out w1 v :
  h w = (inr out, w1) → tool_json out = Some v → json.parse (json.encode v) = Some (repaired v) →
  addStructuredTool validate tool h w = (value_answer tool v, w1).
Proof.
  intros E Ev Hp. unfold addStructuredTool, value_answer. rewrite E, Ev. cbn [Marshal]. rewrite Hp.
  by destruct (validate tool (repaired v)).
Qed.
Lemma structured_none {Out} `{ToolOutput Out} tool (h : World state → handled Out * World state) w out w1 :
  h w = (inr out, w1) → tool_json out = None → ∃ e, addStructuredTool validate tool h w = (Err e, w1).
Proof. intros E Ev. unfold addStructuredTool. rewrite E, Ev. by eexists. Qed.
Lemma structured_error {Out} `{ToolOutput Out} tool (h : World state → handled Out * World state) w dur err w0 :
  h w = failed tool dur err w0 →
  ∃ w1, addStructuredTool validate tool h w = (Ok (errorResult err), w1).
Proof. intros E. unfold addStructuredTool. rewrite E. by eexists. Qed.

(** What a call sends to the metrics. *)
Definition tool_samples (c : tool_call) (label : string) (dur : Duration) : list metrics.sample :=
  [metrics.Inc metrics.mcpToolCalls [tool_name c; label];
   metrics.Observe metrics.mcpToolDuration [tool_name c] (metrics.OfSeconds dur)].

Lemma send_send a b m : metrics.send b (metrics.send a m) = metrics.send (a ++ b) m.
Proof. destruct m as [log|]; [|done]. unfold metrics.send. cbn. by rewrite app_assoc. Qed.

Lemma in_world_reads {A} (f : state → result A * state) w r w1 :
  (∀ s, sdb (f s).2 = sdb s) → in_world f w = (r, w1) →
  sdb (w_store w1) = sdb (w_store w) ∧ w_metrics w1 = w_metrics w.
Proof.
  intros Hf. unfold in_world. specialize (Hf (w_store w)). destruct (f (w_store w)) as [a s]. by intros [= _ <-].
Qed.
Lemma on_ok_state {A B} (f : A → B) (r : result A * state) : (on_ok f r).2 = r.2.
Proof. by destruct r as [[e|a] s]. Qed.

(** A tool over a dispatcher call that only reads; [more] is what it sends
    to the metrics after counting a call that went well. *)
Lemma tool_reads {Out} `{ToolOutput Out} c (h : World state → handled Out * World state)
    (f : state → result Out * state) (more : Out → list metrics.sample) dur w :
  (∀ s, sdb (f s).2 = sdb s) →
  h w = match in_world f w with
        | (Err err, w) => failed (tool_name c) dur err w
        | (Ok out, w) =>
            (inr out, on_metrics (metrics.send (more out)) (on_metrics (metrics.MCPTool (tool_name c) "ok" dur) w))
        end →
  ∃ label w' extra,
    (∃ ans, addStructuredTool validate (tool_name c) h w = (ans, w') ∧ well_answered validate (tool_name c) label ans)
    ∧ sdb (w_store w') = sdb (w_store w)
    ∧ w_metrics w' = metrics.send (tool_samples c label dur ++ extra) (w_metrics w)
    ∧ (extra ≠ [] → label = "ok" ∧ ∃ out, extra = more out).
Proof.
  intros Hf Hh. destruct (in_world f w) as [[err|out] w1] eqn:Ew.
  all: apply in_world_reads in Ew as [Hs Hm]; [|done].
  - exists "error", (on_metrics (metrics.MCPTool (tool_name c) "error" dur) w1), [].
    split_and!; [by eapply answered_error|done| |done]. cbn [w_metrics on_metrics]. by rewrite Hm.
  - eexists "ok", _, (more out). split_and!; [by eapply answered_ok|done| |].
    + cbn [w_metrics on_metrics]. by rewrite Hm, <-send_send.
    + intros _. split; [done|]. by exists out.
Qed.

Lemma send_nothing (w : World state) : on_metrics (metrics.send []) w = w.
Proof. destruct w as [s [log|]]; [|done]. unfold on_metrics, metrics.send. cbn. by rewrite app_nil_r. Qed.

(** The consumer's tools only read: whatever a tool is called with and
    whatever the driver does, the database stays as it is; the call is counted once, as
    an error exactly when the agent gets an error result; an error result
    carries the error's code and no structured content, any other result the
    JSON of a value its schema accepts. *)
Theorem tools_read_only `{cursor.CursorCodec} cfg E (c : tool_call) dur w :
  ∃ label w' extra,
    answered (listing.pg_store cfg E) c dur label w w'
    ∧ sdb (w_store w') = sdb (w_store w)
    ∧ w_metrics w' = metrics.send (tool_samples c label dur ++ extra) (w_metrics w)
    ∧ (extra ≠ [] → label = "ok" ∧ tool_name c = "resolve_magnets").
Proof.
  destruct c as [i|i|i]; cbn [answered].
  - destruct (tool_reads (CallList i) (list_releases (listing.pg_store cfg E) dur i)
      (ListReleasesTyped (listing.pg_store cfg E) i) (λ _, []) dur w) as (label&w'&extra&?&?&?&Hx).
    + intros s. unfold ListReleasesTyped. rewrite on_ok_state. apply ListReleases_reads.
    + unfold list_releases. destruct (in_world _ w) as [[err|out] w1]; [done|]. by rewrite send_nothing.
    + exists label, w', extra. split_and!; [done..|]. intros Hne. by destruct (Hx Hne) as [_ [_ ->]].
  - destruct (tool_reads (CallGet i) (get_release (listing.pg_store cfg E) dur i)
      (GetReleaseTyped (listing.pg_store cfg E) i) (λ _, []) dur w) as (label&w'&extra&?&?&?&Hx).
    + intros s. unfold GetReleaseTyped. destruct (infohash.NormalizeInfohash _); [done|].
      rewrite on_ok_state. apply GetRelease_reads.
    + unfold get_release. destruct (in_world _ w) as [[err|out] w1]; [done|]. by rewrite send_nothing.
    + exists label, w', extra. split_and!; [done..|]. intros Hne. by destruct (Hx Hne) as [_ [_ ->]].
  - destruct (tool_reads (CallResolve i) (resolve_magnets (listing.pg_store cfg E) dur i)
      (ResolveMagnetsTyped (listing.pg_store cfg E) i)
      (λ out, let hits := Z.of_nat (size (rms_Magnets out)) in
              let misses := Z.of_nat (length (rmr_Infohashes i)) - hits in
              (if 0 <? hits then [metrics.AddN metrics.mcpResolveInfohashes ["hit"] hits] else [])
              ++ (if 0 <? (if misses <? 0 then 0 else misses)
                  then [metrics.AddN metrics.mcpResolveInfohashes ["miss"] (if misses <? 0 then 0 else misses)] else []))
      dur w) as (label&w'&extra&?&?&?&Hx).
    + intros s. unfold ResolveMagnetsTyped. rewrite on_ok_state. apply ResolveMagnets_reads.
    + done.
    + exists label, w', extra. split_and!; [done..|]. by intros [-> _]%Hx.
Qed.

(** What the annotations promise an agent. *)
Definition hints_kept (a : ToolAnnotations) (before after : db) : Prop :=
  (ReadOnlyHint a = true → after = before) ∧ (DestructiveHint a = Some false → ∀ ih, releases before !! ih = releases after !! ih)
  ∧ (IdempotentHint a = true → after = before).
(** The server registers the three tools, each once, and the annotations it
    publishes with them are true: whatever a tool of that name is called
    with, and as often as it is called, the database stays as it is. *)
Theorem hints_are_true `{cursor.CursorCodec} cfg E docs :
  NoDup (t_Name <$> s_Tools (newSDKServer docs))
  ∧ (∀ c, tool_name c ∈ t_Name <$> s_Tools (newSDKServer docs))
  ∧ Forall (λ t, ReadOnlyHint (t_Annotations t) = true ∧ ∀ c dur w, t_Name t = tool_name c →
        ∃ label w', answered (listing.pg_store cfg E) c dur label w w'
          ∧ hints_kept (t_Annotations t) (sdb (w_store w)) (sdb (w_store w'))) (s_Tools (newSDKServer docs)).
Proof.
  split_and!.
  - apply (bool_decide_unpack _). vm_compute. reflexivity.
  - intros []; cbn; set_solver.
  - rewrite Forall_forall. intros t Ht. assert (t_Annotations t = readOnlyToolAnnotations) as ->.
    { unfold newSDKServer in Ht. cbn [s_Tools] in Ht. rewrite !elem_of_cons, elem_of_nil in Ht. by destruct_or! Ht; subst. }
    split; [done|]. intros c dur w _. destruct (tools_read_only cfg E c dur w) as (label&w'&_&Ha&Hs&_).
    exists label, w'. split; [done|]. rewrite Hs. by repeat split.
Qed.

(** The code of an error result. *)
Definition code_of (ans : result CallToolResult) : option string :=
  match ans with
  | Ok res => match Content res with ErrorBody code _ => Some code | TextContent _ => None end
  | Err _ => None
  end.

Lemma found_size (ihs : list string) (found : gmap string string) :
  (∀ ih magnet, found !! ih = Some magnet → ih ∈ ihs) → (size found ≤ length ihs)%nat.
Proof.
  intros H. rewrite <-size_dom. transitivity (size (list_to_set ihs : gset string)).
  - apply subseteq_size. intros ih [magnet Hm]%elem_of_dom. apply elem_of_list_to_set. by eapply H.
  - clear. induction ihs as [|ih ihs IH]; [done|]. cbn [list_to_set length].
    pose proof (size_union_alt {[ih]} (list_to_set ihs : gset string)) as ->. rewrite size_singleton.
    assert (size (list_to_set ihs ∖ {[ih]} : gset string) ≤ size (list_to_set ihs : gset string))%nat; [|lia].
    apply subseteq_size. set_solver.
Qed.

Section healthy_tools.
Context `{cursor.CursorCodec} (cfg : postgres.StoreConfig) (E : env) (n : nat) (d : db) (m : metrics.surface) (dur : Duration).
Context (Hd : db_ok d) (HE : healthy E).
Abbreviation st := (listing.pg_store cfg E).
Abbreviation start := ({| w_store := State n d; w_metrics := m |}).

Lemma get_release_tool raw got w1 :
  addGetReleaseTool st validate dur {| grq_Infohash := raw |} start = (got, w1) →
  match infohash.NormalizeInfohash raw with
  | Err _ => code_of got = Some "invalid_input"
  | Ok ih =>
      match releases d !! ih with
      | None => code_of got = Some "no_such_release"
      | Some r =>
          match get_release_json (get_release_result (detail_of ih r d)) with
          | Some v => got = value_answer "get_release" v
          | None => ∃ e, got = Err e
          end
      end
  end.
Proof.
  unfold addGetReleaseTool. set (h := get_release st dur {| grq_Infohash := raw |}). intros Eg.
  assert (h start = match in_world (GetReleaseTyped st {| grq_Infohash := raw |}) start with
                | (Err err, w) => failed "get_release" dur err w
                | (Ok out, w) => (inr out, on_metrics (metrics.MCPTool "get_release" "ok" dur) w)
                end) as Hh by done.
  unfold in_world, GetReleaseTyped in Hh. cbn [grq_Infohash w_store] in Hh.
  destruct (infohash.NormalizeInfohash raw) as [e|ih].
  { apply structured_error in Hh as (w3&Hh). rewrite Hh in Eg. by injection Eg as <- _. }
  destruct (GetRelease_run ih E (State n d) HE) as (s'&_&Hrun).
  change (store.GetRelease st ih) with (listing.GetRelease ih E) in Hh. rewrite Hrun in Hh. cbn [sdb] in Hh.
  destruct (releases d !! ih) as [r|]; cbn [on_ok] in Hh.
  2:{ apply structured_error in Hh as (w3&Hh). rewrite Hh in Eg. by injection Eg as <- _. }
  destruct (get_release_json _) as [v|] eqn:Ev.
  - rewrite (structured_value _ _ _ _ _ _ Hh Ev (get_release_parses _ _ Ev)) in Eg. by injection Eg as <- _.
  - destruct (@structured_none _ get_release_output "get_release" _ _ _ _ Hh Ev) as (e&He). rewrite He in Eg. injection Eg as <- _. by exists e.
Qed.

Lemma resolve_magnets_tool ihs resolved w2 :
  addResolveMagnetsTool st validate dur {| rmr_Infohashes := ihs |} start = (resolved, w2) →
  if 500 <? Z.of_nat (length ihs) then code_of resolved = Some ""
  else ∃ found, resolved = value_answer "resolve_magnets" (resolve_magnets_json {| rms_Magnets := found |})
    ∧ (∀ ih magnet, found !! ih = Some magnet ↔
         ih ∈ ihs ∧ ∃ r, releases d !! ih = Some r ∧ r_magnet r = Some magnet)
    ∧ ∃ hits misses, hits = Z.of_nat (size found) ∧ 0 ≤ misses ∧ hits + misses = Z.of_nat (length ihs)
        ∧ w_metrics w2 = metrics.MCPResolveMagnets hits misses (metrics.MCPTool "resolve_magnets" "ok" dur m).
Proof.
  unfold addResolveMagnetsTool. set (h := resolve_magnets st dur {| rmr_Infohashes := ihs |}). intros Er.
  pose proof (eq_refl : h start = resolve_magnets st dur {| rmr_Infohashes := ihs |} start) as Hh.
  unfold resolve_magnets, in_world, ResolveMagnetsTyped in Hh. cbn [rmr_Infohashes w_store w_metrics] in Hh.
  pose proof (ResolveMagnets_run ihs E n d (db_ok_keyed _ Hd) HE) as Hrun.
  change (store.ResolveMagnets st ihs) with (listing.ResolveMagnets ihs E) in Hh.
  destruct (listing.ResolveMagnets ihs E (State n d)) as [res s']. destruct Hrun as [_ Hrun].
  destruct (500 <? Z.of_nat (length ihs)).
  { destruct Hrun as [_ ->]. cbn [on_ok] in Hh. apply structured_error in Hh as (w3&Hh). rewrite Hh in Er.
    injection Er as <- _. reflexivity. }
  destruct Hrun as (found&->&Hf). cbn [on_ok rms_Magnets] in Hh.
  assert (size found ≤ length ihs)%nat as Hsize by (apply found_size; intros ih mg [? _]%Hf; done).
  rewrite (structured_value _ _ _ _ _ _ Hh eq_refl (resolve_magnets_parses _)) in Er.
  injection Er as <- <-. exists found. split_and!; [done..|].
  destruct (Z.ltb_spec (Z.of_nat (length ihs) - Z.of_nat (size found)) 0) as [?|_]; [lia|].
  exists (Z.of_nat (size found)), (Z.of_nat (length ihs) - Z.of_nat (size found)).
  split_and!; [done|lia|lia|done].
Qed.
End healthy_tools.

(** C37: in a reachable database and without driver errors, [get_release]
    answers [invalid_input] to what names no infohash, [no_such_release] to a
    release the store does not have, and otherwise the release with its whole
    history, in any spelling of the infohash; [resolve_magnets] refuses more
    than 500 infohashes, and else answers exactly the stored magnets of those
    it is given, which it takes as they are, and counts every one of the
    input as a hit or a miss.  Whatever the schemas accept: a value that the
    tool's own schema refuses is answered with that complaint, and so, with
    an error, is a release that has a date JSON cannot hold. *)
Theorem tool_answers `{cursor.CursorCodec} cfg E n d m dur raw ihs :
  reachable d → healthy E →
  let w := {| w_store := State n d; w_metrics := m |} in
  let st := listing.pg_store cfg E in
  let '(got, _) := addGetReleaseTool st validate dur {| grq_Infohash := raw |} w in
  let '(resolved, w2) := addResolveMagnetsTool st validate dur {| rmr_Infohashes := ihs |} w in
  match infohash.NormalizeInfohash raw with
  | Err _ => code_of got = Some "invalid_input"
  | Ok ih =>
      match releases d !! ih with
      | None => code_of got = Some "no_such_release"
      | Some r =>
          match get_release_json (get_release_result (detail_of ih r d)) with
          | Some v => got = value_answer "get_release" v
          | None => ∃ e, got = Err e
          end
      end
  end
  ∧ if 500 <? Z.of_nat (length ihs) then code_of resolved = Some ""
    else ∃ found, resolved = value_answer "resolve_magnets" (resolve_magnets_json {| rms_Magnets := found |})
      ∧ (∀ ih magnet, found !! ih = Some magnet ↔
           ih ∈ ihs ∧ ∃ r, releases d !! ih = Some r ∧ r_magnet r = Some magnet)
      ∧ ∃ hits misses, hits = Z.of_nat (size found) ∧ 0 ≤ misses ∧ hits + misses = Z.of_nat (length ihs)
          ∧ w_metrics w2 = metrics.MCPResolveMagnets hits misses (metrics.MCPTool "resolve_magnets" "ok" dur m).
Proof.
  intros Hd HE. pose proof (reachable_ok _ Hd) as Hok. intros w st.
  destruct (addGetReleaseTool st validate dur _ w) as [got w1] eqn:Eg.
  destruct (addResolveMagnetsTool st validate dur _ w) as [resolved w2] eqn:Er. split.
  - eapply get_release_tool; [done..|exact Eg].
  - eapply resolve_magnets_tool; [done..|exact Er].
Qed.
End tools.

Lemma tool_answers_witness :
  code_of (addGetReleaseTool (listing.pg_store demo.cfg (demo.quiet demo.base)) (λ _ _, None) 0
    {| grq_Infohash := "nothing" |} {| w_store := State 0 shelf; w_metrics := None |}).1 = Some "invalid_input".
Proof.
  pose proof (tool_answers (λ _ _, None) demo.cfg (demo.quiet demo.base) 0 shelf None 0 "nothing" []
    shelf_reachable (λ _, eq_refl)) as H.
  cbv beta zeta in H. destruct (addGetReleaseTool _ _ _ _ _) as [got w1].
  destruct (addResolveMagnetsTool _ _ _ _ _) as [resolved w2]. destruct H as [H _]. exact H.
Defined.
