(* ===== verification/GoServeMux.v ===== *)
(** * [http.ServeMux]

    Routing as Go 1.22 and later do it, for patterns without methods, hosts
    and wildcards: the escaped path is cleaned, its segments are unescaped
    and matched, and a path that is not clean, or that only lacks a final
    slash, is redirected. *)

From S2P Require Import Prelude GoStrings GoUrl GoHttp.
From Stdlib Require Import Ascii.

(** ** Requests as the server hands them on

    [EscapedPath] is [r.URL.EscapedPath()]; [r.URL.Path] is what it unescapes
    to. *)
Record http_request := {
  hr_Method : string;
  hr_EscapedPath : string;
  hr_Body : string;
  hr_BodyErr : option error;
}.
Definition URL_Path (r : http_request) : string := default "" (url.PathUnescape (hr_EscapedPath r)).
Definition to_request (r : http_request) : Request := {|
  req_Method := hr_Method r;
  req_Path := URL_Path r;
  req_Body := hr_Body r;
  req_BodyErr := hr_BodyErr r;
|}.

(** [validMethod]: a method is a token; the server refuses any other request
    before a handler sees it. *)
Definition is_token_byte (c : ascii) : bool :=
  is_lower c || is_upper c || is_digit c
  || existsb (Ascii.eqb c) ["!"; "#"; "$"; "%"; "&"; "'"; "*"; "+"; "-"; "."; "^"; "_"; "`"; "|"; "~"]%char.
Definition validMethod (method : string) : bool :=
  negb (bool_decide (method = "")) && str_forall is_token_byte method.

Module mux.

(** [path.Clean] of a rooted path, by its elements; [out] in reverse. *)
Fixpoint clean_elements (l out : list string) : list string :=
  match l with
  | [] => rev out
  | e :: l =>
      if bool_decide (e = "" ∨ e = ".") then clean_elements l out
      else if bool_decide (e = "..") then clean_elements l (tail out)
      else clean_elements l (e :: out)
  end.
Definition path_Clean (p : string) : string := String "/" (Join "/" (clean_elements (Split "/" p) [])).
Definition slash_last (p : string) : bool :=
  match last (Split "/" p) with Some e => bool_decide (e = "") && negb (bool_decide (p = "")) | None => false end.
Definition cleanPath (p : string) : string :=
  if bool_decide (p = "") then "/" else
  let p := if has_prefix "/" p then p else String "/" p in
  let np := path_Clean p in
  if slash_last p && negb (bool_decide (np = "/")) then np +:+ "/" else np.

(** A pattern: its literal segments, and whether it ends in a slash, which
    stands for the rest of the path. *)
Record pattern := { p_segments : list string; p_multi : bool }.
Definition parsePattern (s : string) : pattern :=
  let parts := Split "/" (drop_str 1 s) in
  if bool_decide (last parts = Some "")
  then {| p_segments := removelast parts; p_multi := true |}
  else {| p_segments := parts; p_multi := false |}.

(** [pathUnescape] passes over what it cannot read. *)
Definition pathUnescape (s : string) : string := default s (url.PathUnescape s).
(** The segments [firstSegment] takes off, one after the other: the part
    after a final slash is the segment [/]. *)
Fixpoint segments_of (parts : list string) : list string :=
  match parts with
  | [] => []
  | [e] => [if bool_decide (e = "") then "/" else pathUnescape e]
  | e :: parts => pathUnescape e :: segments_of parts
  end.
Definition segments (path : string) : list string :=
  if bool_decide (path = "") then [] else segments_of (Split "/" (drop_str 1 path)).

(** Whether a pattern that ends in a slash matches: something must be left. *)
Fixpoint under (ls ss : list string) : bool :=
  match ls, ss with
  | [], _ :: _ => true
  | l :: ls, s :: ss => bool_decide (l = s) && under ls ss
  | _, [] => false
  end.

Section routes.
Context {H : Type} (routes : list (pattern * H)).
Abbreviation node := (pattern * H)%type.

(** The routing tree tries literals before the rest of the path, at every
    depth: the pattern that is the path, else the longest that it is under. *)
Definition longer (a : node) (b : option node) : option node :=
  match b with
  | Some b => if (length (p_segments b.1) <=? length (p_segments a.1))%nat then Some a else Some b
  | None => Some a
  end.
Definition matchSegments (ss : list string) : option node :=
  match find (λ r, negb (p_multi r.1) && bool_decide (p_segments r.1 = ss)) routes with
  | Some r => Some r
  | None => foldr longer None (List.filter (λ r, p_multi r.1 && under (p_segments r.1) ss) routes)
  end.
Definition matchPath (path : string) : option node := matchSegments (segments path).
Definition exactMatch (n : option node) (path : string) : bool :=
  match n with
  | None => false
  | Some (p, _) =>
      if negb (p_multi p) then true
      else slash_last path && (length (p_segments p) + 2 =? length (Split "/" path))%nat
  end.

(** A handler, a redirection, [404], or [400] for [OPTIONS *]. *)
Inductive found := Serve (n : node) | RedirectTo (path : string) | NotFound | BadRequest.

(** [matchOrRedirect], given the path of the redirection, if any. *)
Definition matchOrRedirect (path : string) (redirect : option string) : option node + string :=
  let n := matchPath path in
  match redirect with
  | Some to =>
      if negb (exactMatch n path) && negb (slash_last path)
         && exactMatch (matchPath (path +:+ "/")) (path +:+ "/")
      then inr (cleanPath to +:+ "/") else inl n
  | None => inl n
  end.

Definition served (n : option node) : found :=
  match n with Some n => Serve n | None => NotFound end.
Definition findHandler (r : http_request) : found :=
  let escapedPath := hr_EscapedPath r in
  if bool_decide (hr_Method r = "CONNECT") then
    match matchOrRedirect escapedPath (Some (URL_Path r)) with
    | inr to => RedirectTo to
    | inl _ => served (matchPath escapedPath)
    end
  else
    let path := cleanPath escapedPath in
    match matchOrRedirect path (Some (URL_Path r)) with
    | inr to => RedirectTo to
    | inl n => if bool_decide (path ≠ escapedPath) then RedirectTo path else served n
    end.
Definition ServeHTTP (r : http_request) : found :=
  if bool_decide (hr_EscapedPath r = "*") then BadRequest else findHandler r.

(** ** What is served *)

(** A pattern against the segments of a path. *)
Definition fits (p : pattern) (ss : list string) : Prop :=
  if p_multi p then under (p_segments p) ss = true else p_segments p = ss.

Lemma matchPath_fits path n : matchPath path = Some n → n ∈ routes ∧ fits n.1 (segments path).
Proof.
  unfold matchPath, matchSegments, fits. destruct (find _ routes) as [r|] eqn:E.
  - intros [= <-]. apply find_some in E as [Hin E]. apply list_elem_of_In in Hin. split; [done|].
    apply andb_true_iff in E as [Hm E%bool_decide_eq_true]. by destruct (p_multi r.1).
  - clear E. set (l := List.filter _ routes).
    assert (∀ x, x ∈ l → x ∈ routes ∧ p_multi x.1 = true ∧ under (p_segments x.1) (segments path) = true) as Hl.
    { intros x [Hin Hx]%list_elem_of_In%filter_In. apply andb_true_iff in Hx as [H1 H2].
      by split_and!; [apply list_elem_of_In| |]. }
    intros Hn. cut (n ∈ l); [intros (?&->&?)%Hl; done|]. clear Hl. revert n Hn. induction l as [|a l IH]; intros n; [done|].
    cbn [foldr]. unfold longer at 1. destruct (foldr longer None l) as [b|].
    + destruct (_ <=? _)%nat; intros [= <-]; [left|right; by apply IH].
    + intros [= <-]. left.
Qed.
Lemma served_fits path n : served (matchPath path) = Serve n → n ∈ routes ∧ fits n.1 (segments path).
Proof. destruct (matchPath path) as [m|] eqn:E; [|done]. intros [= <-]. by apply matchPath_fits. Qed.

Lemma matchOrRedirect_inl path to n : matchOrRedirect path to = inl n → n = matchPath path.
Proof. unfold matchOrRedirect. destruct to; [|by intros [= <-]]. destruct (_ && _); [done|by intros [= <-]]. Qed.

(** A handler serves only the path as it came. *)
Lemma ServeHTTP_fits r n : ServeHTTP r = Serve n → n ∈ routes ∧ fits n.1 (segments (hr_EscapedPath r)).
Proof.
  unfold ServeHTTP, findHandler. case_bool_decide; [done|]. case_bool_decide.
  - destruct (matchOrRedirect _ _); [|done]. apply served_fits.
  - destruct (matchOrRedirect _ _) as [m|] eqn:E; [|done]. apply matchOrRedirect_inl in E as ->.
    case_bool_decide as Hp; [done|]. rewrite Hp. apply served_fits.
Qed.
End routes.
Arguments Serve {H}. Arguments RedirectTo {H}. Arguments NotFound {H}. Arguments BadRequest {H}.

(** ** The path a handler sees *)

(** What [net/http] has checked of a request's path. *)
Definition valid (r : http_request) : Prop :=
  has_prefix "/" (hr_EscapedPath r) = true ∧ is_Some (url.PathUnescape (hr_EscapedPath r)).

Lemma segments_of_texts parts texts :
  mapM url.PathUnescape parts = Some texts →
  segments_of parts = texts
  ∨ ∃ init, segments_of parts = init ++ ["/"] ∧ texts = init ++ [""].
Proof.
  revert texts. induction parts as [|e [|e' parts] IH]; intros texts; [intros [= <-]; by left| |].
  - cbn. case_bool_decide as He.
    + subst. intros [= <-]. right. by exists [].
    + unfold pathUnescape. destruct (url.PathUnescape e) as [t|]; [|done]. intros [= <-]. by left.
  - intros H. cbn [mapM] in H. destruct (url.PathUnescape e) as [t|] eqn:Ee; [|done].
    cbn [mbind option_bind] in H. change (match mapM url.PathUnescape (e' :: parts) with
      Some x => Some (t :: x) | None => None end = Some texts) in H.
    destruct (mapM url.PathUnescape (e' :: parts)) as [ts|]; [|done]. injection H as <-.
    change (segments_of (e :: e' :: parts)) with (pathUnescape e :: segments_of (e' :: parts)).
    unfold pathUnescape at 1 2. rewrite Ee. cbn [default from_option id].
    destruct (IH ts eq_refl) as [->|(init&->&->)]; [by left|right]. by exists (t :: init).
Qed.

Lemma under_app ls ss : under ls ss = true → ∃ rest, ss = ls ++ rest ∧ rest ≠ [].
Proof.
  revert ss. induction ls as [|l ls IH]; intros [|s ss]; try done.
  - by exists (s :: ss).
  - cbn. intros [->%bool_decide_eq_true H]%andb_true_iff. destruct (IH _ H) as (rest&->&?). by exists rest.
Qed.

(** The path a handler sees is its pattern, or lies under it. *)
Lemma served_path {H} (routes : list (pattern * H)) r n :
  valid r → ServeHTTP routes r = Serve n → p_segments n.1 ≠ [] → "/" ∉ p_segments n.1 →
  let p := String "/" (Join "/" (p_segments n.1)) in
  if p_multi n.1 then ∃ rest, URL_Path r = p +:+ String "/" rest else URL_Path r = p.
Proof.
  intros [Hp [path Hpath]] [_ Hfits]%ServeHTTP_fits Hne Hslash p. unfold URL_Path. rewrite Hpath. cbn [default from_option id].
  apply has_prefix_Some in Hp as [s Hs]. rewrite Hs in *. rewrite str_app_cons, str_app_nil_l in *.
  unfold segments in Hfits. cbn [drop_str] in Hfits. rewrite bool_decide_eq_false_2 in Hfits by done.
  cbn [url.PathUnescape] in Hpath. rewrite <-(Join_Split "/" s) in Hpath.
  destruct (Split_cons "/" s) as (w&ws&E). rewrite E in *.
  rewrite url.PathUnescape_Join in Hpath by done.
  destruct (mapM url.PathUnescape (w :: ws)) as [texts|] eqn:Et; [|done]. cbn in Hpath. injection Hpath as <-.
  unfold fits in Hfits. subst p. destruct (p_multi n.1).
  - apply under_app in Hfits as (rest&Hss&Hrest).
    assert (∃ rest', texts = p_segments n.1 ++ rest' ∧ rest' ≠ []) as (rest'&->&Hne').
    { destruct (segments_of_texts _ _ Et) as [Heq|(init&Heq&->)]; [exists rest; by rewrite <-Heq|].
      rewrite Heq in Hss. destruct rest as [|x rest _] using rev_ind; [done|].
      rewrite app_assoc in Hss. apply app_inj_tail in Hss as [-> _]. exists (rest ++ [""]).
      rewrite app_assoc. split; [done|]. by destruct rest. }
    exists (Join "/" rest'). rewrite Join_app by done. by rewrite str_app_cons.
  - destruct (segments_of_texts _ _ Et) as [Heq|(init&Heq&->)]; [by rewrite Hfits, Heq|].
    destruct Hslash. rewrite Hfits, Heq. apply elem_of_app. right. by left.
Qed.

(** ** A path of two plain elements *)

Definition plain_byte (c : ascii) : bool :=
  negb (Ascii.eqb c "/") && negb (Ascii.eqb c "%") && negb (Ascii.eqb c ".").
Definition plain (s : string) : bool := negb (bool_decide (s = "")) && str_forall plain_byte s.

Lemma Split_plain s : str_forall plain_byte s = true → Split "/" s = [s].
Proof.
  induction s as [|c s IH]; [done|]. cbn. unfold plain_byte at 1.
  intros [[[Hc _]%andb_true_iff _]%andb_true_iff Hs]%andb_true_iff. apply negb_true_iff in Hc. by rewrite Hc, IH.
Qed.
Lemma Split_slash a b : str_forall plain_byte a = true → Split "/" (a +:+ String "/" b) = a :: Split "/" b.
Proof.
  induction a as [|c a IH]; [done|]. rewrite str_app_cons. cbn. unfold plain_byte at 1.
  intros [[[Hc _]%andb_true_iff _]%andb_true_iff Ha]%andb_true_iff. apply negb_true_iff in Hc. by rewrite Hc, IH.
Qed.
Lemma PathUnescape_plain s : str_forall plain_byte s = true → url.PathUnescape s = Some s.
Proof.
  induction s as [|c s IH]; [done|]. cbn [str_forall]. unfold plain_byte at 1.
  intros [[[_ Hc]%andb_true_iff _]%andb_true_iff Hs]%andb_true_iff.
  apply negb_true_iff, Ascii.eqb_neq in Hc. specialize (IH Hs).
  assert (url.PathUnescape (String c s) = String c <$> url.PathUnescape s) as ->; [|by rewrite IH].
  destruct c as [[] [] [] [] [] [] [] []]; try done; by destruct Hc.
Qed.
Lemma plain_element s : plain s = true → s ≠ "" ∧ s ≠ "." ∧ s ≠ ".." ∧ str_forall plain_byte s = true.
Proof.
  unfold plain. intros [H1%negb_true_iff%bool_decide_eq_false H2]%andb_true_iff.
  split_and!; try done; intros ->; by vm_compute in H2.
Qed.

Section element.
Context (a x : string) (Ha : plain a = true) (Hx : plain x = true).
Definition element_path : string := String "/" (a +:+ String "/" x).

Lemma element_Split : Split "/" element_path = [""; a; x].
Proof.
  destruct (plain_element a Ha) as (_&_&_&Ha'), (plain_element x Hx) as (_&_&_&Hx').
  change (Split "/" element_path) with ("" :: Split "/" (a +:+ String "/" x)). by rewrite Split_slash, Split_plain.
Qed.
Lemma element_Split_slash : Split "/" (element_path +:+ "/") = [""; a; x; ""].
Proof.
  destruct (plain_element a Ha) as (_&_&_&Ha'), (plain_element x Hx) as (_&_&_&Hx'). unfold element_path.
  rewrite str_app_cons, str_app_assoc, str_app_cons.
  change (Split "/" (String "/" (a +:+ String "/" (x +:+ "/"))))
    with ("" :: Split "/" (a +:+ String "/" (x +:+ String "/" ""))). by rewrite !Split_slash.
Qed.
Lemma element_clean : cleanPath element_path = element_path.
Proof.
  destruct (plain_element a Ha) as (Ha1&Ha2&Ha3&_), (plain_element x Hx) as (Hx1&Hx2&Hx3&_).
  unfold cleanPath. rewrite (bool_decide_eq_false_2 (element_path = "")) by done.
  assert (has_prefix "/" element_path = true) as -> by by destruct a.
  unfold slash_last, path_Clean. cbv zeta. rewrite element_Split. cbn [last]. rewrite (bool_decide_eq_false_2 (x = "")) by done.
  cbn [andb clean_elements]. rewrite (bool_decide_eq_true_2 ("" = "" ∨ "" = ".")) by auto.
  rewrite (bool_decide_eq_false_2 (a = "" ∨ a = ".")), (bool_decide_eq_false_2 (x = "" ∨ x = ".")) by naive_solver.
  by rewrite (bool_decide_eq_false_2 (a = "..")), (bool_decide_eq_false_2 (x = "..")) by done.
Qed.
Lemma element_unescape : url.PathUnescape element_path = Some element_path.
Proof.
  destruct (plain_element a Ha) as (_&_&_&Ha'), (plain_element x Hx) as (_&_&_&Hx').
  change (url.PathUnescape element_path) with (String "/" <$> url.PathUnescape (a +:+ String "/" x)).
  rewrite url.PathUnescape_slash, !PathUnescape_plain by done. done.
Qed.
Lemma element_segments : segments element_path = [a; x].
Proof.
  unfold segments. rewrite bool_decide_eq_false_2 by done.
  assert (Split "/" (drop_str 1 element_path) = [a; x]) as -> by (pose proof element_Split as E; by injection E).
  destruct (plain_element a Ha) as (_&_&_&Ha'), (plain_element x Hx) as (?&_&_&Hx'). cbn [segments_of].
  rewrite bool_decide_eq_false_2 by done. unfold pathUnescape. by rewrite !PathUnescape_plain.
Qed.
Lemma element_segments_slash : segments (element_path +:+ "/") = [a; x; "/"].
Proof.
  unfold segments. rewrite bool_decide_eq_false_2 by done.
  assert (Split "/" (drop_str 1 (element_path +:+ "/")) = [a; x; ""]) as ->
    by (pose proof element_Split_slash as E; by injection E).
  destruct (plain_element a Ha) as (_&_&_&Ha'), (plain_element x Hx) as (_&_&_&Hx'). cbn [segments_of].
  unfold pathUnescape. by rewrite !PathUnescape_plain.
Qed.

(** Such a path is served as its two segments match, when no pattern is that
    path with a slash after it. *)
Lemma ServeHTTP_element {H} (routes : list (pattern * H)) m b e :
  m ≠ "CONNECT" →
  match matchSegments routes [a; x; "/"] with
  | Some n => p_multi n.1 = true ∧ length (p_segments n.1) ≠ 2%nat
  | None => True
  end →
  ServeHTTP routes {| hr_Method := m; hr_EscapedPath := element_path; hr_Body := b; hr_BodyErr := e |}
  = served (matchSegments routes [a; x]).
Proof.
  intros Hm Hs. unfold ServeHTTP, findHandler. cbn [hr_EscapedPath hr_Method].
  rewrite !bool_decide_eq_false_2 by done. rewrite element_clean. unfold matchOrRedirect, matchPath.
  rewrite element_segments, element_segments_slash.
  assert (exactMatch (matchSegments routes [a; x; "/"]) (element_path +:+ "/") = false) as ->.
  { unfold exactMatch. destruct (matchSegments routes [a; x; "/"]) as [[p h]|]; [|done].
    destruct Hs as [Hp Hl]. cbn [fst] in *. rewrite Hp, element_Split_slash. cbn [negb length].
    apply andb_false_iff. right. apply Nat.eqb_neq. lia. }
  rewrite andb_false_r. by rewrite bool_decide_eq_false_2 by naive_solver.
Qed.
End element.

End mux.
