(* ===== verification/Service.v ===== *)
(** * The service: one request at a time

    The health check (src/internal/health/health.go), the mux of the REST
    handlers (src/internal/rest/handler.go), the MCP server's mux
    (src/internal/mcp/mcp.go), and the mux of the process with the metrics
    around it (src/cmd/takuhai/main.go).  The MCP SDK is a parameter: it may
    call the tools as often as it likes, with any input, and choose each call
    by the answers before it. *)

From S2P Require Import Prelude GoStrings GoTime GoHttp GoServeMux GoJson Store Cursor Db Postgres Listing Metrics Dispatch.
From S2P Require Import Rest Mcp McpThms.
From Stdlib Require Import Ascii.
Import dispatch rest mcp mux.

Module service.

(** ** Replies *)

Inductive reply_body :=
  | FromREST (b : content payload)
  | FromHealth (m : message)
  | Scrape (gauges : list metrics.gauge)
  | FromSDK (text : string)
  | Location (path : string)
  | NoBody.
Record reply := { r_status : Z; r_body : reply_body }.
Definition StatusMovedPermanently : Z := 301.

(** A table of patterns, by their text. *)
Definition handle {H} (pat : string) (h : H) : pattern * H := (parsePattern pat, h).

(** What the mux answers itself, when it serves nothing. *)
Definition mux_reply {H} (f : found) : reply + H :=
  match f with
  | Serve n => inr n.2
  | RedirectTo path => inl {| r_status := StatusMovedPermanently; r_body := Location path |}
  | NotFound => inl {| r_status := StatusNotFound; r_body := FromREST (Plain (Text "404 page not found")) |}
  | BadRequest => inl {| r_status := StatusBadRequest; r_body := NoBody |}
  end.

(** ** The MCP SDK *)

(** How the SDK deals with one request: it answers, or calls a tool and goes
    on with what that returned. *)
Inductive session :=
  | Answer (status : Z) (text : string)
  | CallTool (c : tool_call) (dur : Duration) (k : result CallToolResult → session).

Section handlers.
Context {S : Type} (st : store.Store S).
Context (validate : string → json.json → option error) (sdk : http_request → session).
Abbreviation W := (World S).
Abbreviation handler := (http_request → W → reply * W).

(** A mux of handlers is a handler. *)
Definition NewServeMux (routes : list (pattern * handler)) : handler := λ r w,
  match mux_reply (ServeHTTP routes r) with
  | inl resp => (resp, w)
  | inr h => h r w
  end.

(** ** [/healthz] *)

Definition healthz : handler := λ r w,
  match in_world (store.Ping st) w with
  | (Err err, w) => ({| r_status := StatusServiceUnavailable; r_body := FromHealth (ErrorText "unhealthy: " err) |}, w)
  | (Ok _, w) => ({| r_status := StatusOK; r_body := FromHealth (Text ("ok" +:+ String (byte_of 10) "")) |}, w)
  end.

(** ** [/metrics] *)

Definition metrics_handler : handler := λ r w,
  let '(gauges, s) := metrics.Collect st (w_store w) in
  ({| r_status := StatusOK; r_body := Scrape gauges |}, {| w_store := s; w_metrics := w_metrics w |}).

(** ** The REST surface *)

Definition HandleFunc (h : Request → W → Response payload * W) : handler := λ r w,
  let '(resp, w) := h (to_request r) w in
  ({| r_status := status resp; r_body := FromREST (body resp) |}, w).
Definition restAPI : handler := NewServeMux
  [handle "/ingest" (HandleFunc (handleIngest st));
   handle "/magnets/" (HandleFunc (handleGetMagnet st));
   handle "/releases/" (HandleFunc (handleGetRelease st));
   handle "/queue/claim" (HandleFunc (handleClaim st));
   handle "/queue/stats" (HandleFunc (handleQueueStats st));
   handle "/submit" (HandleFunc (handleSubmit st))].

(** ** [/mcp] *)

Definition call_tool (c : tool_call) (dur : Duration) (w : W) : result CallToolResult * W :=
  match c with
  | CallList i => addListReleasesTool st validate dur i w
  | CallGet i => addGetReleaseTool st validate dur i w
  | CallResolve i => addResolveMagnetsTool st validate dur i w
  end.
Fixpoint run_session (s : session) (w : W) : reply * W :=
  match s with
  | Answer status text => ({| r_status := status; r_body := FromSDK text |}, w)
  | CallTool c dur k => let '(a, w) := call_tool c dur w in run_session (k a) w
  end.
Definition mcpEndpoint : string := "/mcp".
Definition healthPath : string := "/healthz".
Definition mcpSrv_Handler : handler :=
  NewServeMux [handle mcpEndpoint (λ r w, run_session (sdk r) w); handle healthPath healthz].

(** ** The process *)

Definition takuhai_mux : handler := NewServeMux
  [handle "/mcp" mcpSrv_Handler;
   handle "/healthz" healthz;
   handle "/metrics" metrics_handler;
   handle "/ingest" restAPI;
   handle "/magnets/" restAPI;
   handle "/releases/" restAPI;
   handle "/queue/" restAPI;
   handle "/submit" restAPI].
(** [metricsSrv.HTTP.Wrap]. *)
Definition Wrap_handler (next : handler) (dur : Duration) : handler := λ r w,
  let '(resp, w) := next r w in
  (resp, on_metrics (metrics.Wrap "takuhai" metrics.takuhai_routes (hr_Method r) (URL_Path r) (r_status resp) dur) w).
Definition takuhai_handler (dur : Duration) : handler := Wrap_handler takuhai_mux dur.
End handlers.

End service.
