(* ===== verification/ServiceThms.v ===== *)
(** * The service over its whole life

    What every request, and every sequence of requests, keeps: the database
    moves only by the store's atomic operations, only the three writing
    endpoints move it at all, every request is answered and metric once, and
    no metric is ever called wrongly. *)

From S2P Require Import Prelude GoStrings GoTime GoHttp GoServeMux GoJson Infohash Store Cursor CursorCodec Db Postgres.
From S2P Require Import StoreSpec StoreInv Queue QueueThms Listing DetailThms Rawpost Metrics MetricsThms Dispatch Rest RestThms.
From S2P Require Import GoJsonText Interleave RequestText Mcp McpThms Service.
From Stdlib Require Import Ascii.
Import dispatch rest mcp mux service.

(** ** Metric calls of the handlers *)

(** A count of an HTTP request. *)
Definition http_requests : string := metrics.opts "takuhai" "http" "requests_total".
Definition request_sample (s : metrics.sample) : bool :=
  match s with
  | metrics.Inc n _ | metrics.AddN n _ _ => bool_decide (n = http_requests)
  | metrics.Observe _ _ _ => false
  end.
(** A call that cannot panic and counts no request. *)
Definition own (s : metrics.sample) : bool :=
  metrics.well_labelled metrics.Takuhai s && negb (request_sample s).
Definition own_calls (f : metrics.surface → metrics.surface) : Prop :=
  ∃ calls, (∀ m, f m = metrics.send calls m) ∧ forallb own calls = true.

Lemma own_send calls : forallb own calls = true → own_calls (metrics.send calls).
Proof. intros H. by exists calls. Qed.
(** A call on a metric of the service other than the requests' counter. *)
Ltac owned := unfold own; cbn [forallb request_sample]; repeat first [reflexivity | labelled | apply andb_true_intro; split].
Lemma own_IngestBatch n result : utf8_text result → own_calls (metrics.IngestBatch n result).
Proof. intros. apply own_send. owned. Qed.
Lemma own_IngestPost source result : utf8_text source → utf8_text result → own_calls (metrics.IngestPost source result).
Proof. intros Hs Hr. pose proof (source_text source Hs). apply own_send. owned. Qed.
Lemma own_QueueClaim n result : utf8_text result → own_calls (metrics.QueueClaim n result).
Proof. intros. apply own_send. destruct (Z.ltb_spec 0 n); owned. Qed.
Lemma own_Submit status result confidence : utf8_text result → own_calls (metrics.Submit status result confidence).
Proof. intros. apply own_send. destruct confidence; [destruct (_ && _)|]; owned. Qed.
Lemma own_MCPTool tool result dur : utf8_text tool → utf8_text result → own_calls (metrics.MCPTool tool result dur).
Proof. intros. apply own_send. owned. Qed.
Lemma own_MCPResolveMagnets hits misses : own_calls (metrics.MCPResolveMagnets hits misses).
Proof.
  apply own_send, forallb_app_true; [destruct (Z.ltb_spec 0 hits)|destruct (Z.ltb_spec 0 misses)]; owned.
Qed.
Lemma if_text (b : bool) x y : utf8_text x → utf8_text y → utf8_text (if b then x else y).
Proof. by destruct b. Qed.
Lemma bump_label_text out b label : (bump out b).2 = Some label → utf8_text label.
Proof. unfold bump. destruct b. repeat (case_match; [by intros [= <-]|]). done. Qed.
Create HintDb own.
#[export] Hint Extern 1 (utf8_text (String _ _)) => reflexivity : own.
#[export] Hint Resolve if_text : own.
#[export] Hint Resolve own_IngestBatch own_IngestPost own_QueueClaim own_Submit own_MCPTool own_MCPResolveMagnets : own.

(** ** Moves of the world *)

(** The database moved by [R], and the handlers made calls of their own. *)
Definition advances (R : relation db) (w w' : World state) : Prop :=
  R (sdb (w_store w)) (sdb (w_store w'))
  ∧ ∃ calls, w_metrics w' = metrics.send calls (w_metrics w) ∧ forallb own calls = true.

Section moves.
Context (R : relation db) `{!PreOrder R}.

#[export] Instance advances_preorder : PreOrder (advances R).
Proof.
  split.
  - intros [s m]. split; [done|]. exists []. split; [|done]. destruct m; [|done]. cbn. by rewrite app_nil_r.
  - intros w1 w2 w3 [H1 (c1&E1&O1)] [H2 (c2&E2&O2)]. split; [by etransitivity|].
    exists (c1 ++ c2). rewrite E2, E1, send_send, forallb_app, O1. done.
Qed.
Lemma advances_metrics f w : own_calls f → advances R w (on_metrics f w).
Proof. intros (calls&Hf&Ho). split; [done|]. exists calls. by rewrite <-Hf. Qed.
Lemma advances_in_world {A} (f : state → A * state) w :
  (∀ s, R (sdb s) (sdb (f s).2)) → advances R w (in_world f w).2.
Proof.
  intros Hf. unfold in_world. specialize (Hf (w_store w)). destruct (f (w_store w)) as [a s]. split; [done|].
  exists []. split; [|done]. cbn. destruct (w_metrics w); [|done]. cbn. by rewrite app_nil_r.
Qed.
Lemma advances_then {A} (f : state → A * state) g w w1 a :
  in_world f w = (a, w1) → (∀ s, R (sdb s) (sdb (f s).2)) → own_calls g → advances R w (on_metrics g w1).
Proof.
  intros E Hf Hg. pose proof (advances_in_world f w Hf) as H. rewrite E in H.
  etransitivity; [exact H|by apply advances_metrics].
Qed.
Lemma advances_world {A} (f : state → A * state) w w1 a :
  in_world f w = (a, w1) → (∀ s, R (sdb s) (sdb (f s).2)) → advances R w w1.
Proof. intros E Hf. pose proof (advances_in_world f w Hf) as H. by rewrite E in H. Qed.
End moves.

Lemma send_nil m : metrics.send [] m = m.
Proof. destruct m; [|done]. cbn. by rewrite app_nil_r. Qed.

Lemma advances_mono (R R' : relation db) w w' : (∀ d d', R d d' → R' d d') → advances R w w' → advances R' w w'.
Proof. intros H [? ?]. split; auto. Qed.

(** After the call of [Ew], with or without calls of metrics. *)
Ltac moved Ew :=
  cbn [snd]; first [apply (advances_then _ _ _ _ _ _ Ew) | apply (advances_world _ _ _ _ _ Ew)]; auto with own.
Ltac metric := cbn [snd]; apply advances_metrics; [apply _|auto with own].

(** ** The handlers *)

(** Parameters a handler decodes from a body are ones its store expects. *)
Class FromWire (ingests : store.IngestParams → Prop) (submits : store.SubmitParams → Prop) : Prop := {
  fw_ingest body req p ih :
    json.Decoder_Decode true ingest_fields {| ir_Posts := [] |} body = Ok req → p ∈ ir_Posts req →
    infohash.NormalizeInfohash (rawpost.rp_Magnet p) = Ok ih → ingests (ingestParams p ih);
  fw_submit body req :
    json.Unmarshal submit_fields no_submit body = Ok req →
    submits {| store.sp_Infohash := sr_Infohash req; store.sp_ClaimToken := sr_ClaimToken req;
               store.sp_Status := sr_Status req; store.sp_Ref := sr_Ref req;
               store.sp_Confidence := sr_Confidence req; store.sp_Reason := sr_Reason req |};
}.
#[global] Instance from_wire_anything : FromWire anything anything.
Proof. by split. Qed.

Section one_request.
Context (ingests : store.IngestParams → Prop) (submits : store.SubmitParams → Prop).
Context (steps same : relation db) `{!PreOrder steps} `{!PreOrder same}.
Context (st : store.Store state) `{!MovingStore ingests submits steps same st} `{!FromWire ingests submits}.
Context (validate : string → json.json → option error).

Lemma IngestN_moves p s : ingests p → steps (sdb s) (sdb (store.IngestN st p s).2).
Proof. intros Hp. by apply mv_IngestN. Qed.
Lemma QueueStats_same s : same (sdb s) (sdb (store.store_QueueStats st s).2).
Proof. apply mv_QueueStats. Qed.
Lemma CatalogStats_same s : same (sdb s) (sdb (store.store_CatalogStats st s).2).
Proof. apply mv_CatalogStats. Qed.
Lemma Ping_same s : same (sdb s) (sdb (store.Ping st s).2).
Proof. apply mv_Ping. Qed.
Lemma ClaimTyped_moves req s : steps (sdb s) (sdb (ClaimTyped st req s).2).
Proof. unfold ClaimTyped. rewrite on_ok_state. apply mv_Claim. Qed.
Lemma SubmitTyped_moves body req s :
  json.Unmarshal submit_fields no_submit body = Ok req → steps (sdb s) (sdb (SubmitTyped st req s).2).
Proof. intros Hr. unfold SubmitTyped. case_bool_decide; [|done]. by eapply mv_Submit, fw_submit. Qed.
(** The calls that read. *)
Lemma QueueStatsTyped_same s : same (sdb s) (sdb (QueueStatsTyped st s).2).
Proof. unfold QueueStatsTyped. rewrite on_ok_state. apply mv_QueueStats. Qed.
Lemma ListReleasesTyped_same req s : same (sdb s) (sdb (ListReleasesTyped st req s).2).
Proof. unfold ListReleasesTyped. rewrite on_ok_state. apply mv_ListReleases. Qed.
Lemma GetReleaseTyped_same req s : same (sdb s) (sdb (GetReleaseTyped st req s).2).
Proof.
  unfold GetReleaseTyped. destruct (infohash.NormalizeInfohash _); [done|]. rewrite on_ok_state. apply mv_GetRelease.
Qed.
Lemma ResolveMagnetsTyped_same req s : same (sdb s) (sdb (ResolveMagnetsTyped st req s).2).
Proof. unfold ResolveMagnetsTyped. rewrite on_ok_state. apply mv_ResolveMagnets. Qed.
Hint Resolve IngestN_moves ClaimTyped_moves SubmitTyped_moves QueueStatsTyped_same ListReleasesTyped_same
  GetReleaseTyped_same ResolveMagnetsTyped_same QueueStats_same CatalogStats_same Ping_same : own.

Lemma same_steps w w' : advances same w w' → advances steps w w'.
Proof. apply advances_mono, mv_same. Qed.

Definition expected (posts : list rawpost.RawPost) : Prop :=
  ∀ p, p ∈ posts → utf8_text (rawpost.rp_Source p)
    ∧ ∀ ih, infohash.NormalizeInfohash (rawpost.rp_Magnet p) = Ok ih → ingests (ingestParams p ih).
Lemma ingestBatch_moves posts i b w : expected posts → advances steps w (ingestBatch st posts i b w).2.
Proof.
  intros Hp. revert i b w. induction posts as [|p posts IH]; intros i b w; cbn [ingestBatch]; [done|].
  specialize (IH (λ q Hq, Hp q (list_elem_of_further _ _ _ Hq))). destruct (Hp p (list_elem_of_here _ _)) as [Hs Hih].
  destruct (infohash.NormalizeInfohash _) as [err|ih].
  - destruct (Is err _); [|metric].
    etransitivity; [|apply IH]. metric.
  - destruct (in_world _ w) as [[err|out] w1] eqn:Ew; [moved Ew|].
    destruct (bump out b) as [b' [label|]] eqn:Eb; [apply (f_equal snd), bump_label_text in Eb|].
    + etransitivity; [|apply IH]. moved Ew.
    + etransitivity; [|apply IH]. moved Ew.
Qed.

Lemma handleIngest_moves r w : advances steps w (handleIngest st r w).2.
Proof.
  unfold handleIngest. case_bool_decide; [done|].
  destruct (json.Decoder_Decode _ _ _ _) as [|req] eqn:Ereq; [metric|].
  destruct (_ <? _); [metric|].
  destruct (existsb _ _); [metric|].
  assert (expected (ir_Posts req)) as Hposts.
  { pose proof (ingest_posts_text _ _ Ereq) as Ht. rewrite Forall_forall in Ht. intros p Hp.
    split; [by apply post_text_source, Ht|]. intros ih. by eapply fw_ingest. }
  pose proof (ingestBatch_moves (ir_Posts req) 0 no_batch w Hposts) as Hi.
  destruct (ingestBatch _ _ _ _ w) as [[b [[f msg]|]] w1]; cbn [snd] in *.
  - etransitivity; [exact Hi|]. metric.
  - etransitivity; [exact Hi|].
    destruct (in_world _ w1) as [[err|qs] w2] eqn:Ew; apply same_steps; moved Ew.
Qed.
Lemma handleClaim_moves r w : advances steps w (handleClaim st r w).2.
Proof.
  unfold handleClaim. destruct (requirePost r) as [|b]; [metric|].
  destruct (json.Unmarshal _ _ _) as [|req]; [metric|].
  destruct (in_world _ w) as [[err|out] w1] eqn:Ew; moved Ew.
  destruct (_ =? 0); auto with own.
Qed.
Lemma handleSubmit_moves r w : advances steps w (handleSubmit st r w).2.
Proof.
  unfold handleSubmit. destruct (requirePost r) as [|b]; [metric|].
  destruct (json.Unmarshal _ _ _) as [|req] eqn:Er; [metric|]. pose proof (λ s, SubmitTyped_moves b req s Er).
  destruct (in_world _ w) as [[err|out] w1] eqn:Ew; moved Ew.
Qed.

(** What is not a [POST] does not get past the three writers' guards. *)
Lemma handleIngest_get r w : req_Method r ≠ "POST" → advances same w (handleIngest st r w).2.
Proof. intros Hm. unfold handleIngest. by rewrite bool_decide_eq_true_2. Qed.
Lemma requirePost_get r : req_Method r ≠ "POST" → ∃ resp, requirePost r = inl resp.
Proof. intros Hm. unfold requirePost. rewrite bool_decide_eq_true_2 by done. by eexists. Qed.
Lemma handleClaim_get r w : req_Method r ≠ "POST" → advances same w (handleClaim st r w).2.
Proof. intros [resp E']%requirePost_get. unfold handleClaim. rewrite E'. metric. Qed.
Lemma handleSubmit_get r w : req_Method r ≠ "POST" → advances same w (handleSubmit st r w).2.
Proof. intros [resp E']%requirePost_get. unfold handleSubmit. rewrite E'. metric. Qed.

Lemma handleQueueStats_same r w : advances same w (handleQueueStats st r w).2.
Proof.
  unfold handleQueueStats. case_bool_decide; [done|].
  destruct (in_world _ w) as [[err|out] w1] eqn:Ew; moved Ew.
Qed.
Lemma handleGetMagnet_same r w : advances same w (handleGetMagnet st r w).2.
Proof.
  unfold handleGetMagnet. case_bool_decide; [done|]. destruct (_ || _); [done|].
  destruct (infohash.NormalizeInfohash _); [done|].
  destruct (in_world _ w) as [[err|out] w1] eqn:Ew; [moved Ew|].
  destruct (rms_Magnets out !! _); moved Ew.
Qed.
Lemma handleGetRelease_same r w : advances same w (handleGetRelease st r w).2.
Proof.
  unfold handleGetRelease. case_bool_decide; [done|]. destruct (_ || _); [done|].
  destruct (infohash.NormalizeInfohash _); [done|].
  destruct (in_world _ w) as [[err|out] w1] eqn:Ew; moved Ew.
Qed.

(** ** The tools *)

Lemma addStructuredTool_world {Out} `{ToolOutput Out} tool (h : World state → handled Out * World state) w :
  (addStructuredTool validate tool h w).2 = (h w).2.
Proof. unfold addStructuredTool. by destruct (h w) as [[|] ?]. Qed.
Lemma call_tool_same c dur w : advances same w (call_tool st validate c dur w).2.
Proof.
  destruct c as [i|i|i]; cbn [call_tool];
    unfold addListReleasesTool, addGetReleaseTool, addResolveMagnetsTool; rewrite addStructuredTool_world.
  - unfold list_releases, failed.
    destruct (in_world _ w) as [[err|out] w1] eqn:Ew; moved Ew.
  - unfold get_release, failed.
    destruct (in_world _ w) as [[err|out] w1] eqn:Ew; moved Ew.
  - unfold resolve_magnets, failed.
    destruct (in_world _ w) as [[err|out] w1] eqn:Ew; [moved Ew|].
    etransitivity; [|metric]. moved Ew.
Qed.
Lemma run_session_same s w : advances same w (run_session st validate s w).2.
Proof.
  revert w. induction s as [status text|c dur k IH]; intros w; cbn [run_session]; [done|].
  pose proof (call_tool_same c dur w) as Hc. destruct (call_tool _ _ _ _ w) as [a w1].
  etransitivity; [exact Hc|apply IH].
Qed.

(** ** The muxes *)

Context (sdk : http_request → session).

(** A mux moves the world as the handler it serves does. *)
Lemma NewServeMux_moves (R : relation db) `{!PreOrder R} routes r w :
  (∀ n, n ∈ routes → ServeHTTP routes r = Serve n → advances R w (n.2 r w).2) →
  advances R w (NewServeMux routes r w).2.
Proof.
  intros Hn. unfold NewServeMux, mux_reply. destruct (ServeHTTP routes r) as [n| | |] eqn:E'; [|done..].
  apply Hn; [|done]. by apply ServeHTTP_fits in E' as [? _].
Qed.
Lemma HandleFunc_moves (R : relation db) h r w :
  advances R w (h (to_request r) w).2 → advances R w (HandleFunc (S:=state) h r w).2.
Proof. unfold HandleFunc. by destruct (h _ _). Qed.

(** Case analysis on the handler a mux of a few routes serves. *)
Ltac each_route Hin :=
  rewrite ?elem_of_cons in Hin; destruct_or! Hin; [subst..|by apply not_elem_of_nil in Hin]; cbn [snd handle].

Lemma restAPI_moves r w : advances steps w (restAPI st r w).2.
Proof.
  apply NewServeMux_moves; [apply _|]. intros n Hin _. each_route Hin; apply HandleFunc_moves.
  all: first [apply handleIngest_moves|apply handleClaim_moves|apply handleSubmit_moves|apply same_steps].
  all: first [apply handleGetMagnet_same|apply handleGetRelease_same|apply handleQueueStats_same].
Qed.
Lemma restAPI_get r w : hr_Method r ≠ "POST" → advances same w (restAPI st r w).2.
Proof.
  intros Hm. apply NewServeMux_moves; [apply _|]. intros n Hin _. each_route Hin; apply HandleFunc_moves.
  all: first [by apply handleIngest_get|by apply handleClaim_get|by apply handleSubmit_get
             |apply handleGetMagnet_same|apply handleGetRelease_same|apply handleQueueStats_same].
Qed.
Lemma healthz_same r w : advances same w (healthz st r w).2.
Proof. unfold healthz. destruct (in_world _ w) as [[err|u] w1] eqn:Ew; moved Ew. Qed.
Lemma metrics_same r w : advances same w (metrics_handler st r w).2.
Proof.
  assert (in_world (metrics.Collect st) w
    = (((metrics_handler st r w).1, (metrics.Collect st (w_store w)).1).2, (metrics_handler st r w).2)) as Ew.
  { unfold metrics_handler, in_world. by destruct (metrics.Collect st (w_store w)). }
  apply (advances_world _ _ _ _ _ Ew). intros s. unfold metrics.Collect.
  pose proof (CatalogStats_same s) as H1. destruct (store.store_CatalogStats st s) as [cs s1].
  pose proof (QueueStats_same s1) as H2. destruct (store.store_QueueStats st s1) as [qs s2]. cbn in *. by etransitivity.
Qed.
Lemma mcpSrv_same r w : advances same w (mcpSrv_Handler st validate sdk r w).2.
Proof.
  apply NewServeMux_moves; [apply _|]. intros n Hin _. each_route Hin; [apply run_session_same|apply healthz_same].
Qed.

Lemma takuhai_moves r w : advances steps w (takuhai_mux st validate sdk r w).2.
Proof.
  apply NewServeMux_moves; [apply _|]. intros n Hin _. each_route Hin.
  all: first [apply restAPI_moves|apply same_steps].
  all: first [apply mcpSrv_same|apply healthz_same|apply metrics_same].
Qed.

(** The three endpoints that write. *)
Definition writers : list string := ["/ingest"; "/queue/claim"; "/submit"].
Lemma restAPI_reads r w : valid r → URL_Path r ∉ writers → advances same w (restAPI st r w).2.
Proof.
  intros Hv Hp. apply NewServeMux_moves; [apply _|]. intros n Hin Hs. each_route Hin; apply HandleFunc_moves.
  all: first [apply handleGetMagnet_same|apply handleGetRelease_same|apply handleQueueStats_same
             |exfalso; apply Hp].
  all: apply served_path in Hs; [|done..|vm_compute; set_solver]; rewrite Hs; vm_compute; set_solver.
Qed.
Lemma takuhai_reads r w :
  valid r → hr_Method r ≠ "POST" ∨ URL_Path r ∉ writers → advances same w (takuhai_mux st validate sdk r w).2.
Proof.
  intros Hv Hr. apply NewServeMux_moves; [apply _|]. intros n Hin _. each_route Hin.
  all: first [apply mcpSrv_same|apply healthz_same|apply metrics_same|idtac].
  all: destruct Hr; [by apply restAPI_get|by apply restAPI_reads].
Qed.
End one_request.

(** ** Any number of requests *)

(** A request, with the driver, the SDK and the validator of its time, and
    what other requests and processes call while it is served. *)
Record event := {
  ev_request : http_request;
  ev_others : others;
  ev_env : env;
  ev_sdk : http_request → session;
  ev_validate : string → json.json → option error;
  ev_dur : Duration;
}.
Definition ev_store `{cursor.CursorCodec} (cfg : postgres.StoreConfig) (ev : event) : store.Store state :=
  interleaved cfg (ev_others ev) (listing.pg_store cfg (ev_env ev)).
Definition serve `{cursor.CursorCodec} (cfg : postgres.StoreConfig) (ev : event) (w : World state)
    : reply * World state :=
  takuhai_handler (ev_store cfg ev) (ev_validate ev) (ev_sdk ev) (ev_dur ev) (ev_request ev) w.
Fixpoint serve_all `{cursor.CursorCodec} (cfg : postgres.StoreConfig) (evs : list event) (w : World state)
    : list reply * World state :=
  match evs with
  | [] => ([], w)
  | ev :: evs =>
      let '(rep, w) := serve cfg ev w in
      let '(reps, w) := serve_all cfg evs w in
      (rep :: reps, w)
  end.

(** How a request is counted. *)
Definition count_of (ev : event) (rep : reply) : metrics.sample :=
  metrics.Inc http_requests
    [hr_Method (ev_request ev); metrics.route metrics.takuhai_routes (URL_Path (ev_request ev)); Itoa (r_status rep)].
(** What [net/http] has checked of a request's method. *)
Definition token_method (ev : event) : Prop := validMethod (hr_Method (ev_request ev)) = true.
(** Calls that cannot panic if [tokens], among them exactly the [counts] of
    requests. *)
Definition calls_count (tokens : Prop) (calls counts : list metrics.sample) : Prop :=
  List.filter request_sample calls = counts ∧ (tokens → forallb (metrics.well_labelled metrics.Takuhai) calls = true).

Lemma own_counts tokens calls : forallb own calls = true → calls_count tokens calls [].
Proof.
  induction calls as [|s calls IH]; [done|]. cbn [forallb]. unfold own at 1.
  intros [[Hw Hr%negb_true_iff]%andb_true_iff [H1 H2]%IH]%andb_true_iff.
  split; cbn; [by rewrite Hr|]. intros Ht. by rewrite Hw, H2.
Qed.
Lemma calls_count_app (t1 t2 : Prop) c1 k1 c2 k2 :
  calls_count t1 c1 k1 → calls_count t2 c2 k2 → calls_count (t1 ∧ t2) (c1 ++ c2) (k1 ++ k2).
Proof.
  intros [A1 B1] [A2 B2]. split; [by rewrite List.filter_app, A1, A2|]. intros [H1 H2]. by rewrite forallb_app, B1, B2.
Qed.
Lemma calls_count_if (t t' : Prop) c k : (t' → t) → calls_count t c k → calls_count t' c k.
Proof. intros H [? ?]. split; auto. Qed.

Lemma token_text method : validMethod method = true → utf8_text method.
Proof.
  intros [_ H]%andb_true_iff. apply ascii_utf8. eapply str_forall_impl; [|exact H]. intros c.
  by destruct c as [[] [] [] [] [] [] [] []].
Qed.
Lemma Wrap_counts ev rep m :
  ∃ calls, metrics.Wrap "takuhai" metrics.takuhai_routes (hr_Method (ev_request ev)) (URL_Path (ev_request ev))
             (r_status rep) (ev_dur ev) m = metrics.send calls m
    ∧ calls_count (token_method ev) calls [count_of ev rep].
Proof.
  unfold metrics.Wrap. pose proof (takuhai_route_text (URL_Path (ev_request ev))) as Hp.
  destruct (_ || _); [rewrite send_send|]; eexists; (split; [done|]); (split; [reflexivity|]); intros Hm%token_text.
  all: cbn [forallb app]; labelled.
Qed.

Section life.
Context `{cursor.CursorCodec} (cfg : postgres.StoreConfig).

(** While it is served, clocks show times in [P]. *)
Definition during (P : Time → Prop) (ev : event) : Prop :=
  (∀ k, P (clock (ev_env ev) k)) ∧ others_during P (ev_others ev).
Lemma always ev : during (λ _, True) ev.
Proof. by split. Qed.

Lemma serve_during P ev w rep w' :
  during P ev → serve cfg ev w = (rep, w') →
  rtc (step_during cfg P) (sdb (w_store w)) (sdb (w_store w'))
  ∧ ∃ calls, w_metrics w' = metrics.send calls (w_metrics w) ∧ calls_count (token_method ev) calls [count_of ev rep].
Proof.
  intros [HP Ho]. unfold serve, takuhai_handler, Wrap_handler.
  pose proof (interleaved_moving cfg (ev_env ev) P HP (ev_others ev) Ho) as Hm. fold (ev_store cfg ev) in Hm.
  pose proof (takuhai_moves _ _ _ _ (ev_store cfg ev) (ev_validate ev) (ev_sdk ev) (ev_request ev) w) as [Hs (c1&E1&O1)].
  destruct (takuhai_mux _ _ _ _ w) as [rep1 w1]. intros [= <- <-]. split; [exact Hs|]. cbn [snd] in *.
  destruct (Wrap_counts ev rep1 (w_metrics w1)) as (c2&E2&O2). exists (c1 ++ c2). cbn [w_metrics on_metrics].
  rewrite E2, E1, send_send. split; [done|].
  eapply calls_count_if; [|apply (calls_count_app True (token_method ev) c1 []); [by apply own_counts|exact O2]]. done.
Qed.
Lemma serve_moves ev w rep w' :
  serve cfg ev w = (rep, w') →
  rtc (step_cfg cfg) (sdb (w_store w)) (sdb (w_store w'))
  ∧ ∃ calls, w_metrics w' = metrics.send calls (w_metrics w) ∧ calls_count (token_method ev) calls [count_of ev rep].
Proof. intros [Hs%during_cfg Hm]%(serve_during _ _ _ _ _ (always ev)). by split. Qed.
Lemma serve_all_in P evs w reps w' :
  Forall (during P) evs → serve_all cfg evs w = (reps, w') →
  rtc (step_in P) (sdb (w_store w)) (sdb (w_store w')).
Proof.
  intros HP. revert w reps. induction HP as [|ev evs Hev _ IH]; intros w reps; cbn [serve_all]; [by intros [= _ <-]|].
  destruct (serve cfg ev w) as [rep w1] eqn:E1. apply serve_during with (P := P) in E1 as (Hs1&_); [|done].
  destruct (serve_all cfg evs w1) as [reps2 w2] eqn:E2. intros [= _ <-].
  etransitivity; [by eapply during_in|by eapply IH].
Qed.

Lemma serve_all_steps evs w reps w' :
  serve_all cfg evs w = (reps, w') → rtc (step_cfg cfg) (sdb (w_store w)) (sdb (w_store w')).
Proof.
  revert w reps. induction evs as [|ev evs IH]; intros w reps; cbn [serve_all]; [by intros [= _ <-]|].
  destruct (serve cfg ev w) as [rep w1] eqn:E1. apply serve_moves in E1 as (Hs1&_).
  destruct (serve_all cfg evs w1) as [reps2 w2] eqn:E2. intros [= _ <-]. etransitivity; [exact Hs1|by eapply IH].
Qed.

(** C11: whatever requests come in, in whatever order, each with whatever
    calls of overlapping requests between its own, whatever driver errors,
    clock, competing locks, agent's tool calls and schema checks: the
    database moves only by whole [IngestN], [Claim] and [Submit] operations
    of the service's own configuration, so everything proved of reachable
    databases holds after any of them; every request gets one reply and is
    counted exactly once, under its method, its route and the status of that
    reply; and whatever bytes the requests carry, no call of a metric in
    between can panic, their methods being the tokens [net/http] lets in. *)
Theorem service_life evs w :
  Forall token_method evs →
  let '(replies, w') := serve_all cfg evs w in
  rtc (step_cfg cfg) (sdb (w_store w)) (sdb (w_store w'))
  ∧ length replies = length evs
  ∧ ∃ calls, w_metrics w' = metrics.send calls (w_metrics w)
      ∧ List.filter request_sample calls = zip_with count_of evs replies
      ∧ forallb (metrics.well_labelled metrics.Takuhai) calls = true.
Proof.
  intros Ht. revert w. induction Ht as [|ev evs Hev Ht IH]; intros w; cbn [serve_all].
  { split_and!; [reflexivity..|]. exists []. by rewrite send_nil. }
  destruct (serve cfg ev w) as [rep w1] eqn:E1. apply serve_moves in E1 as (Hs1&c1&M1&O1&L1).
  specialize (IH w1). destruct (serve_all cfg evs w1) as [reps w2]. destruct IH as (Hs2&Hl&c2&M2&O2&L2).
  split_and!; [by etransitivity|cbn [length]; by rewrite Hl|]. exists (c1 ++ c2). rewrite M2, M1, send_send.
  split_and!; [done|by rewrite List.filter_app, O1, O2|by rewrite forallb_app, L1, L2].
Qed.

(** C12: only a [POST] to [/ingest], [/queue/claim] or [/submit] can change the
    database: while any other request is served, to any path and whatever the
    agent behind the MCP endpoint asks for, the database moves only by the
    calls of others. *)
Theorem only_writers_write ev w rep w' :
  valid (ev_request ev) → serve cfg ev w = (rep, w') →
  ¬ rtc (called_by cfg (ev_others ev)) (sdb (w_store w)) (sdb (w_store w')) →
  hr_Method (ev_request ev) = "POST" ∧ URL_Path (ev_request ev) ∈ writers.
Proof.
  intros Hv Es Hne.
  destruct (decide (hr_Method (ev_request ev) = "POST" ∧ URL_Path (ev_request ev) ∈ writers)) as [?|Hn]; [done|].
  destruct Hne. revert Es. unfold serve, takuhai_handler, Wrap_handler. destruct (always ev) as [HP Ho].
  pose proof (interleaved_moving cfg (ev_env ev) _ HP (ev_others ev) Ho) as Hm. fold (ev_store cfg ev) in Hm.
  pose proof (takuhai_reads _ _ _ _ (ev_store cfg ev) (ev_validate ev) (ev_sdk ev) (ev_request ev) w Hv) as Hr.
  destruct (takuhai_mux _ _ _ _ w) as [rep1 w1]. intros [= <- <-]. apply Hr. by apply not_and_l in Hn.
Qed.
End life.

(** A post handed in over HTTP, with an escaped letter in the path. *)
Definition demo_event : event := {|
  ev_request := {| hr_Method := "POST"; hr_EscapedPath := "/%69ngest"; hr_Body := req_Body demo_request; hr_BodyErr := None |};
  ev_others := nobody; ev_env := demo.quiet demo.base; ev_sdk _ := Answer 200 ""; ev_validate _ _ := None; ev_dur := 0;
|}.
(** Two requests in a row, the second with a body that is no UTF-8. *)
Definition demo_noise : event := {|
  ev_request := {| hr_Method := "PUT"; hr_EscapedPath := "/%FF/x"; hr_Body := String (byte_of 255) ""; hr_BodyErr := None |};
  ev_others := nobody; ev_env := demo.quiet demo.base; ev_sdk _ := Answer 200 ""; ev_validate _ _ := None; ev_dur := 0;
|}.
Lemma service_life_witness :
  Forall token_method [demo_event; demo_noise]
  ∧ length (serve_all demo.cfg [demo_event; demo_noise] (demo_world empty_db)).1 = 2%nat.
Proof.
  assert (Forall token_method [demo_event; demo_noise]) as H by (repeat constructor). split; [exact H|].
  pose proof (service_life demo.cfg [demo_event; demo_noise] (demo_world empty_db) H) as Hl.
  destruct (serve_all demo.cfg [demo_event; demo_noise] (demo_world empty_db)) as [replies w']. apply Hl.
Defined.
Lemma only_writers_write_witness :
  hr_Method (ev_request demo_event) = "POST" ∧ URL_Path (ev_request demo_event) ∈ writers.
Proof.
  apply (only_writers_write demo.cfg demo_event (demo_world empty_db)
    (serve demo.cfg demo_event (demo_world empty_db)).1 (serve demo.cfg demo_event (demo_world empty_db)).2).
  - split; [reflexivity|]. exists "/ingest". reflexivity.
  - apply surjective_pairing.
  - intros E%called_by_nobody%(f_equal (λ d, length (raw_items d))). vm_compute in E. discriminate.
Defined.
