(* ===== verification/ResponseThms.v ===== *)
(** * Every answer of the service reads back

    Over the whole life of the service, with whatever bytes clients send: the
    tables hold UTF-8 text and finite numbers, every value a handler answers
    with has a JSON text, and that text parses to exactly the value. *)

From S2P Require Import Prelude GoStrings GoTime GoTimeFmt GoHttp GoServeMux GoJson GoJsonThms GoJsonText GoJsonFields.
From S2P Require Import GoFloatText Infohash Store Cursor CursorCodec Db Postgres StoreSpec StoreInv Queue QueueThms Listing.
From S2P Require Import ListingThms DetailThms Rawpost Metrics Dispatch Rest RestThms Interleave StoreText RequestText.
From S2P Require Import ResponseText ResponseTextThms Mcp McpThms Service ServiceThms.
Import json floattext dispatch rest responses mcp mux service.

(** ** What the requests carry is what the store expects *)

Lemma canonical_text ih : infohash.canonical ih → utf8_text ih.
Proof. intros H. by apply canonical_ascii, canonical_is. Qed.

#[global] Instance from_wire_text : FromWire ingest_text submit_text.
Proof.
  split.
  - intros body req p ih Hd Hp Hih. eapply (Decoder_keeps _ _ ingest_fields_keep) in Hd; [|constructor].
    rewrite Forall_forall in Hd. specialize (Hd _ Hp). unfold post_text in Hd. rewrite !Forall_cons in Hd.
    apply infohash.normalize_canonical, canonical_text in Hih. by destruct Hd as (?&?&?&?&?&_).
  - intros body req Hd. eapply (Unmarshal_keeps _ _ submit_fields_keep) in Hd; [|by repeat constructor].
    destruct Hd as [Hd ?]. rewrite !Forall_cons in Hd. by destruct Hd as (?&?&?&_).
Qed.

(** ** What the operations answer is text *)

Lemma format_text t : utf8_text (Format_RFC3339Nano t).
Proof. apply ascii_utf8, Format_ascii. Qed.
#[local] Arguments Format_RFC3339Nano : simpl never.
Create HintDb text.
#[local] Hint Resolve format_text : text.
Ltac texts := repeat (constructor; [by auto with text|]); try constructor; auto with text.

Lemma default_text o : text_or_none o → utf8_text (default "" o).
Proof. by destruct o. Qed.
Lemma option_list_text o : text_or_none o → Forall utf8_text (option_list o).
Proof. destruct o; cbn; repeat constructor; done. Qed.
#[local] Hint Resolve default_text option_list_text : text.

Lemma claim_item_ok_text it : claimed_text it → claim_item_ok utf8_text (claim_item it).
Proof.
  intros [H1 H2]. split; [cbn; by texts|]. cbn. apply Forall_fmap. eapply Forall_impl; [exact H2|].
  intros ri (?&?&?&?). unfold raw_item_ok. cbn. by texts.
Qed.
Lemma get_release_ok_text ih r d :
  db_text d → row_text r → get_release_ok utf8_text (get_release_result (detail_of ih r d)).
Proof.
  intros Hd []. unfold detail_of, listing.release_detail, get_release_result. split_and!; cbn.
  - assert (utf8_text (status_string (r_match_status r))) by by destruct (r_match_status r).
    texts. rewrite !Forall_app. split_and!; auto with text.
    unfold timeStringPtr. destruct (r_first_matched_at r); cbn; by texts.
  - apply Forall_fmap. eapply Forall_impl; [apply (items_text ih d Hd)|]. intros ri (?&?&?&?).
    unfold raw_item_detail_ok. cbn. texts.
  - apply Forall_fmap. eapply Forall_impl; [apply (events_text ih d Hd)|]. intros e (?&?&?&?).
    unfold match_event_ok. cbn. texts. rewrite Forall_app. auto with text.
Qed.
Lemma release_item_ok_text it : page_item_text it → release_item_ok utf8_text (release_item_result it).
Proof. intros (?&?&?&?&?). unfold release_item_ok. cbn. by texts. Qed.

(** The floats of a detail are finite, so it has a text. *)
Lemma jfloat_finite x : finite x = true → is_Some (jfloat x).
Proof. intros [s Hs]%encode_float_finite. unfold jfloat. rewrite Hs. by eexists. Qed.
Lemma jfloat_ptr_finite o : finite_or_none o → is_Some (jfloat_ptr o).
Proof. destruct o; [apply jfloat_finite|by eexists]. Qed.
Lemma get_release_has_text ih r d :
  db_text d → row_text r → is_Some (get_release_json (get_release_result (detail_of ih r d))).
Proof.
  intros Hd [_ _ _ _ _ Hc]. unfold get_release_json. cbn [get_release_result grr_Confidence grr_MatchEvents detail_of
    listing.release_detail store.rd_Confidence store.rd_MatchEvents].
  destruct (jfloat_ptr_finite _ Hc) as [c ->]. cbn [mbind option_bind].
  assert (is_Some (mapM match_event_json (match_event_result <$> listing.match_events_sql ih d))) as [es ->]; [|by eexists].
  apply mapM_is_Some, Forall_fmap. eapply Forall_impl; [apply (events_text ih d Hd)|]. intros e (_&_&He&_).
  unfold compose, match_event_json. cbn [match_event_result mer_Confidence]. destruct (jfloat_ptr_finite _ He) as [x ->]. by eexists.
Qed.

(** ** The typed operations *)

Section typed.
Context `{cursor.CursorCodec} (cfg : postgres.StoreConfig) (E : env) (o : others) (Ho : others_text o).
Abbreviation st := (interleaved cfg o (listing.pg_store cfg E)).

(** What a call of the store finds is text. *)
Lemma found_text s : db_text (sdb s) → db_text (sdb (meanwhile cfg o s)).
Proof. by apply meanwhile_text. Qed.

Lemma ClaimTyped_text req s out s' : db_text (sdb s) → ClaimTyped st req s = (Ok out, s') → claim_ok utf8_text out.
Proof.
  intros Hd%found_text. unfold ClaimTyped.
  change (store.Claim st ?p s) with (postgres.Claim cfg p E (meanwhile cfg o s)).
  destruct (postgres.Claim _ _ _ _) as [[err|res] s1] eqn:Ec; cbn [on_ok]; [done|]. intros [= <- _].
  apply Claim_text in Ec; [|done]. apply Forall_fmap. eapply Forall_impl; [exact Ec|]. apply claim_item_ok_text.
Qed.
Lemma ListReleasesTyped_text req s out s' :
  db_text (sdb s) → ListReleasesTyped st req s = (Ok out, s') →
  list_releases_ok utf8_text out ∧ is_Some (list_releases_json out).
Proof.
  intros Hd%found_text. unfold ListReleasesTyped.
  change (store.ListReleases st ?p s) with (listing.ListReleases p E (meanwhile cfg o s)).
  destruct (listing.ListReleases _ _ _) as [[err|page] s1] eqn:Ec; cbn [on_ok]; [done|]. intros [= <- _].
  apply ListReleases_text in Ec as [Hr Hc]; [|done]. split; [split; cbn|].
  - apply Forall_fmap. eapply Forall_impl; [exact Hr|]. apply release_item_ok_text.
  - by case_bool_decide.
  - unfold list_releases_json. cbn [lrr_Releases].
    assert (is_Some (mapM release_item_json (release_item_result <$> store.rp_Releases page))) as [rs ->]; [|by eexists].
    apply mapM_is_Some, Forall_fmap. eapply Forall_impl; [exact Hr|]. intros it (_&_&_&Hf&_).
    unfold compose, release_item_json. cbn [release_item_result rel_Confidence].
    destruct (jfloat_finite _ Hf) as [c ->]. by eexists.
Qed.
Lemma GetReleaseTyped_text req s out s' :
  db_text (sdb s) → GetReleaseTyped st req s = (Ok out, s') →
  get_release_ok utf8_text out ∧ is_Some (get_release_json out).
Proof.
  intros Hd%found_text. unfold GetReleaseTyped. destruct (infohash.NormalizeInfohash _) as [|ih]; [done|].
  change (store.GetRelease st ?p s) with (listing.GetRelease p E (meanwhile cfg o s)).
  destruct (listing.GetRelease _ _ _) as [[err|det] s1] eqn:Ec; cbn [on_ok]; [done|]. intros [= <- _].
  apply GetRelease_found in Ec as (row&Hr&->). pose proof (dt_releases _ Hd _ _ Hr) as Hrow.
  split; [by apply get_release_ok_text|by apply get_release_has_text].
Qed.
Lemma ResolveMagnetsTyped_text req s out s' :
  db_text (sdb s) → ResolveMagnetsTyped st req s = (Ok out, s') → resolve_magnets_ok utf8_text out.
Proof.
  intros Hd%found_text. unfold ResolveMagnetsTyped.
  change (store.ResolveMagnets st ?p s) with (listing.ResolveMagnets p E (meanwhile cfg o s)).
  destruct (listing.ResolveMagnets _ _ _) as [[err|found] s1] eqn:Ec; cbn [on_ok]; [done|]. intros [= <- _].
  by apply ResolveMagnets_text in Ec.
Qed.

(** The operations on bytes fail exactly when the request is no JSON of its
    type or the operation does; otherwise the text parses to the result. *)
Definition answers_in_text {Req Out} (fields : list (field Req)) (zero : Req) (op : Req → state → result Out * state)
    (tree : Out → option json) (input : string) (s : state) (ans : result string) : Prop :=
  match ans with
  | Err e => Unmarshal fields zero input = Err e ∨ ∃ req, Unmarshal fields zero input = Ok req ∧ (op req s).1 = Err e
  | Ok text => ∃ req out j, Unmarshal fields zero input = Ok req ∧ (op req s).1 = Ok out ∧ tree out = Some j ∧ parse text = Some j
  end.
Lemma on_bytes_text {Req Out} fields (zero : Req) op (tree : Out → option json) n input (s : state) :
  Z.of_nat n ≤ maxNestingDepth →
  (∀ req out s', op req s = (Ok out, s') → ∃ j, tree out = Some j ∧ GoJsonText.fits utf8_text n j) →
  answers_in_text fields zero op tree input s (on_bytes fields zero op (λ out, Marshal (tree out)) input s).1.
Proof.
  intros Hn Hop. unfold answers_in_text, on_bytes. destruct (Unmarshal fields zero input) as [e|req] eqn:Er; [by left|].
  specialize (Hop req). destruct (op req s) as [[e|out] s1] eqn:Eo; cbn [fst].
  { right. exists req. by rewrite Eo. }
  destruct (Hop _ _ eq_refl) as (j&Hj&Hf). rewrite Hj. cbn [Marshal fst]. exists req, out, j. rewrite Eo.
  split_and!; [done..|]. rewrite <-(str_app_nil_r (encode j)). eapply fits_parse_text; [done..|by left].
Qed.
Theorem dispatcher_reads_back input s :
  db_text (sdb s) →
  answers_in_text claim_fields no_claim (ClaimTyped st) (λ v, Some (claim_json v)) input s (responses.Claim st input s).1
  ∧ answers_in_text list_fields {| lr_Ref := ""; lr_Since := None; lr_Limit := 0; lr_Cursor := "" |} (ListReleasesTyped st)
      list_releases_json input s (responses.ListReleases st input s).1
  ∧ answers_in_text get_fields {| grq_Infohash := "" |} (GetReleaseTyped st) get_release_json input s
      (responses.GetRelease st input s).1
  ∧ answers_in_text resolve_fields {| rmr_Infohashes := [] |} (ResolveMagnetsTyped st)
      (λ v, Some (resolve_magnets_json v)) input s (responses.ResolveMagnets st input s).1.
Proof.
  intros Hd. split_and!.
  - apply (on_bytes_text _ _ _ _ 5); [done|]. intros req out s' Ho'. eexists. split; [done|].
    apply (claim_fits _ ascii_utf8 0). by eapply ClaimTyped_text.
  - apply (on_bytes_text _ _ _ _ 4); [done|]. intros req out s' Ho'.
    destruct (ListReleasesTyped_text _ _ _ _ Hd Ho') as [Hok [j Hj]]. exists j. split; [done|].
    by eapply (list_releases_fits _ ascii_utf8 0).
  - apply (on_bytes_text _ _ _ _ 3); [done|]. intros req out s' Ho'.
    destruct (GetReleaseTyped_text _ _ _ _ Hd Ho') as [Hok [j Hj]]. exists j. split; [done|].
    by eapply (get_release_fits _ ascii_utf8 0).
  - apply (on_bytes_text _ _ _ _ 2); [done|]. intros req out s' Ho'. eexists. split; [done|].
    apply (resolve_magnets_fits _ ascii_utf8 0). by eapply ResolveMagnetsTyped_text.
Qed.
End typed.

(** ** The REST handlers *)

(** What a client can make of a body with its status.  A body with 200 is the
    JSON text of the very value it stands for, or [{"ok":true}]; a body of the
    JSON error format comes with another status and parses to its code,
    infohash and message, with the bytes repaired that are no UTF-8; plain
    text comes with another status too. *)
Definition reads_as_meant (Error : error → string) (st : Z) (b : content payload) : Prop :=
  match b with
  | Plain _ => st ≠ StatusOK
  | Failure e => st ≠ StatusOK ∧ parse (body_text Error b) = Some (repaired (error_json Error e))
      ∧ (Forall utf8_text [er_Code e; er_Infohash e; message_text Error (er_Message e)] →
         parse (body_text Error b) = Some (error_json Error e))
  | Raw s => st = StatusOK ∧ parse (body_text Error b) = Some (JObject [("ok", JBool true)])
  | Encoded v => st = StatusOK ∧ ∃ j, payload_json v = Some j ∧ parse (body_text Error b) = Some j
  end.

Lemma omitempty_ok k s : utf8_text k → utf8_text s → Forall (λ m, valid_utf8 0 m.1 = true ∧ json_ok m.2) (omitempty k s).
Proof. intros Hk Hs. unfold omitempty. case_bool_decide; repeat constructor; done. Qed.
Lemma error_json_exact Error e :
  Forall utf8_text [er_Code e; er_Infohash e; message_text Error (er_Message e)] →
  repaired (error_json Error e) = error_json Error e.
Proof.
  rewrite !Forall_cons. intros (Hc&Hi&Hm&_). apply json_ok_shape. unfold error_json. constructor.
  apply Forall_app. split; [by apply omitempty_ok|]. apply Forall_app. split; [by apply omitempty_ok|].
  by repeat constructor.
Qed.
Lemma failure_reads Error st e : st ≠ StatusOK → reads_as_meant Error st (Failure e).
Proof.
  intros Hst. assert (parse (body_text Error (Failure e)) = Some (repaired (error_json Error e))) as Hp.
  { cbn [body_text]. apply (fits_parse (λ _, True) 1); [|done|by right].
    unfold error_json. apply fits_object. apply Forall_app. split; [by apply (omitempty_fits (λ _, True))|].
    apply Forall_app. split; [by apply (omitempty_fits (λ _, True))|]. repeat constructor. }
  split_and!; [done..|]. intros Ht. by rewrite Hp, error_json_exact.
Qed.
Lemma encoded_reads Error v j :
  payload_ok utf8_text v → payload_json v = Some j → reads_as_meant Error StatusOK (Encoded v).
Proof.
  intros Hv Hj. split; [done|]. exists j. split; [done|]. cbn [body_text]. rewrite Hj.
  apply (fits_parse_text 5); [|done|by right]. eapply payload_fits; [apply ascii_utf8|done..].
Qed.
Lemma ok_reads Error s : s = "{" +:+ quote "ok" +:+ ":true}" → reads_as_meant Error StatusOK (Raw s).
Proof. intros ->. split; [done|]. vm_compute. reflexivity. Qed.

Section handlers.
Context `{cursor.CursorCodec} (cfg : postgres.StoreConfig) (E : env) (o : others) (Ho : others_text o) (Error : error → string).
Abbreviation st := (interleaved cfg o (listing.pg_store cfg E)).
Abbreviation db_of w := (sdb (w_store w)).
Abbreviation reads_body resp := (reads_as_meant Error (status resp) (body resp)).

Lemma bad_input_reads msg : reads_body (writeBadInput msg).
Proof. by apply failure_reads. Qed.
Lemma dispatch_error_reads ih err : reads_body (writeDispatchError ih err).
Proof.
  unfold writeDispatchError. repeat case_bool_decide; by apply failure_reads.
Qed.
Lemma requirePost_reads r resp : requirePost r = inl resp → reads_body resp.
Proof.
  unfold requirePost. case_bool_decide; [intros [= <-]; by apply failure_reads|].
  destruct (ReadAll r); [intros [= <-]; by apply failure_reads|done].
Qed.

Lemma handleIngest_reads r w : reads_body (handleIngest st r w).1.
Proof.
  unfold handleIngest. case_bool_decide; [done|]. destruct (Decoder_Decode _ _ _ _) as [|req]; [done|].
  destruct (_ <? _); [done|]. destruct (existsb _ _); [done|].
  destruct (ingestBatch _ _ _ _ w) as [[b [[f msg]|]] w1]; [done|].
  destruct (in_world _ w1) as [[err|qs] w2]; [done|]. by eapply encoded_reads.
Qed.
Lemma handleQueueStats_reads r w : reads_body (handleQueueStats st r w).1.
Proof.
  unfold handleQueueStats. case_bool_decide; [by apply failure_reads|].
  destruct (in_world _ w) as [[err|out] w1]; [apply dispatch_error_reads|by eapply encoded_reads].
Qed.
Lemma handleSubmit_reads r w : reads_body (handleSubmit st r w).1.
Proof.
  unfold handleSubmit. destruct (requirePost r) as [resp|b] eqn:Er; [by eapply requirePost_reads|].
  destruct (Unmarshal _ _ _) as [|req]; [apply bad_input_reads|].
  destruct (in_world _ w) as [[err|out] w1]; [apply dispatch_error_reads|by apply ok_reads].
Qed.

Lemma handleClaim_reads r w : db_text (db_of w) → reads_body (handleClaim st r w).1.
Proof.
  intros Hd. unfold handleClaim. destruct (requirePost r) as [resp|b] eqn:Er; [by eapply requirePost_reads|].
  destruct (Unmarshal _ _ _) as [|req]; [apply bad_input_reads|]. unfold in_world.
  destruct (ClaimTyped _ _ _) as [[err|out] s1] eqn:Ec; [apply dispatch_error_reads|].
  eapply encoded_reads; [|done]. by eapply ClaimTyped_text.
Qed.
Lemma handleGetMagnet_reads r w : db_text (db_of w) → reads_body (handleGetMagnet st r w).1.
Proof.
  intros Hd. unfold handleGetMagnet. case_bool_decide; [by apply failure_reads|].
  destruct (_ || _); [apply bad_input_reads|]. destruct (infohash.NormalizeInfohash _) as [|ih]; [apply bad_input_reads|].
  unfold in_world. destruct (ResolveMagnetsTyped _ _ _) as [[err|out] s1] eqn:Ec; [apply dispatch_error_reads|].
  apply ResolveMagnetsTyped_text in Ec; [|done..].
  destruct (rms_Magnets out !! ih) as [magnet|] eqn:Em; [|by apply failure_reads]. eapply encoded_reads; [|done]. by apply Ec.
Qed.
Lemma handleGetRelease_reads r w : db_text (db_of w) → reads_body (handleGetRelease st r w).1.
Proof.
  intros Hd. unfold handleGetRelease. case_bool_decide; [by apply failure_reads|].
  destruct (_ || _); [apply bad_input_reads|]. destruct (infohash.NormalizeInfohash _) as [|ih]; [apply bad_input_reads|].
  unfold in_world. destruct (GetReleaseTyped _ _ _) as [[err|out] s1] eqn:Ec; [apply dispatch_error_reads|].
  apply GetReleaseTyped_text in Ec as [Hok [j Hj]]; [|done..]. by eapply encoded_reads.
Qed.
End handlers.

(** ** The consumer's tools *)

(** Only the schema's own check can refuse what a tool found. *)
Definition refused_by_schema (validate : string → json → option error) (tool : string) (ans : result CallToolResult) : Prop :=
  ∀ e, ans = Err e → ∃ v err, validate tool v = Some err ∧ e = wrapf "validating tool output: %w" [] err.

Section tools.
Context `{cursor.CursorCodec} (cfg : postgres.StoreConfig) (E : env) (o : others) (Ho : others_text o).
Context (validate : string → json → option error).
Abbreviation st := (interleaved cfg o (listing.pg_store cfg E)).

Lemma structured_refused {Out} `{ToolOutput Out} tool (h : World state → handled Out * World state) w :
  match (h w).1 with inl _ => True | inr out => ∃ j v, tool_json out = Some j ∧ parse (encode j) = Some v end →
  refused_by_schema validate tool (addStructuredTool validate tool h w).1.
Proof.
  intros Hh e. unfold addStructuredTool. destruct (h w) as [[res|out] w1]; [done|]. destruct Hh as (j&v&Hj&Hv).
  rewrite Hj. cbn [Marshal]. rewrite Hv. destruct (validate tool v) as [err|] eqn:Ev; [|done]. intros [= <-]. by exists v, err.
Qed.
Lemma call_tool_refused c dur w :
  db_text (sdb (w_store w)) → refused_by_schema validate (tool_name c) (call_tool st validate c dur w).1.
Proof.
  intros Hd. destruct c as [i|i|i]; apply structured_refused.
  - unfold list_releases, in_world, failed. destruct (ListReleasesTyped _ _ _) as [[err|out] s1] eqn:Ec; cbn [fst]; [done|].
    apply ListReleasesTyped_text in Ec as [_ [j Hj]]; [|done..]. exists j, (repaired j). split; [done|].
    by eapply list_releases_parses.
  - unfold get_release, in_world, failed. destruct (GetReleaseTyped _ _ _) as [[err|out] s1] eqn:Ec; cbn [fst]; [done|].
    apply GetReleaseTyped_text in Ec as [_ [j Hj]]; [|done..]. exists j, (repaired j). split; [done|].
    by eapply get_release_parses.
  - unfold resolve_magnets, in_world, failed. destruct (ResolveMagnetsTyped _ _ _) as [[err|out] s1]; cbn [fst]; [done|].
    eexists _, _. split; [done|]. apply resolve_magnets_parses.
Qed.
End tools.

(** ** The service *)

Definition reply_reads (Error : error → string) (rep : reply) : Prop :=
  match r_body rep with FromREST b => reads_as_meant Error (r_status rep) b | _ => True end.

Section service.
Context `{cursor.CursorCodec} (cfg : postgres.StoreConfig) (Error : error → string).

Lemma NewServeMux_replies (Q : reply → Prop) routes r (w : World state) :
  (∀ st loc, Q {| r_status := st; r_body := Location loc |}) →
  (∀ st m, st ≠ StatusOK → Q {| r_status := st; r_body := FromREST (Plain m) |}) → (∀ st, Q {| r_status := st; r_body := NoBody |}) →
  (∀ n : pattern * (http_request → World state → reply * World state), n ∈ routes → Q (n.2 r w).1) →
  Q (NewServeMux routes r w).1.
Proof.
  intros H1 H2 H3 Hn. unfold NewServeMux, mux_reply.
  destruct (ServeHTTP routes r) as [n| | |] eqn:Es; cbn [fst]; [|done|by apply H2|done].
  apply ServeHTTP_fits in Es as [Hin _]. by apply Hn.
Qed.
Lemma HandleFunc_reads h r (w : World state) :
  reads_as_meant Error (status (h (to_request r) w).1) (body (h (to_request r) w).1) → reply_reads Error (HandleFunc h r w).1.
Proof. unfold HandleFunc, reply_reads. by destruct (h _ _). Qed.
Lemma run_session_reads st validate s (w : World state) : reply_reads Error (run_session st validate s w).1.
Proof.
  revert w. induction s as [status text|c dur k IH]; intros w; cbn [run_session]; [done|].
  destruct (call_tool _ _ _ _ w) as [a w1]. apply IH.
Qed.
Ltac own_replies := try by intros.

Lemma serve_reads ev w rep w' :
  others_text (ev_others ev) → db_text (sdb (w_store w)) → serve cfg ev w = (rep, w') →
  reply_reads Error rep ∧ db_text (sdb (w_store w')).
Proof.
  intros Ho Hd. unfold serve, takuhai_handler, Wrap_handler.
  pose proof (text_moving cfg (ev_env ev) (ev_others ev) Ho) as Hm. fold (ev_store cfg ev) in Hm.
  pose proof (takuhai_moves _ _ _ _ (ev_store cfg ev) (ev_validate ev) (ev_sdk ev) (ev_request ev) w) as [Hk _].
  assert (reply_reads Error (takuhai_mux (ev_store cfg ev) (ev_validate ev) (ev_sdk ev) (ev_request ev) w).1) as Hr.
  2:{ destruct (takuhai_mux _ _ _ _ w) as [rep1 w1]. intros [= <- <-]. split; [exact Hr|]. by apply Hk. }
  clear Hm Hk. assert (reply_reads Error (restAPI (ev_store cfg ev) (ev_request ev) w).1) as Hrest.
  { apply (NewServeMux_replies (reply_reads Error)); own_replies. intros n Hin.
    rewrite ?elem_of_cons in Hin. destruct_or! Hin; [subst..|by apply not_elem_of_nil in Hin]; apply HandleFunc_reads.
    - apply handleIngest_reads.
    - by apply handleGetMagnet_reads.
    - by apply handleGetRelease_reads.
    - by apply handleClaim_reads.
    - apply handleQueueStats_reads.
    - apply handleSubmit_reads. }
  assert (reply_reads Error (healthz (ev_store cfg ev) (ev_request ev) w).1) as Hhz.
  { unfold healthz. by destruct (in_world _ w) as [[|] ?]. }
  apply (NewServeMux_replies (reply_reads Error)); own_replies. intros n Hin.
  rewrite ?elem_of_cons in Hin. destruct_or! Hin; [subst..|by apply not_elem_of_nil in Hin]; try exact Hrest; try exact Hhz.
  - apply (NewServeMux_replies (reply_reads Error)); own_replies. intros n Hin.
    rewrite ?elem_of_cons in Hin. destruct_or! Hin; [subst..|by apply not_elem_of_nil in Hin]; [|exact Hhz].
    apply run_session_reads.
  - cbn [snd handle]. unfold metrics_handler. by destruct (metrics.Collect _ _).
Qed.

(** C26: start with tables that hold UTF-8 text and finite numbers, and let
    every other caller of the store hand it UTF-8 text; then over any sequence
    of requests, with whatever bytes clients send and whatever the driver
    does, the tables hold such text and numbers for good, and every answer of
    the REST surface and of the mux around it can be read.  An answer with
    200 is a value that has a JSON text, which parses to exactly that value,
    or an accepted submission's [{"ok":true}].  Any other answer is of the
    JSON error format, and parses to exactly its code, infohash and message
    when these are UTF-8 text and to the same with the foreign bytes replaced
    when not, or it is a plain text - the failures of [/ingest], the mux's own
    404 -, which never comes with 200.  (The SDK's answers, the scrapes and
    the health check are not JSON of the service's making.) *)
Theorem answers_read_back evs w reps w' :
  Forall (λ ev, others_text (ev_others ev)) evs → db_text (sdb (w_store w)) →
  serve_all cfg evs w = (reps, w') →
  Forall (reply_reads Error) reps ∧ db_text (sdb (w_store w')).
Proof.
  intros Ho. revert w reps. induction Ho as [|ev evs Hev _ IH]; intros w reps Hd; cbn [serve_all].
  { intros [= <- <-]. by split; [constructor|]. }
  destruct (serve cfg ev w) as [rep w1] eqn:E1. apply serve_reads in E1 as [Hr Hd1]; [|done..].
  destruct (serve_all cfg evs w1) as [reps2 w2] eqn:E2. intros [= <- <-].
  apply IH in E2 as [Hrs Hd2]; [|done]. split; [by constructor|done].
Qed.
End service.

(** A post handed in and the queue looked at. *)
Definition stats_event : event := {|
  ev_request := {| hr_Method := "GET"; hr_EscapedPath := "/queue/stats"; hr_Body := ""; hr_BodyErr := None |};
  ev_others := nobody; ev_env := demo.quiet demo.base; ev_sdk _ := Answer 200 ""; ev_validate _ _ := None; ev_dur := 0;
|}.
Lemma nobody_text : others_text nobody.
Proof. intros n c Hc. by apply not_elem_of_nil in Hc. Qed.
Lemma answers_read_back_witness :
  let '(reps, w) := serve_all demo.cfg [demo_event; stats_event] (demo_world empty_db) in
  r_status <$> reps = [200; 200] ∧ Forall (reply_reads err_text) reps ∧ db_text (sdb (w_store w)).
Proof.
  destruct (serve_all demo.cfg [demo_event; stats_event] (demo_world empty_db)) as [reps w] eqn:E.
  destruct (answers_read_back demo.cfg err_text [demo_event; stats_event] (demo_world empty_db) reps w) as [Hr Hd].
  - constructor; [exact nobody_text|]. constructor; [exact nobody_text|constructor].
  - exact empty_db_text.
  - exact E.
  - split; [|split; [exact Hr|exact Hd]].
    change reps with ((reps, w).1). rewrite <-E. vm_compute. reflexivity.
Defined.
Example stats_text :
  body_text err_text (Encoded (PStats {| qsr_Available := 1; qsr_Leased := 0; qsr_Unmatched := 1; qsr_Matched := 0;
    qsr_Suppressed := 0; qsr_Exhausted := 0 |}))
  = "{" +:+ quote "available" +:+ ":1," +:+ quote "leased" +:+ ":0," +:+ quote "unmatched" +:+ ":1,"
    +:+ quote "matched" +:+ ":0," +:+ quote "suppressed" +:+ ":0," +:+ quote "exhausted" +:+ ":0}" +:+ newline.
Proof. vm_compute. reflexivity. Qed.
