(* ===== verification/Pipeline.v ===== *)
(** * From a crawler's post to a consumer's answer

    Theorems across the whole service: a post that [POST /ingest] has
    accepted, and a verdict that [POST /submit] has accepted, are what a
    consumer gets back from then on, whatever requests come in between. *)

From S2P Require Import Prelude GoStrings GoTime GoTimeFmt GoHttp GoServeMux GoJson Infohash Store Cursor CursorCodec Db.
From S2P Require Import GoJsonText RequestText.
From S2P Require Import Postgres StoreSpec StoreInv Queue QueueThms Listing ListingThms DetailThms Rawpost Metrics.
From S2P Require Import Dispatch Rest RestThms Interleave Mcp McpThms Service ServiceThms.
From Stdlib Require Import Ascii.
Import dispatch rest mcp mux service.

(** ** What a batch leaves in the tables *)

(** The raw item of a post, under the infohash its magnet names. *)
Definition stored (p : rawpost.RawPost) (ih : string) (d : db) : Prop :=
  ∃ ri, ri ∈ raw_items d ∧ raw_infohash ri = ih
    ∧ raw_source ri = rawpost.rp_Source p ∧ raw_source_id ri = rawpost.rp_SourceID p
    ∧ raw_title ri = rawpost.rp_Title p ∧ raw_url ri = rawpost.rp_URL p.
(** Two posts with the same key at their source. *)
Definition same_key (p q : rawpost.RawPost) : Prop :=
  rawpost.rp_Source p = rawpost.rp_Source q ∧ rawpost.rp_SourceID p = rawpost.rp_SourceID q.
Definition seen (p : rawpost.RawPost) (d : db) : Prop := known (ingestParams p "") d.

(** The raw item of a post's key, which may be of an earlier post. *)
Definition keyed (p : rawpost.RawPost) (ri : raw_item_row) : Prop :=
  raw_source ri = rawpost.rp_Source p ∧ raw_source_id ri = rawpost.rp_SourceID p.
Definition present (p : rawpost.RawPost) (d : db) : Prop := ∃ ri, ri ∈ raw_items d ∧ keyed p ri.

Lemma seen_present p ih d : known (ingestParams p ih) d → present p d.
Proof.
  unfold known. intros (ri&Hin&Hs)%existsb_exists. exists ri. split; [by apply list_elem_of_In|].
  unfold postgres.same_source in Hs. cbn in Hs. bool_hyps. by split.
Qed.
Lemma keyed_unique p d r1 r2 : db_ok d → r1 ∈ raw_items d → r2 ∈ raw_items d → keyed p r1 → keyed p r2 → r1 = r2.
Proof.
  intros Hok Hin1 Hin2 [Hs1 Hi1] [Hs2 Hi2]. pose proof (ok_raw_unique _ Hok) as Hnd.
  apply list_elem_of_lookup in Hin1 as [i1 H1], Hin2 as [i2 H2].
  assert (i1 = i2) as ->; [|congruence].
  eapply (NoDup_lookup _ _ _ (raw_source r1, raw_source_id r1) Hnd); rewrite list_lookup_fmap; [by rewrite H1|].
  rewrite H2. cbn. congruence.
Qed.

Lemma ingest_spec_items now prm d out d' :
  postgres.isCanonicalInfohash (store.ip_Infohash prm) = true → ingest_spec now prm d = Ok (out, d') →
  if existsb (postgres.same_source prm) (raw_items d) then raw_items d' = raw_items d
  else raw_items d' = raw_items d ++ [new_raw_item prm now (raw_items_id_seq d)].
Proof.
  unfold ingest_spec. intros ->. cbn [negb].
  destruct (releases d !! store.ip_Infohash prm), (existsb _ _); by intros [= <- <-].
Qed.

Lemma IngestN_items `{cursor.CursorCodec} cfg E prm s out s' :
  postgres.isCanonicalInfohash (store.ip_Infohash prm) = true →
  store.IngestN (listing.pg_store cfg E) prm s = (Ok out, s') →
  if existsb (postgres.same_source prm) (raw_items (sdb s)) then raw_items (sdb s') = raw_items (sdb s)
  else ∃ now id, raw_items (sdb s') = raw_items (sdb s) ++ [new_raw_item prm now id].
Proof.
  intros Hc Hrun. pose proof (IngestN_refines prm E s) as Hr. cbv beta zeta in Hr.
  change (store.IngestN (listing.pg_store cfg E) prm s) with (postgres.IngestN prm E s) in Hrun. rewrite Hrun in Hr.
  pose proof (ingest_spec_items _ _ _ _ _ Hc Hr) as Hi. destruct (existsb _ _); [done|]. by eexists _, _.
Qed.

Lemma seen_steps d d' p : (∃ k, raw_items d' = raw_items d ++ k) → seen p d → seen p d'.
Proof. unfold seen, known. intros [k ->] H. by rewrite existsb_app, H. Qed.

(** A post of another key does not make this one seen. *)
Lemma not_seen_other p q ih d d' now id :
  ¬ same_key q p → raw_items d' = raw_items d ++ [new_raw_item (ingestParams q ih) now id] → ¬ seen p d → ¬ seen p d'.
Proof.
  unfold seen, known. intros Hk -> Hp. rewrite existsb_app. cbn. intros [?|H]%orb_true_iff; [done|].
  apply orb_true_iff in H as [H|?]; [|done]. apply Hk. unfold postgres.same_source in H. cbn in H. bool_hyps. by split.
Qed.

Section batch.
Context `{cursor.CursorCodec} (cfg : postgres.StoreConfig) (E : env) (o : others).
Abbreviation st := (interleaved cfg o (listing.pg_store cfg E)).
Abbreviation db_of w := (sdb (w_store w)).

(** The calls of others ingest no post of this key. *)
Definition spares (p : rawpost.RawPost) : Prop :=
  ∀ n c q, c ∈ o n → call_by c = ByIngest q →
    ¬ (store.ip_Source q = rawpost.rp_Source p ∧ store.ip_SourceID q = rawpost.rp_SourceID p).
Lemma meanwhile_not_seen p s : spares p → ¬ seen p (sdb s) → ¬ seen p (sdb (meanwhile cfg o s)).
Proof.
  intros Ho Hp. assert (∀ d, rtc (called_by cfg o) (sdb s) d → ¬ seen p d) as H1; [|apply H1, meanwhile_called].
  intros d. revert Hp. generalize (sdb s). intros d0 Hp Hs. induction Hs as [|d0 d1 d (n&c&Hc&->) _ IH]; [done|].
  apply IH. destruct (run_call_items cfg d0 c) as [E1|(q&now&id&Eq&E1)]; unfold seen, known in *; rewrite E1; [done|].
  rewrite existsb_app. cbn. intros [?|Hq]%orb_true_iff; [done|]. apply orb_true_iff in Hq as [Hq|?]; [|done].
  destruct (Ho _ _ _ Hc Eq). unfold postgres.same_source in Hq. cbn in Hq. bool_hyps. by split.
Qed.

Lemma label_store (label : option string) f (w : World state) :
  w_store (match label with Some l => on_metrics (f l) w | None => w end) = w_store w.
Proof. by destruct label. Qed.

Lemma stored_steps p ih d d' : rtc (step_cfg cfg) d d' → stored p ih d → stored p ih d'.
Proof.
  intros Hs (ri&Hin&Hri). exists ri. split; [|done].
  apply cfg_steps, steps_appended in Hs as [[k ->] _].
  apply elem_of_app. by left.
Qed.

Lemma present_steps p d d' : rtc (step_cfg cfg) d d' → present p d → present p d'.
Proof.
  intros Hs (ri&Hin&Hri). exists ri. split; [|done]. apply cfg_steps, steps_appended in Hs as [[k ->] _].
  apply elem_of_app. by left.
Qed.

(** A batch that went through holds the first post of every new key. *)
Lemma ingestBatch_stored pre p post i b w b' w' ih :
  ingestBatch st (pre ++ p :: post) i b w = (b', None, w') →
  infohash.NormalizeInfohash (rawpost.rp_Magnet p) = Ok ih →
  Forall post_text post →
  Forall (λ q, ¬ same_key q p) pre → spares p → ¬ seen p (db_of w) → stored p ih (db_of w').
Proof.
  intros Hrun Hih Htext Hpre Ho. rewrite Forall_forall in Htext.
  pose proof (interleaved_moving cfg E (λ _, True) (λ _, I) o (λ _ _ _ _, I)) as Hm. revert i b w Hrun. induction Hpre as [|q pre Hq _ IH]; intros i b w Hrun Hp.
  - cbn [app ingestBatch] in Hrun. rewrite Hih in Hrun.
    assert (postgres.isCanonicalInfohash ih = true) as Hc by by eapply canonical_is, infohash.normalize_canonical.
    unfold in_world in Hrun.
    apply (meanwhile_not_seen _ _ Ho) in Hp.
    destruct (store.IngestN st (ingestParams p ih) (w_store w)) as [[e|out] s1] eqn:E1; [done|].
    pose proof (IngestN_items cfg E (ingestParams p ih) _ _ _ Hc E1) as Hi. destruct (bump out b) as [b1 label].
    match type of Hrun with ingestBatch _ _ _ _ ?w1 = _ =>
      pose proof (ingestBatch_moves anything anything _ _ st post (i + 1) b1 w1
        (λ q Hq, conj (post_text_source q (Htext q Hq)) (λ _ _, I))) as [Hs _]; rewrite Hrun in Hs; cbn [snd] in Hs end.
    rewrite label_store in Hs. cbn [w_store] in Hs. apply during_cfg in Hs. eapply stored_steps; [exact Hs|].
    destruct (existsb (postgres.same_source (ingestParams p ih)) (raw_items (sdb (meanwhile cfg o (w_store w))))) eqn:Es.
    { destruct Hp. by eapply known_source; [..|exact Es]. }
    destruct Hi as (now&id&Hi). eexists. split; [rewrite Hi; apply elem_of_app; right; by left|done].
  - cbn [app ingestBatch] in Hrun. destruct (infohash.NormalizeInfohash (rawpost.rp_Magnet q)) as [e|ih'] eqn:Eq.
    + destruct (Is e _); [|done]. by eapply IH.
    + assert (postgres.isCanonicalInfohash ih' = true) as Hc by by eapply canonical_is, infohash.normalize_canonical.
      unfold in_world in Hrun.
      destruct (store.IngestN st (ingestParams q ih') (w_store w)) as [[e|out] s1] eqn:E1; [done|].
      pose proof (IngestN_items cfg E (ingestParams q ih') _ _ _ Hc E1) as Hi. destruct (bump out b) as [b1 label].
      eapply IH; [exact Hrun|]. rewrite label_store. cbn [w_store]. apply (meanwhile_not_seen _ _ Ho) in Hp.
      destruct (existsb _ _); [unfold seen, known in *; by rewrite Hi|]. destruct Hi as (now&id&Hi).
      by eapply not_seen_other.
Qed.

(** A post of a batch that went through has a raw item under its key. *)
Lemma ingestBatch_present pre p post i b w b' w' ih :
  ingestBatch st (pre ++ p :: post) i b w = (b', None, w') →
  infohash.NormalizeInfohash (rawpost.rp_Magnet p) = Ok ih → Forall post_text post → present p (db_of w').
Proof.
  intros Hrun Hih Htext. rewrite Forall_forall in Htext.
  pose proof (interleaved_moving cfg E (λ _, True) (λ _, I) o (λ _ _ _ _, I)) as Hm. revert i b w Hrun.
  induction pre as [|q pre IH]; intros i b w Hrun; cbn [app ingestBatch] in Hrun.
  - rewrite Hih in Hrun.
    assert (postgres.isCanonicalInfohash ih = true) as Hc by by eapply canonical_is, infohash.normalize_canonical.
    unfold in_world in Hrun.
    destruct (store.IngestN st (ingestParams p ih) (w_store w)) as [[e|out] s1] eqn:E1; [done|].
    pose proof (IngestN_items cfg E (ingestParams p ih) _ _ _ Hc E1) as Hi. destruct (bump out b) as [b1 label].
    match type of Hrun with ingestBatch _ _ _ _ ?w1 = _ =>
      pose proof (ingestBatch_moves anything anything _ _ st post (i + 1) b1 w1
        (λ q Hq, conj (post_text_source q (Htext q Hq)) (λ _ _, I))) as [Hs _]; rewrite Hrun in Hs; cbn [snd] in Hs end.
    rewrite label_store in Hs. cbn [w_store] in Hs. apply during_cfg in Hs. eapply present_steps; [exact Hs|].
    destruct (existsb _ _) eqn:Es in Hi; [apply (seen_present p ih); unfold known; by rewrite Hi|].
    destruct Hi as (now&id&Hi). eexists. split; [rewrite Hi; apply elem_of_app; right; by left|done].
  - destruct (infohash.NormalizeInfohash (rawpost.rp_Magnet q)) as [e|ih'].
    + destruct (Is e _); [|done]. by eapply IH.
    + unfold in_world in Hrun. destruct (store.IngestN _ _ _) as [[e|out] s1]; [done|].
      destruct (bump out b) as [b1 label]. by eapply IH.
Qed.

(** What a request leaves after its posts: the statistics it asks for at the
    end change no raw item. *)
Lemma handleIngest_batch r w resp w' posts :
  handleIngest st r w = (resp, w') → status resp = StatusOK → accepted r posts →
  Forall post_text posts
  ∧ ∃ b w1, ingestBatch st posts 0 no_batch w = (b, None, w1) ∧ rtc (step_cfg cfg) (db_of w1) (db_of w').
Proof.
  intros Hrun Hok [Hm Hd Hn Hms]. unfold handleIngest in Hrun.
  rewrite bool_decide_eq_false_2 in Hrun by auto. rewrite Hd in Hrun. cbn [ir_Posts] in Hrun.
  rewrite Hms in Hrun. destruct (Z.ltb_spec maxBatchPosts (Z.of_nat (length posts))); [lia|].
  pose proof (ingest_posts_text _ _ Hd) as Htext. cbn [ir_Posts] in Htext. split; [done|].
  destruct (ingestBatch st posts 0 no_batch w) as [[b [[f msg]|]] w1].
  { injection Hrun as <- _. discriminate Hok. }
  destruct (in_world (store.store_QueueStats st) w1) as [[e|qs] w2] eqn:Eq.
  { injection Hrun as <- _. discriminate Hok. }
  injection Hrun as _ <-. cbn [w_store on_metrics]. exists b, w1. split; [done|]. eapply during_cfg.
  apply (advances_world (rtc (step_during cfg (λ _, True)))) in Eq as [Hs _]; [exact Hs|]. intros s.
  pose proof (interleaved_moving cfg E (λ _, True) (λ _, I) o (λ _ _ _ _, I)) as Hmv.
  apply mv_same, mv_QueueStats.
Qed.
Lemma handleIngest_present r w resp w' pre p post ih :
  handleIngest st r w = (resp, w') → status resp = StatusOK →
  accepted r (pre ++ p :: post) → infohash.NormalizeInfohash (rawpost.rp_Magnet p) = Ok ih → present p (db_of w').
Proof.
  intros Hrun Hok Hacc Hih. destruct (handleIngest_batch _ _ _ _ _ Hrun Hok Hacc) as [Htext (b&w1&Eb&Hs)].
  apply Forall_app in Htext as [_ [_ Htext]%Forall_cons]. eapply present_steps; [exact Hs|].
  by eapply ingestBatch_present.
Qed.
Lemma handleIngest_stored r w resp w' pre p post ih :
  handleIngest st r w = (resp, w') → status resp = StatusOK →
  accepted r (pre ++ p :: post) → infohash.NormalizeInfohash (rawpost.rp_Magnet p) = Ok ih →
  Forall (λ q, ¬ same_key q p) pre → spares p → ¬ seen p (db_of w) → stored p ih (db_of w').
Proof.
  intros Hrun Hok Hacc Hih Hpre Ho Hp. destruct (handleIngest_batch _ _ _ _ _ Hrun Hok Hacc) as [Htext (b&w1&Eb&Hs)].
  apply Forall_app in Htext as [_ [_ Htext]%Forall_cons]. eapply stored_steps; [exact Hs|].
  by eapply ingestBatch_stored.
Qed.
End batch.

(** ** Where the requests go *)

Lemma canonical_of ih : postgres.isCanonicalInfohash ih = true → infohash.canonical ih.
Proof.
  unfold postgres.isCanonicalInfohash. rewrite len_length.
  destruct (Z.eqb_spec (Z.of_nat (String.length ih)) 40) as [Hl|]; [|done]. intros Hh.
  split; [lia|]. clear Hl. cbn [negb] in Hh. induction ih as [|c ih IH]; [done|]. cbn in *.
  destruct (_ && _) eqn:Hc in Hh; [done|]. rewrite IH by done. rewrite andb_true_r. clear IH Hh.
  destruct c as [[] [] [] [] [] [] [] []]; by vm_compute in Hc.
Qed.
Lemma canonical_plain ih : infohash.canonical ih → plain ih = true.
Proof.
  intros [Hl Hh]. unfold plain. rewrite bool_decide_eq_false_2 by by intros ->. cbn [negb andb]. clear Hl.
  induction ih as [|c ih IH]; [done|]. cbn in *. apply andb_true_iff in Hh as [Hc Hh]. rewrite IH by done.
  destruct c as [[] [] [] [] [] [] [] []]; by vm_compute in Hc.
Qed.

Section routes.
Context {H : Type} (mcp hz mt rest : H) (in_ mg rl cl qs sb : H).
Definition outer_routes : list (pattern * H) :=
  [handle "/mcp" mcp; handle "/healthz" hz; handle "/metrics" mt; handle "/ingest" rest; handle "/magnets/" rest;
   handle "/releases/" rest; handle "/queue/" rest; handle "/submit" rest].
Definition inner_routes : list (pattern * H) :=
  [handle "/ingest" in_; handle "/magnets/" mg; handle "/releases/" rl; handle "/queue/claim" cl;
   handle "/queue/stats" qs; handle "/submit" sb].
Definition post (path body : string) : http_request :=
  {| hr_Method := "POST"; hr_EscapedPath := path; hr_Body := body; hr_BodyErr := None |}.
Definition fetch (path : string) : http_request :=
  {| hr_Method := "GET"; hr_EscapedPath := path; hr_Body := ""; hr_BodyErr := None |}.

Lemma routes_ingest body :
  ServeHTTP outer_routes (post "/ingest" body) = Serve (handle "/ingest" rest)
  ∧ ServeHTTP inner_routes (post "/ingest" body) = Serve (handle "/ingest" in_).
Proof. split; vm_compute; reflexivity. Qed.
Lemma routes_submit body :
  ServeHTTP outer_routes (post "/submit" body) = Serve (handle "/submit" rest)
  ∧ ServeHTTP inner_routes (post "/submit" body) = Serve (handle "/submit" sb).
Proof. split; vm_compute; reflexivity. Qed.
Lemma routes_claim body :
  ServeHTTP outer_routes (post "/queue/claim" body) = Serve (handle "/queue/" rest)
  ∧ ServeHTTP inner_routes (post "/queue/claim" body) = Serve (handle "/queue/claim" cl).
Proof. split; vm_compute; reflexivity. Qed.
Lemma routes_release x :
  plain x = true →
  ServeHTTP outer_routes (fetch (element_path "releases" x)) = Serve (handle "/releases/" rest)
  ∧ ServeHTTP inner_routes (fetch (element_path "releases" x)) = Serve (handle "/releases/" rl).
Proof.
  intros Hx. unfold fetch. split.
  - rewrite (ServeHTTP_element "releases" x eq_refl Hx) 
      by first [discriminate|vm_compute; split; [reflexivity|discriminate]]. vm_compute. reflexivity.
  - rewrite (ServeHTTP_element "releases" x eq_refl Hx) 
      by first [discriminate|vm_compute; split; [reflexivity|discriminate]]. vm_compute. reflexivity.
Qed.
End routes.

(** ** What the service does with them *)

Section mounted.
Context `{cursor.CursorCodec} (cfg : postgres.StoreConfig) (E : env) (o : others).
Context (validate : string → json.json → option error) (sdk : http_request → session).
Abbreviation st := (interleaved cfg o (listing.pg_store cfg E)).
(** The database the first call of a request finds. *)
Abbreviation db_at w := (sdb (meanwhile cfg o (w_store w))).
Abbreviation db_of w := (sdb (w_store w)).
Abbreviation handler := (http_request → World state → reply * World state).

(** A request both muxes pass on. *)
Lemma at_rest r w k k' h :
  (∀ a b c d : handler, ServeHTTP (outer_routes a b c d) r = Serve (handle k d)) →
  ServeHTTP (inner_routes (HandleFunc (handleIngest st)) (HandleFunc (handleGetMagnet st))
    (HandleFunc (handleGetRelease st)) (HandleFunc (handleClaim st)) (HandleFunc (handleQueueStats st))
    (HandleFunc (handleSubmit st))) r = Serve (handle k' (HandleFunc h)) →
  takuhai_mux st validate sdk r w = HandleFunc h r w.
Proof.
  intros Ho Hi. unfold takuhai_mux, NewServeMux at 1.
  specialize (Ho (mcpSrv_Handler st validate sdk) (healthz st) (metrics_handler st) (restAPI st)).
  unfold outer_routes in Ho. rewrite Ho. cbn [mux_reply snd handle].
  unfold inner_routes in Hi. unfold restAPI, NewServeMux. by rewrite Hi.
Qed.
Lemma at_ingest body w :
  takuhai_mux st validate sdk (post "/ingest" body) w = HandleFunc (handleIngest st) (post "/ingest" body) w.
Proof. eapply at_rest; [intros a b c d; by apply (routes_ingest a b c d d d d d d d)|by apply (routes_ingest (restAPI st) (restAPI st) (restAPI st) (restAPI st))]. Qed.
Lemma at_submit body w :
  takuhai_mux st validate sdk (post "/submit" body) w = HandleFunc (handleSubmit st) (post "/submit" body) w.
Proof. eapply at_rest; [intros a b c d; by apply (routes_submit a b c d d d d d d d)|by apply (routes_submit (restAPI st) (restAPI st) (restAPI st) (restAPI st))]. Qed.
Lemma at_claim body w :
  takuhai_mux st validate sdk (post "/queue/claim" body) w = HandleFunc (handleClaim st) (post "/queue/claim" body) w.
Proof. eapply at_rest; [intros a b c d; by apply (routes_claim a b c d d d d d d d)|by apply (routes_claim (restAPI st) (restAPI st) (restAPI st) (restAPI st))]. Qed.
Lemma at_release ih w :
  plain ih = true →
  takuhai_mux st validate sdk (fetch (element_path "releases" ih)) w
  = HandleFunc (handleGetRelease st) (fetch (element_path "releases" ih)) w.
Proof. intros Hp. eapply at_rest; [intros a b c d; by apply (routes_release a b c d d d d d d d)|by apply (routes_release (restAPI st) (restAPI st) (restAPI st) (restAPI st))]. Qed.

(** A release of the store is what a fetch of it answers with; of no other
    infohash there is one. *)
Definition release_reply (v : GetReleaseResult) : reply :=
  {| r_status := StatusOK; r_body := FromREST (Encoded (PRelease v)) |}.
Definition no_release_reply (ih : string) : reply :=
  {| r_status := StatusNotFound;
     r_body := FromREST (body (not_found ih (wrapf "get_release %s: %w" [ih] store.ErrNoSuchRelease))) |}.
Lemma fetch_release ih w :
  db_ok (db_at w) → healthy E → infohash.canonical ih →
  (takuhai_mux st validate sdk (fetch (element_path "releases" ih)) w).1
  = match releases (db_at w) !! ih with
    | Some r => release_reply (get_release_result (detail_of ih r (db_at w)))
    | None => no_release_reply ih
    end.
Proof.
  intros Hok HE Hc. pose proof (canonical_plain _ Hc) as Hp. rewrite at_release by done.
  unfold HandleFunc, to_request. cbn [hr_Method hr_BodyErr hr_Body fetch].
  unfold URL_Path. cbn [hr_EscapedPath fetch]. rewrite element_unescape by done. cbn [default from_option id].
  unfold handleGetRelease, trim_prefix. cbn [req_Method req_Path]. rewrite bool_decide_eq_false_2 by auto.
  change (element_path "releases" ih) with ("/releases/" +:+ ih). rewrite cut_prefix_app. cbn [default from_option id].
  assert (named ih = Some ih) as [-> [-> _]]%named_Ok.
  { unfold named. rewrite (infohash.normalize_canonical_id _ Hc).
    apply plain_element in Hp as (?&_&_&Hp). rewrite bool_decide_eq_false_2 by done. cbn [orb].
    assert (contains ih "/" = false) as ->; [|done]. unfold contains.
    by rewrite (index_of_absent plain_byte). }
  unfold in_world, GetReleaseTyped. cbn [grq_Infohash]. rewrite (infohash.normalize_canonical_id _ Hc).
  change (store.GetRelease st ih (w_store w)) with (listing.GetRelease ih E (meanwhile cfg o (w_store w))).
  destruct (GetRelease_run ih E (meanwhile cfg o (w_store w)) HE) as (s'&_&->). by destruct (releases _ !! ih).
Qed.
End mounted.

(** What a claim answered, from the claim of the store. *)
Lemma handleClaim_claimed `{cursor.CursorCodec} cfg E o r w resp w' out item :
  handleClaim (interleaved cfg o (listing.pg_store cfg E)) r w = (resp, w') → body resp = Encoded (PClaim out) → item ∈ cres_Items out →
  ∃ p res s1 c, postgres.Claim cfg p E (meanwhile cfg o (w_store w)) = (Ok res, s1) ∧ sdb s1 = sdb (w_store w')
    ∧ c ∈ store.clr_Items res ∧ item = claim_item c.
Proof.
  unfold handleClaim, requirePost. intros Hrun Hbody Hitem.
  destruct (bool_decide _); [by injection Hrun as <- _|]. destruct (ReadAll r) as [e|b]; [by injection Hrun as <- _|].
  destruct (json.Unmarshal claim_fields no_claim b) as [e|req]; [by injection Hrun as <- _|].
  unfold in_world, ClaimTyped in Hrun.
  set (p := {| store.cp_Limit := clq_Limit req; store.cp_LeaseSeconds := clq_LeaseSeconds req |}) in *.
  change (store.Claim (interleaved cfg o (listing.pg_store cfg E)) p (w_store w))
    with (postgres.Claim cfg p E (meanwhile cfg o (w_store w))) in Hrun.
  destruct (postgres.Claim cfg p E (meanwhile cfg o (w_store w))) as [[e|res] s1] eqn:Ec; cbn [on_ok] in Hrun.
  { injection Hrun as <- _. unfold writeDispatchError in Hbody. repeat case_bool_decide; discriminate Hbody. }
  injection Hrun as <- <-. injection Hbody as <-. cbn in Hitem.
  apply list_elem_of_fmap in Hitem as (c&->&Hc). by exists p, res, s1, c.
Qed.

Lemma handleSubmit_settled `{cursor.CursorCodec} cfg E o r req w resp w' :
  let st := interleaved cfg o (listing.pg_store cfg E) in
  handleSubmit st r w = (resp, w') → status resp = StatusOK → req_Method r = "POST" → req_BodyErr r = None →
  json.Unmarshal dispatch.submit_fields dispatch.no_submit (req_Body r) = Ok req → sr_Status req = "matched" →
  ∃ row, releases (sdb (w_store w')) !! sr_Infohash req = Some row ∧ r_match_status row = matched
    ∧ r_ref row = Some (sr_Ref req) ∧ r_confidence row = sr_Confidence req.
Proof.
  intros st Hrun Hok Hm Hb Hreq Hst. unfold handleSubmit, requirePost in Hrun.
  rewrite bool_decide_eq_false_2 in Hrun by auto. unfold ReadAll in Hrun. rewrite Hb, Hreq in Hrun.
  destruct (in_world (SubmitTyped st req) w) as [[e|u] w1] eqn:Ew.
  { injection Hrun as <- _. unfold writeDispatchError, StatusOK in Hok.
    repeat case_bool_decide; cbn in Hok; discriminate Hok. }
  injection Hrun as _ <-. cbn [w_store on_metrics]. unfold in_world, SubmitTyped in Ew.
  rewrite Hst, bool_decide_eq_true_2 in Ew by set_solver.
  change (store.Submit st) with (λ q s, postgres.Submit cfg q E (meanwhile cfg o s)) in Ew. cbn beta in Ew.
  match type of Ew with context [postgres.Submit cfg ?q E ?s] =>
    pose proof (Submit_refines cfg q E s) as Hspec; destruct (postgres.Submit cfg q E s) as [[e|u'] s1] end; [discriminate Ew|].
  injection Ew as _ <-.
  cbv beta zeta in Hspec. unfold submit_spec, parse_verdict in Hspec. cbn [store.sp_Status store.sp_Infohash w_store] in *.
  rewrite bool_decide_eq_true_2 in Hspec by done. destruct (cursor.ValidateRef _); [done|].
  destruct (releases (sdb (meanwhile cfg o (w_store w))) !! sr_Infohash req) as [row|]; [|done].
  destruct (live _ _ _); [|done]. destruct (decide _); [|done]. cbn in Hspec. injection Hspec as _ Hdb.
  eexists. split; [cbn; rewrite <-Hdb; apply lookup_insert_eq|done].
Qed.

(** A verdict the store does not refuse on its own account. *)
Definition well_formed (req : SubmitRequest) : Prop :=
  sr_Status req ∈ ["matched"; "unmatched"; "suppressed"]
  ∧ (sr_Status req = "matched" → cursor.refRe_MatchString (sr_Ref req) = true).
(** The handler calls the store once. *)
Lemma handleSubmit_meanwhile `{cursor.CursorCodec} cfg E o r req w :
  req_Method r = "POST" → req_BodyErr r = None →
  json.Unmarshal dispatch.submit_fields dispatch.no_submit (req_Body r) = Ok req → well_formed req →
  handleSubmit (interleaved cfg o (listing.pg_store cfg E)) r w
  = handleSubmit (listing.pg_store cfg E) r {| w_store := meanwhile cfg o (w_store w); w_metrics := w_metrics w |}.
Proof.
  intros Hm Hb Hreq [Hst _]. unfold handleSubmit, requirePost, ReadAll. rewrite bool_decide_eq_false_2 by auto.
  rewrite Hb, Hreq. unfold in_world, SubmitTyped. rewrite bool_decide_eq_true_2 by done. reflexivity.
Qed.

(** ** The journey *)

Section journey.
Context `{cursor.CursorCodec} (cfg : postgres.StoreConfig).
Abbreviation db_of w := (sdb (w_store w)).

(** A lookup of a release while the driver is well. *)
Definition looks_up (ev : event) (ih : string) : Prop :=
  healthy (ev_env ev) ∧ ev_request ev = fetch (element_path "releases" ih).

Lemma serve_run ev w rep w' :
  serve cfg ev w = (rep, w') →
  ∃ w1, takuhai_mux (ev_store cfg ev) (ev_validate ev) (ev_sdk ev) (ev_request ev) w = (rep, w1)
    ∧ w_store w' = w_store w1.
Proof.
  unfold serve, takuhai_handler, Wrap_handler. destruct (takuhai_mux _ _ _ _ _) as [rep1 w1].
  intros [= <- <-]. by exists w1.
Qed.
(** The database a request finds at its first call. *)
Definition db_at (ev : event) (w : World state) : db := sdb (meanwhile cfg (ev_others ev) (w_store w)).
Lemma db_at_steps ev w : rtc (step_cfg cfg) (db_of w) (db_at ev w).
Proof. eapply during_cfg, meanwhile_during. by destruct (always ev). Qed.
Lemma lookup_answer ev ih w :
  db_ok (db_at ev w) → looks_up ev ih → infohash.canonical ih →
  (serve cfg ev w).1 = match releases (db_at ev w) !! ih with
                       | Some r => release_reply (get_release_result (detail_of ih r (db_at ev w)))
                       | None => no_release_reply ih
                       end.
Proof.
  intros Hok [HE Hreq] Hc. destruct (serve cfg ev w) as [rep w'] eqn:Es.
  apply serve_run in Es as (w1&E1&_). rewrite Hreq in E1.
  pose proof (fetch_release cfg (ev_env ev) (ev_others ev) (ev_validate ev) (ev_sdk ev) ih w Hok HE Hc) as Hf.
  fold (ev_store cfg ev) in Hf. by rewrite E1 in Hf.
Qed.
Lemma lookup_served ev ih r w :
  db_ok (db_at ev w) → looks_up ev ih → releases (db_at ev w) !! ih = Some r →
  (serve cfg ev w).1 = release_reply (get_release_result (detail_of ih r (db_at ev w))).
Proof.
  intros Hok Hl Hr. rewrite (lookup_answer ev ih w Hok Hl); [by rewrite Hr|].
  apply canonical_of, (ok_canonical _ _ (ok_rows _ Hok _ _ Hr)).
Qed.

Lemma HandleFunc_run h r w rep w' :
  HandleFunc (S:=state) h r w = (rep, w') →
  ∃ resp, h (to_request r) w = (resp, w') ∧ status resp = r_status rep.
Proof. unfold HandleFunc. destruct (h _ w) as [resp w1]. intros [= <- <-]. by exists resp. Qed.

(** A release's answer that lists a raw item, and one that lists none of the
    post's key. *)
Definition lists (ri : raw_item_row) (v : GetReleaseResult) : Prop :=
  grr_Infohash v = raw_infohash ri ∧ raw_source ri ∈ grr_Sources v
  ∧ ∃ item, item ∈ grr_RawItems v ∧ rdr_Source item = raw_source ri ∧ rdr_SourceID item = raw_source_id ri
            ∧ rdr_Title item = raw_title ri.
Definition lists_none (p : rawpost.RawPost) (v : GetReleaseResult) : Prop :=
  ∀ item, item ∈ grr_RawItems v →
    ¬ (rdr_Source item = rawpost.rp_Source p ∧ rdr_SourceID item = rawpost.rp_SourceID p).

Lemma lookup_lists ev w ri :
  db_ok (db_at ev w) → ri ∈ raw_items (db_at ev w) → looks_up ev (raw_infohash ri) →
  ∃ v, (serve cfg ev w).1 = release_reply v ∧ lists ri v.
Proof.
  intros Hok Hin Hl. pose proof (ok_raw_fk _ Hok) as Hfk. rewrite Forall_forall in Hfk.
  destruct (Hfk _ Hin) as [row Hrow]. eexists. split; [by eapply lookup_served|].
  assert (postgres.raw_item_detail ri ∈ store.rd_RawItems (detail_of (raw_infohash ri) row (db_at ev w))) as Hd.
  { cbn. apply elem_of_raw. exists ri. split; [|done]. unfold postgres.raw_items_of. apply elem_of_filter_bool.
    split; [done|]. by apply bool_decide_eq_true_2. }
  split_and!.
  - apply (ok_key _ _ (ok_rows _ Hok _ _ Hrow)).
  - apply (cons_sources _ (detail_consistent _ _ _ Hok Hrow)). by eexists.
  - exists (raw_item_result (postgres.raw_item_detail ri)). split; [by apply list_elem_of_fmap_2|done].
Qed.
Lemma lookup_lists_none ev w p ri ih :
  db_ok (db_at ev w) → ri ∈ raw_items (db_at ev w) → keyed p ri → infohash.canonical ih → ih ≠ raw_infohash ri →
  looks_up ev ih →
  (serve cfg ev w).1 = no_release_reply ih
  ∨ ∃ v, (serve cfg ev w).1 = release_reply v ∧ grr_Infohash v = ih ∧ lists_none p v.
Proof.
  intros Hok Hin Hk Hc Hne Hl. rewrite (lookup_answer ev ih w Hok Hl Hc).
  destruct (releases (db_at ev w) !! ih) as [row|] eqn:Hrow; [right|by left]. eexists. split; [done|].
  split; [apply (ok_key _ _ (ok_rows _ Hok _ _ Hrow))|]. intros item Hitem Hsid. cbn in Hitem.
  apply list_elem_of_fmap in Hitem as (x&->&(ri'&Hof&->)%elem_of_raw).
  unfold postgres.raw_items_of in Hof. apply elem_of_filter_bool in Hof as [Hin' Hih]. apply bool_decide_eq_true_1 in Hih.
  destruct Hne. by rewrite (keyed_unique p _ _ _ Hok Hin Hin' Hk Hsid).
Qed.

(** C8: every post of a batch that [POST /ingest] answered with 200 and whose
    magnet names an infohash has one raw item under its source and source id,
    for good.  Was the key already in the tables, it is the item of that
    earlier post, unchanged; is the post the first of its key - new to the
    tables, the first in its batch, and ingested by no overlapping request -
    it carries the post's own infohash and title.  Whatever requests come in
    between, one after the other or overlapping, every later lookup of the
    item's infohash by a healthy driver answers 200 and lists the item and
    its source; and when the post named another infohash than the item's - a
    conflict, which the batch counts and does not store - a lookup of that one
    answers 404 or a release that does not list the post. *)
Theorem posted_is_served ev body pre p rest ih w rep w1 :
  reachable (db_of w) →
  ev_request ev = post "/ingest" body → accepted (to_request (post "/ingest" body)) (pre ++ p :: rest) →
  infohash.NormalizeInfohash (rawpost.rp_Magnet p) = Ok ih →
  serve cfg ev w = (rep, w1) → r_status rep = StatusOK →
  ∃ ri, keyed p ri
    ∧ (∀ old, old ∈ raw_items (db_of w) → keyed p old → ri = old)
    ∧ (¬ seen p (db_of w) → Forall (λ q, ¬ same_key q p) pre → spares (ev_others ev) p →
       raw_infohash ri = ih ∧ raw_title ri = rawpost.rp_Title p)
    ∧ ∀ evs reps w2 ev2, serve_all cfg evs w1 = (reps, w2) →
        (looks_up ev2 (raw_infohash ri) → ∃ v, (serve cfg ev2 w2).1 = release_reply v ∧ lists ri v)
        ∧ (ih ≠ raw_infohash ri → looks_up ev2 ih →
           (serve cfg ev2 w2).1 = no_release_reply ih
           ∨ ∃ v, (serve cfg ev2 w2).1 = release_reply v ∧ grr_Infohash v = ih ∧ lists_none p v).
Proof.
  intros Hd Hreq Hacc Hih Es Hok.
  pose proof (serve_moves cfg ev w rep w1 Es) as [Hs1%cfg_steps _].
  pose proof (steps_in_ok _ _ _ (reachable_ok _ Hd) Hs1) as Hok1.
  apply serve_run in Es as (w1'&E1&Hw1). unfold ev_store in E1. rewrite Hreq, at_ingest in E1.
  apply HandleFunc_run in E1 as (resp&Hrun&Hresp). rewrite <-Hresp in Hok.
  destruct (handleIngest_present cfg (ev_env ev) (ev_others ev) _ _ _ _ _ _ _ _ Hrun Hok Hacc Hih) as (ri&Hin&Hk).
  rewrite <-Hw1 in Hin. exists ri. split_and!; [done| | |].
  - intros old Hold Hkold. apply (keyed_unique p (db_of w1)); [done..| |done|done].
    apply steps_appended in Hs1 as [[k ->] _]. apply elem_of_app. by left.
  - intros Hp Hpre Ho.
    destruct (handleIngest_stored cfg (ev_env ev) (ev_others ev) _ _ _ _ _ _ _ _ Hrun Hok Hacc Hih Hpre Ho Hp)
      as (ri'&Hin'&Hri&Hs&Hsid&Ht&_). rewrite <-Hw1 in Hin'.
    by rewrite (keyed_unique p (db_of w1) ri ri' Hok1 Hin Hin' Hk (conj Hs Hsid)).
  - intros evs reps w2 ev2 Es2. apply serve_all_steps in Es2. pose proof (db_at_steps ev2 w2) as Hat.
    assert (rtc step (db_of w1) (db_at ev2 w2)) as Hall by (eapply cfg_steps; by etransitivity).
    pose proof (steps_in_ok _ _ _ Hok1 Hall) as Hok2.
    assert (ri ∈ raw_items (db_at ev2 w2)) as Hin2
      by (apply steps_appended in Hall as [[k ->] _]; apply elem_of_app; by left).
    split; [by apply lookup_lists|]. intros Hne Hl. eapply lookup_lists_none; try done.
    by eapply infohash.normalize_canonical.
Qed.

(** C9: a match that [POST /submit] answered with 200 stands: from then on,
    whatever requests come in between, a lookup of the release answers 200
    with the ref and the confidence that were submitted. *)
Theorem matched_is_served ev body req w rep w1 evs reps w2 ev2 :
  reachable (db_of w) →
  ev_request ev = post "/submit" body →
  json.Unmarshal dispatch.submit_fields dispatch.no_submit body = Ok req → sr_Status req = "matched" →
  serve cfg ev w = (rep, w1) → r_status rep = StatusOK → serve_all cfg evs w1 = (reps, w2) →
  looks_up ev2 (sr_Infohash req) →
  ∃ v, (serve cfg ev2 w2).1 = release_reply v ∧ grr_Infohash v = sr_Infohash req
    ∧ grr_MatchStatus v = "matched" ∧ grr_Ref v = Some (sr_Ref req) ∧ grr_Confidence v = sr_Confidence req.
Proof.
  intros Hd Hreq Hbody Hst Es Hok Es2 Hl.
  pose proof (serve_moves cfg ev w rep w1 Es) as [Hs1%cfg_steps _].
  pose proof (steps_in_ok _ _ _ (reachable_ok _ Hd) Hs1) as Hok1.
  apply serve_run in Es as (w1'&E1&Hw1). unfold ev_store in E1. rewrite Hreq, at_submit in E1.
  apply HandleFunc_run in E1 as (resp&Hrun&Hresp). rewrite <-Hresp in Hok.
  destruct (handleSubmit_settled cfg (ev_env ev) (ev_others ev) _ req w resp w1' Hrun Hok eq_refl eq_refl Hbody Hst)
    as (row&Hrow&Hm&Href&Hconf). rewrite <-Hw1 in Hrow.
  apply serve_all_steps in Es2. pose proof (db_at_steps ev2 w2) as Hat.
  assert (rtc step (db_of w1) (db_at ev2 w2)) as Hall by (eapply cfg_steps; by etransitivity).
  clear Es2 Hat. rename Hall into Es2. pose proof (steps_in_ok _ _ _ Hok1 Es2) as Hok2.
  destruct (evolves_steps _ _ _ _ _ Hok1 Es2 Hrow) as (row2&Hrow2&Hev).
  destruct (ev_final _ _ Hev) as (Hm2&Href2&Hconf2&_); [by rewrite Hm|].
  eexists. split; [by eapply lookup_served|]. cbn. split_and!.
  - apply (ok_key _ _ (ok_rows _ Hok2 _ _ Hrow2)).
  - by rewrite Hm2, Hm.
  - by rewrite Href2.
  - by rewrite Hconf2.
Qed.

Definition by_then (expires : Time) : event → Prop := during (λ t, t < expires).

(** Whoever is handed a release by [POST /queue/claim] can settle it: up
    to the lease end the answer names, whatever other requests the service
    serves in between or at the same time - claims of other workers, ingests,
    submissions -, a
    well-formed verdict posted to [/submit] with the infohash and the token of
    the answer is accepted with 200 as long as the release has no verdict yet,
    and otherwise refused with 409; it is never lost to another claim. *)
Theorem claimed_can_be_settled ev cbody out item w rep w1 :
  reachable (db_of w) →
  ev_request ev = post "/queue/claim" cbody → serve cfg ev w = (rep, w1) →
  r_body rep = FromREST (Encoded (PClaim out)) → item ∈ cres_Items out →
  ∃ row1 expires, releases (db_of w1) !! cir_Infohash item = Some row1
    ∧ r_lease_expires_at row1 = Some expires ∧ cir_LeaseExpiresAt item = Format_RFC3339Nano expires
    ∧ r_claim_token row1 = cir_ClaimToken item ∧ 0 ≤ cir_ClaimToken item ∧
    ∀ evs reps w2 ev2 body req,
      Forall (by_then expires) evs → serve_all cfg evs w1 = (reps, w2) →
      by_then expires ev2 → healthy (ev_env ev2) → ev_request ev2 = post "/submit" body →
      json.Unmarshal dispatch.submit_fields dispatch.no_submit body = Ok req → well_formed req →
      sr_Infohash req = cir_Infohash item → sr_ClaimToken req = cir_ClaimToken item →
      ∃ row, releases (db_at ev2 w2) !! cir_Infohash item = Some row
        ∧ r_status (serve cfg ev2 w2).1 = (if bool_decide (r_match_status row = unmatched) then 200 else 409).
Proof.
  intros Hd Hreq Es Hbody Hitem.
  pose proof Es as [Hsteps _]%serve_moves. apply serve_run in Es as (w1'&E1&Hw1).
  unfold ev_store in E1. rewrite Hreq, at_claim in E1.
  unfold HandleFunc in E1. destruct (handleClaim _ _ w) as [resp w0] eqn:Ec. injection E1 as <- <-.
  injection Hbody as Hbody.
  destruct (handleClaim_claimed cfg (ev_env ev) (ev_others ev) _ w resp w0 out item Ec Hbody Hitem)
    as (p&res&s1&c&Hrun&Hdb&Hc&->).
  assert (reachable (db_at ev w)) as Hd'
    by (unfold reachable in *; etransitivity; [exact Hd|apply (cfg_steps cfg), db_at_steps]).
  unfold db_at in Hd'. destruct (meanwhile cfg (ev_others ev) (w_store w)) as [n d]. cbn [sdb] in Hd'.
  destruct (claim_returns _ _ _ _ _ _ _ _ (reachable_ok _ Hd') Hrun Hc) as (r&Hr0&_&Er&Hr1).
  rewrite Hdb, <-Hw1 in Hr1. eexists _, (store.cr_LeaseExpires c). split; [exact Hr1|]. split; [by rewrite Er|].
  split; [done|]. cbn [claim_item cir_Infohash cir_ClaimToken]. split; [by rewrite Er|].
  split; [rewrite Er; pose proof (ok_token _ _ (ok_rows _ (reachable_ok _ Hd') _ _ Hr0)); cbn; lia|].
  intros evs reps w2 ev2 body req Hevs Es2 [Hthen Ho2] HE Hreq2 Hun Hwf Hih Htok.
  pose proof (serve_all_in cfg (λ t, t < store.cr_LeaseExpires c) evs w1 reps w2 Hevs Es2) as Hin.
  assert (rtc (step_in (λ t, t < store.cr_LeaseExpires c)) (sdb s1) (db_at ev2 w2)) as Hin2.
  { rewrite Hdb, <-Hw1. etransitivity; [exact Hin|]. by eapply during_in, meanwhile_during. }
  destruct (holder_live _ _ _ _ _ _ _ _ _ Hd' Hrun Hc Hin2) as (row&Hrow&Hlive). exists row. split; [done|].
  assert (db_ok (db_at ev2 w2)) as Hok2 by (eapply steps_in_ok; [by eapply run_Claim_ok; [apply (reachable_ok _ Hd')|]|exact Hin2]).
  destruct (serve cfg ev2 w2) as [rep2 w3] eqn:Es3. cbn [fst]. apply serve_run in Es3 as (w3'&E3&_).
  unfold ev_store in E3. rewrite Hreq2, at_submit in E3. apply HandleFunc_run in E3 as (resp2&Hsub&<-).
  erewrite handleSubmit_meanwhile in Hsub by done. unfold db_at in Hrow, Hok2.
  destruct (meanwhile cfg (ev_others ev2) (w_store w2)) as [n2 d2] eqn:Ew2. cbn [sdb] in Hrow, Hok2.
  pose proof (handleSubmit_answered cfg (ev_env ev2) (to_request (post "/submit" body))
    {| w_store := State n2 d2; w_metrics := w_metrics w2 |} n2 d2 req Hok2 HE eq_refl eq_refl eq_refl Hun) as Hans.
  rewrite Hsub in Hans. destruct Hans as [Hans _]. apply (f_equal fst) in Hans. cbn [fst] in Hans. rewrite Hans.
  destruct Hwf as [Hst Href]. unfold submit_answer. rewrite bool_decide_eq_true_2 by done. cbn [negb]. rewrite Hih, Hrow.
  destruct (bool_decide (sr_Status req = "matched")) eqn:Em; [apply bool_decide_eq_true in Em; rewrite (Href Em)|];
    cbn; rewrite Htok, Hlive by apply Hthen; by destruct (bool_decide (r_match_status row = unmatched)).
Qed.
End journey.

(** A request with a healthy driver, an SDK that only answers, and no schema
    violations. *)
Definition quiet_event (t : Time) (r : http_request) : event := {|
  ev_request := r; ev_others := nobody; ev_env := demo.quiet t; ev_sdk _ := Answer 200 ""; ev_validate _ _ := None; ev_dur := 0;
|}.
Definition ingest_event : event := quiet_event demo.base (post "/ingest" (req_Body demo_request)).
Definition submit_event : event := quiet_event (demo.base + Second) (post "/submit" (req_Body demo_submission)).
Definition stats_event : event := quiet_event demo.base (fetch "/queue/stats").
Definition lookup_event : event := quiet_event demo.base (fetch (element_path "releases" demo.ih2)).
(** The world after an event and a look at the statistics. *)
Definition later (ev : event) (d : db) : World state :=
  (serve_all demo.cfg [stats_event] (serve demo.cfg ev (demo_world d)).2).2.

Lemma posted_is_served_witness :
  ∃ v, (serve demo.cfg lookup_event (later ingest_event demo.d1)).1 = release_reply v ∧ grr_Infohash v = demo.ih2
    ∧ rawpost.SourceNyaa ∈ grr_Sources v.
Proof.
  destruct (posted_is_served demo.cfg ingest_event (req_Body demo_request) [] (hd no_post demo_posts) (tl demo_posts)
    demo.ih2 (demo_world demo.d1) (serve demo.cfg ingest_event (demo_world demo.d1)).1
    (serve demo.cfg ingest_event (demo_world demo.d1)).2) as (ri&[Hs _]&_&Hnew&Hthen).
  - apply demo.after_reachable. constructor.
  - reflexivity.
  - exact demo_accepted.
  - vm_compute. reflexivity.
  - apply surjective_pairing.
  - vm_compute. reflexivity.
  - destruct Hnew as [Hih _].
    + intros H. vm_compute in H. discriminate H.
    + constructor.
    + intros n c q Hc. by apply not_elem_of_nil in Hc.
    + destruct (Hthen [stats_event] _ _ lookup_event (surjective_pairing _)) as [H _].
      destruct H as (v&Hv&Hinf&Hsrc&_); [split; [intros k; reflexivity|by rewrite Hih]|].
      exists v. rewrite Hih in Hinf. rewrite Hs in Hsrc. split_and!; [exact Hv|exact Hinf|exact Hsrc].
Defined.

Lemma matched_is_served_witness :
  ∃ v, (serve demo.cfg lookup_event (later submit_event demo.d3)).1 = release_reply v ∧ grr_Ref v = Some "anidb:1".
Proof.
  destruct (matched_is_served demo.cfg submit_event (req_Body demo_submission) demo_verdict
    (demo_world demo.d3) (serve demo.cfg submit_event (demo_world demo.d3)).1
    (serve demo.cfg submit_event (demo_world demo.d3)).2 [stats_event]
    (serve_all demo.cfg [stats_event] (serve demo.cfg submit_event (demo_world demo.d3)).2).1
    (later submit_event demo.d3) lookup_event)
    as (v&H1&_&_&H2&_).
  - apply demo.after_reachable, demo.d2_reachable.
  - reflexivity.
  - vm_compute. reflexivity.
  - reflexivity.
  - apply surjective_pairing.
  - vm_compute. reflexivity.
  - apply surjective_pairing.
  - split; [intros k; reflexivity|reflexivity].
  - exists v. split; [exact H1|exact H2].
Defined.

Definition claim_event : event := quiet_event demo.base (post "/queue/claim" (json.encode (json.JObject
  [("limit", json.JNumber "1"); ("lease_seconds", json.JNumber "60")]))).
