(* ===== verification/GoFlag.v ===== *)
(** * Package [flag] and the parsers of its values

    [FlagSet.Parse] over flags that set fields of a configuration, with
    [strconv.ParseInt] in base 0, [strconv.ParseBool], [strconv.ParseFloat]
    and [time.ParseDuration] for their values. *)

From S2P Require Import Prelude GoStrings GoTime GoJsonFields GoFloat Duration.
From Stdlib Require Import Ascii SpecFloat.

Module flag.

(** ** [strconv.ParseInt(s, 0, 64)] *)

Definition int_digit (c : ascii) : option Z :=
  if is_digit c then Some (digit_val c)
  else if in_range "a" "z" (strconv.lower c) then Some (code (strconv.lower c) - 87)
  else None.
(** The digits, underscores left out. *)
Fixpoint int_digits (base acc : Z) (s : string) : option Z :=
  match s with
  | "" => Some acc
  | String c r =>
      if Ascii.eqb c "_" then int_digits base acc r else
      match int_digit c with
      | Some d => if base <=? d then None else int_digits base (acc * base + d) r
      | None => None
      end
  end.
Definition base_of (s : string) : Z * string :=
  match s with
  | String "0" r =>
      match r with
      | String x (String _ _) =>
          if Ascii.eqb (strconv.lower x) "b" then (2, drop_str 1 r)
          else if Ascii.eqb (strconv.lower x) "o" then (8, drop_str 1 r)
          else if Ascii.eqb (strconv.lower x) "x" then (16, drop_str 1 r)
          else (8, r)
      | _ => (8, r)
      end
  | _ => (10, s)
  end.
Definition ParseInt0 (s : string) : option Z :=
  let '(neg, body) := match s with
                      | String "-" r => (true, r)
                      | String "+" r => (false, r)
                      | _ => (false, s)
                      end in
  if bool_decide (body = "") then None else
  let '(base, ds) := base_of body in
  n ← int_digits base 0 ds;
  if contains body "_" && negb (strconv.underscoreOK body) then None else
  let v := if neg : bool then - n else n in
  if (int64_min <=? v) && (v <=? int64_max) then Some v else None.

Definition ParseBool (s : string) : option bool :=
  if bool_decide (s ∈ ["1"; "t"; "T"; "TRUE"; "true"; "True"]) then Some true
  else if bool_decide (s ∈ ["0"; "f"; "F"; "FALSE"; "false"; "False"]) then Some false
  else None.
Definition ParseFloat64 (s : string) : option spec_float :=
  match strconv.ParseFloat s with strconv.Value x => Some x | _ => None end.

(** ** Flags *)

(** A flag: its name, whether it takes no argument, and [Value.Set]. *)
Record Flag (C : Type) := { f_name : string; f_bool : bool; f_set : string → C → option C }.
Arguments f_name {C}. Arguments f_bool {C}. Arguments f_set {C}.

Definition on_value {V C} (parse : string → option V) (set : V → C → C) (s : string) (c : C) : option C :=
  (λ v, set v c) <$> parse s.
Definition StringVar {C} (set : string → C → C) (name : string) : Flag C :=
  {| f_name := name; f_bool := false; f_set := on_value Some set |}.
Definition IntVar {C} (set : Z → C → C) (name : string) : Flag C :=
  {| f_name := name; f_bool := false; f_set := on_value ParseInt0 set |}.
Definition Float64Var {C} (set : spec_float → C → C) (name : string) : Flag C :=
  {| f_name := name; f_bool := false; f_set := on_value ParseFloat64 set |}.
Definition DurationVar {C} (set : Duration → C → C) (name : string) : Flag C :=
  {| f_name := name; f_bool := false; f_set := on_value duration.ParseDuration set |}.
Definition BoolVar {C} (set : bool → C → C) (name : string) : Flag C :=
  {| f_name := name; f_bool := true; f_set := on_value ParseBool set |}.

Inductive flag_error := ErrHelp | FlagError (format : string) (args : list string).

(** An argument as a flag: its name and the value after [=], if any. *)
Inductive argument := NotAFlag | Terminator | BadSyntax | AFlag (name : string) (value : option string).
Definition name_value (body : string) : string * option string :=
  match body with
  | String c r =>
      match index_byte "=" r with
      | Some i => (String c (take_str i r), Some (drop_str (S i) r))
      | None => (body, None)
      end
  | "" => ("", None)
  end.
Definition read_argument (s : string) : argument :=
  let body r :=
    match r with
    | "" => BadSyntax
    | String "-" _ => BadSyntax
    | String "=" _ => BadSyntax
    | _ => let '(name, value) := name_value r in AFlag name value
    end in
  match s with
  | String "-" (String c r) =>
      if Ascii.eqb c "-" then if bool_decide (r = "") then Terminator else body r else body (String c r)
  | _ => NotAFlag
  end.

Section parse.
Context {C : Type} (flags : list (Flag C)).

Definition lookup_flag (name : string) : option (Flag C) := find (λ f, bool_decide (f_name f = name)) flags.

(** [Parse]: the configuration and the arguments left over, or the first
    error. *)
Fixpoint Parse (args : list string) (c : C) : flag_error + (C * list string) :=
  match args with
  | [] => inr (c, [])
  | s :: rest =>
      match read_argument s with
      | NotAFlag => inr (c, args)
      | Terminator => inr (c, rest)
      | BadSyntax => inl (FlagError "bad flag syntax: %s" [s])
      | AFlag name value =>
          match lookup_flag name with
          | None => if bool_decide (name = "help" ∨ name = "h") then inl ErrHelp
                    else inl (FlagError "flag provided but not defined: -%s" [name])
          | Some f =>
              let set v k :=
                match f_set f v c with
                | Some c => k c
                | None => inl (FlagError (if f_bool f then "invalid boolean value %q for -%s: %v"
                                          else "invalid value %q for flag -%s: %v") [v; name])
                end in
              if f_bool f then set (default "true" value) (Parse rest)
              else match value with
                   | Some v => set v (Parse rest)
                   | None =>
                       match rest with
                       | [] => inl (FlagError "flag needs an argument: -%s" [name])
                       | v :: rest => set v (Parse rest)
                       end
                   end
          end
      end
  end.

(** What every setter keeps, parsing keeps. *)
Lemma Parse_keeps (P : C → Prop) args c c' rest :
  (∀ f s c c', f ∈ flags → f_set f s c = Some c' → P c → P c') →
  P c → Parse args c = inr (c', rest) → P c'.
Proof.
  intros Hset. remember (length args) as n eqn:En. revert args En c.
  induction n as [n IH] using lt_wf_ind. intros [|s args] En c Hc; cbn [Parse]; [by intros [= <- _]|].
  destruct (read_argument s) as [| | |name value]; [by intros [= <- _]|by intros [= <- _]|done|].
  destruct (lookup_flag name) as [f|] eqn:Ef; [|by case_bool_decide].
  apply find_some in Ef as [Hf%list_elem_of_In _].
  assert (∀ v args', (length args' ≤ length args)%nat →
    match f_set f v c with
    | Some c => Parse args' c
    | None => inl (FlagError (if f_bool f then "invalid boolean value %q for -%s: %v"
                              else "invalid value %q for flag -%s: %v") [v; name])
    end = inr (c', rest) → P c') as Hgo.
  { intros v args' Hle. destruct (f_set f v c) as [c1|] eqn:Es; [|done].
    intros Hp. eapply (IH (length args')); [cbn in En; lia|done| |exact Hp]. by eapply Hset. }
  destruct (f_bool f); [by apply Hgo|]. destruct value as [v|]; [by apply Hgo|].
  destruct args as [|v args]; [done|]. apply Hgo. cbn. lia.
Qed.
End parse.

Example ParseInt0_examples :
  ParseInt0 <$> ["3"; "-0x1F"; "0b11"; "017"; "1_000"; "0"; "0x"; "1__0"; "9223372036854775808"; ""; "+-1"; "0_7"]
  = [Some 3; Some (-31); Some 3; Some 15; Some 1000; Some 0; None; None; None; None; None; Some 7].
Proof. vm_compute. reflexivity. Qed.
Example Parse_example :
  Parse [StringVar (λ s c, (s, c.2)) "addr"; BoolVar (λ b c, (c.1, b)) "v"]
    ["-addr"; ":1"; "--v"; "--addr=:2"; "x"; "-v"] ("", false) = inr ((":2", true), ["x"; "-v"]).
Proof. vm_compute. reflexivity. Qed.

End flag.
