(* ===== verification/Migrate.v ===== *)
(** * Package [db/migrations] and [runMigrations]

    Bringing the schema to head (src/db/migrations/migrations.go, and
    [runMigrations] of src/cmd/takuhai/main.go) over a handle of its own,
    which is closed again on every path.  goose and the driver are parameters:
    what each of their calls returns. *)

From S2P Require Import Prelude.

Module migrations.

(** The libraries' calls, each with its error. *)
Record Goose := {
  ParseConfig : string → option error;
  NewPostgresSessionLocker : option error;
  NewProvider : option error;
  Up : option error;
}.
(** What is asked of them, in order. *)
Inductive step := Parsed (url : string) | OpenDB | Locker | Provider | Upped | CloseDB.

Definition newProvider (g : Goose) : option error * list step :=
  match NewPostgresSessionLocker g with
  | Some err => (Some (wrapf "migrations: new session locker: %w" [] err), [Locker])
  | None =>
      match NewProvider g with
      | Some err => (Some (wrapf "migrations: new provider: %w" [] err), [Locker; Provider])
      | None => (None, [Locker; Provider])
      end
  end.
Definition Run (g : Goose) : option error * list step :=
  match newProvider g with
  | (Some err, steps) => (Some err, steps)
  | (None, steps) =>
      (match Up g with Some err => Some (wrapf "migrations: up: %w" [] err) | None => None end, steps ++ [Upped])
  end.
(** [CloseDB] is deferred. *)
Definition runMigrations (g : Goose) (databaseURL : string) : option error * list step :=
  match ParseConfig g databaseURL with
  | Some err => (Some (wrapf "parse database url: %w" [] err), [Parsed databaseURL])
  | None => let '(err, steps) := Run g in (err, [Parsed databaseURL; OpenDB] ++ steps ++ [CloseDB])
  end.

Definition step_result (g : Goose) (s : step) : option error :=
  match s with
  | Parsed url => ParseConfig g url
  | Locker => NewPostgresSessionLocker g
  | Provider => NewProvider g
  | Upped => Up g
  | OpenDB | CloseDB => None
  end.

#[global] Instance step_eq_dec : EqDecision step.
Proof. solve_decision. Defined.
(** Where a failed migration stopped: every step before went through, [e] is
    the error of the one that did not, and the handle is closed after it if it
    was opened. *)
Definition stopped_at (g : Goose) (e : error) (steps : list step) : Prop :=
  ∃ done s, steps = done ++ s :: (if bool_decide (OpenDB ∈ done) then [CloseDB] else [])
    ∧ Forall (λ x, step_result g x = None) done ∧ step_result g s = Some e.

Lemma runMigrations_steps g url :
  let '(err, steps) := runMigrations g url in
  match err with
  | None => steps = [Parsed url; OpenDB; Locker; Provider; Upped; CloseDB] ∧ Forall (λ x, step_result g x = None) steps
  | Some err => ∃ e, stopped_at g e steps ∧ Is err e = Is e e
  end.
Proof.
  unfold runMigrations, Run, newProvider. destruct (ParseConfig g url) as [e|] eqn:E1.
  { exists e. split; [by exists [], (Parsed url)|apply errors_is_wrapf]. }
  destruct (NewPostgresSessionLocker g) as [e|] eqn:E2.
  { exists e. split; [|apply errors_is_wrapf]. exists [Parsed url; OpenDB], Locker. by repeat constructor. }
  destruct (NewProvider g) as [e|] eqn:E3.
  { exists e. split; [|apply errors_is_wrapf]. exists [Parsed url; OpenDB; Locker], Provider. by repeat constructor. }
  destruct (Up g) as [e|] eqn:E4.
  { exists e. split; [|apply errors_is_wrapf]. exists [Parsed url; OpenDB; Locker; Provider], Upped. by repeat constructor. }
  split; [done|]. by repeat constructor.
Qed.
End migrations.
