(* ===== verification/Cmd.v ===== *)
(** * The service's command: configuration and start

    [takuhai] (src/cmd/takuhai/main.go with src/internal/config): flags with
    their environment fallbacks, validation, and what a start does in which
    order.  The environment, the libraries behind the migrations, the pool and
    the listener are oracles. *)

From S2P Require Import Prelude GoStrings GoTime GoFloat GoFlag Duration Postgres Migrate.
From Stdlib Require Import Ascii SpecFloat.
Import flag.

(** The environment: [os.LookupEnv], and [os.Getenv]. *)
Abbreviation environ := (string → option string).
Definition Getenv (env : environ) (name : string) : string := default "" (env name).

Inductive slog_level := LevelDebug | LevelInfo | LevelWarn | LevelError.

Module config.

Definition validLogLevels : list string := ["debug"; "info"; "warn"; "error"].
Record Config := {
  Addr : string;
  DatabaseURL : string;
  LogLevel : string;
  QueueMaxAttempts : Z;
}.
Definition Validate (c : Config) : option error :=
  if bool_decide (DatabaseURL c = "") then Some (ErrNew "config: --database-url is required")
  else if negb (bool_decide (LogLevel c ∈ validLogLevels))
  then Some (Errorf "config: unknown --log-level %q (want one of %v)" [LogLevel c; "[debug info warn error]"] [])
  else if QueueMaxAttempts c <=? 0 then Some (ErrNew "config: --queue-max-attempts must be > 0")
  else None.

End config.

(** ** [takuhai] *)

Module takuhai.
Import config.

Definition version : string := "0.1.0".
Definition parseLogLevel (s : string) : result slog_level :=
  if bool_decide (s = "debug") then Ok LevelDebug
  else if bool_decide (s = "info") then Ok LevelInfo
  else if bool_decide (s = "warn") then Ok LevelWarn
  else if bool_decide (s = "error") then Ok LevelError
  else Err (Errorf "invalid --log-level %q" [s] []).

(** The defaults of [stringFlag] and [intFlag]: the environment's value, if
    it has one that can be read. *)
Definition stringFlag (env : environ) (name def : string) : string :=
  let v := Getenv env name in if bool_decide (v ≠ "") then v else def.
Definition intFlag (env : environ) (name : string) (def : Z) : Z :=
  let v := Getenv env name in
  if bool_decide (v ≠ "") then match Atoi v with Some n => n | None => def end else def.

(** The flags' variables, [-version] first. *)
Abbreviation vars := (bool * Config)%type.
Definition with_cfg (f : Config → Config) (v : vars) : vars := (v.1, f v.2).
Definition flags : list (Flag vars) :=
  [BoolVar (λ b v, (b, v.2)) "version";
   StringVar (λ s, with_cfg (λ c, {| Addr := s; DatabaseURL := DatabaseURL c; LogLevel := LogLevel c;
                                     QueueMaxAttempts := QueueMaxAttempts c |})) "addr";
   StringVar (λ s, with_cfg (λ c, {| Addr := Addr c; DatabaseURL := s; LogLevel := LogLevel c;
                                     QueueMaxAttempts := QueueMaxAttempts c |})) "database-url";
   StringVar (λ s, with_cfg (λ c, {| Addr := Addr c; DatabaseURL := DatabaseURL c; LogLevel := s;
                                     QueueMaxAttempts := QueueMaxAttempts c |})) "log-level";
   IntVar (λ n, with_cfg (λ c, {| Addr := Addr c; DatabaseURL := DatabaseURL c; LogLevel := LogLevel c;
                                  QueueMaxAttempts := n |})) "queue-max-attempts"].
Definition defaults (env : environ) : vars :=
  (false, {| Addr := stringFlag env "TAKUHAI_ADDR" ":8080";
             DatabaseURL := stringFlag env "TAKUHAI_DATABASE_URL" "";
             LogLevel := stringFlag env "TAKUHAI_LOG_LEVEL" "info";
             QueueMaxAttempts := intFlag env "TAKUHAI_QUEUE_MAX_ATTEMPTS" 3 |}).

(** What the process does to the world, in order; the pool is closed by a
    deferred call when the start fails after it. *)
Inductive action :=
  | Migrating (step : migrations.step)
  | Connect (url : string)
  | Listen (addr : string)
  | ClosePool.
Record World := {
  goose : migrations.Goose;
  connect : string → option error;
  listen : string → option error;
}.
(** How [main] ends before it serves, or what it serves with. *)
Inductive outcome :=
  | Exit (code : Z)
  | Failed (err : error)
  | Serving (cfg : Config) (level : slog_level) (store_cfg : postgres.StoreConfig).

Definition run (env : environ) (args : list string) (w : World) : outcome * list action :=
  match Parse flags args (defaults env) with
  | inl ErrHelp => (Exit 0, [])
  | inl (FlagError _ _) => (Exit 2, [])
  | inr ((showVersion, cfg), _) =>
      if showVersion : bool then (Exit 0, []) else
      match Validate cfg with
      | Some err => (Failed err, [])
      | None =>
          match parseLogLevel (LogLevel cfg) with
          | Err err => (Failed err, [])
          | Ok level =>
              let url := DatabaseURL cfg in
              let '(migrated, steps) := migrations.runMigrations (goose w) url in
              let acts := Migrating <$> steps in
              match migrated with
              | Some err => (Failed (wrapf "run migrations: %w" [] err), acts)
              | None =>
                  match connect w url with
                  | Some err => (Failed (wrapf "connect database: %w" [] err), acts ++ [Connect url])
                  | None =>
                      let acts := acts ++ [Connect url; Listen (Addr cfg)] in
                      match listen w (Addr cfg) with
                      | Some err => (Failed (wrapf "bind %s: %w" [Addr cfg] err), acts ++ [ClosePool])
                      | None => (Serving cfg level (postgres.NewStoreWithConfig {| postgres.QueueMaxAttempts := QueueMaxAttempts cfg |}), acts)
                      end
                  end
              end
          end
      end
  end.

End takuhai.
