(* ===== verification/CmdDmhy.v ===== *)
(** * The DMHY crawler's command

    [takuhai-dmhy] (src/sources/dmhy/cmd/takuhai-dmhy/main.go): its two
    commands, their flags, and the environment behind the flags' defaults. *)

From S2P Require Import Prelude GoStrings GoTime GoFloat GoFlag Duration Cmd.
From Stdlib Require Import Ascii SpecFloat.
Import flag.

Module dmhycmd.

Definition version : string := "0.1.0".
Record ServeCmd := {
  Addr : string;
  BaseURL : string;
  SortID : Z;
  RateRPS : spec_float;
  CacheTTL : Duration;
  LogLevel : string;
}.
Record ParseCmd := { Files : list string; Out : string; KeepGoing : bool }.

Definition envString (env : environ) (name def : string) : string := default def (env name).
Definition envInt (env : environ) (name : string) (def : Z) : result Z :=
  match env name with
  | None => Ok def
  | Some v => match Atoi v with Some n => Ok n | None => Err (Errorf "%s: %w" [name] [ErrNew "strconv.Atoi: parsing"]) end
  end.
Definition envFloat (env : environ) (name : string) (def : spec_float) : result spec_float :=
  match env name with
  | None => Ok def
  | Some v =>
      match ParseFloat64 v with
      | Some x => Ok x
      | None => Err (Errorf "%s: %w" [name] [ErrNew "strconv.ParseFloat: parsing"])
      end
  end.
Definition envDuration (env : environ) (name : string) (def : Duration) : result Duration :=
  match env name with
  | None => Ok def
  | Some v =>
      match duration.ParseDuration v with
      | Some d => Ok d
      | None => Err (Errorf "%s: %w" [name] [ErrNew "time: invalid duration"])
      end
  end.
(** [0.5]. *)
Definition half : spec_float := S754_finite false 4503599627370496 (-53).

Definition serveDefaults (env : environ) : result ServeCmd :=
  sortID ← envInt env "TAKUHAI_DMHY_SORT_ID" 2;
  rateRPS ← envFloat env "TAKUHAI_DMHY_RATE_RPS" half;
  cacheTTL ← envDuration env "TAKUHAI_DMHY_CACHE_TTL" (10 * Minute);
  mret {|
    Addr := envString env "TAKUHAI_DMHY_ADDR" ":8081";
    BaseURL := envString env "TAKUHAI_DMHY_BASE_URL" "https://share.dmhy.org";
    SortID := sortID;
    RateRPS := rateRPS;
    CacheTTL := cacheTTL;
    LogLevel := envString env "TAKUHAI_DMHY_LOG_LEVEL" "info";
  |}.

Definition serve_flags : list (Flag ServeCmd) :=
  [StringVar (λ s c, Build_ServeCmd s (BaseURL c) (SortID c) (RateRPS c) (CacheTTL c) (LogLevel c)) "addr";
   StringVar (λ s c, Build_ServeCmd (Addr c) s (SortID c) (RateRPS c) (CacheTTL c) (LogLevel c)) "dmhy-base-url";
   IntVar (λ n c, Build_ServeCmd (Addr c) (BaseURL c) n (RateRPS c) (CacheTTL c) (LogLevel c)) "sort-id";
   Float64Var (λ x c, Build_ServeCmd (Addr c) (BaseURL c) (SortID c) x (CacheTTL c) (LogLevel c)) "rate-rps";
   DurationVar (λ d c, Build_ServeCmd (Addr c) (BaseURL c) (SortID c) (RateRPS c) d (LogLevel c)) "cache-ttl";
   StringVar (λ s c, Build_ServeCmd (Addr c) (BaseURL c) (SortID c) (RateRPS c) (CacheTTL c) s) "log-level"].
Definition of_flag_error (e : flag_error) : error :=
  match e with
  | ErrHelp => ErrNew "flag: help requested"
  | FlagError format args => Errorf format args []
  end.
Definition valid_level (s : string) : bool := bool_decide (s ∈ ["debug"; "info"; "warn"; "error"]).
Definition parseServe (env : environ) (args : list string) : result ServeCmd :=
  cmd ← serveDefaults env;
  match Parse serve_flags args cmd with
  | inl err => Err (of_flag_error err)
  | inr (cmd, rest) =>
      if bool_decide (rest ≠ []) then Err (ErrNew "serve takes no positional args")
      else if negb (valid_level (LogLevel cmd)) then Err (Errorf "invalid --log-level %q" [LogLevel cmd] [])
      else Ok cmd
  end.

Definition parse_flags : list (Flag ParseCmd) :=
  [StringVar (λ s c, {| Files := Files c; Out := s; KeepGoing := KeepGoing c |}) "out";
   StringVar (λ s c, {| Files := Files c; Out := s; KeepGoing := KeepGoing c |}) "o";
   BoolVar (λ b c, {| Files := Files c; Out := Out c; KeepGoing := b |}) "keep-going"].
Definition parseParse (args : list string) : result ParseCmd :=
  match Parse parse_flags args {| Files := []; Out := "-"; KeepGoing := false |} with
  | inl err => Err (of_flag_error err)
  | inr (cmd, files) =>
      if bool_decide (files = []) then Err (ErrNew "parse needs at least one file or '-'")
      else Ok {| Files := files; Out := Out cmd; KeepGoing := KeepGoing cmd |}
  end.

(** What [run] goes on to do. *)
Inductive command := PrintVersion | Serve (cmd : ServeCmd) | ParseFiles (cmd : ParseCmd).
Definition run (env : environ) (args : list string) : result command :=
  match args with
  | [] => Err (ErrNew "missing command: serve or parse")
  | cmd :: args =>
      if bool_decide (cmd ∈ ["--version"; "-version"; "version"]) then Ok PrintVersion
      else if bool_decide (cmd = "serve") then (c ← parseServe env args; mret (Serve c))
      else if bool_decide (cmd = "parse") then (c ← parseParse args; mret (ParseFiles c))
      else Err (Errorf "unknown command %q: want serve or parse" [cmd] [])
  end.

(** The status [main] exits with, given what the two [Run] methods return. *)
Definition main (env : environ) (args : list string) (Run_serve : ServeCmd → option error)
    (Run_parse : ParseCmd → option error) : Z :=
  match (match run env args with
         | Err err => Some err
         | Ok PrintVersion => None
         | Ok (Serve cmd) => Run_serve cmd
         | Ok (ParseFiles cmd) => Run_parse cmd
         end) with
  | Some _ => 1
  | None => 0
  end.

Definition slogLevel (s : string) : slog_level :=
  if bool_decide (s = "debug") then LevelDebug
  else if bool_decide (s = "warn") then LevelWarn
  else if bool_decide (s = "error") then LevelError
  else LevelInfo.

End dmhycmd.
