(* ===== verification/CmdNyaa.v ===== *)
(** * The Nyaa crawler's command

    [takuhai-nyaa] (src/sources/nyaa/cmd/takuhai-nyaa/main.go): its flags,
    and the environment behind their defaults. *)

From S2P Require Import Prelude GoStrings GoTime GoFloat GoFlag Duration Cmd CmdDmhy.
From Stdlib Require Import Ascii SpecFloat.
Import flag.

Module nyaacmd.

Definition version : string := "0.1.0".
Record ServeCmd := {
  Addr : string;
  BaseURL : string;
  Query : string;
  Category : string;
  Filter : string;
  RateRPS : spec_float;
  LogLevel : string;
}.

Definition envString (env : environ) (name def : string) : string := default def (env name).
Definition envFloat (env : environ) (name : string) (def : spec_float) : result spec_float :=
  match env name with
  | None => Ok def
  | Some v =>
      match ParseFloat64 v with
      | Some x => Ok x
      | None => Err (Errorf "%s: %w" [name] [ErrNew "strconv.ParseFloat: parsing"])
      end
  end.

Definition serveDefaults (env : environ) : result ServeCmd :=
  rateRPS ← envFloat env "TAKUHAI_NYAA_RATE_RPS" dmhycmd.half;
  mret {|
    Addr := envString env "TAKUHAI_NYAA_ADDR" ":8082";
    BaseURL := envString env "TAKUHAI_NYAA_BASE_URL" "https://nyaa.si";
    Query := envString env "TAKUHAI_NYAA_QUERY" "";
    Category := envString env "TAKUHAI_NYAA_CATEGORY" "1_0";
    Filter := envString env "TAKUHAI_NYAA_FILTER" "0";
    RateRPS := rateRPS;
    LogLevel := envString env "TAKUHAI_NYAA_LOG_LEVEL" "info";
  |}.
Definition serve_flags : list (Flag ServeCmd) :=
  [StringVar (λ s c, Build_ServeCmd s (BaseURL c) (Query c) (Category c) (Filter c) (RateRPS c) (LogLevel c)) "addr";
   StringVar (λ s c, Build_ServeCmd (Addr c) s (Query c) (Category c) (Filter c) (RateRPS c) (LogLevel c)) "nyaa-base-url";
   StringVar (λ s c, Build_ServeCmd (Addr c) (BaseURL c) s (Category c) (Filter c) (RateRPS c) (LogLevel c)) "query";
   StringVar (λ s c, Build_ServeCmd (Addr c) (BaseURL c) (Query c) s (Filter c) (RateRPS c) (LogLevel c)) "category";
   StringVar (λ s c, Build_ServeCmd (Addr c) (BaseURL c) (Query c) (Category c) s (RateRPS c) (LogLevel c)) "filter";
   Float64Var (λ x c, Build_ServeCmd (Addr c) (BaseURL c) (Query c) (Category c) (Filter c) x (LogLevel c)) "rate-rps";
   StringVar (λ s c, Build_ServeCmd (Addr c) (BaseURL c) (Query c) (Category c) (Filter c) (RateRPS c) s) "log-level"].
Definition parseServe (env : environ) (args : list string) : result ServeCmd :=
  cmd ← serveDefaults env;
  match Parse serve_flags args cmd with
  | inl err => Err (dmhycmd.of_flag_error err)
  | inr (cmd, rest) =>
      if bool_decide (rest ≠ []) then Err (ErrNew "serve takes no positional args")
      else if negb (bool_decide (LogLevel cmd ∈ ["debug"; "info"; "warn"; "error"]))
      then Err (Errorf "invalid --log-level %q" [LogLevel cmd] [])
      else Ok cmd
  end.

Inductive command := PrintVersion | Serve (cmd : ServeCmd).
Definition run (env : environ) (args : list string) : result command :=
  match args with
  | [] => Err (ErrNew "missing command: serve")
  | cmd :: args =>
      if bool_decide (cmd ∈ ["--version"; "-version"; "version"]) then Ok PrintVersion
      else if bool_decide (cmd = "serve") then (c ← parseServe env args; mret (Serve c))
      else Err (Errorf "unknown command %q: want serve" [cmd] [])
  end.
(** The status [main] exits with, given what [Run] returns. *)
Definition main (env : environ) (args : list string) (Run_serve : ServeCmd → option error) : Z :=
  match (match run env args with
         | Err err => Some err
         | Ok PrintVersion => None
         | Ok (Serve cmd) => Run_serve cmd
         end) with
  | Some _ => 1
  | None => 0
  end.
Definition slogLevel (s : string) : slog_level :=
  if bool_decide (s = "debug") then LevelDebug
  else if bool_decide (s = "warn") then LevelWarn
  else if bool_decide (s = "error") then LevelError
  else LevelInfo.

End nyaacmd.
