(* ===== verification/CmdThms.v ===== *)
(** * What a start promises *)

From S2P Require Import Prelude GoStrings GoTime GoFloat GoFlag Duration Postgres Migrate Cmd CmdDmhy CmdNyaa.
From Stdlib Require Import Ascii SpecFloat.
Import flag.

(** ** [takuhai] *)

Section takuhai_start.
Import config takuhai.

Lemma Validate_ok c :
  Validate c = None →
  DatabaseURL c ≠ "" ∧ LogLevel c ∈ validLogLevels ∧ 0 < QueueMaxAttempts c.
Proof.
  unfold Validate. case_bool_decide; [done|]. case_bool_decide; cbn [negb]; [|done].
  destruct (Z.leb_spec (QueueMaxAttempts c) 0); [done|]. done.
Qed.
(** The two lists of log levels agree. *)
Lemma parseLogLevel_total s : s ∈ validLogLevels → ∃ level, parseLogLevel s = Ok level.
Proof.
  unfold validLogLevels. rewrite !elem_of_cons.
  intros [->|[->|[->|[->|[]%not_elem_of_nil]]]]; eexists; reflexivity.
Qed.

(** What the world did with one action. *)
Definition action_result (w : World) (a : action) : option error :=
  match a with
  | Migrating s => migrations.step_result (goose w) s
  | Connect url => connect w url
  | Listen addr => listen w addr
  | ClosePool => None
  end.
(** The connections opened and not closed again. *)
Definition opens (w : World) (a : action) : Z :=
  match a with
  | Migrating migrations.OpenDB => 1
  | Migrating migrations.CloseDB | ClosePool => -1
  | Connect url => if bool_decide (connect w url = None) then 1 else 0
  | _ => 0
  end.
Definition left_open (w : World) (acts : list action) : Z := foldr Z.add 0 (opens w <$> acts).
Definition closes (a : action) : Prop := a = Migrating migrations.CloseDB ∨ a = ClosePool.
(** A start that stopped at a step with the error [e]. *)
Definition stopped (w : World) (acts : list action) (e : error) : Prop :=
  ∃ done a closing, acts = done ++ a :: closing ∧ Forall (λ b, action_result w b = None) done
    ∧ action_result w a = Some e ∧ Forall closes closing ∧ left_open w acts = 0.

Lemma migrated_stopped w e steps :
  migrations.stopped_at (goose w) e steps → left_open w (Migrating <$> steps) = 0 → stopped w (Migrating <$> steps) e.
Proof.
  intros (done&s&->&Hd&Hs) Ho. rewrite fmap_app, fmap_cons in *.
  exists (Migrating <$> done), (Migrating s), (Migrating <$> (if bool_decide (migrations.OpenDB ∈ done) then [migrations.CloseDB] else [])).
  split_and!; [done|by apply Forall_fmap|done| |done]. case_bool_decide; repeat constructor.
Qed.
Lemma migrations_left_open w url : left_open w (Migrating <$> (migrations.runMigrations (goose w) url).2) = 0.
Proof.
  unfold migrations.runMigrations, migrations.Run, migrations.newProvider. destruct (migrations.ParseConfig _ _); [done|].
  destruct (migrations.NewPostgresSessionLocker _); [done|]. by destruct (migrations.NewProvider _).
Qed.
Lemma left_open_app w l k : left_open w (l ++ k) = left_open w l + left_open w k.
Proof. unfold left_open. rewrite fmap_app, foldr_app. induction l as [|a l IH]; cbn; [done|]. rewrite IH. lia. Qed.

(** C38: the service never serves half-configured or against a database that
    was not migrated: when it serves, the schema was brought to head first,
    over a handle that is closed again, then the pool opened, then the address
    bound, each of them once and without an error, with a database URL, a
    known log level and a positive attempt cap that the store takes as it is.
    When it does not, it did nothing at all (a usage error, a request for help
    or the version, or a configuration that does not validate), or it stopped
    at the first of these steps that failed, with that failure as the cause,
    and closed what it had opened. *)
Theorem start_safe env args w :
  let '(out, acts) := run env args w in
  match out with
  | Serving cfg level store_cfg =>
      let url := DatabaseURL cfg in
      acts = (Migrating <$> [migrations.Parsed url; migrations.OpenDB; migrations.Locker; migrations.Provider;
                             migrations.Upped; migrations.CloseDB]) ++ [Connect url; Listen (Addr cfg)]
      ∧ Forall (λ a, action_result w a = None) acts ∧ left_open w acts = 1
      ∧ url ≠ "" ∧ parseLogLevel (LogLevel cfg) = Ok level
      ∧ 0 < QueueMaxAttempts cfg ∧ postgres.QueueMaxAttempts store_cfg = QueueMaxAttempts cfg
  | Exit code => acts = [] ∧ (code = 0 ∨ code = 2)
  | Failed err =>
      (acts = [] ∧ ∃ cfg, Validate cfg = Some err) ∨ ∃ e, stopped w acts e ∧ Is err e = Is e e
  end.
Proof.
  unfold run. destruct (Parse flags args (defaults env)) as [[|format l]|[[showVersion cfg] rest]]; [auto..|].
  destruct showVersion; [auto|]. destruct (Validate cfg) as [err|] eqn:Ev; [left; eauto|].
  apply Validate_ok in Ev as (Hurl&Hlevel&Hmax). destruct (parseLogLevel_total _ Hlevel) as [level Hl]. rewrite Hl.
  pose proof (migrations.runMigrations_steps (goose w) (DatabaseURL cfg)) as Hm.
  pose proof (migrations_left_open w (DatabaseURL cfg)) as Hopen.
  destruct (migrations.runMigrations _ _) as [[err|] steps]; cbn [snd] in Hopen.
  { right. destruct Hm as (e&He&Hi). exists e. split; [by apply migrated_stopped|].
    etransitivity; [apply errors_is_wrapf|exact Hi]. }
  destruct Hm as [-> Hall]. set (acts := Migrating <$> _) in *.
  assert (Forall (λ b, action_result w b = None) acts) as Hacts by by apply Forall_fmap.
  destruct (connect w (DatabaseURL cfg)) as [e|] eqn:Ec.
  { right. exists e. split; [|apply errors_is_wrapf]. exists acts, (Connect (DatabaseURL cfg)), [].
    split_and!; [done..|]. rewrite left_open_app, Hopen. cbn. by rewrite bool_decide_eq_false_2 by by rewrite Ec. }
  assert (left_open w [Connect (DatabaseURL cfg); Listen (Addr cfg)] = 1) as Hone.
  { cbn. by rewrite bool_decide_eq_true_2. }
  destruct (listen w (Addr cfg)) as [e|] eqn:El.
  { right. exists e. split; [|apply errors_is_wrapf].
    exists (acts ++ [Connect (DatabaseURL cfg)]), (Listen (Addr cfg)), [ClosePool].
    split_and!; [by rewrite <-!app_assoc|apply Forall_app; split; [done|by repeat constructor]|done|by repeat constructor; right|].
    rewrite !left_open_app, Hopen, Hone. done. }
  split_and!; try done; [|by rewrite left_open_app, Hopen|].
  - apply Forall_app. split; [done|]. by repeat constructor.
  - unfold postgres.NewStoreWithConfig. cbn. destruct (Z.leb_spec (QueueMaxAttempts cfg) 0); [lia|done].
Qed.
End takuhai_start.

(** ** The crawlers *)

(** The flag wins over the environment and the environment over the default. *)
Definition sort_id_of (env : environ) (args : list string) : result Z :=
  cmd ← dmhycmd.parseServe env args; mret (dmhycmd.SortID cmd).
Definition one_variable (name value : string) : environ := λ n, if bool_decide (n = name) then Some value else None.
Example sort_id_resolution :
  sort_id_of (λ _, None) [] = Ok 2
  ∧ sort_id_of (λ _, None) ["--sort-id=31"] = Ok 31
  ∧ sort_id_of (one_variable "TAKUHAI_DMHY_SORT_ID" "7") [] = Ok 7
  ∧ sort_id_of (one_variable "TAKUHAI_DMHY_SORT_ID" "7") ["-sort-id"; "31"] = Ok 31
  ∧ sort_id_of (one_variable "TAKUHAI_DMHY_SORT_ID" "") ["-sort-id"; "31"]
    = Err (Errorf "%s: %w" ["TAKUHAI_DMHY_SORT_ID"] [ErrNew "strconv.Atoi: parsing"]).
Proof. split_and!; vm_compute; reflexivity. Qed.

(** [takuhai] passes over a cap it cannot read and starts with the default. *)
Example unreadable_cap_ignored :
  takuhai.intFlag (one_variable "TAKUHAI_QUEUE_MAX_ATTEMPTS" "five") "TAKUHAI_QUEUE_MAX_ATTEMPTS" 3 = 3.
Proof. reflexivity. Qed.

(** A served crawler has a log level its own [slogLevel] knows. *)
Lemma parseServe_level env args cmd :
  dmhycmd.parseServe env args = Ok cmd → dmhycmd.valid_level (dmhycmd.LogLevel cmd) = true.
Proof.
  unfold dmhycmd.parseServe, mbind, result_bind. destruct (dmhycmd.serveDefaults env) as [e|c]; [done|].
  destruct (Parse dmhycmd.serve_flags args c) as [e|[c' rest]]; [done|].
  case_bool_decide; [done|]. destruct (dmhycmd.valid_level (dmhycmd.LogLevel c')) eqn:E; cbn [negb]; [|done].
  by intros [= <-].
Qed.

(** Help: the service takes it for a clean end, the crawlers, whose flag sets
    return it as an error, for a failure; a version is printed whatever the
    environment holds. *)
Lemma help_and_version env w serve parse serve_nyaa rest :
  takuhai.run (λ _, None) ["-h"] w = (takuhai.Exit 0, [])
  ∧ dmhycmd.main (λ _, None) ["serve"; "-h"] serve parse = 1
  ∧ nyaacmd.main (λ _, None) ["serve"; "-h"] serve_nyaa = 1
  ∧ dmhycmd.main env ("version" :: rest) serve parse = 0
  ∧ nyaacmd.main env ("version" :: rest) serve_nyaa = 0.
Proof. split_and!; vm_compute; reflexivity. Qed.
(** A crawler's command fails exactly when its arguments are refused or the
    command it runs returns an error. *)
Lemma crawler_exit_status env args serve parse serve_nyaa :
  (dmhycmd.main env args serve parse = 0 ↔
     match dmhycmd.run env args with
     | Err _ => False
     | Ok dmhycmd.PrintVersion => True
     | Ok (dmhycmd.Serve c) => serve c = None
     | Ok (dmhycmd.ParseFiles c) => parse c = None
     end)
  ∧ (nyaacmd.main env args serve_nyaa = 0 ↔
     match nyaacmd.run env args with
     | Err _ => False
     | Ok nyaacmd.PrintVersion => True
     | Ok (nyaacmd.Serve c) => serve_nyaa c = None
     end).
Proof.
  unfold dmhycmd.main, nyaacmd.main. split.
  - destruct (dmhycmd.run env args) as [e|[|c|c]]; [done|done|destruct (serve c); done|destruct (parse c); done].
  - destruct (nyaacmd.run env args) as [e|[|c]]; [done|done|destruct (serve_nyaa c)]; done.
Qed.
