(* ===== verification/Backfill.v ===== *)
(** * The backfill command: saved pages into raw posts

    [takuhai-dmhy parse] (src/sources/dmhy/cmd/takuhai-dmhy/parse.go).  The
    files as they are when each is read, the output's creation and every
    write to it are oracles; the lines written are the posts handed to the
    encoder, in order. *)

From S2P Require Import Prelude GoStrings GoTime GoTimeFmt GoRegexp GoJson GoFloat GoHtml Rawpost Crawl CrawlServer.
From S2P Require Import GoFlag Cmd CmdDmhy Dmhy DmhyThms.
From Stdlib Require Import Ascii SpecFloat.
Import dmhycmd.

Module backfill.

Section command.
Context (int64_overflow : spec_float → Z).
(** The [i]th file read, the file the output goes to, and the write of the
    [k]th line. *)
Context (read : nat → string → result string) (create : string → option error) (write : nat → option error).

Definition parseFile (i : nat) (name : string) : result (list rawpost.RawPost) :=
  html ← read i name; dmhy.ParseArchivePage int64_overflow html.

(** [enc.Encode(&parsed[i])], whose times are in DMHY's zone. *)
Definition encode (k : nat) (p : rawpost.RawPost) : option error :=
  if crawlserver.four_digit_year (rawpost.rp_PublishedAt p + dmhy.dmhyZone) then write k
  else Some crawlserver.ErrYear.
Fixpoint emit_rows (out rows : list rawpost.RawPost) : list rawpost.RawPost * option error :=
  match rows with
  | [] => (out, None)
  | p :: rows =>
      match encode (length out) p with
      | Some werr => (out, Some (wrapf "write JSONL: %w" [] werr))
      | None => emit_rows (out ++ [p]) rows
      end
  end.
(** The lines written so far, the failures so far, from the [i]th file on. *)
Fixpoint emit (keepGoing : bool) (files : list string) (i : nat) (out : list rawpost.RawPost) (failures : Z)
    : list rawpost.RawPost * Z * option error :=
  match files with
  | [] => (out, failures, None)
  | name :: files =>
      match parseFile i name with
      | Err perr =>
          let failures := failures + 1 in
          if negb keepGoing then (out, failures, Some (wrapf "%s: %w" [name] perr))
          else emit keepGoing files (S i) out failures
      | Ok parsed =>
          match emit_rows out parsed with
          | (out, Some err) => (out, failures, Some err)
          | (out, None) => emit keepGoing files (S i) out failures
          end
      end
  end.

Definition Run (c : ParseCmd) : list rawpost.RawPost * option error :=
  match (if bool_decide (Out c ≠ "-") then create (Out c) else None) with
  | Some err => ([], Some (wrapf "open output %s: %w" [Out c] err))
  | None =>
      match emit (KeepGoing c) (Files c) 0 [] 0 with
      | (out, _, Some err) => (out, Some err)
      | (out, failures, None) =>
          if 0 <? failures
          then (out, Some (Errorf "%d of %d file(s) failed to parse"
                             [Itoa failures; Itoa (Z.of_nat (length (Files c)))] []))
          else (out, None)
      end
  end.

(** ** What is written *)

(** The posts of the files that parse, and how many do not. *)
Fixpoint parsed_rows (i : nat) (files : list string) : list rawpost.RawPost :=
  match files with
  | [] => []
  | name :: files => match parseFile i name with Ok rows => rows | Err _ => [] end ++ parsed_rows (S i) files
  end.
Fixpoint failing (i : nat) (files : list string) : Z :=
  match files with
  | [] => 0
  | name :: files => (match parseFile i name with Ok _ => 0 | Err _ => 1 end) + failing (S i) files
  end.

Lemma failing_nonneg i files : 0 ≤ failing i files.
Proof. revert i. induction files as [|n files IH]; intros i; cbn; [lia|]. specialize (IH (S i)). destruct (parseFile i n); lia. Qed.

Lemma parseFile_rows i name rows :
  parseFile i name = Ok rows →
  Forall (λ p, crawlserver.four_digit_year (rawpost.rp_PublishedAt p + dmhy.dmhyZone) = true) rows.
Proof.
  unfold parseFile, mbind, result_bind. destruct (read i name) as [e|html]; [done|]. apply ParseArchivePage_years.
Qed.

Context (Hwrite : ∀ k, write k = None).

Lemma emit_rows_all out rows :
  Forall (λ p, crawlserver.four_digit_year (rawpost.rp_PublishedAt p + dmhy.dmhyZone) = true) rows →
  emit_rows out rows = (out ++ rows, None).
Proof.
  intros H. revert out. induction H as [|p rows Hp _ IH]; intros out; cbn [emit_rows]; [by rewrite app_nil_r|].
  unfold encode. rewrite Hp, Hwrite, IH. by rewrite <-app_assoc.
Qed.
Lemma emit_keep_going files i out failures :
  emit true files i out failures = (out ++ parsed_rows i files, failures + failing i files, None).
Proof.
  revert i out failures. induction files as [|name files IH]; intros i out failures; cbn [emit parsed_rows failing].
  { by rewrite app_nil_r, Z.add_0_r. }
  destruct (parseFile i name) as [e|rows] eqn:E; cbn [negb].
  - rewrite IH. f_equal. f_equal. lia.
  - rewrite emit_rows_all by by eapply parseFile_rows. rewrite IH, <-app_assoc. f_equal.
Qed.
Lemma emit_stops files i out failures :
  (failing i files = 0 ∧ emit false files i out failures = (out ++ parsed_rows i files, failures, None))
  ∨ ∃ before name after e, files = before ++ name :: after ∧ failing i before = 0
      ∧ parseFile (i + length before) name = Err e
      ∧ emit false files i out failures
        = (out ++ parsed_rows i before, failures + 1, Some (wrapf "%s: %w" [name] e)).
Proof.
  revert i out. induction files as [|name files IH]; intros i out; cbn [emit parsed_rows failing].
  { left. by rewrite app_nil_r. }
  destruct (parseFile i name) as [e|rows] eqn:E; cbn [negb].
  - right. exists [], name, files, e. cbn. by rewrite Nat.add_0_r, app_nil_r.
  - rewrite emit_rows_all by by eapply parseFile_rows. rewrite Z.add_0_l.
    destruct (IH (S i) (out ++ rows)) as [[-> ->]|(before&name'&after&e&->&Hb&He&->)].
    + left. by rewrite <-app_assoc.
    + right. exists (name :: before), name', after, e. cbn [failing parsed_rows length app]. rewrite E.
      split_and!; [done|lia| |by rewrite <-app_assoc]. by replace (i + S (length before))%nat with (S i + length before)%nat by lia.
Qed.

(** With an output that takes every line, the backfill loses no post and
    hides no failure.  With [--keep-going] it writes the posts of every file
    that parses, in order, and ends in an error exactly when some file did
    not.  Without it, it writes them all when every file parses, and
    otherwise the posts of the files before the first one that does not,
    ending in that file's error.  No post is ever refused by the encoder. *)
Theorem backfill_accounts c :
  (Out c = "-" ∨ create (Out c) = None) →
  let '(out, err) := Run c in
  if KeepGoing c
  then out = parsed_rows 0 (Files c) ∧ (err = None ↔ failing 0 (Files c) = 0)
  else (failing 0 (Files c) = 0 ∧ out = parsed_rows 0 (Files c) ∧ err = None)
       ∨ ∃ before name after e, Files c = before ++ name :: after ∧ failing 0 before = 0
           ∧ parseFile (length before) name = Err e ∧ out = parsed_rows 0 before
           ∧ err = Some (wrapf "%s: %w" [name] e).
Proof.
  intros Hout. unfold Run.
  assert ((if bool_decide (Out c ≠ "-") then create (Out c) else None) = None) as ->.
  { case_bool_decide; [|done]. by destruct Hout. }
  destruct (KeepGoing c).
  - rewrite emit_keep_going, Z.add_0_l. pose proof (failing_nonneg 0 (Files c)).
    destruct (Z.ltb_spec 0 (failing 0 (Files c))); split; try done; split; intros; try done; lia.
  - destruct (emit_stops (Files c) 0 [] 0) as [[H0 ->]|(before&name&after&e&Hf&Hb&He&->)]; [by left|].
    right. by exists before, name, after, e.
Qed.
End command.

Definition demo_file (_ : nat) (name : string) : result string :=
  if bool_decide (name = "a.html") then Ok demo_page else Err (ErrNew "no such file").
Definition demo_command : ParseCmd := {| Files := ["b.html"; "a.html"]; Out := "-"; KeepGoing := true |}.

End backfill.
