(* ===== verification/Serve.v ===== *)
(** * A process from its signal to its end

    What the three commands do once they serve (runHTTP and run of
    src/cmd/takuhai/main.go, Run of src/sources/dmhy/cmd/takuhai-dmhy/main.go
    and src/sources/nyaa/cmd/takuhai-nyaa/main.go): the select between the
    signal and the end of the serve loop, the graceful shutdown with its
    deadline, the forced close, the deferred close of the service's pool, and
    the error the process ends with.  Requests, signals, the clock, the
    listener and the pool's connections are the steps of the outside, in any
    order; the process's own steps are those of its main goroutine, of
    [http.Server.Shutdown], which polls until no connection is busy, of the
    serve loop, and of [pgxpool]'s [Close], which blocks until every
    connection is back. *)

From S2P Require Import Prelude GoTime.

Module serve.

Definition ErrServerClosed : error := ErrNew "http: Server closed".
Definition is_closed (err : error) : bool :=
  match err with ErrNew text => bool_decide (text = "http: Server closed") | _ => false end.
Definition DeadlineExceeded : error := ErrNew "context deadline exceeded".
Definition drainTimeout : Duration := 10 * Second.

(** [Closing] is the deferred [st.Close] of [run], after [runHTTP] returned. *)
Inductive phase :=
  | Select
  | Draining (deadline : Time)
  | AwaitServe
  | Closing (err : option error)
  | Ended (err : option error).
Record process := {
  p_now : Time;
  p_signalled : bool;
  (** What the serve loop returned. *)
  p_loop : option error;
  (** Open connections that [Shutdown] does not take for idle - a request is
      being read or handled, or they are new -, and how many of these were cut
      off in all. *)
  p_inflight : nat;
  p_cut : nat;
  (** Connections of the pool that are out. *)
  p_held : nat;
  p_drain_from : option Time;
  p_phase : phase;
}.
Definition started (now : Time) : process := {|
  p_now := now; p_signalled := false; p_loop := None; p_inflight := 0; p_cut := 0; p_held := 0; p_drain_from := None;
  p_phase := Select;
|}.

Definition set_now (now : Time) (p : process) : process := {|
  p_now := now; p_signalled := p_signalled p; p_loop := p_loop p; p_inflight := p_inflight p; p_cut := p_cut p;
  p_held := p_held p; p_drain_from := p_drain_from p; p_phase := p_phase p |}.
Definition set_signalled (p : process) : process := {|
  p_now := p_now p; p_signalled := true; p_loop := p_loop p; p_inflight := p_inflight p; p_cut := p_cut p;
  p_held := p_held p; p_drain_from := p_drain_from p; p_phase := p_phase p |}.
Definition set_inflight (n : nat) (p : process) : process := {|
  p_now := p_now p; p_signalled := p_signalled p; p_loop := p_loop p; p_inflight := n; p_cut := p_cut p;
  p_held := p_held p; p_drain_from := p_drain_from p; p_phase := p_phase p |}.
Definition set_held (n : nat) (p : process) : process := {|
  p_now := p_now p; p_signalled := p_signalled p; p_loop := p_loop p; p_inflight := p_inflight p; p_cut := p_cut p;
  p_held := n; p_drain_from := p_drain_from p; p_phase := p_phase p |}.
Definition set_loop (err : error) (p : process) : process := {|
  p_now := p_now p; p_signalled := p_signalled p; p_loop := Some err; p_inflight := p_inflight p; p_cut := p_cut p;
  p_held := p_held p; p_drain_from := p_drain_from p; p_phase := p_phase p |}.
Definition set_phase (x : phase) (p : process) : process := {|
  p_now := p_now p; p_signalled := p_signalled p; p_loop := p_loop p; p_inflight := p_inflight p; p_cut := p_cut p;
  p_held := p_held p; p_drain_from := p_drain_from p; p_phase := x |}.

(** ** The commands *)

(** The shutdown begins, with its deadline. *)
Definition begin_drain (p : process) : process := {|
  p_now := p_now p; p_signalled := p_signalled p; p_loop := p_loop p; p_inflight := p_inflight p; p_cut := p_cut p;
  p_held := p_held p; p_drain_from := Some (p_now p); p_phase := Draining (Add (p_now p) drainTimeout) |}.
(** Every open connection goes: [srv.Close], and the end of the process. *)
Definition cut_off (p : process) : process := {|
  p_now := p_now p; p_signalled := p_signalled p; p_loop := p_loop p; p_inflight := 0;
  p_cut := p_cut p + p_inflight p; p_held := p_held p; p_drain_from := p_drain_from p; p_phase := p_phase p |}.
Definition exit (err : option error) (p : process) : process := set_phase (Ended err) (cut_off p).

Definition unless_closed (err : error) : option error :=
  if is_closed err then None else Some err.

(** What a command makes of the loop's error in its select - nothing, when
    its goroutine does not send it on -, of [Shutdown]'s result, and of the
    result of its last function; and whether it has a pool. *)
Record command := {
  on_loop : error → option (option error);
  after_shutdown : option error → process → process;
  returns : option error → process → process;
  pooled : bool;
}.
(** The deferred [st.Close] of [run] begins. *)
Definition close_store (result : option error) (p : process) : process := set_phase (Closing result) p.
(** [runHTTP]: a shutdown that fails is followed by [srv.Close], and either
    way by the serve loop's own error; [run] then closes the pool. *)
Definition takuhai_cmd : command := {|
  on_loop err := Some (unless_closed err);
  after_shutdown result p := set_phase AwaitServe (match result with Some _ => cut_off p | None => p end);
  returns := close_store;
  pooled := true;
|}.
(** [Run] of a crawler, whose goroutine sends no [ErrServerClosed], and which
    returns what [Shutdown] returns, with nothing left to close. *)
Definition crawler_cmd : command := {|
  on_loop err := if is_closed err then None else Some (Some err);
  after_shutdown := exit;
  returns := exit;
  pooled := false;
|}.

(** ** Steps *)

(** Requests come as long as there is a listener or a connection kept alive:
    until a shutdown is over, or the process. *)
Definition open (p : process) : Prop :=
  match p_phase p with Select | Draining _ => True | Closing _ => p_drain_from p = None | _ => False end.
(** The pool hands out connections until it is being closed. *)
Definition lends (x : phase) : Prop := match x with Closing _ | Ended _ => False | _ => True end.

Section steps.
Context (c : command).

(** The outside.  A listener can fail while the server serves; once a
    shutdown has begun the loop's error is [ErrServerClosed] whatever
    happened.  A connection accepted before can still send its request. *)
Inductive outside : process → process → Prop :=
  | Passes p d : 0 ≤ d → outside p (set_now (Add (p_now p) d) p)
  | Signalled p : outside p (set_signalled p)
  | Arrives p : open p → outside p (set_inflight (S (p_inflight p)) p)
  | Finishes p n : p_inflight p = S n → outside p (set_inflight n p)
  | Acquires p : pooled c = true → lends (p_phase p) → outside p (set_held (S (p_held p)) p)
  | Releases p n : p_held p = S n → outside p (set_held n p)
  | Listener_fails p err :
      p_phase p = Select → p_loop p = None → is_closed err = false → outside p (set_loop err p).

(** The process: the two cases of the select, of which either is taken when
    both are ready, the shutdown, the wait for the loop, and the pool. *)
Inductive own : process → process → Prop :=
  | Loop_closes p dl : p_phase p = Draining dl ∨ p_phase p = AwaitServe → p_loop p = None →
      own p (set_loop ErrServerClosed p)
  | Select_signal p : p_phase p = Select → p_signalled p = true → own p (begin_drain p)
  | Select_loop p err r : p_phase p = Select → p_loop p = Some err → on_loop c err = Some r → own p (returns c r p)
  | Drained p dl lnerr : p_phase p = Draining dl → p_inflight p = 0%nat → own p (after_shutdown c lnerr p)
  | Timed_out p dl : p_phase p = Draining dl → dl ≤ p_now p → own p (after_shutdown c (Some DeadlineExceeded) p)
  | Awaited p err : p_phase p = AwaitServe → p_loop p = Some err → own p (returns c (unless_closed err) p)
  | Pool_closed p r : p_phase p = Closing r → p_held p = 0%nat → own p (exit r p).

(** A run with the number of the process's own steps. *)
Inductive run (now : Time) : nat → process → Prop :=
  | Starts : run now 0 (started now)
  | Happens n p q : run now n p → outside p q → run now n q
  | Does n p q : run now n p → own p q → run now (S n) q.
End steps.

(** ** What a run keeps *)

(** What the main goroutine and the serve loop still have to do. *)
Definition measure (p : process) : nat :=
  match p_phase p with Select => 4 | Draining _ => 3 | AwaitServe => 2 | Closing _ => 1 | Ended _ => 0 end
  + (if p_loop p then 0 else 1).
(** The loop's own failure, which can only come before the shutdown. *)
Definition loop_failed (p : process) (err : error) : Prop := p_loop p = Some err ∧ is_closed err = false.
Definition loop_fine (p : process) : Prop := ∀ e, p_loop p = Some e → e = ErrServerClosed ∨ is_closed e = false.
(** The shutdown has had its whole timeout. *)
Definition drained_from (p : process) : Prop := ∃ t, p_drain_from p = Some t ∧ t + drainTimeout ≤ p_now p.
(** The listener failed and the command returned its error with no shutdown. *)
Definition failed_fast (p : process) (r : option error) : Prop :=
  p_drain_from p = None ∧ ∃ err, r = Some err ∧ loop_failed p err.
(** Who returned without an error, or with one. *)
Definition returned_for (c : command) (p : process) (r : option error) : Prop :=
  match r with
  | None => p_signalled p = true ∧ is_Some (p_drain_from p)
      ∧ if pooled c then p_loop p = Some ErrServerClosed else p_cut p = 0%nat
  | Some err => loop_failed p err
      ∨ pooled c = false ∧ p_signalled p = true ∧ is_Some (p_drain_from p)
        ∧ (p_cut p = 0%nat ∨ err = DeadlineExceeded)
  end.
Definition outcome (c : command) (p : process) (r : option error) : Prop :=
  returned_for c p r ∧ ((0 < p_cut p)%nat → drained_from p ∨ failed_fast p r) ∧ p_inflight p = 0%nat ∧ p_held p = 0%nat.

Definition keeps (c : command) (p : process) : Prop :=
  (pooled c = false → p_held p = 0%nat)
  ∧ match p_phase p with
    | Select => p_drain_from p = None ∧ p_cut p = 0%nat ∧ (∀ e, p_loop p = Some e → is_closed e = false)
    | Draining dl => p_signalled p = true ∧ p_cut p = 0%nat
        ∧ (∃ t, p_drain_from p = Some t ∧ dl = t + drainTimeout) ∧ loop_fine p
    | AwaitServe => pooled c = true ∧ p_signalled p = true ∧ is_Some (p_drain_from p) ∧ p_inflight p = 0%nat
        ∧ ((0 < p_cut p)%nat → drained_from p) ∧ loop_fine p
    | Closing r => pooled c = true ∧ returned_for c p r
        ∧ (p_cut p = 0%nat ∧ failed_fast p r
           ∨ is_Some (p_drain_from p) ∧ p_inflight p = 0%nat ∧ ((0 < p_cut p)%nat → drained_from p))
    | Ended r => outcome c p r
    end.

(** Where the exit is taken from a state that has returned. *)
Lemma exit_keeps c p r :
  (pooled c = false → p_held p = 0%nat) →
  returned_for c (cut_off p) r → p_held p = 0%nat → ((0 < p_cut p + p_inflight p)%nat → drained_from p ∨ failed_fast p r) →
  keeps c (exit r p).
Proof. intros Hp Hr Hh Hw. by split_and!. Qed.

Section commands.
Context (c : command) (Hc : c = takuhai_cmd ∨ c = crawler_cmd).

(** What the outside leaves alone. *)
Lemma outside_frame p q :
  outside c p q →
  p_phase q = p_phase p ∧ p_drain_from q = p_drain_from p ∧ p_cut q = p_cut p ∧ p_now p ≤ p_now q
  ∧ (p_signalled p = true → p_signalled q = true)
  ∧ (p_loop q = p_loop p ∨ p_phase p = Select ∧ p_loop p = None ∧ ∃ err, loop_failed q err).
Proof.
  intros Ho. destruct Ho as [p d Hd|p|p Ha|p n Hn|p Hp Ha|p n Hn|p err Hs Hl He]; split_and!;
    try done; try (by left); cbn; unfold Add; try lia. right. split_and!; [done..|]. by exists err.
Qed.
Lemma outside_inflight p q : outside c p q → p_inflight p = 0%nat → p_inflight q = 0%nat ∨ open p.
Proof. intros Ho Hn. destruct Ho; cbn; auto. left. lia. Qed.
Lemma outside_held p q : outside c p q → p_held p = 0%nat → p_held q = 0%nat ∨ pooled c = true ∧ lends (p_phase p).
Proof. intros Ho Hn. destruct Ho; cbn; auto. left. lia. Qed.

Section later.
Context (p q : process) (Hdf : p_drain_from q = p_drain_from p) (Hcut : p_cut q = p_cut p).
Context (Hnow : p_now p ≤ p_now q) (Hsig : p_signalled p = true → p_signalled q = true) (Hloop : p_loop q = p_loop p).
Lemma drained_later : drained_from p → drained_from q.
Proof. intros (t&Ht&Hle). exists t. split; [by rewrite Hdf|lia]. Qed.
Lemma failed_fast_later r : failed_fast p r → failed_fast q r.
Proof. unfold failed_fast, loop_failed. by rewrite Hdf, Hloop. Qed.
Lemma returned_later r : returned_for c p r → returned_for c q r.
Proof. unfold returned_for, loop_failed. rewrite Hdf, Hloop, Hcut. destruct r; naive_solver. Qed.
End later.

Lemma measure_same p q : p_phase q = p_phase p → p_loop q = p_loop p → measure q = measure p.
Proof. unfold measure. by intros -> ->. Qed.
Lemma outside_keeps p q : outside c p q → keeps c p → keeps c q ∧ (measure q ≤ measure p)%nat.
Proof.
  intros Ho [Hh Hk]. pose proof (outside_frame p q Ho) as (Hph&Hdf&Hcut&Hnow&Hsig&Hloop).
  pose proof (outside_inflight p q Ho) as Hin. pose proof (outside_held p q Ho) as Hheld. clear Ho.
  assert (pooled c = false → p_held q = 0%nat) as Hh' by (intros Hp; destruct Hheld as [?|[? _]]; [auto|done|congruence]).
  destruct Hloop as [Hloop|(Hs&Hn&err&He)].
  2:{ unfold keeps, measure in *. rewrite Hph, Hs, Hn in *. destruct He as [He Hcl]. rewrite He. split; [|lia].
      destruct Hk as (Hd&Hc0&_). rewrite Hdf, Hcut. split_and!; [done..|]. by intros e [= <-]. }
  split; [|by rewrite (measure_same p q)]. split; [done|].
  assert (drained_from p → drained_from q) as Hdr by by apply drained_later.
  assert (∀ r, failed_fast p r → failed_fast q r) as Hff by by apply failed_fast_later.
  assert (∀ r, returned_for c p r → returned_for c q r) as Hret by by apply returned_later.
  unfold open in Hin.
  rewrite Hph, Hcut. destruct (p_phase p) as [|dl| |r|r] eqn:Hp; unfold loop_fine in *; rewrite ?Hdf, ?Hloop.
  - done.
  - destruct Hk as (?&?&?&?). split_and!; auto.
  - destruct Hk as (?&?&?&Hi&?&?). destruct (Hin Hi) as [?|[]]. split_and!; auto.
  - destruct Hk as (?&?&[[? ?]|([t Ht]&Hi&?)]); (split; [done|]); (split; [auto|]); [left; auto|right].
    destruct (Hin Hi) as [?|Ho]; [|congruence]. rewrite Ht. split_and!; eauto.
  - destruct Hk as (?&Hw&Hi&Hz). destruct (Hin Hi) as [?|[]], (Hheld Hz) as [?|[_ []]]. unfold outcome. rewrite Hcut.
    split_and!; auto. intros Hc'. destruct (Hw Hc'); auto.
Qed.

Lemma own_keeps p q : own c p q → keeps c p → keeps c q ∧ (measure q < measure p)%nat.
Proof.
  intros Ho [Hh Hk]. destruct Ho as [p dl Hp Hl|p Hp Hs|p err r Hp Hl Hr|p dl lnerr Hp Hn|p dl Hp Hle|p err Hp Hl|p r Hp Hz].
  - split; [split; [done|]|unfold measure; cbn; destruct Hp as [Hp|Hp]; rewrite Hp, Hl; lia]. cbn.
    assert (loop_fine (set_loop ErrServerClosed p)) as Hf by (intros e [= <-]; by left).
    destruct Hp as [Hp|Hp]; rewrite Hp in *; naive_solver.
  - rewrite Hp in Hk. destruct Hk as (_&Hcut&Hcl). split; [|unfold measure; cbn; rewrite Hp; destruct (p_loop p); lia].
    split; [done|]. cbn. split_and!; [done..|by eexists|]. intros e He. right. by apply Hcl.
  - rewrite Hp in Hk. destruct Hk as (Hd&Hcut&Hcl). specialize (Hcl _ Hl).
    assert (r = Some err ∧ keeps c (returns c r p)) as [-> Hk].
    { destruct Hc as [-> | ->]; cbn in Hr; [unfold unless_closed in Hr|]; rewrite Hcl in Hr; injection Hr as <-.
      - split; [done|]. split; [done|]. cbn. split; [done|]. split; [by left|]. left. split; [done|]. split; [done|]. by exists err.
      - split; [done|]. apply exit_keeps; [done|by left|by apply Hh|]. intros _. right. split; [done|]. by exists err. }
    split; [done|]. unfold measure. rewrite Hp, Hl. destruct Hc as [-> | ->]; cbn; rewrite Hl; lia.
  - rewrite Hp in Hk. destruct Hk as (Hs&Hcut&(t&Ht&Hd)&Hcl).
    split; [|unfold measure; rewrite Hp; destruct Hc as [-> | ->], lnerr; cbn; destruct (p_loop p); lia].
    destruct Hc as [-> | ->]; cbn.
    + split; [done|]. cbn. destruct lnerr; cbn; rewrite ?Hcut, ?Hn, Ht; split_and!; eauto; cbn; lia.
    + apply exit_keeps; [done| |by apply Hh|rewrite Hcut, Hn; lia].
      destruct lnerr; cbn; [right|]; rewrite Hcut, Hn; split_and!; try done; try (by eexists). by left.
  - rewrite Hp in Hk. destruct Hk as (Hs&Hcut&(t&Ht&Hd)&Hcl).
    assert (drained_from p) as Hw by (exists t; split; [done|lia]).
    split; [|unfold measure; rewrite Hp; destruct Hc as [-> | ->]; cbn; destruct (p_loop p); lia].
    destruct Hc as [-> | ->]; cbn.
    + split; [done|]. cbn. split_and!; eauto.
    + apply exit_keeps; [done| |by apply Hh|by left]. cbn. right. split_and!; eauto.
  - rewrite Hp in Hk. destruct Hk as (Hpool&Hs&Hd&Hn&Hw&Hcl). specialize (Hcl _ Hl).
    split; [|unfold measure; rewrite Hp, Hl; destruct Hc as [-> | ->]; cbn; rewrite Hl; lia].
    destruct Hc as [-> | ->]; [|done]. split; [done|]. cbn. split; [done|]. split; [|by right].
    unfold unless_closed. destruct Hcl as [->|Hcl]; [|rewrite Hcl; by left]. by split_and!.
  - rewrite Hp in Hk. destruct Hk as (Hpool&Hr&Hw). split; [|unfold measure; rewrite Hp; cbn; destruct (p_loop p); lia].
    apply exit_keeps; [done| |done|].
    + destruct r as [e|]; cbn in Hr |- *; rewrite Hpool in *; [|done]. destruct Hr as [?|[? _]]; [by left|done].
    + destruct Hw as [[_ Hf]|(_&->&Hw)]; [by right|]. intros. left. apply Hw. lia.
Qed.

Lemma run_keeps now n p : run c now n p → keeps c p ∧ (n + measure p ≤ 5)%nat.
Proof.
  induction 1 as [|n p q _ [Hk Hm] Ho|n p q _ [Hk Hm] Ho].
  - split; [|cbn; lia]. by split_and!.
  - destruct (outside_keeps p q Ho Hk). split; [done|lia].
  - destruct (own_keeps p q Ho Hk). split; [done|lia].
Qed.

(** C39: what a command waits for on its way out, and that it waits for
    nothing else.  In any order of requests, store calls, signals, listener
    failures and passing time it takes at most five steps of its own, and
    once it has a signal or a dead listener it always has a next one until it
    has ended, but for two cases.  While the shutdown drains requests it
    waits, for at most the drain timeout from the moment the shutdown began,
    however long a handler runs.  And the service, after [runHTTP] has
    returned, waits in the deferred [st.Close] until every connection of the
    pool is back, which has no deadline; a crawler has no such wait. *)
Theorem process_ends now n p :
  run c now n p →
  (n ≤ 5)%nat
  ∧ (p_signalled p = true ∨ p_loop p ≠ None →
     (∃ r, p_phase p = Ended r) ∨ (∃ q, own c p q)
     ∨ (∃ t, p_drain_from p = Some t ∧ p_now p < t + drainTimeout ∧ (0 < p_inflight p)%nat)
     ∨ (pooled c = true ∧ (∃ r, p_phase p = Closing r) ∧ (0 < p_held p)%nat)).
Proof.
  intros [[_ Hk] Hm]%run_keeps. split; [lia|]. intros Hgo. destruct (p_phase p) as [|dl| |r|r] eqn:Hp.
  - right; left. destruct (p_loop p) as [e|] eqn:Hl; [|destruct Hgo as [Hgo|]; [|done]; eexists; by apply Select_signal].
    destruct Hk as (_&_&Hcl). specialize (Hcl _ eq_refl). assert (∃ r, on_loop c e = Some r) as [r Hr].
    { destruct Hc as [-> | ->]; cbn; rewrite ?Hcl; by eexists. }
    eexists. by eapply Select_loop.
  - right. destruct Hk as (_&_&(t&Ht&->)&_). destruct (decide (t + drainTimeout ≤ p_now p)).
    + left. eexists. by eapply Timed_out.
    + destruct (p_inflight p) eqn:Hn; [left; eexists; by eapply (Drained _ _ _ None)|].
      right; left. exists t. split_and!; [done|lia|lia].
  - right; left. destruct (p_loop p) as [e|] eqn:Hl; eexists; [by eapply Awaited|by eapply (Loop_closes _ _ 0); [right|]].
  - destruct Hk as (Hpool&_). destruct (p_held p) eqn:Hh; [right; left; eexists; by eapply Pool_closed|].
    right; right; right. split_and!; [done|by exists r|lia].
  - left. by exists r.
Qed.

(** C40: how a command ends tells what happened.  Without an error there was
    a signal and a shutdown; the service's serve loop then closed for no
    other reason, and a crawler has cut nobody off.  An error is the
    listener's own failure or, for a crawler, a shutdown that ran into its
    deadline or had nobody left to wait for.  Requests are cut off in two
    cases only: their shutdown has had the whole drain timeout, or the
    listener failed on its own, upon which a command returns its error and
    exits with no shutdown at all, whatever is in flight.  And no command
    exits with a connection of the pool out: the exit cuts no store call. *)
Theorem process_outcome now n p r :
  run c now n p → p_phase p = Ended r → outcome c p r.
Proof. intros [[_ Hk] _]%run_keeps Hp. by rewrite Hp in Hk. Qed.
End commands.

End serve.

(** ** A request that never ends *)

Import serve.

Definition asked : process := set_signalled (set_held 1 (set_inflight 1 (started 0))).
Definition waited : process := set_now (Add 0 drainTimeout) (begin_drain asked).
Definition given_up : process := set_loop ErrServerClosed (set_phase AwaitServe (cut_off waited)).
Definition closing : process := set_phase (Closing None) given_up.
Definition gone : process := exit None (set_held 0 closing).
Lemma waited_run : run takuhai_cmd 0 1 waited.
Proof.
  apply (Happens _ _ _ (begin_drain asked)); [|by apply (Passes _ (begin_drain asked))].
  apply (Does _ _ _ asked); [|by apply (Select_signal _ asked)].
  apply (Happens _ _ _ (set_held 1 (set_inflight 1 (started 0)))); [|apply Signalled].
  apply (Happens _ _ _ (set_inflight 1 (started 0))); [|by apply (Acquires takuhai_cmd (set_inflight 1 (started 0)))].
  apply (Happens _ _ _ (started 0)); [apply Starts|by apply (Arrives _ (started 0))].
Qed.
Lemma closing_run : run takuhai_cmd 0 4 closing.
Proof.
  apply (Does _ _ _ given_up); [|by apply (Awaited takuhai_cmd given_up ErrServerClosed)].
  apply (Does _ _ _ (set_phase AwaitServe (cut_off waited))).
  - apply (Does _ _ _ waited); [apply waited_run|]. by apply (Timed_out takuhai_cmd waited drainTimeout).
  - apply (Loop_closes _ _ 0); [by right|done].
Qed.
Lemma gone_run : run takuhai_cmd 0 5 gone.
Proof.
  apply (Does _ _ _ (set_held 0 closing)); [|by apply (Pool_closed _ (set_held 0 closing) None)].
  apply (Happens _ _ _ closing); [apply closing_run|by apply (Releases _ closing 0)].
Qed.
(** As long as the handler keeps its connection the service stays. *)
Example closing_waits q : ¬ own takuhai_cmd closing q.
Proof. intros Ho. inversion Ho as [? ? [|]| | | | | |]; discriminate. Qed.

(** The listener fails with a request in flight. *)
Definition broken : process := set_loop (ErrNew "accept: bad file descriptor") (set_inflight 1 (started 0)).
Lemma broken_run : run crawler_cmd 0 1 (exit (Some (ErrNew "accept: bad file descriptor")) broken).
Proof.
  apply (Does _ _ _ broken); [|by eapply (Select_loop crawler_cmd broken)].
  apply (Happens _ _ _ (set_inflight 1 (started 0))); [|by apply Listener_fails].
  apply (Happens _ _ _ (started 0)); [apply Starts|by apply (Arrives _ (started 0))].
Qed.

Lemma process_ends_witness :
  (∃ q, own takuhai_cmd waited q) ∧ (0 < p_held closing)%nat.
Proof.
  split.
  - destruct (process_ends takuhai_cmd (or_introl eq_refl) 0 1 waited waited_run) as [_ H].
    destruct (H (or_introl eq_refl)) as [[r Hr]|[Hq|[(t&Ht&Hlt&_)|(_&[r Hr]&_)]]]; [discriminate Hr|exact Hq| |discriminate Hr].
    injection Ht as <-. vm_compute in Hlt. discriminate Hlt.
  - destruct (process_ends takuhai_cmd (or_introl eq_refl) 0 4 closing closing_run) as [_ H].
    destruct (H (or_introl eq_refl)) as [[r Hr]|[[q Hq]|[(t&Ht&Hlt&_)|(_&_&Hh)]]];
      [discriminate Hr|destruct (closing_waits q Hq)| |exact Hh].
    injection Ht as <-. vm_compute in Hlt. discriminate Hlt.
Defined.
Lemma process_outcome_witness :
  p_cut gone = 1%nat ∧ drained_from gone
  ∧ failed_fast (exit (Some (ErrNew "accept: bad file descriptor")) broken) (Some (ErrNew "accept: bad file descriptor")).
Proof.
  split; [reflexivity|]. split.
  - destruct (process_outcome takuhai_cmd (or_introl eq_refl) 0 5 gone None gone_run eq_refl) as (_&H&_).
    destruct H as [Hd|[Hf _]]; [vm_compute; lia|exact Hd|discriminate Hf].
  - destruct (process_outcome crawler_cmd (or_intror eq_refl) 0 1 _ _ broken_run eq_refl) as (_&H&_).
    destruct H as [(t&Ht&_)|Hf]; [vm_compute; lia|discriminate Ht|exact Hf].
Defined.
