(* ===== verification/Crawlers.v ===== *)
(** * The crawler processes

    A crawler as [Run] builds it (src/sources/dmhy/cmd/takuhai-dmhy/main.go,
    src/sources/nyaa/cmd/takuhai-nyaa/main.go with server.go of each source):
    the page fetcher with its metrics, behind DMHY's cache, under the walk of
    [CrawlRun.v], behind the mux with the request metrics.  The clock, the
    network, the files and the limiter are oracles of a counter that every
    use moves, and so is what the goroutines of other requests do meanwhile
    to the cache and the metrics, which all requests share. *)

From S2P Require Import Prelude GoStrings GoTime GoTimeFmt GoJson GoHttp GoServeMux GoFloat Rawpost Metrics.
From S2P Require Import Crawl CrawlThms Duration CrawlServer CrawlServerThms CrawlRun Dmhy DmhyThms DmhyCache Nyaa NyaaUrl.
From S2P Require Import CmdDmhy CmdNyaa Service.
From Stdlib Require Import Ascii SpecFloat.
Import crawlserver crawlrun cache mux.

Module crawlers.

(** A page stored in the cache, with the clock [put] has read, and the calls
    on the metrics. *)
Inductive act :=
  | Stored (key body : string) (now : Time)
  | CountFetch (result : string) (dur : Duration)
  | CountPosts (n : Z)
  | CountCrawl (result : string) (posts : Z) (dur : Duration)
  | CountRequest (method path : string) (status : Z) (dur : Duration).
Record Outside := {
  o_clock : nat → Time;
  o_net : nat → Net;
  o_dur : nat → Duration;
  o_others : nat → list act;
}.
Record process := { p_tick : nat; p_cache : pageCache; p_metrics : metrics.surface }.
Definition ticked (s : process) : process :=
  {| p_tick := S (p_tick s); p_cache := p_cache s; p_metrics := p_metrics s |}.
Definition on_surface (f : metrics.surface → metrics.surface) (s : process) : process :=
  {| p_tick := p_tick s; p_cache := p_cache s; p_metrics := f (p_metrics s) |}.

Section process.
Context (W : Outside) (namespace : string).

(** ** Other requests *)

Definition run_act (s : process) (a : act) : process :=
  match a with
  | Stored key body now =>
      {| p_tick := p_tick s; p_cache := put (p_cache s) key body now; p_metrics := p_metrics s |}
  | CountFetch result dur => on_surface (metrics.Fetch namespace result dur) s
  | CountPosts n => on_surface (metrics.ParsePosts namespace "ok" n) s
  | CountCrawl result posts dur => on_surface (metrics.Crawl namespace result posts dur) s
  | CountRequest method path status dur =>
      on_surface (metrics.Wrap namespace metrics.crawler_routes method path status dur) s
  end.
Definition meanwhile (s : process) : process := foldl run_act s (o_others W (p_tick s)).

(** ** Fetching *)

Definition FetchPage_in (f : HTTPFetcher) (page : Z) (s : process) : result string * process :=
  let s := meanwhile s in
  let '(res, m) := FetchPage namespace f (o_net W (p_tick s)) page (o_dur W (p_tick s)) (p_metrics s) in
  (res, ticked {| p_tick := p_tick s; p_cache := p_cache s; p_metrics := m |}).
(** [pageCache.wrap]: the mutex is free during the fetch and until [put] has
    read the clock. *)
Definition wrap_in (sortID : Z) (fetch : Z → process → result string * process) (page : Z) (s : process)
    : result string * process :=
  let key := pageCacheKey sortID page in
  let s := meanwhile s in
  match get (p_cache s) key (o_clock W (p_tick s)) with
  | Some body => (Ok body, ticked s)
  | None =>
      match fetch page (ticked s) with
      | (Err err, s) => (Err err, s)
      | (Ok body, s) =>
          let now := o_clock W (p_tick s) in
          let s := meanwhile s in
          (Ok body, ticked {| p_tick := p_tick s; p_cache := put (p_cache s) key body now; p_metrics := p_metrics s |})
      end
  end.
Definition recordParsePosts (n : Z) : process → process := on_surface (metrics.ParsePosts namespace "ok" n).
Definition recordCrawl (s0 : process) (result : string) (posts : Z) : process → process :=
  on_surface (metrics.Crawl namespace result posts (o_dur W (p_tick s0))).

(** ** A server *)

(** [crawl.Server.ServeHTTP] over a crawler and its fetcher. *)
Definition serve_crawl (c : crawl.Crawler) (fetch : Z → process → result string * process) (zone : Duration)
    (r : Request) (fuel : nat) (s : process) : option (Response crawl.CrawlResponse * process) :=
  ServeHTTP_in c fetch recordParsePosts zone (recordCrawl s) r fuel (ticked s).

(** [Run]'s mux, with [Wrap] around it. *)
Inductive crawler_reply :=
  | Crawled (resp : Response crawl.CrawlResponse)
  | Scraped
  | FromMux (resp : service.reply).
Definition crawler_status (x : crawler_reply) : Z :=
  match x with Crawled resp => status resp | Scraped => StatusOK | FromMux resp => service.r_status resp end.
Inductive crawler_endpoint := EpCrawl | EpMetrics.
Definition crawler_mux : list (pattern * crawler_endpoint) :=
  [service.handle "/crawl" EpCrawl; service.handle "/metrics" EpMetrics].
Definition crawler_handler (crawl_endpoint : Request → nat → process → option (Response crawl.CrawlResponse * process))
    (r : http_request) (fuel : nat) (s : process) : option (crawler_reply * process) :=
  '(resp, s) ← match service.mux_reply (ServeHTTP crawler_mux r) with
               | inl resp => Some (FromMux resp, s)
               | inr EpCrawl => '(resp, s) ← crawl_endpoint (to_request r) fuel s; Some (Crawled resp, s)
               | inr EpMetrics => Some (Scraped, s)
               end;
  Some (resp, on_surface (metrics.Wrap namespace metrics.crawler_routes (hr_Method r) (URL_Path r)
                            (crawler_status resp) (o_dur W (p_tick s))) s).
End process.

(** [RatePerSec > 0]. *)
Definition positive (x : spec_float) : bool := SFltb (S754_zero false) x.

(** ** takuhai-dmhy *)

Section dmhy.
Context (int64_overflow : spec_float → Z) (cmd : dmhycmd.ServeCmd).
Definition dmhy_fetcher : HTTPFetcher :=
  NewHTTPFetcher "dmhy" (λ page, Ok (dmhy.archivePageURL (dmhycmd.BaseURL cmd) (dmhycmd.SortID cmd) page))
    (positive (dmhycmd.RateRPS cmd)).
Definition dmhy_fetch (W : Outside) : Z → process → result string * process :=
  let fetch := FetchPage_in W "takuhai_dmhy" dmhy_fetcher in
  if 0 <? dmhycmd.CacheTTL cmd then wrap_in W "takuhai_dmhy" (dmhycmd.SortID cmd) fetch else fetch.
(** [Server.fetchPage], past the cache and whatever the sort id, and
    [readFileURL]. *)
Definition dmhy_fetchPage (W : Outside) (sortID page : Z) : process → result string * process :=
  FetchPage_in W "takuhai_dmhy" dmhy_fetcher page.
Definition dmhy_readFileURL (net : Net) (path : string) : result string := ReadFileURL net "dmhy" path.
(** [newServerWithFetcher]: the endpoint over a fetcher of the caller's, with
    no metrics. *)
Definition newServerWithFetcher (fetch : nat → Z → Z → result string) (threshold : Z) (now : Time)
    (r : Request) (dur : Duration) (fuel : nat) : option (Response crawl.CrawlResponse) :=
  fst <$> crawlserver.ServeHTTP "" dmhy.dmhyZone (dmhy.shared int64_overflow (dmhy.NewCrawler fetch threshold now)) r dur fuel None.
(** The crawler, whose clock shows [now]. *)
Definition dmhy_crawler (now : Time) : dmhy.Crawler := {|
  dmhy.cr_fetch _ _ _ := Ok "";
  dmhy.cr_threshold := dmhy.Threshold;
  dmhy.cr_sortID := dmhycmd.SortID cmd;
  dmhy.cr_now := now;
|}.
Definition dmhy_ServeHTTP (W : Outside) (r : Request) (fuel : nat) (s : process)
    : option (Response crawl.CrawlResponse * process) :=
  serve_crawl W "takuhai_dmhy" (dmhy.shared int64_overflow (dmhy_crawler (o_clock W (p_tick s)))) (dmhy_fetch W)
    dmhy.dmhyZone r fuel s.
Definition dmhy_handler (W : Outside) : http_request → nat → process → option (crawler_reply * process) :=
  crawler_handler W "takuhai_dmhy" (dmhy_ServeHTTP W).
(** A process that has just started. *)
Definition dmhy_start : process :=
  {| p_tick := 0; p_cache := newPageCache (dmhycmd.CacheTTL cmd); p_metrics := Some [] |}.
(** A sequence of requests, each with the tick it came at. *)
Fixpoint dmhy_requests (W : Outside) (fuel : nat) (rs : list http_request) (s : process)
    : option (list (nat * crawler_reply) * process) :=
  match rs with
  | [] => Some ([], s)
  | r :: rs =>
      '(rep, s1) ← dmhy_handler W r fuel s;
      '(reps, s2) ← dmhy_requests W fuel rs s1;
      Some ((p_tick s, rep) :: reps, s2)
  end.
End dmhy.

(** ** takuhai-nyaa *)

Section nyaa.
Context (entity : string → option Z) (entity2 : string → option (Z * Z)) (int64_overflow : spec_float → Z).
Context {O : Type} {lib : nyaaurl.net_url O} (cmd : nyaacmd.ServeCmd).
Definition nyaa_fetcher : HTTPFetcher :=
  NewHTTPFetcher "nyaa"
    (nyaaurl.listingPageURL (nyaacmd.BaseURL cmd) (nyaacmd.Query cmd) (nyaacmd.Category cmd) (nyaacmd.Filter cmd))
    (positive (nyaacmd.RateRPS cmd)).
Definition nyaa_fetchPage (W : Outside) (page : Z) : process → result string * process :=
  FetchPage_in W "takuhai_nyaa" nyaa_fetcher page.
Definition nyaa_readFileURL (net : Net) (path : string) : result string := ReadFileURL net "nyaa" path.
Definition nyaa_crawler (now : Time) : nyaa.Crawler :=
  nyaa.NewCrawler (λ _ _, Ok "") nyaa.Threshold now.
Definition nyaa_ServeHTTP (W : Outside) (r : Request) (fuel : nat) (s : process)
    : option (Response crawl.CrawlResponse * process) :=
  serve_crawl W "takuhai_nyaa" (nyaa.shared entity entity2 int64_overflow (nyaa_crawler (o_clock W (p_tick s))))
    (FetchPage_in W "takuhai_nyaa" nyaa_fetcher) 0 r fuel s.
Definition nyaa_handler (W : Outside) : http_request → nat → process → option (crawler_reply * process) :=
  crawler_handler W "takuhai_nyaa" (nyaa_ServeHTTP W).
End nyaa.

End crawlers.
