(* ===== verification/CrawlersThms.v ===== *)
(** * What the crawler processes answer

    Their statuses and what makes them fail; a crawl repeated from the cache;
    and, with requests that overlap, where the pages of every answer come
    from. *)

From S2P Require Import Prelude GoStrings GoTime GoTimeFmt GoJson GoHttp GoServeMux GoFloat Rawpost Metrics.
From S2P Require Import Crawl CrawlThms Duration CrawlServer CrawlServerThms CrawlRun Dmhy DmhyThms DmhyCache.
From S2P Require Import CmdDmhy CmdNyaa Nyaa NyaaUrl Service Crawlers.
From Stdlib Require Import Ascii SpecFloat.
Import crawlserver crawlrun cache mux crawlers.

(** ** What other requests leave alone *)

Definition stores (a : act) : bool := match a with Stored _ _ _ => true | _ => false end.
Lemma meanwhile_tick W ns s : p_tick (meanwhile W ns s) = p_tick s.
Proof.
  unfold meanwhile. generalize (o_others W (p_tick s)) as l. intros l. revert s. induction l as [|a l IH]; intros s; [done|].
  cbn [foldl]. rewrite IH. by destruct a.
Qed.
Lemma meanwhile_cache W ns s : (∀ i a, a ∈ o_others W i → stores a = false) → p_cache (meanwhile W ns s) = p_cache s.
Proof.
  intros H. unfold meanwhile. specialize (H (p_tick s)). revert H. generalize (o_others W (p_tick s)) as l.
  intros l. revert s. induction l as [|a l IH]; intros s H; [done|].
  cbn [foldl]. rewrite IH by (intros b Hb; apply H; by right). pose proof (H a (list_elem_of_here _ _)). by destruct a.
Qed.
(** A fetch takes a tick and returns what the network answered at it. *)
Lemma FetchPage_in_answered W ns f page s res s' :
  FetchPage_in W ns f page s = (res, s') →
  p_tick s' = S (p_tick s) ∧ p_cache s' = p_cache (meanwhile W ns s)
  ∧ ∀ body, res = Ok body → fetch_page f (o_net W (p_tick s)) page = Ok body.
Proof.
  unfold FetchPage_in. cbv zeta. rewrite meanwhile_tick. unfold FetchPage.
  destruct (if hf_limited f then _ else _); intros [= <- <-]; cbn [p_tick p_cache ticked]; by rewrite ?meanwhile_tick.
Qed.

(** ** The endpoint over any fetcher *)

(** The posts of an answered crawl are the first rows, from the cursor on, of
    consecutive pages. *)
Definition shows (good : Z → string → Prop) (parse : string → result (list rawpost.RawPost))
    (resp : Response crawl.CrawlResponse) : Prop :=
  ∀ out, body resp = Encoded out →
  ∃ first offset pages rest, pages_from good parse first pages ∧ visible offset pages = crawl.Posts out ++ rest.
(** A row of a page with a time the encoder does not take. *)
Definition far_row (good : Z → string → Prop) (parse : string → result (list rawpost.RawPost)) (zone : Duration) : Prop :=
  ∃ page body rows p, good page body ∧ parse body = Ok rows ∧ p ∈ rows
    ∧ four_digit_year (rawpost.rp_PublishedAt p + zone) = false.

Lemma pages_from_row good parse first pages p :
  pages_from good parse first pages → p ∈ mjoin pages →
  ∃ page body rows, good page body ∧ parse body = Ok rows ∧ p ∈ rows.
Proof.
  revert first. induction pages as [|rows pages IH]; intros first; cbn [pages_from mjoin list_join]; [by intros _ ?%not_elem_of_nil|].
  intros [(body&Hg&Hp) Hw] [Hin|Hin]%elem_of_app; [by exists first, body, rows|by eapply IH].
Qed.
Lemma visible_join offset pages p : p ∈ visible offset pages → p ∈ mjoin pages.
Proof.
  destruct pages as [|rows pages]; [done|]. cbn [visible mjoin list_join]. rewrite !elem_of_app.
  intros [H|H]; [left|by right]. rewrite <-(take_drop (Z.to_nat offset) rows). apply elem_of_app. by right.
Qed.

Lemma forallb_false {A} (f : A → bool) l : forallb f l = false → ∃ x, x ∈ l ∧ f x = false.
Proof.
  induction l as [|x l IH]; [done|]. cbn. destruct (f x) eqn:E; [|by exists x; split; [left|]].
  intros (y&?&?)%IH. exists y. split; [by right|done].
Qed.

Section endpoint.
Context (W : Outside) (ns : string) (c : crawl.Crawler) (fetch : Z → process → result string * process) (zone : Duration).
Context (inv : process → Prop) (good : Z → string → Prop).
Hypothesis fetch_inv : ∀ page s, inv s → inv (fetch page s).2.
Hypothesis fetch_good : ∀ page s body s', inv s → fetch page s = (Ok body, s') → good page body.
Hypothesis surface_inv : ∀ f s, inv s → inv (on_surface f s).
Hypothesis ticked_inv : ∀ s, inv s → inv (ticked s).

Lemma serve_crawl_total r s :
  ∃ resp s', ∀ fuel, (crawl.enough c ≤ fuel)%nat → serve_crawl W ns c fetch zone r fuel s = Some (resp, s').
Proof.
  unfold serve_crawl.
  edestruct (ServeHTTP_in_oracle c fetch (recordParsePosts ns) zone (recordCrawl W ns s) r (ticked s) "" 0 None) as [o Ho].
  assert (∃ x, crawlserver.ServeHTTP "" zone (with_fetch c o) r 0 (crawl.enough c) None = Some x) as [x Hx].
  { unfold crawlserver.ServeHTTP. destruct (bool_decide _); [by eexists|].
    destruct (json.Decoder_Decode _ _ _ _) as [e|req]; [by eexists|].
    destruct (duration.ParseLookback _ _) as [e|lookback]; [by eexists|].
    destruct (crawl.ParseCursor _ _) as [e|po]; [by eexists|].
    destruct (Crawl_total (with_fetch c o) req lookback) as [walk Hw]. rewrite (Hw (crawl.enough c) (le_n _)).
    by eexists. }
  pose proof (Ho (crawl.enough c)) as H. rewrite Hx in H.
  destruct (ServeHTTP_in _ _ _ _ _ _ (crawl.enough c) _) as [[resp s']|] eqn:E; [|done].
  exists resp, s'. intros fuel Hf. by eapply ServeHTTP_in_fuel.
Qed.

Lemma serve_crawl_good r fuel s resp s' :
  inv s → serve_crawl W ns c fetch zone r fuel s = Some (resp, s') →
  inv s' ∧ status resp ∈ [200; 400; 405; 500; 502] ∧ shows good (crawl.parse c) resp
  ∧ (status resp = 500 → far_row good (crawl.parse c) zone).
Proof.
  intros Hs%ticked_inv. unfold serve_crawl, ServeHTTP_in. set (rc := recordCrawl W ns s).
  assert (∀ res n t, inv t → inv (rc res n t)) as Hrc by (intros; by apply surface_inv).
  set (t := ticked s) in *. clearbody t.
  assert (∀ m code res n u, code ∈ [400; 405; 502] → inv u →
    inv (rc res n u) ∧ code ∈ [200; 400; 405; 500; 502] ∧ shows good (crawl.parse c) (http_Error m code)
    ∧ (code = 500 → far_row good (crawl.parse c) zone)) as Herr.
  { intros m code res n u Hc Hu. split; [by apply Hrc|]. split; [set_solver|]. split; [by intros out [=]|].
    intros ->. by rewrite !elem_of_cons, elem_of_nil in Hc; destruct_or! Hc. }
  destruct (bool_decide _); [intros [= <- <-]; apply Herr; [set_solver|done]|].
  destruct (json.Decoder_Decode _ _ _ _) as [e|req]; [intros [= <- <-]; apply Herr; [set_solver|done]|].
  destruct (duration.ParseLookback _ _) as [e|lookback]; [intros [= <- <-]; apply Herr; [set_solver|done]|].
  destruct (crawl.ParseCursor _ _) as [e|po]; [intros [= <- <-]; apply Herr; [set_solver|done]|].
  destruct (Crawl_in _ _ _ _ _ _ _) as [[walk t']|] eqn:Ec; [|done]. cbn [mbind option_bind].
  pose proof (λ n u (Hu : inv u), surface_inv (metrics.ParsePosts ns "ok" n) u Hu) as Hrec.
  assert (inv t') as Ht by (revert Ec; by apply Crawl_in_inv).
  destruct walk as [err|out]; [intros [= <- <-]; apply Herr; [set_solver|done]|].
  eapply (Crawl_in_good c fetch _ inv good) in Ec as (page&offset&pages&rest&_&Hp&Hv); [|done..].
  destruct (Encode zone out) as [err|out'] eqn:En; intros [= <- <-]; (split; [by apply Hrc|]); (split; [cbn; set_solver|]).
  - split; [by intros o [=]|]. intros _. unfold Encode in En. destruct (forallb _ _) eqn:Ef; [done|].
    apply forallb_false in Ef as (p&Hin&Hfar).
    destruct (pages_from_row _ _ _ _ p Hp) as (pg&body&rows&?&?&?).
    { apply (visible_join offset). rewrite Hv. apply elem_of_app. by left. }
    by exists pg, body, rows, p.
  - split; [|done]. intros o [= <-]. assert (out' = out) as -> by (unfold Encode in En; destruct (forallb _ _); congruence).
    by eexists _, offset, pages, rest.
Qed.
End endpoint.

(** [Run]'s mux over an endpoint that answers. *)
Lemma crawler_handler_total W ns ep (Q : Response crawl.CrawlResponse → Prop) r s :
  (∃ resp s', (∀ fuel, (606 ≤ fuel)%nat → ep (to_request r) fuel s = Some (resp, s')) ∧ Q resp) →
  ∃ rep s', (∀ fuel, (606 ≤ fuel)%nat → crawler_handler W ns ep r fuel s = Some (rep, s'))
    ∧ match rep with Crawled resp => Q resp | _ => crawler_status rep ∈ [200; 301; 400; 404; 405] end.
Proof.
  intros (resp&s1&Hrun&Hq). unfold crawler_handler, service.mux_reply.
  destruct (ServeHTTP crawler_mux r) as [[p []]| | |]; cbn [snd];
    try (eexists _, _; split; [done|cbn; set_solver]).
  eexists _, _. split; [intros fuel Hf; by rewrite (Hrun fuel Hf)|done].
Qed.

(** ** Statuses *)

Section statuses.
Context (int64_overflow : spec_float → Z) (cmd : dmhycmd.ServeCmd) (W : Outside).

Lemma dmhy_ServeHTTP_status r s :
  ∃ resp s', (∀ fuel, (606 ≤ fuel)%nat → dmhy_ServeHTTP int64_overflow cmd W r fuel s = Some (resp, s'))
    ∧ status resp ∈ [200; 400; 405; 502].
Proof.
  unfold dmhy_ServeHTTP. set (c := dmhy.shared int64_overflow _).
  destruct (serve_crawl_total W "takuhai_dmhy" c (dmhy_fetch cmd W) dmhy.dmhyZone r s) as (resp&s'&Hrun).
  change (crawl.enough c) with 606%nat in Hrun. exists resp, s'. split; [done|].
  pose proof (Hrun 606%nat (le_n _)) as H.
  apply (serve_crawl_good _ _ _ _ _ (λ _, True) (λ _ _, True)) in H as (_&Hst&_&H500); try done.
  rewrite !elem_of_cons, elem_of_nil in Hst. destruct_or! Hst; try by (rewrite Hst; set_solver).
  destruct (H500 Hst) as (pg&body&rows&p&_&Hp%DmhyThms.ParseArchivePage_years&Hin&Hfar).
  rewrite Forall_forall in Hp. specialize (Hp _ Hin). cbn beta in Hp. by rewrite Hp in Hfar.
Qed.

Lemma dmhy_handler_status r s :
  ∃ rep s', (∀ fuel, (606 ≤ fuel)%nat → dmhy_handler int64_overflow cmd W r fuel s = Some (rep, s'))
    ∧ crawler_status rep ∈ [200; 301; 400; 404; 405; 502].
Proof.
  destruct (crawler_handler_total W "takuhai_dmhy" (dmhy_ServeHTTP int64_overflow cmd W)
    (λ resp, status resp ∈ [200; 400; 405; 502]) r s (dmhy_ServeHTTP_status (to_request r) s)) as (rep&s'&Hrun&Hrep).
  exists rep, s'. split; [done|]. destruct rep; cbn; set_solver.
Qed.
Lemma dmhy_handler_total r s : ∃ rep s', dmhy_handler int64_overflow cmd W r 606 s = Some (rep, s').
Proof. destruct (dmhy_handler_status r s) as (rep&s'&H&_). eexists _, _. by apply H. Qed.

Context (entity : string → option Z) (entity2 : string → option (Z * Z)).
Context {O : Type} {lib : nyaaurl.net_url O} (ncmd : nyaacmd.ServeCmd).

(** The network answered a fetch of this request. *)
Definition nyaa_answered (lo : nat) (page : Z) (body : string) : Prop :=
  ∃ i, (lo ≤ i)%nat ∧ fetch_page (nyaa_fetcher ncmd) (o_net W i) page = Ok body.
(** What the Nyaa process answers to a request that came at tick [lo]. *)
Definition nyaa_says (lo : nat) (resp : Response crawl.CrawlResponse) : Prop :=
  let parse := nyaa.ParseListingPage entity entity2 int64_overflow in
  status resp ∈ [200; 400; 405; 500; 502] ∧ shows (nyaa_answered lo) parse resp
  ∧ (status resp = 500 → far_row (nyaa_answered lo) parse 0).

Lemma nyaa_ServeHTTP_says r s :
  ∃ resp s', (∀ fuel, (606 ≤ fuel)%nat →
      nyaa_ServeHTTP entity entity2 int64_overflow ncmd W r fuel s = Some (resp, s')) ∧ nyaa_says (p_tick s) resp.
Proof.
  unfold nyaa_ServeHTTP. set (c := nyaa.shared _ _ _ _).
  destruct (serve_crawl_total W "takuhai_nyaa" c (FetchPage_in W "takuhai_nyaa" (nyaa_fetcher ncmd)) 0 r s)
    as (resp&s'&Hrun).
  change (crawl.enough c) with 606%nat in Hrun. exists resp, s'. split; [done|].
  pose proof (Hrun 606%nat (le_n _)) as H.
  apply (serve_crawl_good _ _ _ _ _ (λ u, (p_tick s ≤ p_tick u)%nat) (nyaa_answered (p_tick s))) in H as [_ H]; try done.
  - intros page u Hu. destruct (FetchPage_in _ _ _ page u) as [res u'] eqn:Ef.
    apply FetchPage_in_answered in Ef as (Ht&_). cbn. lia.
  - intros page u b u' Hu (_&_&Hb)%FetchPage_in_answered. exists (p_tick u). auto.
  - intros u Hu. cbn. lia.
Qed.

(** C23: whatever the sites and the network do, and whatever is sent to them,
    both crawlers answer every request - a walk never needs more than 606
    fetches.  DMHY's answers with 200, 301, 400, 404, 405 or 502, never with
    500: no page can make it fail on its own account.  The posts Nyaa's
    answers with are rows of pages the network answered during the request,
    and its only failure of its own, 500, means that such a page had a row
    dated outside the years 0 to 9999. *)
Theorem crawlers_answer r s :
  (∃ rep s', (∀ fuel, (606 ≤ fuel)%nat → dmhy_handler int64_overflow cmd W r fuel s = Some (rep, s'))
    ∧ crawler_status rep ∈ [200; 301; 400; 404; 405; 502])
  ∧ (∃ rep s', (∀ fuel, (606 ≤ fuel)%nat → nyaa_handler entity entity2 int64_overflow ncmd W r fuel s = Some (rep, s'))
    ∧ match rep with
      | Crawled resp => nyaa_says (p_tick s) resp
      | _ => crawler_status rep ∈ [200; 301; 400; 404; 405]
      end).
Proof.
  split; [apply dmhy_handler_status|].
  apply (crawler_handler_total W "takuhai_nyaa" (nyaa_ServeHTTP entity entity2 int64_overflow ncmd W)
    (nyaa_says (p_tick s)) r s), nyaa_ServeHTTP_says.
Qed.
End statuses.

(** ** Repeating a crawl within the cache's lifetime *)

Section repeat.
Context (int64_overflow : spec_float → Z) (cmd : dmhycmd.ServeCmd).
Context (W1 W2 : Outside) (until : Time).
Abbreviation ttl := (dmhycmd.CacheTTL cmd).
(** The clock of the first walk, then that of the second, up to [until];
    nothing put by the first expires by then. *)
Hypothesis Hclock1 : ∀ i, until < o_clock W1 i + ttl ∧ o_clock W1 i ≤ until.
Hypothesis Hclock2 : ∀ i, o_clock W2 i ≤ until.
(** Nobody else stores a page meanwhile. *)
Hypothesis Halone1 : ∀ i a, a ∈ o_others W1 i → stores a = false.
Hypothesis Halone2 : ∀ i a, a ∈ o_others W2 i → stores a = false.

(** Every cached page is expired for the whole first walk, or outlives
    [until]. *)
Definition settled (e : pageEntry) : Prop := until < pe_expires e ∨ ∀ i, pe_expires e ≤ o_clock W1 i.
Definition alive (c : pageCache) : Prop := pc_ttl c = ttl ∧ map_Forall (λ _ e, settled e) (pc_items c).
(** The page is cached beyond [until]. *)
Definition lasts (c : pageCache) (page : Z) (body : string) : Prop :=
  ∃ e, pc_items c !! pageCacheKey (dmhycmd.SortID cmd) page = Some e ∧ pe_body e = body ∧ until < pe_expires e.
Definition has (page : Z) (body : string) (s : process) : Prop := lasts (p_cache s) page body.

Lemma get_lasts c page body now :
  lasts c page body → now ≤ until → get c (pageCacheKey (dmhycmd.SortID cmd) page) now = Some body.
Proof.
  intros (e&He&<-&Hu) Hn. unfold get, Before. rewrite He. by destruct (Z.ltb_spec now (pe_expires e)); [|lia].
Qed.
(** What a get of the first walk finds lasts. *)
Lemma get_alive c page body i :
  alive c → get c (pageCacheKey (dmhycmd.SortID cmd) page) (o_clock W1 i) = Some body → lasts c page body.
Proof.
  intros [_ Ha]. unfold get, Before. destruct (pc_items c !! _) as [e|] eqn:E; [|done].
  destruct (Z.ltb_spec (o_clock W1 i) (pe_expires e)); [|done]. intros [= <-]. exists e. split_and!; [done..|].
  destruct (Ha _ _ E) as [?|Hd]; [done|]. specialize (Hd i). lia.
Qed.
Lemma put_alive c key body i : alive c → alive (put c key body (o_clock W1 i)).
Proof.
  intros [Ht Ha]. split; [done|]. cbn [put pc_items]. apply map_Forall_insert_2.
  - left. cbn. rewrite Ht. apply Hclock1.
  - intros k e [He _]%map_lookup_filter_Some. by apply (Ha k).
Qed.
Lemma put_lasts c page body i : alive c → lasts (put c (pageCacheKey (dmhycmd.SortID cmd) page) body (o_clock W1 i)) page body.
Proof.
  intros [Ht _]. eexists. cbn [put pc_items]. rewrite lookup_insert_eq. split_and!; [done..|].
  cbn. rewrite Ht. apply Hclock1.
Qed.
Lemma put_keeps c page body page' body' i :
  get c (pageCacheKey (dmhycmd.SortID cmd) page) (o_clock W1 i) = None → lasts c page' body' →
  ∀ j, lasts (put c (pageCacheKey (dmhycmd.SortID cmd) page) body (o_clock W1 j)) page' body'.
Proof.
  intros Hmiss Hl j. assert (page' ≠ page) as Hne.
  { intros ->. rewrite (get_lasts _ _ _ _ Hl) in Hmiss; [done|apply Hclock1]. }
  destruct Hl as (e&He&Hb&Hu). exists e. split; [|done]. cbn [put pc_items].
  rewrite lookup_insert_ne by (intros E; apply pageCacheKey_inj in E as [_ E]; by destruct Hne).
  apply map_lookup_filter_Some. split; [done|]. cbn. unfold Before. pose proof (Hclock1 j).
  rewrite (proj2 (Z.ltb_lt _ _)) by lia. by intros [].
Qed.

Abbreviation inv := (λ s : process, alive (p_cache s)).
Abbreviation keep := (keeps has).

Lemma has_same_cache s t : p_cache s = p_cache t → keep s t.
Proof. intros E page body. unfold has. by rewrite <-E. Qed.

Lemma positive_ttl : 0 < ttl.
Proof. destruct (Hclock1 0). lia. Qed.

Lemma first_fetch_holds page s body s' :
  alive (p_cache s) → dmhy_fetch cmd W1 page s = (Ok body, s') →
  alive (p_cache s') ∧ keep s s' ∧ has page body s'.
Proof.
  intros Ha. unfold dmhy_fetch. rewrite (proj2 (Z.ltb_lt _ _) positive_ttl). unfold wrap_in. cbv zeta.
  rewrite meanwhile_tick, meanwhile_cache by done.
  destruct (get (p_cache s) _ _) as [b|] eqn:Eg.
  - intros [= <- <-]. assert (p_cache (ticked (meanwhile W1 "takuhai_dmhy" s)) = p_cache s) as E by by apply meanwhile_cache.
    split_and!; [by rewrite E|by apply has_same_cache|]. unfold has. rewrite E. by eapply get_alive.
  - unfold FetchPage_in. destruct (FetchPage _ _ _ _ _ _) as [[err|b] m]; [done|]. intros [= <- <-].
    unfold has, keeps. cbn [p_cache ticked p_tick]. rewrite meanwhile_cache by done. cbn [p_cache ticked p_tick].
    rewrite !meanwhile_cache by done. cbn [p_cache ticked p_tick]. rewrite meanwhile_cache by done.
    split_and!; [by apply put_alive| |by apply put_lasts]. intros page' body' Hl. by eapply put_keeps.
Qed.
Lemma second_fetch_holds page body t :
  has page body t → ∃ t', dmhy_fetch cmd W2 page t = (Ok body, t') ∧ keep t t'.
Proof.
  intros Hl. unfold dmhy_fetch. rewrite (proj2 (Z.ltb_lt _ _) positive_ttl). unfold wrap_in. cbv zeta.
  rewrite meanwhile_cache, meanwhile_tick by done. rewrite (get_lasts _ _ _ _ Hl) by done. eexists. split; [done|].
  apply has_same_cache. symmetry. by apply meanwhile_cache.
Qed.

(** C34: a crawl without a lookback can be repeated from the cache: what
    [POST /crawl] answered with 200 it answers again to the same request,
    post for post and with the same cursor, whatever DMHY serves by then or
    whether it can be reached at all.  This holds up to an instant [until]
    that no page put in the cache by the first walk has reached, when every
    page cached before it was expired already or outlives [until] too, when
    the cache still has, at the repeat, the pages it had after the first
    walk, and when no other request stores a page while one of the two walks
    runs.  (With a lookback the answer depends on the clock, and a later
    repeat can return fewer posts.) *)
Theorem cached_crawl_repeats r req fuel s resp s1 t :
  alive (p_cache s) →
  json.Decoder_Decode false crawl_fields no_request (req_Body r) = Ok req → crawl.cq_Lookback req = "" →
  dmhy_ServeHTTP int64_overflow cmd W1 r fuel s = Some (resp, s1) → status resp = StatusOK →
  pc_items (p_cache s1) ⊆ pc_items (p_cache t) →
  ∃ t', dmhy_ServeHTTP int64_overflow cmd W2 r fuel t = Some (resp, t').
Proof.
  intros Ha Hreq Hlb Hrun Hok Ht. unfold dmhy_ServeHTTP, serve_crawl, ServeHTTP_in in *.
  destruct (bool_decide (req_Method r ≠ "POST")); [injection Hrun as <- _; discriminate Hok|].
  rewrite Hreq, Hlb in *. cbn [crawl.source dmhy.shared crawl.NewCrawler crawl.cfg_Source] in *.
  change (duration.ParseLookback "dmhy" "") with (Ok 0 : result Duration) in *. cbv iota in *.
  unfold Crawl_in in *. cbn [crawl.source dmhy.shared crawl.NewCrawler crawl.cfg_Source] in *. change (0 <? 0) with false in *. cbv iota in *.
  destruct (crawl.ParseCursor "dmhy" (crawl.cq_Cursor req)) as [e|[page offset]].
  { injection Hrun as <- _. discriminate Hok. }
  match type of Hrun with context [pages_loop_in ?c ?f ?rec ?ps None fuel 0 ?pg offset 0 [] ?st] =>
    destruct (pages_loop_in c f rec ps None fuel 0 pg offset 0 [] st) as [[[err|cr] s']|] eqn:E end; [| |done].
  { injection Hrun as <- _. discriminate Hok. }
  cbn [mbind option_bind] in Hrun.
  destruct (Encode dmhy.dmhyZone cr) as [err|cr'] eqn:En; injection Hrun as <- <-; [discriminate Hok|].
  destruct (pages_loop_in_repeat _ _ (dmhy_fetch cmd W2) (recordParsePosts "takuhai_dmhy")
    (recordParsePosts "takuhai_dmhy") has inv
    first_fetch_holds (λ n s H, conj H (has_same_cache s _ eq_refl)) second_fetch_holds
    (λ n t, has_same_cache t _ eq_refl) _ _ _ _ _ _ _ _ (ticked s) _ _ (ticked t) Ha E) as (t'&E2).
  { intros page' body' (e&He&Hb). exists e. split; [by apply (lookup_weaken _ _ _ _ He Ht)|done]. }
  match goal with |- context [pages_loop_in ?c ?f ?rec ?ps None fuel 0 ?pg offset 0 [] (ticked t)] =>
    assert (pages_loop_in c f rec ps None fuel 0 pg offset 0 [] (ticked t) = Some (Ok cr, t')) as -> by exact E2 end.
  cbn [mbind option_bind]. rewrite En. by eexists.
Qed.
End repeat.

(** ** Where the pages of an answer come from *)

Section genuine.
Context (int64_overflow : spec_float → Z) (cmd : dmhycmd.ServeCmd) (W : Outside).
Abbreviation ttl := (dmhycmd.CacheTTL cmd).
Abbreviation key := (pageCacheKey (dmhycmd.SortID cmd)).
(** What other requests fetched, and the clock when they stored it. *)
Context (elsewhere : Z → string → Time → Prop).
Hypothesis Hothers : ∀ i k body t, Stored k body t ∈ o_others W i → ∃ page, k = key page ∧ elsewhere page body t.

(** The network answered the fetch at a tick, or some fetch before [t]. *)
Definition answered (i : nat) (page : Z) (body : string) : Prop :=
  fetch_page (dmhy_fetcher cmd) (o_net W i) page = Ok body.
Definition served (page : Z) (body : string) (t : Time) : Prop :=
  elsewhere page body t ∨ ∃ i, answered i page body ∧ t = o_clock W (S i).
(** Since tick [lo] the page was fetched, or was found in the cache less than
    the lifetime after it was fetched. *)
Definition from_dmhy (lo : nat) (page : Z) (body : string) : Prop :=
  (∃ i, (lo ≤ i)%nat ∧ answered i page body)
  ∨ 0 < ttl ∧ ∃ i t, (lo ≤ i)%nat ∧ served page body t ∧ o_clock W i < t + ttl.

Definition genuine (c : pageCache) : Prop :=
  pc_ttl c = ttl
  ∧ map_Forall (λ k e, ∃ page t, k = key page ∧ served page (pe_body e) t ∧ pe_expires e = t + ttl) (pc_items c).
Lemma put_genuine c page body t : genuine c → served page body t → genuine (put c (key page) body t).
Proof.
  intros [Ht Hc] Hs. split; [done|]. cbn [put pc_items]. apply map_Forall_insert_2.
  - exists page, t. cbn. rewrite Ht. done.
  - intros k e [He _]%map_lookup_filter_Some. by apply (Hc k).
Qed.
Lemma get_genuine c page now body :
  genuine c → get c (key page) now = Some body → ∃ t, served page body t ∧ now < t + ttl.
Proof.
  intros [_ Hc]. unfold get. destruct (pc_items c !! key page) as [e|] eqn:E; [|done].
  destruct (Hc _ _ E) as (page'&t&[_ ->]%pageCacheKey_inj&Hs&He). unfold Before.
  destruct (Z.ltb_spec now (pe_expires e)); [|done]. intros [= <-]. exists t. rewrite <-He. done.
Qed.
Definition since (lo : nat) (s : process) : Prop := genuine (p_cache s) ∧ (lo ≤ p_tick s)%nat.
Lemma run_acts_genuine ns s i l : (∀ a, a ∈ l → a ∈ o_others W i) → genuine (p_cache s) → genuine (p_cache (foldl (run_act ns) s l)).
Proof.
  revert s. induction l as [|a l IH]; intros s Hl Hs; [done|]. cbn [foldl]. apply IH; [intros b Hb; apply Hl; by right|].
  pose proof (Hl a (list_elem_of_here _ _)) as Ha. destruct a as [k body t| | | |]; try done.
  apply Hothers in Ha as (page&->&He). apply put_genuine; [done|by left].
Qed.
Lemma meanwhile_since lo ns s : since lo s → since lo (meanwhile W ns s).
Proof. intros [Hg Hl]. split; [by eapply run_acts_genuine|by rewrite meanwhile_tick]. Qed.
Lemma ticked_since lo s : since lo s → since lo (ticked s).
Proof. intros [Hg Hl]. split; [done|]. cbn. lia. Qed.

Lemma FetchPage_in_since lo page s res s' :
  since lo s → FetchPage_in W "takuhai_dmhy" (dmhy_fetcher cmd) page s = (res, s') →
  since lo s' ∧ p_tick s' = S (p_tick s) ∧ ∀ body, res = Ok body → answered (p_tick s) page body.
Proof.
  intros [Hg Hl]%(meanwhile_since _ "takuhai_dmhy") (Ht&Hc&Ha)%FetchPage_in_answered. rewrite meanwhile_tick in Hl.
  split_and!; [|done..]. split; [by rewrite Hc|lia].
Qed.
Lemma dmhy_fetch_since lo page s res s' :
  since lo s → dmhy_fetch cmd W page s = (res, s') →
  since lo s' ∧ ∀ body, res = Ok body → from_dmhy lo page body.
Proof.
  intros Hs. unfold dmhy_fetch. destruct (Z.ltb_spec 0 ttl) as [Httl|_].
  2:{ intros Hf. pose proof Hs as [_ Hl]. apply (FetchPage_in_since _ _ _ _ _ Hs) in Hf as (Hs'&_&Ha).
      split; [done|]. intros body Hb. left. eauto. }
  unfold wrap_in. cbv zeta. apply (meanwhile_since _ "takuhai_dmhy") in Hs. set (s1 := meanwhile W _ s) in *. clearbody s1.
  pose proof Hs as [Hg Hl]. destruct (get (p_cache s1) _ _) as [b|] eqn:Eg.
  { intros [= <- <-]. split; [by apply ticked_since|]. intros body [= <-]. right. split; [done|].
    apply get_genuine in Eg as (t&?&?); [|done]. by exists (p_tick s1), t. }
  destruct (FetchPage_in _ _ _ _ _) as [[e|b] s2] eqn:Ef;
    apply FetchPage_in_since with (lo := lo) in Ef as (Hs2&Ht&Ha); try by apply ticked_since.
  { by intros [= <- <-]. }
  intros [= <- <-]. specialize (Ha b eq_refl). split.
  - apply ticked_since. apply (meanwhile_since _ "takuhai_dmhy") in Hs2 as [Hg2 Hl2]. split; [|done].
    cbn [p_cache]. apply put_genuine; [done|]. right. eexists. split; [exact Ha|]. by rewrite Ht.
  - intros body [= <-]. left. eexists. split; [|exact Ha]. cbn. lia.
Qed.

Definition reply_shows_dmhy (lo : nat) (rep : crawler_reply) : Prop :=
  match rep with Crawled resp => shows (from_dmhy lo) (dmhy.ParseArchivePage int64_overflow) resp | _ => True end.
Lemma dmhy_handler_since lo r fuel s rep s' :
  since lo s → dmhy_handler int64_overflow cmd W r fuel s = Some (rep, s') → since lo s' ∧ reply_shows_dmhy lo rep.
Proof.
  intros Hs. unfold dmhy_handler, crawler_handler.
  destruct (service.mux_reply _) as [resp|[]]; [by intros [= <- <-]| |by intros [= <- <-]].
  destruct (dmhy_ServeHTTP _ _ _ _ _ _) as [[resp s1]|] eqn:E; [|done]. intros [= <- <-].
  apply (serve_crawl_good _ _ _ _ _ (since lo) (from_dmhy lo)) in E as (Hs1&_&Hsh&_); try done.
  - intros page u Hu. destruct (dmhy_fetch cmd W page u) as [res u'] eqn:Ef.
    by apply (dmhy_fetch_since _ _ _ _ _ Hu) in Ef as [? _].
  - intros page u b u' Hu Ef. apply (dmhy_fetch_since _ _ _ _ _ Hu) in Ef as [_ Hb]. by apply Hb.
  - intros u. by apply ticked_since.
Qed.

Lemma dmhy_requests_since rs s :
  genuine (p_cache s) →
  ∃ reps s', dmhy_requests int64_overflow cmd W 606 rs s = Some (reps, s') ∧ length reps = length rs
    ∧ genuine (p_cache s') ∧ Forall (λ x, reply_shows_dmhy x.1 x.2) reps.
Proof.
  revert s. induction rs as [|r rs IH]; intros s Hs; cbn [dmhy_requests]; [by eexists [], _|].
  destruct (dmhy_handler_total int64_overflow cmd W r s) as (rep&s1&Hr). rewrite Hr. cbn [mbind option_bind].
  assert (since (p_tick s) s) as Hn by done.
  apply (dmhy_handler_since _ _ _ _ _ _ Hn) in Hr as [[Hs1 _] Hrep].
  destruct (IH s1 Hs1) as (reps&s2&->&Hlen&Hs2&Hreps). eexists _, _. split; [done|]. cbn. split; [by f_equal|].
  split; [done|]. by constructor.
Qed.

(** C33: whatever requests overlap, the posts of every crawl the DMHY process
    answers are rows of pages that DMHY really served: each page of the walk
    was fetched during the request, or was found in the cache less than the
    cache's lifetime after this or another request had fetched that very
    page.  No page is ever taken for another, a failed fetch is never shown,
    and every request is answered. *)
Theorem crawls_show_dmhy rs :
  ∃ reps s', dmhy_requests int64_overflow cmd W 606 rs (dmhy_start cmd) = Some (reps, s') ∧ length reps = length rs
    ∧ Forall (λ x, reply_shows_dmhy x.1 x.2) reps.
Proof.
  destruct (dmhy_requests_since rs (dmhy_start cmd)) as (reps&s'&?&?&_&?); [|by eexists _, _].
  split; [done|]. apply map_Forall_empty.
Qed.
End genuine.

(** DMHY serves one page, and then is not to be reached. *)
Definition demo_cmd : dmhycmd.ServeCmd :=
  dmhycmd.Build_ServeCmd ":8081" "https://share.dmhy.org" 2 dmhycmd.half (10 * Minute) "info".
Definition demo_net (answer : result (Z * result string)) : Outside := {|
  o_clock _ := 1000 * Second;
  o_net _ := {| limiter_Wait := None; ReadFile _ := Err (ErrNew "no file"); NewRequest _ := None; Do _ := answer |};
  o_dur _ := 0;
  o_others _ := [];
|}.
Lemma demo_alone answer i a : a ∈ o_others (demo_net answer) i → stores a = false.
Proof. intros H. by apply not_elem_of_nil in H. Qed.
Definition demo_up : Outside := demo_net (Ok (200, Ok demo_page)).
Definition demo_down : Outside := demo_net (Err (ErrNew "connection refused")).
Definition demo_crawl : Request := {|
  req_Method := "POST"; req_Path := "/crawl"; req_BodyErr := None;
  req_Body := json.encode (json.JObject [("page_size", json.JNumber "1")]);
|}.
Definition demo_first : option (Response crawl.CrawlResponse * process) :=
  dmhy_ServeHTTP (λ _, 0) demo_cmd demo_up demo_crawl 606 (dmhy_start demo_cmd).
Definition demo_response : Response crawl.CrawlResponse :=
  match demo_first with Some (resp, _) => resp | None => http_Error (Text "") 0 end.
Definition demo_after : process :=
  match demo_first with Some (_, s) => s | None => dmhy_start demo_cmd end.

Lemma cached_crawl_repeats_witness :
  (∃ t', dmhy_ServeHTTP (λ _, 0) demo_cmd demo_down demo_crawl 606 demo_after = Some (demo_response, t'))
  ∧ status demo_response = 200.
Proof.
  split; [|vm_compute; reflexivity].
  apply (cached_crawl_repeats (λ _, 0) demo_cmd demo_up demo_down (1000 * Second)
    (λ _, ltac:(vm_compute; split; [reflexivity|discriminate])) (λ _, ltac:(vm_compute; discriminate))
    (demo_alone _) (demo_alone _)
    demo_crawl {| crawl.cq_PageSize := 1; crawl.cq_Cursor := ""; crawl.cq_Lookback := "" |} 606 (dmhy_start demo_cmd)
    demo_response demo_after demo_after).
  - split; [reflexivity|]. apply map_Forall_empty.
  - vm_compute. reflexivity.
  - reflexivity.
  - vm_compute. reflexivity.
  - vm_compute. reflexivity.
  - reflexivity.
Defined.

(** The network is down, but another request has just stored the first page. *)
Definition demo_beside : Outside := {|
  o_clock _ := 1000 * Second;
  o_net := o_net demo_down;
  o_dur _ := 0;
  o_others i := if Nat.eqb i 1 then [Stored (pageCacheKey 2 1) demo_page (999 * Second); CountFetch "ok" 0] else [];
|}.
Definition demo_elsewhere (page : Z) (body : string) (t : Time) : Prop := page = 1 ∧ body = demo_page ∧ t = 999 * Second.
Definition demo_visit : http_request :=
  {| hr_Method := "POST"; hr_EscapedPath := "/crawl"; hr_Body := req_Body demo_crawl; hr_BodyErr := None |}.
Lemma demo_beside_stored i k body t :
  Stored k body t ∈ o_others demo_beside i → ∃ page, k = pageCacheKey 2 page ∧ demo_elsewhere page body t.
Proof.
  cbn. destruct (Nat.eqb i 1); [|by intros ?%not_elem_of_nil]. rewrite !elem_of_cons.
  intros [[= -> -> ->]|[[=]|?%not_elem_of_nil]]; [|done]. by exists 1.
Qed.
Lemma crawls_show_dmhy_witness :
  ∃ reps s', dmhy_requests (λ _, 0) demo_cmd demo_beside 606 [demo_visit; demo_visit] (dmhy_start demo_cmd) = Some (reps, s')
    ∧ (crawler_status ∘ snd) <$> reps = [200; 200]
    ∧ Forall (λ x, reply_shows_dmhy (λ _, 0) demo_cmd demo_beside demo_elsewhere x.1 x.2) reps.
Proof.
  destruct (crawls_show_dmhy (λ _, 0) demo_cmd demo_beside demo_elsewhere demo_beside_stored [demo_visit; demo_visit])
    as (reps&s'&Hrun&_&Hreps).
  exists reps, s'. split; [exact Hrun|]. split; [|exact Hreps].
  assert ((λ x : list (nat * crawler_reply) * process, (crawler_status ∘ snd) <$> x.1) <$>
    dmhy_requests (λ _, 0) demo_cmd demo_beside 606 [demo_visit; demo_visit] (dmhy_start demo_cmd) = Some [200; 200]) as E
    by (vm_compute; reflexivity).
  rewrite Hrun in E. injection E as E. exact E.
Defined.
