(* ===== verification/Logs.v ===== *)
(** * The log lines

    What each handler writes to the structured log, with its level and
    attributes (src/internal/rest, src/internal/mcp, src/internal/health,
    src/pkg/crawl/server.go), and the line of every request that [logHTTP]
    writes around the muxes of the three processes (src/cmd/takuhai/main.go,
    src/sources/dmhy/cmd/takuhai-dmhy/main.go,
    src/sources/nyaa/cmd/takuhai-nyaa/main.go).  The lines of a handler are a
    function of what the handler is given: logging moves no state. *)

From S2P Require Import Prelude GoStrings GoTime GoHttp GoServeMux GoJson Infohash Store Rawpost Metrics Crawl Duration.
From S2P Require Import CrawlServer Dispatch Rest Mcp Service Cmd CmdDmhy CmdNyaa Nyaa NyaaUrl Crawlers.
From Stdlib Require Import Ascii SpecFloat.
Import dispatch rest mcp.

Module logs.

(** ** Records *)

Inductive value :=
  | VString (s : string)
  | VInt (n : Z)
  | VBool (b : bool)
  | VError (err : error)
  | VCounts (counts : gmap string Z).
Record line := Line { l_level : slog_level; l_msg : string; l_attrs : list (string * value) }.

(** [slog.Level] and the handler's threshold. *)
Definition level_value (l : slog_level) : Z :=
  match l with LevelDebug => -4 | LevelInfo => 0 | LevelWarn => 4 | LevelError => 8 end.
Definition Enabled (configured level : slog_level) : bool := level_value configured <=? level_value level.
(** What a logger set to [configured] prints. *)
Definition printed (configured : slog_level) (ls : list line) : list line :=
  List.filter (λ l, Enabled configured (l_level l)) ls.

Definition Milliseconds (d : Duration) : Z := Z.quot d (10 ^ 6).
Definition str (name s : string) : string * value := (name, VString s).
Definition int (name : string) (n : Z) : string * value := (name, VInt n).
Definition err_attr (err : error) : string * value := ("err", VError err).
Definition rejected (level : slog_level) (msg reason : string) (attrs : list (string * value)) : line :=
  Line level msg (str "reason" reason :: attrs).

(** ** The REST handlers *)

Definition dispatchLogLevel (err : error) : slog_level :=
  if bool_decide (WireCode err = "") then LevelError else LevelInfo.

Definition counted_source (p : rawpost.RawPost) : string :=
  let source := TrimSpace (rawpost.rp_Source p) in
  if bool_decide (source = "") then "unknown" else source.
Definition sourceCounts (posts : list rawpost.RawPost) : gmap string Z :=
  foldl (λ counts p, <[counted_source p := default 0 (counts !! counted_source p) + 1]> counts) ∅ posts.

(** The index of the first post without a source or its id. *)
Fixpoint first_missing (i : Z) (posts : list rawpost.RawPost) : option Z :=
  match posts with
  | [] => None
  | p :: posts => if missing_source p then Some i else first_missing (i + 1) posts
  end.

Section rest.
Context {S : Type} (st : store.Store S).

Definition log_handleIngest (dur : Duration) (r : Request) (w : World S) : list line :=
  if bool_decide (req_Method r ≠ "POST")
  then [rejected LevelDebug "ingest rejected" "method_not_allowed" [str "method" (req_Method r)]] else
  match json.Decoder_Decode true ingest_fields {| ir_Posts := [] |} (req_Body r) with
  | Err err => [rejected LevelInfo "ingest rejected" "invalid_body" [err_attr err]]
  | Ok req =>
      let posts := ir_Posts req in
      let post_count := int "post_count" (Z.of_nat (length posts)) in
      let source_counts := ("source_counts", VCounts (sourceCounts posts)) in
      if maxBatchPosts <? Z.of_nat (length posts)
      then [rejected LevelInfo "ingest rejected" "batch_too_large"
              [post_count; source_counts; int "max_post_count" maxBatchPosts]]
      else match first_missing 0 posts with
      | Some i => [rejected LevelInfo "ingest rejected" "missing_source" [post_count; int "post_index" i]]
      | None =>
          match ingestBatch st posts 0 no_batch w with
          | (_, Some (failure, _), _) =>
              [Line LevelError "ingest failed"
                 [post_count; source_counts; int "post_index" (if_index failure); str "source" (if_source failure);
                  str "source_id" (if_sourceID failure); int "status" StatusInternalServerError;
                  int "duration_ms" (Milliseconds dur); err_attr (if_err failure)]]
          | (batch, None, w) =>
              match (in_world (store.store_QueueStats st) w).1 with
              | Err err =>
                  [Line LevelError "ingest queue stats failed"
                     [post_count; int "duration_ms" (Milliseconds dur); err_attr err]]
              | Ok qs =>
                  [Line LevelInfo "ingest completed"
                     [post_count; source_counts; int "new_count" (rawpost.ib_New batch);
                      int "updated_count" (rawpost.ib_Updated batch);
                      int "duplicate_count" (rawpost.ib_Duplicate batch);
                      int "conflict_count" (rawpost.ib_Conflict batch);
                      int "skipped_count" (rawpost.ib_Skipped batch);
                      int "queue_available" (store.qs_Available qs); int "queue_leased" (store.qs_Leased qs);
                      int "queue_exhausted" (store.qs_Exhausted qs); int "duration_ms" (Milliseconds dur)]]
              end
          end
      end
  end.

Definition log_handleClaim (r : Request) (w : World S) : list line :=
  match requirePost r with
  | inl _ => [rejected LevelDebug "queue claim rejected" "method_or_body" []]
  | inr body =>
      match json.Unmarshal claim_fields no_claim body with
      | Err err => [rejected LevelInfo "queue claim rejected" "invalid_body" [err_attr err]]
      | Ok req =>
          let asked := [int "limit" (clq_Limit req); int "lease_seconds" (clq_LeaseSeconds req)] in
          match (in_world (ClaimTyped st req) w).1 with
          | Err err =>
              [Line (dispatchLogLevel err) "queue claim failed" (asked ++ [str "code" (WireCode err); err_attr err])]
          | Ok out =>
              [Line LevelInfo "queue claim completed"
                 (asked ++ [int "claimed_count" (Z.of_nat (length (cres_Items out)))])]
          end
      end
  end.

Definition log_handleQueueStats (r : Request) (w : World S) : list line :=
  if bool_decide (req_Method r ≠ "GET")
  then [rejected LevelDebug "queue stats rejected" "method_not_allowed" [str "method" (req_Method r)]] else
  match (in_world (QueueStatsTyped st) w).1 with
  | Err err => [Line (dispatchLogLevel err) "queue stats failed" [str "code" (WireCode err); err_attr err]]
  | Ok out =>
      [Line LevelDebug "queue stats completed"
         [int "available" (qsr_Available out); int "leased" (qsr_Leased out); int "unmatched" (qsr_Unmatched out);
          int "matched" (qsr_Matched out); int "suppressed" (qsr_Suppressed out);
          int "exhausted" (qsr_Exhausted out)]]
  end.

Definition log_handleSubmit (r : Request) (w : World S) : list line :=
  match requirePost r with
  | inl _ => [rejected LevelDebug "submit rejected" "method_or_body" []]
  | inr body =>
      match json.Unmarshal submit_fields no_submit body with
      | Err err => [rejected LevelInfo "submit rejected" "invalid_body" [err_attr err]]
      | Ok req =>
          let given :=
            [str "infohash" (sr_Infohash req); int "claim_token" (sr_ClaimToken req); str "status" (sr_Status req);
             str "ref" (sr_Ref req); ("has_confidence", VBool (bool_decide (sr_Confidence req ≠ None)));
             int "reason_len" (len (sr_Reason req))] in
          match (in_world (SubmitTyped st req) w).1 with
          | Err err =>
              let code := WireCode err in
              let result := if bool_decide (code = "no_active_lease" ∨ code = "stale_lease")
                            then "conflict" else "error" in
              [Line (dispatchLogLevel err) "submit failed"
                 (given ++ [str "result" result; str "code" code; err_attr err])]
          | Ok _ => [Line LevelInfo "submit completed" given]
          end
      end
  end.

Definition log_handleGetMagnet (r : Request) (w : World S) : list line :=
  if bool_decide (req_Method r ≠ "GET")
  then [rejected LevelDebug "magnet lookup rejected" "method_not_allowed" [str "method" (req_Method r)]] else
  let raw := trim_prefix (req_Path r) "/magnets/" in
  if bool_decide (raw = "") || contains raw "/"
  then [rejected LevelDebug "magnet lookup rejected" "invalid_infohash" []] else
  match infohash.NormalizeInfohash raw with
  | Err _ => [rejected LevelDebug "magnet lookup rejected" "invalid_infohash" []]
  | Ok ih =>
      match (in_world (ResolveMagnetsTyped st {| rmr_Infohashes := [ih] |}) w).1 with
      | Err err =>
          [Line (dispatchLogLevel err) "magnet lookup failed"
             [str "infohash" ih; str "code" (WireCode err); err_attr err]]
      | Ok out =>
          match rms_Magnets out !! ih with
          | None => [Line LevelInfo "magnet lookup missed" [str "infohash" ih]]
          | Some _ => [Line LevelInfo "magnet lookup completed" [str "infohash" ih]]
          end
      end
  end.

Definition log_handleGetRelease (r : Request) (w : World S) : list line :=
  if bool_decide (req_Method r ≠ "GET")
  then [rejected LevelDebug "release lookup rejected" "method_not_allowed" [str "method" (req_Method r)]] else
  let raw := trim_prefix (req_Path r) "/releases/" in
  if bool_decide (raw = "") || contains raw "/"
  then [rejected LevelDebug "release lookup rejected" "invalid_infohash" []] else
  match infohash.NormalizeInfohash raw with
  | Err _ => [rejected LevelDebug "release lookup rejected" "invalid_infohash" []]
  | Ok ih =>
      match (in_world (GetReleaseTyped st {| grq_Infohash := ih |}) w).1 with
      | Err err =>
          [Line (dispatchLogLevel err) "release lookup failed"
             [str "infohash" ih; str "code" (WireCode err); err_attr err]]
      | Ok out => [Line LevelInfo "release lookup completed" [str "infohash" (grr_Infohash out)]]
      end
  end.

(** ** [/healthz] *)

Definition log_healthz (w : World S) : list line :=
  match (in_world (store.Ping st) w).1 with
  | Err err => [Line LevelWarn "health check failed" [err_attr err]]
  | Ok _ => []
  end.

(** ** The tools *)

Definition tool_failed (tool : string) (attrs : list (string * value)) (dur : Duration) (err : error) : line :=
  Line LevelWarn "mcp tool failed"
    (str "tool" tool :: attrs ++ [str "code" (WireCode err); int "duration_ms" (Milliseconds dur); err_attr err]).
Definition tool_completed (tool : string) (attrs : list (string * value)) (dur : Duration) : line :=
  Line LevelInfo "mcp tool completed" (str "tool" tool :: attrs ++ [int "duration_ms" (Milliseconds dur)]).

Definition log_list_releases (dur : Duration) (input : ListReleasesRequest) (w : World S) : list line :=
  let asked :=
    [str "ref_namespace" (refNamespace (lr_Ref input)); int "limit" (lr_Limit input);
     ("has_cursor", VBool (bool_decide (lr_Cursor input ≠ "")));
     ("has_since", VBool (match lr_Since input with Some _ => true | None => false end))] in
  match (in_world (ListReleasesTyped st input) w).1 with
  | Err err =>
      [tool_failed "list_releases" (("ref_present", VBool (bool_decide (lr_Ref input ≠ ""))) :: asked) dur err]
  | Ok out =>
      [tool_completed "list_releases"
         (asked ++ [int "release_count" (Z.of_nat (length (lrr_Releases out)));
                    ("has_next_cursor", VBool (bool_decide (lrr_NextCursor out ≠ None)))]) dur]
  end.
Definition log_get_release (dur : Duration) (input : GetReleaseRequest) (w : World S) : list line :=
  match (in_world (GetReleaseTyped st input) w).1 with
  | Err err => [tool_failed "get_release" [str "infohash" (grq_Infohash input)] dur err]
  | Ok out => [tool_completed "get_release" [str "infohash" (grr_Infohash out)] dur]
  end.
Definition log_resolve_magnets (dur : Duration) (input : ResolveMagnetsRequest) (w : World S) : list line :=
  let input_count := Z.of_nat (length (rmr_Infohashes input)) in
  match (in_world (ResolveMagnetsTyped st input) w).1 with
  | Err err => [tool_failed "resolve_magnets" [int "input_count" input_count] dur err]
  | Ok out =>
      let hits := Z.of_nat (size (rms_Magnets out)) in
      let misses := input_count - hits in
      let misses := if misses <? 0 then 0 else misses in
      [tool_completed "resolve_magnets"
         [int "input_count" input_count; int "hit_count" hits; int "miss_count" misses] dur]
  end.
End rest.

(** ** [POST /crawl] *)

(** [None] is a walk that has not ended. *)
Definition log_crawl (zone : Duration) (c : crawl.Crawler) (dur : Duration) (r : Request) (fuel : nat)
    : option (list line) :=
  if bool_decide (req_Method r ≠ "POST")
  then Some [rejected LevelWarn "crawl rejected" "method_not_allowed" [str "method" (req_Method r)]] else
  match json.Decoder_Decode false crawlserver.crawl_fields crawlserver.no_request (req_Body r) with
  | Err err => Some [rejected LevelWarn "crawl rejected" "invalid_body" [err_attr err]]
  | Ok req =>
      let page_size := int "page_size" (crawl.cq_PageSize req) in
      let cursor := str "cursor" (crawl.cq_Cursor req) in
      let lookback_attr := str "lookback" (crawl.cq_Lookback req) in
      let duration_ms := int "duration_ms" (Milliseconds dur) in
      match duration.ParseLookback (crawl.source c) (crawl.cq_Lookback req) with
      | Err err =>
          Some [rejected LevelWarn "crawl rejected" "invalid_lookback" [page_size; cursor; lookback_attr; err_attr err]]
      | Ok lookback =>
          match crawl.ParseCursor (crawl.source c) (crawl.cq_Cursor req) with
          | Err err =>
              Some [rejected LevelWarn "crawl rejected" "invalid_cursor"
                      [page_size; int "cursor_len" (len (crawl.cq_Cursor req)); lookback_attr; err_attr err]]
          | Ok _ =>
              walk ← crawl.Crawl c req lookback fuel;
              Some match walk with
              | Err err =>
                  let result := if Is err crawl.ErrCrawlParse then "parse_error" else "fetch_error" in
                  [Line LevelWarn "crawl failed"
                     [str "result" result; page_size; cursor; lookback_attr; duration_ms; err_attr err]]
              | Ok resp =>
                  let post_count := int "post_count" (Z.of_nat (length (crawl.Posts resp))) in
                  match crawlserver.Encode zone resp with
                  | Err err => [Line LevelError "crawl response encode failed" [post_count; duration_ms; err_attr err]]
                  | Ok _ =>
                      [Line LevelInfo "crawl completed"
                         [page_size; post_count; ("has_more", VBool (crawl.HasMore resp));
                          ("has_next_cursor", VBool (bool_decide (crawl.NextCursor resp ≠ ""))); cursor;
                          str "next_cursor" (crawl.NextCursor resp); lookback_attr;
                          str "stop_reason" (crawl.StopReason resp); int "pages_fetched" (crawl.PagesFetched resp);
                          int "last_page" (crawl.LastPage resp); duration_ms]]
                  end
              end
          end
      end
  end.

(** ** The line of a request *)

(** What [logHTTP] writes, but for the routes in [quiet], about a request
    answered with [status] and [written] bytes. *)
Definition access (quiet : list string) (routes : list (string * string)) (method path : string)
    (status written : Z) (dur : Duration) : list line :=
  let path := metrics.Route routes path in
  if bool_decide (path ∈ quiet) then [] else
  [Line LevelInfo "http request completed"
     [str "component" "http"; str "method" method; str "path" path; int "status" status;
      int "duration_ms" (Milliseconds dur); int "response_bytes" written]].

(** [takuhai]'s [logHTTP]: [written r] bytes of the reply went out. *)
Definition takuhai_logHTTP {W} (written : service.reply → Z) (dur : Duration)
    (next : http_request → W → service.reply * W) (r : http_request) (w : W) : service.reply * list line * W :=
  let '(resp, w) := next r w in
  (resp, access ["/healthz"; "/metrics"] metrics.takuhai_routes (hr_Method r) (URL_Path r)
           (service.r_status resp) (written resp) dur, w).
(** The handler the service listens with. *)
Definition takuhai_server {S} (st : store.Store S) (validate : string → json.json → option error)
    (sdk : http_request → service.session) (written : service.reply → Z) (dur : Duration)
    : http_request → World S → service.reply * list line * World S :=
  takuhai_logHTTP written dur (service.takuhai_handler st validate sdk dur).

Abbreviation crawler_next := (http_request → nat → crawlers.process → option (crawlers.crawler_reply * crawlers.process)).
(** The crawlers' [logHTTP], the same text in both commands. *)
Definition crawler_logHTTP (written : crawlers.crawler_reply → Z) (dur : Duration) (next : crawler_next)
    (r : http_request) (fuel : nat) (s : crawlers.process)
    : option (crawlers.crawler_reply * list line * crawlers.process) :=
  '(resp, s) ← next r fuel s;
  Some (resp, access ["/metrics"] metrics.crawler_routes (hr_Method r) (URL_Path r)
                (crawlers.crawler_status resp) (written resp) dur, s).
Definition dmhy_logHTTP : (crawlers.crawler_reply → Z) → Duration → crawler_next → http_request → nat →
    crawlers.process → option (crawlers.crawler_reply * list line * crawlers.process) := crawler_logHTTP.
Definition nyaa_logHTTP : (crawlers.crawler_reply → Z) → Duration → crawler_next → http_request → nat →
    crawlers.process → option (crawlers.crawler_reply * list line * crawlers.process) := crawler_logHTTP.
Definition dmhy_server (int64_overflow : spec_float → Z) (cmd : dmhycmd.ServeCmd) (W : crawlers.Outside)
    (written : crawlers.crawler_reply → Z) (dur : Duration) :=
  dmhy_logHTTP written dur (crawlers.dmhy_handler int64_overflow cmd W).
Definition nyaa_server (entity : string → option Z) (entity2 : string → option (Z * Z))
    (int64_overflow : spec_float → Z) {O} {lib : nyaaurl.net_url O} (cmd : nyaacmd.ServeCmd) (W : crawlers.Outside)
    (written : crawlers.crawler_reply → Z) (dur : Duration) :=
  nyaa_logHTTP written dur (crawlers.nyaa_handler entity entity2 int64_overflow cmd W).

End logs.
