(* ===== verification/LogsThms.v ===== *)
(** * What the log tells *)

From S2P Require Import Prelude GoStrings GoTime GoHttp GoServeMux GoJson Infohash Store Cursor Db Postgres Rawpost Metrics MetricsThms.
From S2P Require Import Crawl CrawlThms Duration CrawlServer Dispatch Rest RestThms Mcp McpThms Service ServiceThms DmhyCache Cmd Crawlers Logs.
From Stdlib Require Import Ascii.
Import dispatch rest mcp service logs.

(** ** Levels *)

(** What is logged as an error is printed whatever level is configured. *)
Lemma errors_printed configured l ls : l ∈ ls → l_level l = LevelError → l ∈ printed configured ls.
Proof.
  intros Hl He. apply list_elem_of_In, filter_In. split; [by apply list_elem_of_In|]. rewrite He. by destruct configured.
Qed.

(** How a dispatcher's error is coded, logged and answered: as an error
    exactly when the answer is 500 - but for the code of a bad cursor, which
    no operation behind the REST surface returns and which has no case there. *)
Lemma dispatch_levels ih err :
  (WireCode err, dispatchLogLevel err, status (writeDispatchError ih err)) ∈
    [("no_such_release", LevelInfo, 404); ("no_active_lease", LevelInfo, 409); ("stale_lease", LevelInfo, 409);
     ("invalid_ref", LevelInfo, 400); ("invalid_cursor", LevelInfo, 500); ("invalid_input", LevelInfo, 400);
     ("", LevelError, 500)].
Proof.
  unfold dispatchLogLevel, writeDispatchError, WireCode.
  destruct (Is err store.ErrNoSuchRelease); [apply list_elem_of_here|apply list_elem_of_further].
  destruct (Is err store.ErrNoActiveLease); [apply list_elem_of_here|apply list_elem_of_further].
  destruct (Is err store.ErrStaleLease); [apply list_elem_of_here|apply list_elem_of_further].
  destruct (Is err cursor.ErrInvalidRef); [apply list_elem_of_here|apply list_elem_of_further].
  destruct (Is err cursor.ErrInvalidCursor); [apply list_elem_of_here|apply list_elem_of_further].
  destruct (Is err ErrInvalidInput); [apply list_elem_of_here|apply list_elem_of_further].
  apply list_elem_of_here.
Qed.

(** ** One line a request *)

Inductive endpoint := EIngest | EClaim | EStats | ESubmit | EMagnet | ERelease.
Section rest.
Context {S : Type} (st : store.Store S).
Definition ep_handle (ep : endpoint) : Request → World S → Response payload * World S :=
  match ep with
  | EIngest => handleIngest st | EClaim => handleClaim st | EStats => handleQueueStats st
  | ESubmit => handleSubmit st | EMagnet => handleGetMagnet st | ERelease => handleGetRelease st
  end.
Definition ep_log (ep : endpoint) (dur : Duration) : Request → World S → list line :=
  match ep with
  | EIngest => log_handleIngest st dur | EClaim => log_handleClaim st | EStats => log_handleQueueStats st
  | ESubmit => log_handleSubmit st | EMagnet => log_handleGetMagnet st | ERelease => log_handleGetRelease st
  end.

(** How a line's level goes with the status answered. *)
Definition level_fits (l : line) (code : Z) : Prop :=
  (l_level l = LevelError → code = 500)
  ∧ (code = 500 → l_level l = LevelError ∨ str "code" "invalid_cursor" ∈ l_attrs l)
  ∧ (code = 405 → l_level l = LevelDebug)
  ∧ (code = 200 → l_level l = LevelInfo ∨ l_level l = LevelDebug).
Definition one_line (ls : list line) (code : Z) : Prop := ∃ l, ls = [l] ∧ level_fits l code.

Lemma one_line_intro level msg attrs code :
  level_fits (Line level msg attrs) code → one_line [Line level msg attrs] code.
Proof. intros H. eexists. split; [done|exact H]. Qed.
Lemma fits_dispatch msg attrs ih err :
  str "code" (WireCode err) ∈ attrs → level_fits (Line (dispatchLogLevel err) msg attrs) (status (writeDispatchError ih err)).
Proof.
  intros Hc. pose proof (dispatch_levels ih err) as H. unfold level_fits. cbn [l_level l_attrs].
  rewrite !elem_of_cons, elem_of_nil in H. destruct_or! H; try done; injection H as Hw -> ->; rewrite Hw in Hc.
  all: split_and!; intros; first [done|by left|by right].
Qed.
Ltac fits := apply one_line_intro; first [apply fits_dispatch; set_solver|unfold level_fits; cbn; split_and!; intros; first [done|by left|by right]].

Lemma first_missing_none i posts : first_missing i posts = None ↔ existsb missing_source posts = false.
Proof.
  revert i. induction posts as [|p posts IH]; intros i; cbn; [done|]. destruct (missing_source p); cbn; [done|apply IH].
Qed.

Lemma ingest_one_line dur r w : one_line (log_handleIngest st dur r w) (status (handleIngest st r w).1).
Proof.
  unfold log_handleIngest, handleIngest. destruct (bool_decide _); [fits|].
  destruct (json.Decoder_Decode _ _ _ _) as [err|req]; [fits|]. destruct (maxBatchPosts <? _); [fits|].
  destruct (first_missing 0 (ir_Posts req)) as [i|] eqn:Ef.
  - destruct (existsb missing_source (ir_Posts req)) eqn:Ee; [fits|].
    apply (first_missing_none 0) in Ee. congruence.
  - apply first_missing_none in Ef. rewrite Ef. destruct (ingestBatch _ _ _ _ _) as [[batch [[f msg]|]] w1]; [fits|].
    destruct (in_world _ w1) as [[err|qs] w2]; cbn [fst]; fits.
Qed.
Lemma claim_one_line r w : one_line (log_handleClaim st r w) (status (handleClaim st r w).1).
Proof.
  unfold log_handleClaim, handleClaim. destruct (requirePost r) as [resp|b] eqn:Er.
  - unfold requirePost in Er. apply one_line_intro. destruct (bool_decide _); [by simplify_eq; split_and!|].
    destruct (ReadAll r); [|done]. by simplify_eq; split_and!.
  - destruct (json.Unmarshal _ _ _) as [err|req]; [fits|]. destruct (in_world _ w) as [[err|out] w1]; cbn [fst]; fits.
Qed.
Lemma submit_one_line r w : one_line (log_handleSubmit st r w) (status (handleSubmit st r w).1).
Proof.
  unfold log_handleSubmit, handleSubmit. destruct (requirePost r) as [resp|b] eqn:Er.
  - unfold requirePost in Er. apply one_line_intro. destruct (bool_decide _); [by simplify_eq; split_and!|].
    destruct (ReadAll r); [|done]. by simplify_eq; split_and!.
  - destruct (json.Unmarshal _ _ _) as [err|req]; [fits|]. destruct (in_world _ w) as [[err|out] w1]; cbn [fst]; fits.
Qed.
Lemma lookups_one_line r w :
  one_line (log_handleGetMagnet st r w) (status (handleGetMagnet st r w).1)
  ∧ one_line (log_handleGetRelease st r w) (status (handleGetRelease st r w).1)
  ∧ one_line (log_handleQueueStats st r w) (status (handleQueueStats st r w).1).
Proof.
  split_and!.
  - unfold log_handleGetMagnet, handleGetMagnet. destruct (bool_decide (_ ≠ _)); [fits|]. cbv zeta.
    destruct (_ || _); [fits|]. destruct (infohash.NormalizeInfohash _) as [err|ih]; [fits|].
    destruct (in_world _ w) as [[err|out] w1]; cbn [fst]; [fits|]. destruct (rms_Magnets out !! ih); fits.
  - unfold log_handleGetRelease, handleGetRelease. destruct (bool_decide (_ ≠ _)); [fits|]. cbv zeta.
    destruct (_ || _); [fits|]. destruct (infohash.NormalizeInfohash _) as [err|ih]; [fits|].
    destruct (in_world _ w) as [[err|out] w1]; cbn [fst]; fits.
  - unfold log_handleQueueStats, handleQueueStats. destruct (bool_decide (_ ≠ _)); [fits|].
    destruct (in_world _ w) as [[err|out] w1]; cbn [fst]; fits.
Qed.

(** Every request to the REST surface is logged in exactly one line; the line
    is an error only if the answer is 500, and every 500 but that of a bad
    cursor's code is one, so it is printed at any configured level; a wrong
    method is only worth a debug line. *)
Theorem rest_logs ep dur r w :
  ∃ l, ep_log ep dur r w = [l] ∧ level_fits l (status (ep_handle ep r w).1)
    ∧ (status (ep_handle ep r w).1 = 500 → str "code" "invalid_cursor" ∉ l_attrs l →
       ∀ configured, printed configured (ep_log ep dur r w) = [l]).
Proof.
  assert (one_line (ep_log ep dur r w) (status (ep_handle ep r w).1)) as (l&->&Hl).
  { destruct ep; cbn [ep_log ep_handle];
      [apply ingest_one_line|apply claim_one_line|apply lookups_one_line|apply submit_one_line|apply lookups_one_line..]. }
  exists l. split_and!; [done..|]. intros H5 Hc configured. destruct Hl as (_&H&_). destruct (H H5) as [He|He]; [|done].
  unfold printed. cbn. rewrite He. by destruct configured.
Qed.
End rest.

(** ** The counts of an ingest's line *)

Definition total (m : gmap string Z) : Z := map_fold (λ _ n s, n + s) 0 m.
Lemma total_insert k n (m : gmap string Z) : m !! k = None → total (<[k := n]> m) = n + total m.
Proof. intros H. unfold total. rewrite map_fold_insert_L; [done| |done]. intros. lia. Qed.
Lemma total_bump k (m : gmap string Z) : total (<[k := default 0 (m !! k) + 1]> m) = total m + 1.
Proof.
  destruct (m !! k) as [n|] eqn:E; cbn [from_option id]; unfold id.
  - assert (total m = n + total (delete k m)) as ->.
    { rewrite <-(insert_delete_id m k n E) at 1. apply total_insert, lookup_delete_eq. }
    rewrite <-insert_delete_eq, total_insert by apply lookup_delete_eq. lia.
  - rewrite total_insert by done. lia.
Qed.
Definition of_source (source : string) (p : rawpost.RawPost) : bool := bool_decide (counted_source p = source).

(** The counts by source that a line of the ingest shows count every post of
    the batch once, under its trimmed source. *)
Theorem source_counts_add_up posts :
  total (sourceCounts posts) = Z.of_nat (length posts)
  ∧ ∀ source, default 0 (sourceCounts posts !! source) = Z.of_nat (length (List.filter (of_source source) posts)).
Proof.
  unfold sourceCounts.
  cut (∀ m, let m' := foldl (λ counts p, <[counted_source p := default 0 (counts !! counted_source p) + 1]> counts) m posts in
       total m' = total m + Z.of_nat (length posts)
       ∧ ∀ source, default 0 (m' !! source)
                   = default 0 (m !! source) + Z.of_nat (length (List.filter (of_source source) posts))).
  { intros H. destruct (H ∅) as [H1 H2]. split; [done|]. intros source. rewrite H2. by rewrite lookup_empty. }
  induction posts as [|p posts IH]; intros m; cbn [foldl length].
  { split; [lia|]. intros source. cbn. lia. }
  destruct (IH (<[counted_source p := default 0 (m !! counted_source p) + 1]> m)) as [H1 H2].
  split; [rewrite H1, total_bump; lia|]. intros source. rewrite H2. cbn [List.filter]. unfold of_source at 2.
  destruct (decide (counted_source p = source)) as [<-|Hne].
  - rewrite bool_decide_eq_true_2 by done. rewrite lookup_insert_eq. cbn. lia.
  - rewrite bool_decide_eq_false_2 by done. by rewrite lookup_insert_ne.
Qed.

(** ** [POST /crawl] *)

(** Every crawl is logged in exactly one line: an error exactly for 500, what
    went well at the level of information, everything else - the client's
    mistakes and the upstream's failures - as a warning. *)
Theorem crawl_logs zone c dur ns r m :
  ∃ l resp m', (∀ fuel, (crawl.enough c ≤ fuel)%nat →
      log_crawl zone c dur r fuel = Some [l] ∧ crawlserver.ServeHTTP ns zone c r dur fuel m = Some (resp, m'))
    ∧ (l_level l = LevelError ↔ status resp = 500)
    ∧ (l_level l = LevelInfo ↔ status resp = 200)
    ∧ l_level l ≠ LevelDebug.
Proof.
  unfold log_crawl, crawlserver.ServeHTTP.
  destruct (bool_decide (req_Method r ≠ "POST")); [by do 3 eexists|].
  destruct (json.Decoder_Decode _ _ _ _) as [err|req]; [by do 3 eexists|].
  destruct (duration.ParseLookback _ _) as [err|lookback]; [by do 3 eexists|].
  destruct (crawl.ParseCursor _ _) as [err|cur]; [by do 3 eexists|].
  destruct (Crawl_total c req lookback) as [walk Hw].
  destruct walk as [err|resp]; [|destruct (crawlserver.Encode zone resp) as [err|resp'] eqn:Ee].
  - do 3 eexists. split; [intros fuel Hf; rewrite (Hw fuel Hf); split; reflexivity|done].
  - do 3 eexists. split; [intros fuel Hf; rewrite (Hw fuel Hf); cbn; rewrite Ee; split; reflexivity|done].
  - do 3 eexists. split; [intros fuel Hf; rewrite (Hw fuel Hf); cbn; rewrite Ee; split; reflexivity|done].
Qed.

(** ** The tools *)

Lemma structured_error_iff {S Out} `{ToolOutput Out} validate tool (h : World S → handled Out * World S) w :
  (∃ res, (addStructuredTool validate tool h w).1 = Ok res ∧ IsError res = true)
  ↔ ∃ res, (h w).1 = inl res ∧ IsError res = true.
Proof.
  unfold addStructuredTool. destruct (h w) as [[res|out] w1]; cbn; split.
  - intros (r&[= <-]&Hr). by exists res.
  - intros (r&[= <-]&Hr). by exists res.
  - intros (r&E&Hr). repeat case_match; by simplify_eq.
  - by intros (r&?&_).
Qed.

Definition log_tool {S} (st : store.Store S) (dur : Duration) (c : tool_call) (w : World S) : list line :=
  match c with
  | CallList i => log_list_releases st dur i w
  | CallGet i => log_get_release st dur i w
  | CallResolve i => log_resolve_magnets st dur i w
  end.
(** Every call of a tool is logged in exactly one line that names the tool, a
    warning exactly when the agent gets an error result. *)
Theorem tool_logs {S} (st : store.Store S) validate dur c w :
  ∃ l attrs, log_tool st dur c w = [l] ∧ l_attrs l = str "tool" (tool_name c) :: attrs
    ∧ (l_level l = LevelInfo ∨ l_level l = LevelWarn)
    ∧ (l_level l = LevelWarn ↔ ∃ res, (call_tool st validate c dur w).1 = Ok res ∧ IsError res = true).
Proof.
  destruct c as [i|i|i]; cbn [log_tool call_tool tool_name].
  all: unfold log_list_releases, log_get_release, log_resolve_magnets, addListReleasesTool, addGetReleaseTool,
         addResolveMagnetsTool.
  all: setoid_rewrite structured_error_iff; unfold list_releases, get_release, resolve_magnets.
  all: destruct (in_world _ w) as [[err|out] w1]; cbn [fst]; do 2 eexists; (split; [reflexivity|]); (split; [reflexivity|]); (split; [cbn; auto|]).
  all: cbn; split; [|done || by intros (?&?&?)].
  all: first [done|intros _; by eexists].
Qed.

(** ** The lines of the requests *)

Definition quiet : list string := ["/healthz"; "/metrics"].
(** A request's line, by the method, the route and the status it shows. *)
Definition says (method path : string) (code : Z) (l : line) : bool :=
  match l_attrs l with
  | _ :: (_, VString m) :: (_, VString p) :: (_, VInt c) :: _ => bool_decide (m = method ∧ p = path ∧ c = code)
  | _ => false
  end.
Definition request_line (l : line) : Prop :=
  l_level l = LevelInfo
  ∧ ∃ method path code, says method path code l = true ∧ path ∈ "other" :: metrics.takuhai_routes.*2 ∧ path ∉ quiet.

Lemma counter_requests labels calls :
  metrics.counter http_requests labels calls
  = metrics.counter http_requests labels (List.filter request_sample calls).
Proof.
  unfold metrics.counter. induction calls as [|s calls IH]; [done|]. cbn [List.filter fmap list_fmap foldr].
  destruct (request_sample s) eqn:E; cbn [fmap list_fmap foldr]; rewrite IH; [done|].
  replace (metrics.sample_count http_requests labels s) with 0; [done|].
  destruct s as [n l|n l k|n l x]; cbn in *; [..|done]; apply bool_decide_eq_false in E; by rewrite bool_decide_eq_false_2 by tauto.
Qed.

Section access.
Context `{cursor.CursorCodec} (cfg : postgres.StoreConfig) (written : reply → Z).

Definition serve_logged (ev : event) (w : World state) : reply * list line * World state :=
  takuhai_server (ev_store cfg ev) (ev_validate ev) (ev_sdk ev) written (ev_dur ev) (ev_request ev) w.
Fixpoint serve_all_logged (evs : list event) (w : World state) : list reply * list line * World state :=
  match evs with
  | [] => ([], [], w)
  | ev :: evs =>
      let '(rep, ls, w) := serve_logged ev w in
      let '(reps, ls', w) := serve_all_logged evs w in
      (rep :: reps, ls ++ ls', w)
  end.
Definition ev_line (ev : event) (rep : reply) : list line :=
  access quiet metrics.takuhai_routes (hr_Method (ev_request ev)) (URL_Path (ev_request ev)) (r_status rep)
    (written rep) (ev_dur ev).

Lemma serve_logged_same ev w rep ls w' :
  serve_logged ev w = (rep, ls, w') ↔ serve cfg ev w = (rep, w') ∧ ls = ev_line ev rep.
Proof.
  unfold serve_logged, takuhai_server, takuhai_logHTTP, serve, ev_line.
  destruct (takuhai_handler _ _ _ _ _ w) as [rep1 w1]. split; [by intros [= <- <- <-]|]. by intros [[= <- <-] ->].
Qed.
Lemma ev_line_request ev rep : Forall request_line (ev_line ev rep).
Proof.
  unfold ev_line, access. case_bool_decide as Hq; [constructor|]. constructor; [|constructor]. split; [done|].
  do 3 eexists. split_and!; [cbn; by apply bool_decide_eq_true|by apply route_label_bounded|exact Hq].
Qed.
Lemma ev_line_counted ev rep method path code :
  path ∉ quiet →
  metrics.counter http_requests [method; path; Itoa code] [count_of ev rep]
  = Z.of_nat (length (List.filter (says method path code) (ev_line ev rep))).
Proof.
  intros Hp. unfold ev_line, access, metrics.Route, metrics.counter, count_of. cbn.
  set (label := metrics.route _ _). rewrite Z.add_0_r.
  destruct (bool_decide (label ∈ quiet)) eqn:Hq.
  - apply bool_decide_eq_true in Hq. rewrite bool_decide_eq_false_2; [done|]. intros [_ [= _ -> _]]. done.
  - cbn. unfold says. cbn. destruct (decide (hr_Method (ev_request ev) = method ∧ label = path ∧ r_status rep = code)) as [He|He].
    + destruct He as (H1&H2&H3). rewrite !bool_decide_eq_true_2; [done|done|]. by rewrite H1, H2, H3.
    + rewrite !bool_decide_eq_false_2; [done|done|]. intros [_ [= H1 H2 Hs%cache.Itoa_inj_all]]. by apply He.
Qed.

(** The service's own lines and its request counter tell the same story:
    over any sequence of requests, with whatever others in between, logging
    changes no answer and no state; a line shows a method, a status and one
    of the fixed route labels - never the path that was asked for, nor
    [/healthz] and [/metrics], which are left out -; and for every other
    label the requests the counter gained are exactly the lines. *)
Theorem access_log_agrees evs w :
  let '(replies, lines, w') := serve_all_logged evs w in
  serve_all cfg evs w = (replies, w')
  ∧ Forall request_line lines
  ∧ ∃ calls, w_metrics w' = metrics.send calls (w_metrics w)
      ∧ ∀ method path code, path ∉ quiet →
          metrics.counter http_requests [method; path; Itoa code] calls
          = Z.of_nat (length (List.filter (says method path code) lines)).
Proof.
  revert w. induction evs as [|ev evs IH]; intros w; cbn [serve_all_logged serve_all].
  { split_and!; [done|constructor|]. exists []. by rewrite send_nil. }
  destruct (serve_logged ev w) as [[rep ls] w1] eqn:E1. apply serve_logged_same in E1 as [E1 ->]. rewrite E1.
  specialize (IH w1). destruct (serve_all_logged evs w1) as [[reps ls2] w2].
  destruct IH as (->&Hl&c2&M2&C2). apply serve_moves in E1 as (_&c1&M1&F1&_).
  split_and!; [done|apply Forall_app; split; [apply ev_line_request|done]|]. exists (c1 ++ c2).
  rewrite M2, M1, send_send. split; [done|]. intros method path code Hp.
  rewrite counter_app, (C2 _ _ _ Hp), List.filter_app, length_app, Nat2Z.inj_add.
  rewrite counter_requests, F1, ev_line_counted by done. done.
Qed.
End access.

(** ** The crawlers' lines *)

(** Both crawlers answer as they do without the log, and every request to any
    route but [/metrics] leaves exactly one line, which shows the status
    answered. *)
Theorem crawler_access_log written dur next r fuel s :
  crawler_logHTTP written dur next r fuel s
  = '(rep, s') ← next r fuel s;
    Some (rep, if bool_decide (metrics.route metrics.crawler_routes (URL_Path r) = "/metrics") then [] else
            [Line LevelInfo "http request completed"
               [str "component" "http"; str "method" (hr_Method r);
                str "path" (metrics.route metrics.crawler_routes (URL_Path r));
                int "status" (crawlers.crawler_status rep); int "duration_ms" (Milliseconds dur);
                int "response_bytes" (written rep)]], s').
Proof.
  unfold crawler_logHTTP, access, metrics.Route. destruct (next r fuel s) as [[rep s']|]; [|done]. cbn [mbind option_bind].
  by rewrite (bool_decide_ext _ _ (list_elem_of_singleton (metrics.route metrics.crawler_routes (URL_Path r)) "/metrics")).
Qed.
