(* ===== verification/Wire.v ===== *)
(** * A crawl's answer as an ingest's request

    The JSON text a crawler answers with ([json.Encoder.Encode] of a
    [CrawlResponse], src/pkg/crawl/crawl.go and src/pkg/rawpost/rawpost.go)
    and what [POST /ingest] reads when it is sent the posts of that text: the
    two processes share no code but the wire contract. *)

From S2P Require Import Prelude GoStrings GoTime GoTimeFmt GoJson GoJsonThms GoJsonText GoJsonFields GoHttp Rawpost Crawl.
From S2P Require Import CursorCodec CrawlServer Rest.
From Stdlib Require Import Ascii.
Import json rawpost crawl rest.

Module wire.

(** ** The text of an answer *)

(** A post whose time is in a zone [off] ahead of UTC. *)
Definition post_json (off : Duration) (p : RawPost) : json := JObject
  [("title", jstring (rp_Title p)); ("magnet", jstring (rp_Magnet p)); ("source", jstring (rp_Source p));
   ("source_id", jstring (rp_SourceID p)); ("url", jstring (rp_URL p));
   ("published_at", jstring (Format_in off (rp_PublishedAt p)));
   ("size_bytes", JNumber (Itoa (rp_SizeBytes p)))].
(** A slice nothing was appended to is nil, which is written as [null]. *)
Definition posts_json (offs : RawPost → Duration) (posts : list RawPost) : json :=
  match posts with [] => JNull | _ => JArray ((λ p, post_json (offs p) p) <$> posts) end.
Definition crawl_json (offs : RawPost → Duration) (resp : CrawlResponse) : json := JObject
  [("posts", posts_json offs (Posts resp)); ("next_cursor", jstring (NextCursor resp));
   ("has_more", JBool (HasMore resp))].
Definition crawl_text (offs : RawPost → Duration) (resp : CrawlResponse) : string :=
  encode (crawl_json offs resp) +:+ newline.

(** The member of an object, as a script reads it. *)
Definition member (name : string) (v : json) : option json :=
  match v with
  | JObject ms => snd <$> find (λ m, bool_decide (m.1 = name)) (rev ms)
  | _ => None
  end.

(** ** Texts that are written as they are *)

Definition plain_byte (c : ascii) : bool := is_digit c || Ascii.eqb c "-" || Ascii.eqb c ":" || Ascii.eqb c "."
  || Ascii.eqb c "T" || Ascii.eqb c "Z" || Ascii.eqb c "+".
Lemma quote_body_plain s : str_forall plain_byte s = true → quote_body 0 s = s.
Proof.
  induction s as [|c s IH]; [done|]. cbn [str_forall quote_body]. intros [Hc Hs]%andb_true_iff.
  rewrite (IH Hs). by destruct c as [[] [] [] [] [] [] [] []].
Qed.

Lemma digits_plain s : str_forall is_digit s = true → str_forall plain_byte s = true.
Proof. apply str_forall_impl. intros c Hc. unfold plain_byte. by rewrite Hc. Qed.
Lemma pad2_plain z : str_forall plain_byte (pad2 z) = true.
Proof. apply digits_plain, pad2_digits. Qed.
Lemma zone_text_plain off : str_forall plain_byte (zone_text off) = true.
Proof.
  unfold zone_text. destruct (_ =? 0); [done|]. cbv zeta. cbn [str_forall].
  rewrite !str_forall_app, !pad2_plain. destruct (_ <? 0); reflexivity.
Qed.
Lemma Format_in_plain off t : rfc3339_range (t + off) → str_forall plain_byte (Format_in off t) = true.
Proof.
  unfold rfc3339_range, Format_in, Format_with. destruct (civil_from_days _) as [[y m] d]. intros Hy. cbv zeta.
  unfold format_year. rewrite (proj2 (andb_true_iff _ _)) by (rewrite !Z.leb_le; lia). unfold pad4.
  rewrite !str_forall_app, !pad2_plain. rewrite zone_text_plain, andb_true_r. cbn [str_forall andb].
  unfold format_frac. destruct (_ =? 0); [done|]. cbn [str_forall]. rewrite digits_plain; [done|].
  apply frac_digits_digits. by apply Z.mod_pos_bound.
Qed.
Lemma plain_utf8 s : str_forall plain_byte s = true → utf8_text s.
Proof.
  intros H. apply ascii_utf8. revert H. apply str_forall_impl. intros c. by destruct c as [[] [] [] [] [] [] [] []].
Qed.

(** ** Reading it back *)

(** What the wire can carry: text, a size that fits, and an instant whose
    year, in the zone it is written in, has four digits. *)
Record wire_ok (off : Duration) (p : RawPost) : Prop := {
  wo_text : Forall utf8_text [rp_Title p; rp_Magnet p; rp_Source p; rp_SourceID p; rp_URL p];
  wo_size : 0 ≤ rp_SizeBytes p ≤ int64_max;
  wo_zone : valid_offset off;
  wo_year : crawlserver.four_digit_year (rp_PublishedAt p + off) = true;
}.
Lemma four_digit_year_range t : crawlserver.four_digit_year t = true → rfc3339_range t.
Proof.
  unfold crawlserver.four_digit_year, rfc3339_range. destruct (civil_from_days _) as [[y m] d].
  rewrite andb_true_iff, !Z.leb_le. done.
Qed.

Lemma post_fields_decode p raw lit r1 r2 r3 r4 r5 s6 :
  Parse_RFC3339 raw = Some (rp_PublishedAt p) → Atoi lit = Some (rp_SizeBytes p) →
  decode_struct true post_fields no_post (JObject
    [("title", JString (rp_Title p) r1); ("magnet", JString (rp_Magnet p) r2); ("source", JString (rp_Source p) r3);
     ("source_id", JString (rp_SourceID p) r4); ("url", JString (rp_URL p) r5); ("published_at", JString s6 raw);
     ("size_bytes", JNumber lit)]) = Ok p.
Proof.
  destruct p as [t m so si u pub n]. cbn [rp_Title rp_Magnet rp_Source rp_SourceID rp_URL rp_PublishedAt rp_SizeBytes].
  intros Ht Hn. unfold decode_struct. cbn [decode_members].
  repeat match goal with
         | |- context [find_field post_fields ?n] =>
             let f := eval cbv -[Atoi Parse_RFC3339] in (find_field post_fields n) in
             change (find_field post_fields n) with f; cbv beta iota
         end.
  by rewrite Ht, Hn.
Qed.

Section post.
Context (off : Duration) (p : RawPost) (Hp : wire_ok off p).
Lemma time_plain : str_forall plain_byte (Format_in off (rp_PublishedAt p)) = true.
Proof. apply Format_in_plain, four_digit_year_range, (wo_year _ _ Hp). Qed.
Lemma post_json_ok : json_ok (post_json off p).
Proof.
  pose proof (wo_text _ _ Hp) as Ht. repeat (apply Forall_cons in Ht as [? Ht]).
  constructor. repeat (constructor; [split; [done|]|]); try constructor; try done.
  - apply plain_utf8, time_plain.
  - apply number_ok_Itoa.
Qed.
Lemma post_decodes : decode_struct true post_fields no_post (post_json off p) = Ok p.
Proof.
  pose proof (Parse_Format_in _ _ (wo_zone _ _ Hp) (four_digit_year_range _ (wo_year _ _ Hp))) as Ht.
  unfold post_json, jstring. rewrite (quote_body_plain _ time_plain).
  apply post_fields_decode; [done|]. apply Atoi_Itoa, (wo_size _ _ Hp).
Qed.
End post.

Section answer.
Context (offs : RawPost → Duration) (posts : list RawPost).
Hypothesis Hposts : ∀ p, p ∈ posts → wire_ok (offs p) p.

Lemma posts_decode_all :
  mapM (decode_struct true post_fields no_post) ((λ p, post_json (offs p) p) <$> posts) = Ok posts.
Proof.
  induction posts as [|p l IH]; [done|]. cbn [fmap list_fmap mapM].
  rewrite post_decodes by (apply Hposts; left). cbn [mbind]. rewrite IH by (intros q Hq; apply Hposts; by right). done.
Qed.
Lemma posts_json_ok : json_ok (posts_json offs posts).
Proof.
  unfold posts_json. destruct posts as [|p l] eqn:E; [constructor|]. constructor. apply Forall_forall.
  intros v (q&->&Hq)%list_elem_of_fmap. by apply post_json_ok, Hposts.
Qed.
Lemma posts_nesting : nesting (posts_json offs posts) ≤ 2.
Proof.
  clear Hposts. unfold posts_json. destruct posts as [|p l]; [done|].
  change (1 + foldr Z.max 0 (nesting <$> ((λ p, post_json (offs p) p) <$> p :: l)) ≤ 2).
  cut (foldr Z.max 0 (nesting <$> ((λ p, post_json (offs p) p) <$> p :: l)) ≤ 1); [lia|].
  induction (p :: l) as [|q l' IH]; [done|].
  change (Z.max 1 (foldr Z.max 0 (nesting <$> ((λ p, post_json (offs p) p) <$> l'))) ≤ 1). lia.
Qed.
Lemma posts_request_decodes body :
  decode_value body = Some (JObject [("posts", posts_json offs posts)]) →
  Decoder_Decode true ingest_fields {| ir_Posts := [] |} body = Ok {| ir_Posts := posts |}.
Proof.
  intros Hb. unfold Decoder_Decode. rewrite Hb. unfold decode_struct. cbn [decode_members].
  change (find_field ingest_fields "posts")
    with (Some (slice_field true "posts" post_fields no_post (λ ps _, {| ir_Posts := ps |}))).
  unfold slice_field. cbv beta iota. pose proof posts_decode_all as Hall.
  unfold posts_json. destruct posts as [|p l]; [done|]. by rewrite Hall.
Qed.
End answer.

(** C10: the wire contract holds between processes that share no code for it:
    the text a crawler answers with is one JSON value that carries the cursor
    and the flag as they are, and whoever passes its posts on to
    [POST /ingest] - in whatever spelling of the same JSON, such as the one
    the encoder would choose - gets them decoded field for field as the
    crawler had them, the instants to the nanosecond in whatever zone they
    were written, an empty answer as no posts.  (The posts must be such as the
    wire can carry: texts and cursor in UTF-8, sizes from 0 to the largest
    int64, dates that show a four-digit year in a zone Go can write.) *)
Theorem crawled_posts_reach_ingest offs resp :
  (∀ p, p ∈ Posts resp → wire_ok (offs p) p) → utf8_text (NextCursor resp) →
  ∃ v posts, json.parse (crawl_text offs resp) = Some v ∧ member "posts" v = Some posts
    ∧ member "next_cursor" v = Some (jstring (NextCursor resp)) ∧ member "has_more" v = Some (JBool (HasMore resp))
    ∧ decode_value (encode (JObject [("posts", posts)])) = Some (JObject [("posts", posts)])
    ∧ ∀ body, decode_value body = Some (JObject [("posts", posts)]) →
        Decoder_Decode true ingest_fields {| ir_Posts := [] |} body = Ok {| ir_Posts := Posts resp |}.
Proof.
  intros Hp Hc. pose proof (posts_json_ok offs _ Hp) as Hok. pose proof (posts_nesting offs (Posts resp)) as Hn.
  pose proof (nesting_nonneg (posts_json offs (Posts resp))) as Hn0.
  exists (crawl_json offs resp), (posts_json offs (Posts resp)). split_and!; [|done|done|done| |].
  - apply parse_encode_line.
    + constructor. repeat (constructor; [split; [done|]|]); try constructor; done.
    + change (1 + Z.max (nesting (posts_json offs (Posts resp))) (Z.max 0 (Z.max 0 0)) ≤ maxNestingDepth).
      unfold maxNestingDepth. lia.
  - apply decode_value_encode.
    + constructor. repeat (constructor; [split; [done|]|]); try constructor; done.
    + change (1 + Z.max (nesting (posts_json offs (Posts resp))) 0 ≤ maxNestingDepth). unfold maxNestingDepth. lia.
  - by apply posts_request_decodes.
Qed.

End wire.

(** ** Two posts on the wire *)

Import wire.

Definition wire_post : RawPost :=
  Build_RawPost ("a<b> & " +:+ String (byte_of 9) (rune_bytes 26085)) "magnet:?xt=urn:btih:x&tr=y" "dmhy" "7" ""
    (1767225600 * Second + 5 * 10 ^ 6) 3600000000.
Definition undated_post : RawPost := Build_RawPost "" "" "dmhy" "8" "" zero_time 0.
Definition demo_offs (p : RawPost) : Duration := if IsZero (rp_PublishedAt p) then 0 else 8 * Hour.
Definition demo_answer : CrawlResponse :=
  {| Posts := [wire_post; undated_post]; NextCursor := "1:2"; HasMore := true; StopReason := "page_budget";
     PagesFetched := 1; LastPage := 1 |}.
Lemma demo_wire_ok p : p ∈ Posts demo_answer → wire_ok (demo_offs p) p.
Proof.
  intros Hp. cbn in Hp. rewrite !elem_of_cons in Hp. destruct Hp as [-> |[-> |Hp]]; [| |by apply not_elem_of_nil in Hp];
    (split; [repeat constructor|vm_compute; split; discriminate|vm_compute; by split|by vm_compute]).
Qed.
Example demo_time : Format_in (demo_offs wire_post) (rp_PublishedAt wire_post) = "2026-01-01T08:00:00.005+08:00".
Proof. vm_compute. reflexivity. Qed.
Lemma crawled_posts_reach_ingest_witness :
  ∃ body, Decoder_Decode true ingest_fields {| ir_Posts := [] |} body = Ok {| ir_Posts := [wire_post; undated_post] |}.
Proof.
  destruct (crawled_posts_reach_ingest demo_offs demo_answer demo_wire_ok eq_refl) as (v&ps&_&_&_&_&Hself&H).
  exists (encode (JObject [("posts", ps)])). exact (H _ Hself).
Defined.
