(* ===== verification/Worker.v ===== *)
(** * A worker at the queue

    A worker of the matching queue (src/docs/design.md; the workflow nodes are
    such workers) sees texts only: it claims with [POST /queue/claim], reads
    the items of the answer, and sends a verdict to [POST /submit] with the
    infohash and the token it copied from an item. *)

From S2P Require Import Prelude GoStrings GoTime GoTimeFmt GoHttp GoServeMux GoJson GoJsonText GoJsonFields Infohash Store Cursor.
From S2P Require Import CursorCodec Db Postgres StoreSpec StoreInv Queue QueueThms Listing Dispatch Rest RestThms Interleave.
From S2P Require Import StoreText ResponseText ResponseTextThms Mcp Service ServiceThms ResponseThms Pipeline Wire.
Import json dispatch rest responses service wire.

Module worker.

(** ** What the worker reads and writes *)

Definition reply_text (Error : error → string) (rep : reply) : string :=
  match r_body rep with FromREST b => body_text Error b | _ => "" end.

(** An item, as far as a verdict needs it: two values to copy, and the end of
    the lease. *)
Record lease := { l_Infohash : json; l_ClaimToken : json; l_ExpiresAt : json }.
Definition read_item (v : json) : option lease :=
  ih ← member "infohash" v;
  token ← member "claim_token" v;
  expires ← member "lease_expires_at" v;
  Some {| l_Infohash := ih; l_ClaimToken := token; l_ExpiresAt := expires |}.
Definition read_claim (text : string) : option (list lease) :=
  v ← parse text;
  match member "items" v with Some (JArray items) => mapM read_item items | _ => None end.

(** A verdict; its confidence is the literal of a number. *)
Record verdict := { v_Status : string; v_Ref : string; v_Confidence : option string; v_Reason : string }.
Definition submission (l : lease) (v : verdict) : json := JObject
  [("infohash", l_Infohash l); ("claim_token", l_ClaimToken l); ("status", jstring (v_Status v));
   ("ref", jstring (v_Ref v)); ("confidence", ptr JNumber (v_Confidence v)); ("reason", jstring (v_Reason v))].
Record verdict_ok (v : verdict) : Prop := {
  vo_status : v_Status v ∈ ["matched"; "unmatched"; "suppressed"];
  vo_ref : v_Status v = "matched" → cursor.refRe_MatchString (v_Ref v) = true;
  vo_confidence : from_option (λ lit, is_Some (ParseFloat lit)) True (v_Confidence v);
}.

(** ** The two texts *)

Definition lease_of (it : ClaimItemResult) : lease :=
  {| l_Infohash := jstring (cir_Infohash it); l_ClaimToken := jint (cir_ClaimToken it);
     l_ExpiresAt := jstring (cir_LeaseExpiresAt it) |}.
Lemma read_items l : mapM read_item (claim_item_json <$> l) = Some (lease_of <$> l).
Proof. induction l as [|it l IH]; [done|]. cbn [fmap list_fmap mapM]. by rewrite IH. Qed.
Lemma read_claim_json text out :
  parse text = Some (claim_json out) → read_claim text = Some (lease_of <$> cres_Items out).
Proof. intros H. unfold read_claim. rewrite H. apply read_items. Qed.

(** What the service makes of a submission. *)
Lemma submit_fields_decode ih lit n status ref confidence x reason r1 r3 r4 r6 :
  Atoi lit = Some n → (float_ptr_field "" (λ x _, x)).2 confidence None = Some x →
  decode_struct false submit_fields no_submit (JObject
    [("infohash", JString ih r1); ("claim_token", JNumber lit); ("status", JString status r3); ("ref", JString ref r4);
     ("confidence", confidence); ("reason", JString reason r6)])
  = Ok {| sr_Infohash := ih; sr_ClaimToken := n; sr_Status := status; sr_Ref := ref; sr_Confidence := x;
          sr_Reason := reason |}.
Proof.
  intros Hn Hx. unfold decode_struct. cbn [decode_members].
  repeat match goal with
         | |- context [find_field submit_fields ?n] =>
             let f := eval cbv -[Atoi ParseFloat] in (find_field submit_fields n) in
             change (find_field submit_fields n) with f; cbv beta iota
         end.
  rewrite Hn. unfold float_ptr_field in Hx. cbn [snd] in Hx.
  destruct confidence as [| |c| | |]; try discriminate Hx; [by injection Hx as <-|].
  destruct (ParseFloat c); [|discriminate Hx]. by injection Hx as <-.
Qed.
Lemma submission_decodes body it v :
  0 ≤ cir_ClaimToken it ≤ int64_max → verdict_ok v → parse body = Some (submission (lease_of it) v) →
  ∃ req, Unmarshal submit_fields no_submit body = Ok req ∧ well_formed req
    ∧ sr_Infohash req = cir_Infohash it ∧ sr_ClaimToken req = cir_ClaimToken it.
Proof.
  intros Ht [Hst Href Hc] Hb. unfold Unmarshal. rewrite Hb.
  assert (∃ x, (float_ptr_field "" (λ x _, x)).2 (ptr JNumber (v_Confidence v)) None = Some x) as [x Hx].
  { destruct (v_Confidence v) as [lit|]; [|by eexists]. destruct Hc as [x Hx]. exists (Some x).
    unfold ptr, float_ptr_field. cbn [snd]. by rewrite Hx. }
  eexists. split; [by apply submit_fields_decode; [apply Atoi_Itoa|exact Hx]|]. by split_and!.
Qed.

Section worker.
Context `{cursor.CursorCodec} (cfg : postgres.StoreConfig) (Error : error → string).
Abbreviation db_of w := (sdb (w_store w)).

(** The tokens are values of a BIGINT column. *)
Definition tokens_fit (d : db) : Prop := map_Forall (λ _ r, r_claim_token r ≤ int64_max) (releases d).

(** A claim that was answered with 200 has the items in its text. *)
Lemma HandleFunc_claimed st r (w : World state) rep w' :
  HandleFunc (handleClaim st) r w = (rep, w') → r_status rep = StatusOK →
  ∃ out, r_body rep = FromREST (Encoded (PClaim out)).
Proof.
  unfold HandleFunc, handleClaim. destruct (requirePost _) as [resp|b] eqn:Er.
  { intros [= <- <-] Hs. unfold requirePost in Er. destruct (bool_decide _); [by injection Er as <-|].
    destruct (ReadAll _); [by injection Er as <-|discriminate Er]. }
  destruct (Unmarshal _ _ _) as [e|req]; [by intros [= <- <-]|].
  destruct (in_world _ w) as [[err|out] w1]; intros [= <- <-]; [|by exists out].
  cbn [r_status]. unfold writeDispatchError. by repeat case_bool_decide.
Qed.

Lemma claim_text ev cbody w rep w1 :
  db_text (db_of w) → others_text (ev_others ev) → ev_request ev = post "/queue/claim" cbody →
  serve cfg ev w = (rep, w1) → r_status rep = StatusOK →
  ∃ out, r_body rep = FromREST (Encoded (PClaim out))
    ∧ read_claim (reply_text Error rep) = Some (lease_of <$> cres_Items out).
Proof.
  intros Hd Ho Hreq Es Hok. pose proof (serve_reads cfg Error ev w rep w1 Ho Hd Es) as [Hr _].
  pose proof Es as (w1'&E1&_)%serve_run. unfold ev_store in E1. rewrite Hreq, at_claim in E1.
  destruct (HandleFunc_claimed _ _ _ _ _ E1 Hok) as [out Hout]. exists out. split; [done|].
  unfold reply_reads in Hr. unfold reply_text. rewrite Hout in Hr |- *. destruct Hr as (_&j&[= <-]&Hj).
  by apply read_claim_json.
Qed.

(** C4: a worker that sees nothing but texts can settle what it claimed.  The
    text of a [POST /queue/claim] that was answered with 200 parses to a list
    of leases; and up to the end a lease names, whatever other requests the
    service serves in between or at the same time - claims of other workers,
    ingests, submissions -, a verdict posted to [/submit] with the infohash
    and the token copied from the text is accepted with 200 as long as the
    release has no verdict yet, and otherwise refused with 409; it is never
    lost to another claim. *)
Theorem worker_can_settle ev cbody w rep w1 :
  reachable (db_of w) → db_text (db_of w) → others_text (ev_others ev) →
  ev_request ev = post "/queue/claim" cbody → serve cfg ev w = (rep, w1) → r_status rep = StatusOK →
  tokens_fit (db_of w1) →
  ∃ leases, read_claim (reply_text Error rep) = Some leases ∧
    ∀ l, l ∈ leases →
      ∃ ih expires row1, l_Infohash l = jstring ih ∧ l_ExpiresAt l = jstring (Format_RFC3339Nano expires)
        ∧ releases (db_of w1) !! ih = Some row1 ∧ r_lease_expires_at row1 = Some expires ∧
      ∀ evs reps w2 ev2 body v,
        Forall (by_then expires) evs → serve_all cfg evs w1 = (reps, w2) →
        by_then expires ev2 → healthy (ev_env ev2) → ev_request ev2 = post "/submit" body →
        verdict_ok v → parse body = Some (submission l v) →
        ∃ row, releases (db_at cfg ev2 w2) !! ih = Some row
          ∧ r_status (serve cfg ev2 w2).1 = (if bool_decide (r_match_status row = unmatched) then 200 else 409).
Proof.
  intros Hr Hd Ho Hreq Es Hok Ht. destruct (claim_text _ _ _ _ _ Hd Ho Hreq Es Hok) as (out&Hout&Hread).
  eexists. split; [exact Hread|]. intros l (it&->&Hit)%list_elem_of_fmap.
  destruct (claimed_can_be_settled cfg _ _ out it _ _ _ Hr Hreq Es Hout Hit) as (row1&expires&Hrow1&Hend&Hexp&Htok&Hpos&Hsettle).
  exists (cir_Infohash it), expires, row1. split; [done|]. split; [cbn; by rewrite Hexp|]. split; [done|]. split; [done|].
  intros evs reps w2 ev2 body v Hevs Es2 Hthen HE Hreq2 Hv Hbody.
  destruct (submission_decodes body it v) as (req&Hun&Hwf&Hih&Htk); [|done..|].
  { specialize (Ht _ _ Hrow1). cbn in Ht. lia. }
  by eapply Hsettle.
Qed.
End worker.
End worker.
Import worker.

(** A worker claims one release for a minute and, a second later, matches it. *)
Definition claimed : reply * World state := serve demo.cfg claim_event (demo_world demo.d2).
Definition demo_lease : lease := lease_of (claim_item demo.first).
Definition demo_match : verdict :=
  {| v_Status := "matched"; v_Ref := "anidb:1"; v_Confidence := Some "0.95"; v_Reason := "" |}.
Definition match_event : event :=
  quiet_event (demo.base + Second) (post "/submit" (encode (submission demo_lease demo_match))).

Lemma demo_match_ok : verdict_ok demo_match.
Proof. split; [apply list_elem_of_here|intros _; vm_compute; reflexivity|cbn; eexists; vm_compute; reflexivity]. Qed.
Lemma d2_text : db_text demo.d2.
Proof.
  assert (∀ ih so id ti t, utf8_text ih → utf8_text so → utf8_text id → utf8_text ti →
    ingest_text (demo.post ih so id ti t)) as Hp by (by intros; split).
  apply (op_text demo.cfg (ByIngest _)); [by apply Hp|]. apply (op_text demo.cfg (ByIngest _)); [by apply Hp|].
  apply empty_db_text.
Qed.
(** Claiming is fit for the token's column. *)
Lemma tokens_fit_all d :
  forallb (λ kr : string * release_row, r_claim_token kr.2 <=? int64_max) (map_to_list (releases d)) = true → tokens_fit d.
Proof.
  intros Hb ih r Hr.
  rewrite forallb_forall in Hb. specialize (Hb (ih, r)). apply Z.leb_le, Hb.
  apply list_elem_of_In. by apply elem_of_map_to_list.
Qed.
Lemma claimed_fits : tokens_fit (sdb (w_store claimed.2)).
Proof. apply tokens_fit_all. vm_compute. reflexivity. Qed.
Lemma claimed_leases : read_claim (reply_text err_text claimed.1) = Some [demo_lease].
Proof. vm_compute. reflexivity. Qed.
Lemma claimed_status : r_status claimed.1 = StatusOK.
Proof. vm_compute. reflexivity. Qed.
Lemma claimed_until :
  (r_lease_expires_at <$> releases (sdb (w_store claimed.2)) !! demo.ih2) = Some (Some (demo.base + 60 * Second)).
Proof. vm_compute. reflexivity. Qed.
Lemma unmatched_then :
  (r_match_status <$> releases (db_at demo.cfg match_event (later claim_event demo.d2)) !! demo.ih2) = Some unmatched.
Proof. vm_compute. reflexivity. Qed.

Lemma worker_can_settle_witness :
  r_status (serve demo.cfg match_event (later claim_event demo.d2)).1 = 200.
Proof.
  destruct (worker_can_settle demo.cfg err_text claim_event (hr_Body (ev_request claim_event)) (demo_world demo.d2)
    claimed.1 claimed.2 demo.d2_reachable d2_text nobody_text eq_refl (surjective_pairing _) claimed_status claimed_fits)
    as (leases&Hread&H).
  rewrite claimed_leases in Hread. injection Hread as <-.
  destruct (H demo_lease (list_elem_of_here _ _)) as (ih&expires&row1&Hih&_&Hrow1&Hend&Hsettle).
  assert (ih = demo.ih2) as -> by (injection Hih; done).
  pose proof claimed_until as E. rewrite Hrow1 in E. cbn in E. rewrite Hend in E. injection E as ->.
  destruct (Hsettle [stats_event] (serve_all demo.cfg [stats_event] claimed.2).1
    (later claim_event demo.d2) match_event (hr_Body (ev_request match_event)) demo_match) as (row&Hrow&->).
  - constructor; [|constructor]. split; [intros k; vm_compute; reflexivity|apply nobody_during].
  - apply surjective_pairing.
  - split; [intros k; vm_compute; reflexivity|apply nobody_during].
  - intros k. reflexivity.
  - reflexivity.
  - exact demo_match_ok.
  - vm_compute. reflexivity.
  - pose proof unmatched_then as Eu. rewrite Hrow in Eu. cbn in Eu. injection Eu as ->. reflexivity.
Defined.
